(* ===== verification/_CoqProject ===== *)
-Q . S2P
Prelude.v
F64.v
Wire.v
Packet.v
LinkSignalling.v
Receipt.v
Hdlc.v
Kiss.v
Token.v
Ifac.v
Channel.v
Stream.v
LinkChannel.v
Table.v
Hashlist.v
PathTable.v
ReverseTable.v
LinkTable.v
Ownership.v
LinkTransit.v
Tunnel.v
Identity.v
Announce.v
Ingress.v
Msgpack.v
Keepalive.v
LinkRequest.v
Handshake.v
Link.v
LinkSession.v
LinkLife.v
ResourceAdv.v
Resource.v
Transfer.v
Exchange.v
RateLimit.v
Blackhole.v
Actor.v
ActorFacts.v
Restore.v
Forward.v
ProofRoute.v
Learn.v
Inbound.v
RelayDemo.v
RelaySafe.v
RelayFrame.v
Relay.v
Hops.v
Transit.v
Endpoint.v
EndpointSafe.v
EndpointOrder.v
