(* ===== verification/Prelude.v ===== *)
(** * rsReticulum: verification development (root file)

    rsReticulum is a Rust implementation of the Reticulum network stack.  Its
    crates, under [src/crates], are layered: [rns-wire] (packet headers,
    hashes, proofs and receipts), [rns-crypto] (padding, AES-CBC, HMAC, HKDF
    and the encryption token), [rns-interface] (framing on serial and stream
    media), [rns-identity] (identities, destinations, announces),
    [rns-transport] (the routing tables, interface access codes and the
    transport actor), [rns-link] (handshake, link state machine, keepalive),
    [rns-protocol] (channels, streams and resources over links), and above them
    the runtime and the tools.

    A packet from an interface reaches the transport actor, which checks access
    codes, filters and deduplicates it, learns paths from announces, forwards
    data and link traffic along its tables, and delivers the rest to the
    mailbox of a local destination.  Links, channels and resources run at the
    two ends, over packets the actor carries.

    ** How the code is modelled

    Every definition is executable and keeps the source's name where it can.
    A function that returns [Result] and may panic is a computation in
    [res E A]: [Ok], [Err] or [Panic], with [let*] for [?]; slice accesses
    ([idx], [slice], [slice_from], [slice_to], [copy_array]) panic out of
    range, so a theorem that excludes [Panic] is about real index errors.
    Mutating methods take and return the state record.  Machine integers are
    [Z] with their wrap-around, saturation or overflow written out (plain [+]
    on the 64-bit counters of links and of the actor wraps, as in a release
    build; an overflow of the rate limiter's [u32] is a panic).  Bytes are
    [list Z] with [bytes_ok]; [f64] is the Standard Library's specification
    float at binary64 (F64.v).  Random bytes, keys drawn at random and IVs are
    arguments.  So are clock readings: one per call in the link, transfer and
    actor models, although the code may read the clock more than once in a call;
    one per key where a table operation reads it at every key.  [HashMap] and
    [HashSet] are [gmap] and [gset]; where the code iterates a map, the order is
    an argument.  Atomics shared by threads (Ownership.v) are interleaved
    under sequential consistency.

    Third-party code is a class with its documented laws as a second class:
    [Digest] (sha2), [Ed25519], [Ed25519Signer] and [Ed25519Keys]
    (ed25519-dalek), [X25519] and [Curve25519], [AesCbc], [Hmac], [Hkdf],
    [Bzip2], [Msgpack] (rmpv, rmp-serde), [Mpsc] (tokio's bounded channels).
    Each has an instance that shows the laws can hold and on which the
    witnesses evaluate; for MessagePack it is the format itself.

    ** Files

    - Prelude.v: outcomes, slices, machine integers, big-endian encoding, bit
      arithmetic, the hint databases [rns] and [rns_len].
    - F64.v: binary64 arithmetic, [Duration] conversions, order lemmas.
    - Wire.v: [rns-wire] constants, flags, context, header.
    - Packet.v: [rns-crypto/sha.rs], [rns-wire] hash.rs and packet.rs.
    - LinkSignalling.v: [rns-wire/link_signalling.rs].
    - Receipt.v: [rns-wire] proof.rs and receipt.rs.
    - Hdlc.v, Kiss.v: [rns-interface] hdlc.rs and kiss.rs.
    - Token.v: [rns-crypto] pkcs7.rs, aes_cbc.rs, hmac.rs, token.rs.
    - Ifac.v: [rns-transport/ifac.rs] and [rns-crypto/hkdf.rs].
    - Channel.v: [rns-protocol] channel.rs and channel_message.rs.
    - Stream.v: [rns-protocol] stream_data.rs, buffer.rs, compression.rs.
    - LinkChannel.v: [rns-link] key_derivation.rs and encryption.rs, and the
      [LinkChannel] of channel.rs, on top of Token.v, Ifac.v and Channel.v.
    - Table.v: the map operations the transport tables share.
    - Hashlist.v, PathTable.v, ReverseTable.v, LinkTable.v, Tunnel.v,
      RateLimit.v, Blackhole.v: the files of [rns-transport/src] of those
      names.
    - Ownership.v: interface_ownership.rs as programs over atomics.
    - LinkTransit.v: link_transit.rs and the packet budgets of an interface.
    - Ingress.v: [rns-transport] announce.rs and ingress.rs.
    - Identity.v, Announce.v: [rns-identity] identity.rs, name_hash.rs,
      announce.rs, announce_state.rs and the hashes of destination.rs.
    - Msgpack.v: the MessagePack interface and the format as its instance.
    - Keepalive.v, LinkRequest.v, Handshake.v, Link.v: [rns-link] keepalive.rs,
      request.rs, handshake.rs, link.rs; LinkSession.v and LinkLife.v hold the
      theorems on two endpoints and on the life of one.
    - ResourceAdv.v, Resource.v, Transfer.v: [rns-protocol] resource_adv.rs,
      resource_control.rs, resource.rs; Exchange.v composes the two transfers
      with the acceptance of an advertisement by
      [rns-runtime/link_session.rs].
    - Actor.v: the state of [TransportActor] (actor/mod.rs), interfaces, sends,
      removal of interfaces and end of link endpoints; ActorFacts.v: the state
      invariant [actor_ok] and the lemmas on those operations.
    - Restore.v: [restore_tunnel_paths] of actor/outbound.rs, the paths a
      reappearing tunnel puts back, with the time base of a path.
    - Forward.v, ProofRoute.v, Learn.v, Inbound.v: actor/inbound.rs, by
      handler: data and link requests; proofs; announces; access control,
      filters and dispatch.  A handler that ends in a call outside the model
      returns its name ([Next]).
    - RelaySafe.v, RelayFrame.v: every handler returns and keeps [actor_ok];
      what each handler can change.  Relay.v, Hops.v, Transit.v: theorems on
      whole packets, on forwarded frames, and on several packets.
      RelayDemo.v: the concrete relay of their witnesses.
    - Endpoint.v: actor/link_endpoint.rs, the egress queues of established
      links; EndpointSafe.v: its handlers return, keep the queues bounded and
      account for every completion; EndpointOrder.v: theorems on runs.

    ** What the theorems show

    - Wire formats: headers, packets, link signalling, proofs, channel
      envelopes, stream frames, announces, resource advertisements and tunnel
      synthesis payloads round-trip; parsers are total, and their accepted
      inputs and errors are characterised.  The packet hash is invariant under
      the hop count and the transport header.
    - Framing: the chunk-wise HDLC and KISS deframers equal their byte-wise
      state machines for every chunking, recover exactly the framed payloads
      and keep bounded buffers.
    - Cryptographic formats: tokens decrypt to their plaintext and decryption
      accepts only authenticated tokens; IFAC verification accepts exactly the
      image of signing; ECIES with ratchets round-trips.
    - Announces: what an identity announces validates at a receiver, and
      exactly signed announces do; announce times increase.
    - Channel: under any reordering and duplication within the receive window
      messages are delivered exactly once and in order up to the first gap;
      window, outstanding envelopes and reorder buffer stay within 48 for every
      sequence of operations; encrypted link channels are transparent; streams
      arrive intact.  [channel_window_overrun] exhibits a run in which the
      sender leaves the receiver's window.
    - Links: two endpoints establish a link with one key; only the holder of
      the destination's key can prove it; requests, packet proofs and teardown
      work both ways; a link moves forward only and forgets its keys when it
      closes; a dead peer is closed.
    - Resources: segments reassemble, accepted content is the sender's unless
      a hash collision is exhibited, a lossless exchange completes, a sender
      without answers gives up, and a receiver's watchdog retries at most
      sixteen times per new part or segment, whatever arrives in between.
    - Transport tables: deduplication over a window, agreement of full and
      batched culls with live lookups for every iteration order, exact culling
      of links, rate limiting on every branch, ingress control within its
      limits, ownership revisions given once under every interleaving.
    - Relay: no sequence of inbound messages makes the actor panic or leave its
      invariant; a packet without a valid access code changes nothing; a
      second copy of a packet that is subject to deduplication changes
      nothing; a path is learned only from its owner's signed announce, or put
      back by a signed tunnel synthesis from what the tunnel remembers, and
      what a tunnel remembers is such a path; a link in transit is validated
      only by its responder's signature from the right side, and its recorded
      terms change in no other way than by a fresh request; between relays
      without local clients or hop deltas a forwarded packet keeps its contents
      and gains a hop, at most 128 times; a link request goes on with its link
      id and a clamped MTU; a delivery proof goes back the way its packet came,
      once.
    - Link endpoints: queues stay within 256 packets and nothing panics; every
      tracked packet is answered exactly once, whatever ends it; the frames of
      an endpoint leave in the order of submission, also when several
      endpoints share an interface.

    ** Fuel and bounds

    Loops that are not structural take fuel and are proved to finish with it:
    the channel's delivery loop removes an envelope per turn (fuel: the ring's
    length), the stream writer consumes a byte per turn (fuel: the input's
    length; with a zero frame budget the source loops forever and the model
    returns [Ok None]), bzip2 decoding adds a byte per turn and stops above
    the limit (fuel: the limit plus two), the deframers consume their input, a
    lossless exchange needs at most two messages per part and a few more, the
    trimming of packet metrics drops an entry per turn, and ending link
    endpoints removes one per nested call (fuel: their number; more changes
    nothing, [terminate_fuel]).  The rate limiter counts violations in a [u32];
    [actor_ok n] says that [n] more fit.

    ** Not modelled

    Device and socket I/O ([rns-interface] drivers), the tokio runtime and the
    actor's message loop, IPC, configuration and tools, persistence and
    discovery file formats, hardware keys, logging, zeroisation, constant-time
    behaviour, and the construction of the tunnel synthesis packet.  Of the
    transport actor: path requests and recursive discovery, cache requests,
    the dissemination of a learned announce with the waking of path waiters,
    outbound sends, maintenance ticks.
    They depend on disk caches, application callbacks and the order in which
    tasks are scheduled; where an inbound handler calls one of them, the model
    ends with the name of the call. *)

From stdpp Require Import prelude gmap list.
From Stdlib Require Import SpecFloat.

Open Scope Z_scope.

(** ** Scope, hint databases *)

Declare Scope rns_scope.
Delimit Scope rns_scope with rns.
Open Scope rns_scope.

Create HintDb rns discriminated.
Create Rewrite HintDb rns_len.

(** ** Outcomes of Rust code

    A Rust function that returns [Result<A, E>] and may also panic (slice
    indexing, [copy_from_slice], [expect]) has three outcomes.  Code that can
    panic but has no error type uses [res Empty_set A]. *)

Inductive res (E A : Type) : Type :=
| Ok (a : A)
| Err (e : E)
| Panic.
Arguments Ok {E A} a.
Arguments Err {E A} e.
Arguments Panic {E A}.

Definition res_bind {E A B} (m : res E A) (f : A → res E B) : res E B :=
  match m with
  | Ok a => f a
  | Err e => Err e
  | Panic => Panic
  end.

Notation "'let*' x ':=' c 'in' k" := (res_bind c (fun x => k))
  (at level 10, x name, c at level 100, k at level 200) : rns_scope.
Notation "'let*' ' p ':=' c 'in' k" := (res_bind c (fun x => match x with p => k end))
  (at level 10, p strict pattern, c at level 100, k at level 200) : rns_scope.

(** [Option::ok_or]. *)
Definition ok_or {E A} (o : option A) (e : E) : res E A :=
  match o with Some a => Ok a | None => Err e end.

(** [Option::expect] and [Option::unwrap]. *)
Definition expect {E A} (o : option A) : res E A :=
  match o with Some a => Ok a | None => Panic end.

(** [Result::map_err]; a panic stays a panic. *)
Definition map_err {E F A} (f : E → F) (m : res E A) : res F A :=
  match m with Ok a => Ok a | Err e => Err (f e) | Panic => Panic end.

(** [Result::ok]. *)
Definition res_ok {E F A} (m : res E A) : res F (option A) :=
  match m with Ok a => Ok (Some a) | Err _ => Ok None | Panic => Panic end.

(** Embedding of a computation that has no error of its own. *)
Definition lift_void {E A} (m : res Empty_set A) : res E A :=
  match m with Ok a => Ok a | Err e => match e with end | Panic => Panic end.

Definition no_panic {E A} (m : res E A) : Prop := m ≠ Panic.

Lemma res_bind_Ok_inv {E A B} (m : res E A) (f : A → res E B) b :
  res_bind m f = Ok b → ∃ a, m = Ok a ∧ f a = Ok b.
Proof. destruct m; simpl; naive_solver. Qed.

Lemma res_bind_assoc {E A B C} (m : res E A) (f : A → res E B) (g : B → res E C) :
  res_bind (res_bind m f) g = res_bind m (λ a, res_bind (f a) g).
Proof. by destruct m. Qed.

(** ** Machine integers as [Z] *)

Definition u8 (z : Z) : Prop := 0 ≤ z < 256.
Definition u16 (z : Z) : Prop := 0 ≤ z < 65536.
Definition u32 (z : Z) : Prop := 0 ≤ z < 4294967296.
Definition u64 (z : Z) : Prop := 0 ≤ z < 18446744073709551616.

#[export] Instance u8_dec z : Decision (u8 z). Proof. unfold u8. apply _. Defined.
#[export] Instance u16_dec z : Decision (u16 z). Proof. unfold u16. apply _. Defined.
#[export] Instance u32_dec z : Decision (u32 z). Proof. unfold u32. apply _. Defined.
#[export] Instance u64_dec z : Decision (u64 z). Proof. unfold u64. apply _. Defined.

Definition U32_MAX : Z := 4294967295.
Definition U64_MAX : Z := 18446744073709551615.
Definition USIZE_MAX : Z := U64_MAX.

(** [u64::saturating_add] (and [usize] on a 64-bit target). *)
Definition sat_add64 (a b : Z) : Z := Z.min (a + b) U64_MAX.

(** Byte strings are lists of [Z] in the range of [u8]. *)
Abbreviation bytes := (list Z).
Definition bytes_ok (l : bytes) : Prop := Forall u8 l.
#[export] Instance bytes_ok_dec l : Decision (bytes_ok l).
Proof. unfold bytes_ok. apply _. Defined.

(** A Rust array [[u8; n]]. *)
Definition array_ok (n : nat) (l : bytes) : Prop := length l = n ∧ bytes_ok l.
#[export] Instance array_ok_dec n l : Decision (array_ok n l).
Proof. unfold array_ok. apply _. Defined.

(** Vec length as an unsigned machine integer. *)
Definition len {A} (l : list A) : Z := Z.of_nat (length l).

Lemma len_app {A} (l k : list A) : len (l ++ k) = len l + len k.
Proof. unfold len. rewrite length_app. lia. Qed.
Lemma len_nonneg {A} (l : list A) : 0 ≤ len l.
Proof. unfold len. lia. Qed.
Lemma len_cons {A} (x : A) l : len (x :: l) = 1 + len l.
Proof. unfold len. simpl. lia. Qed.

Lemma bytes_ok_app l k : bytes_ok (l ++ k) ↔ bytes_ok l ∧ bytes_ok k.
Proof. unfold bytes_ok. by rewrite Forall_app. Qed.
Lemma bytes_ok_cons b l : bytes_ok (b :: l) ↔ u8 b ∧ bytes_ok l.
Proof. unfold bytes_ok. by rewrite Forall_cons. Qed.
Lemma bytes_ok_nil : bytes_ok [].
Proof. by constructor. Qed.
Lemma bytes_ok_take n l : bytes_ok l → bytes_ok (take n l).
Proof. apply Forall_take. Qed.
Lemma bytes_ok_drop n l : bytes_ok l → bytes_ok (drop n l).
Proof. apply Forall_drop. Qed.
Lemma bytes_ok_lookup l i b : bytes_ok l → l !! i = Some b → u8 b.
Proof. intros H Hi. by eapply Forall_lookup_1. Qed.
Lemma bytes_ok_replicate n b : u8 b → bytes_ok (replicate n b).
Proof. intros. by apply Forall_replicate. Qed.

#[export] Hint Resolve bytes_ok_nil bytes_ok_take bytes_ok_drop bytes_ok_replicate : rns.

(** ** Slices: every out-of-range access panics *)

Section slices.
Context {E A : Type}.

(** [raw[i]] *)
Definition idx (l : list A) (i : nat) : res E A := expect (l !! i).

(** [&raw[a..b]] *)
Definition slice (l : list A) (a b : nat) : res E (list A) :=
  if decide (a ≤ b ∧ b ≤ length l)%nat then Ok (take (b - a) (drop a l)) else Panic.

(** [&raw[a..]] *)
Definition slice_from (l : list A) (a : nat) : res E (list A) :=
  if decide (a ≤ length l)%nat then Ok (drop a l) else Panic.

(** [&raw[..b]] *)
Definition slice_to (l : list A) (b : nat) : res E (list A) :=
  if decide (b ≤ length l)%nat then Ok (take b l) else Panic.

(** [let mut out = [0; n]; out.copy_from_slice(src)] *)
Definition copy_array (n : nat) (src : list A) : res E (list A) :=
  if decide (length src = n) then Ok src else Panic.

Lemma idx_ok l i x : l !! i = Some x → idx l i = Ok x.
Proof. unfold idx. by intros ->. Qed.

Lemma slice_ok l a b : (a ≤ b ≤ length l)%nat → slice l a b = Ok (take (b - a) (drop a l)).
Proof. intros. unfold slice. by rewrite decide_True by lia. Qed.

Lemma slice_from_ok l a : (a ≤ length l)%nat → slice_from l a = Ok (drop a l).
Proof. intros. unfold slice_from. by rewrite decide_True by lia. Qed.

Lemma slice_to_ok l b : (b ≤ length l)%nat → slice_to l b = Ok (take b l).
Proof. intros. unfold slice_to. by rewrite decide_True by lia. Qed.

Lemma copy_array_ok n l : length l = n → copy_array n l = Ok l.
Proof. intros. unfold copy_array. by rewrite decide_True by lia. Qed.

(** Accesses that land exactly on a segment of a concatenation. *)
Lemma idx_at l1 x l2 l n : l = l1 ++ x :: l2 → length l1 = n → idx l n = Ok x.
Proof. intros -> <-. apply idx_ok. by rewrite lookup_app_r, Nat.sub_diag by lia. Qed.

Lemma slice_at l1 l2 l3 l a b :
  l = l1 ++ l2 ++ l3 → length l1 = a → (length l1 + length l2)%nat = b → slice l a b = Ok l2.
Proof.
  intros -> <- <-. rewrite slice_ok by (rewrite !length_app; lia).
  rewrite drop_app_length. f_equal.
  replace (length l1 + length l2 - length l1)%nat with (length l2) by lia.
  apply take_app_length.
Qed.

Lemma idx_lt_inv l i : (i < length l)%nat → ∃ x, l !! i = Some x ∧ idx l i = Ok x.
Proof. intros [x Hx]%lookup_lt_is_Some_2. exists x. split; [done|by apply idx_ok]. Qed.

(** [iter().position(p)] *)
Fixpoint position (p : A → bool) (l : list A) : option nat :=
  match l with
  | [] => None
  | x :: l' => if p x then Some 0%nat else S <$> position p l'
  end.

Lemma position_Some p l n :
  position p l = Some n →
  ∃ x, l !! n = Some x ∧ p x = true ∧ Forall (λ y, p y = false) (take n l).
Proof.
  revert n. induction l as [|y l IH]; intros n; simpl; [done|].
  destruct (p y) eqn:Hy.
  - intros [= <-]. exists y. repeat split; [done|constructor].
  - destruct (position p l) as [m|]; [|done]. intros [= <-].
    destruct (IH m eq_refl) as (x & Hx & Hp & Hall). exists x. simpl.
    repeat split; [done..|]. by constructor.
Qed.

Lemma position_None p l : position p l = None ↔ Forall (λ y, p y = false) l.
Proof.
  induction l as [|y l IH]; simpl; [by split; [constructor|]|].
  rewrite Forall_cons, <- IH. destruct (p y), (position p l); simpl; intuition congruence.
Qed.

Lemma position_lt p l n : position p l = Some n → (n < length l)%nat.
Proof. intros (x & Hx & _)%position_Some. by eapply lookup_lt_Some. Qed.
End slices.

(** A hit of [position] splits the list around the first match. *)
Lemma position_split (p : Z → bool) l n :
  position p l = Some n →
  ∃ x, l = take n l ++ x :: drop (S n) l ∧ p x = true ∧ Forall (λ y, p y = false) (take n l) ∧
       nth n l 0 = x.
Proof.
  intros (x & Hx & Hp & Hall)%position_Some. exists x. split_and!; try done.
  - by rewrite take_drop_middle.
  - by apply nth_lookup_Some with (d := 0) in Hx.
Qed.

#[global] Arguments idx : simpl never.
#[global] Arguments slice : simpl never.
#[global] Arguments slice_from : simpl never.
#[global] Arguments slice_to : simpl never.
#[global] Arguments copy_array : simpl never.

(** Side conditions of [idx_at] and [slice_at]: segment equations and lengths. *)
Ltac seg := solve [simpl; rewrite <- ?app_assoc; reflexivity | simpl; rewrite ?length_app; simpl; lia].

(** ** Big-endian encoding *)

(** The low [n] bytes of [v], most significant first ([to_be_bytes]). *)
Fixpoint be_bytes (n : nat) (v : Z) : bytes :=
  match n with
  | O => []
  | S n' => be_bytes n' (v / 256) ++ [v mod 256]
  end.

(** [from_be_bytes] *)
Definition be_value (l : bytes) : Z := foldl (λ acc b, acc * 256 + b) 0 l.

Lemma length_be_bytes n v : length (be_bytes n v) = n.
Proof. revert v. induction n as [|n IH]; intros v; simpl; [done|]. rewrite length_app, IH. simpl. lia. Qed.

Lemma be_bytes_ok n v : bytes_ok (be_bytes n v).
Proof.
  revert v. induction n as [|n IH]; intros v; simpl; [constructor|].
  apply bytes_ok_app. split; [apply IH|]. repeat constructor; apply Z.mod_pos_bound; lia.
Qed.

Lemma be_value_app l b : be_value (l ++ [b]) = be_value l * 256 + b.
Proof. unfold be_value. by rewrite foldl_app. Qed.

Lemma be_value_bytes n v : 0 ≤ v < 256 ^ Z.of_nat n → be_value (be_bytes n v) = v.
Proof.
  revert v. induction n as [|n IH]; intros v Hv; simpl.
  - change (256 ^ Z.of_nat 0) with 1 in Hv. unfold be_value. simpl. lia.
  - rewrite be_value_app, IH.
    + rewrite Z.mul_comm. symmetry. apply Z.div_mod. lia.
    + rewrite Nat2Z.inj_succ, Z.pow_succ_r in Hv by lia.
      split; [apply Z.div_pos; lia|]. apply Z.div_lt_upper_bound; lia.
Qed.

Lemma be_bytes_value l : bytes_ok l → be_bytes (length l) (be_value l) = l.
Proof.
  induction l as [|b l IH] using rev_ind; [done|].
  rewrite bytes_ok_app, bytes_ok_cons. intros (Hl & Hb & _). unfold u8 in Hb.
  rewrite length_app, be_value_app. simpl. rewrite Nat.add_1_r. simpl.
  rewrite Z.div_add_l, Z.div_small, Z.add_0_r, IH by (done || lia).
  by rewrite Z.add_comm, Z_mod_plus_full, Z.mod_small by lia.
Qed.

Lemma be_value_range l : bytes_ok l → 0 ≤ be_value l < 256 ^ Z.of_nat (length l).
Proof.
  induction l as [|b l IH] using rev_ind; [unfold be_value; simpl; lia|].
  rewrite bytes_ok_app, bytes_ok_cons. intros (Hl & Hb & _). unfold u8 in Hb.
  rewrite length_app, be_value_app. simpl. rewrite Nat.add_1_r, Nat2Z.inj_succ, Z.pow_succ_r by lia.
  specialize (IH Hl). lia.
Qed.

#[export] Hint Resolve be_bytes_ok : rns.
#[export] Hint Rewrite length_be_bytes : rns_len.

(** ** Exhaustive reasoning about bytes *)

Lemma range_forallb (P : Z → bool) (n b : Z) :
  forallb P (seqZ 0 n) = true → 0 ≤ b < n → P b = true.
Proof.
  rewrite forallb_forall. intros H Hb. apply H, list_elem_of_In, elem_of_seqZ. lia.
Qed.

(** Reduces a decidable statement about one byte to its 256 instances. *)
Ltac by_all_bytes H :=
  match type of H with
  | u8 ?b => unfold u8 in H; revert b H
  end;
  let b := fresh "b" in let Hb := fresh "Hb" in
  intros b Hb;
  pattern b;
  match goal with
  | |- ?P b =>
      let Q := constr:(λ x : Z, bool_decide (P x)) in
      apply (bool_decide_eq_true_1 (P b)); apply (range_forallb Q 256 b);
      [vm_compute; reflexivity|exact Hb]
  end.

(** ** Bit operations as arithmetic *)

Lemma land_ones_mod (a n : Z) : 0 ≤ n → Z.land a (2 ^ n - 1) = a mod 2 ^ n.
Proof. intros. rewrite <- Z.land_ones, Z.ones_equiv by done. f_equal; lia. Qed.

Lemma lor_disjoint_add (a b n : Z) :
  0 ≤ n → 0 ≤ a < 2 ^ n → Z.lor a (Z.shiftl b n) = a + b * 2 ^ n.
Proof.
  intros Hn Ha. rewrite <- Z.shiftl_mul_pow2 by done. symmetry.
  apply Z.add_nocarry_lor. apply Z.bits_inj'. intros i Hi.
  rewrite Z.land_spec, Z.bits_0, Z.shiftl_spec by done.
  destruct (decide (i < n)).
  - rewrite (Z.testbit_neg_r b) by lia. apply andb_false_r.
  - replace (Z.testbit a i) with false; [done|]. symmetry.
    destruct (decide (a = 0)) as [->|]; [apply Z.bits_0|].
    apply Z.bits_above_log2; [lia|]. apply Z.log2_lt_pow2; [lia|].
    apply Z.lt_le_trans with (2 ^ n); [lia|]. apply Z.pow_le_mono_r; lia.
Qed.

(** A value below [2^n] has no bit at or above [n]. *)
Lemma testbit_above (a n i : Z) : 0 ≤ a < 2 ^ n → n ≤ i → Z.testbit a i = false.
Proof.
  intros Ha Hi. destruct (decide (a = 0)) as [->|]; [apply Z.bits_0|].
  assert (0 ≤ n) by (destruct (decide (0 ≤ n)); [done|rewrite Z.pow_neg_r in Ha by lia; lia]).
  apply Z.bits_above_log2; [lia|]. apply Z.lt_le_trans with n; [|done]. apply Z.log2_lt_pow2; lia.
Qed.

Lemma lor_bound (a b n : Z) : 0 ≤ a < 2 ^ n → 0 ≤ b < 2 ^ n → 0 ≤ Z.lor a b < 2 ^ n.
Proof.
  intros Ha Hb. split; [apply Z.lor_nonneg; lia|].
  destruct (decide (Z.lor a b = 0)) as [->|]; [lia|].
  assert (0 ≤ Z.lor a b) by (apply Z.lor_nonneg; lia).
  destruct (decide (Z.lor a b < 2 ^ n)) as [|Hge]; [done|exfalso].
  assert (Hn : n ≤ Z.log2 (Z.lor a b)).
  { destruct (decide (0 ≤ n)); [|pose proof (Z.log2_nonneg (Z.lor a b)); lia]. apply Z.log2_le_pow2; lia. }
  pose proof (Z.bit_log2 (Z.lor a b) ltac:(lia)) as Hbit.
  rewrite Z.lor_spec, !(testbit_above _ n) in Hbit by done. done.
Qed.

(** Testing a single-bit mask. *)
Lemma land_pow2_test (a n : Z) : 0 ≤ n → negb (Z.land a (2 ^ n) =? 0) = Z.testbit a n.
Proof.
  intros Hn. destruct (Z.testbit a n) eqn:Ht.
  - apply negb_true_iff, Z.eqb_neq. intros Hz.
    assert (Hb : Z.testbit (Z.land a (2 ^ n)) n = false) by (rewrite Hz; apply Z.bits_0).
    by rewrite Z.land_spec, Ht, Z.pow2_bits_true in Hb by done.
  - apply negb_false_iff, Z.eqb_eq, Z.bits_inj'. intros i Hi.
    rewrite Z.land_spec, Z.pow2_bits_eqb, Z.bits_0 by done.
    destruct (Z.eqb_spec n i) as [->|]; [by rewrite Ht|apply andb_false_r].
Qed.
