(* ===== verification/F64.v ===== *)
(** * Rust [f64] values and durations

    The binary64 arithmetic the sources use, on the Standard Library's
    specification floats ([spec_float] at precision 53 and maximal exponent
    1024), so every operation rounds as the hardware does and can be
    evaluated.  A decimal literal is the correctly rounded quotient of two
    exact integers.  [Duration] and [Instant] are nanosecond counts. *)

From S2P Require Import Prelude.
From stdpp Require Import prelude list.
From Stdlib Require Import SpecFloat.

Open Scope Z_scope.

Abbreviation f64 := spec_float.

Definition f_add : f64 → f64 → f64 := SFadd 53 1024.
Definition f_sub : f64 → f64 → f64 := SFsub 53 1024.
Definition f_mul : f64 → f64 → f64 := SFmul 53 1024.
Definition f_div : f64 → f64 → f64 := SFdiv 53 1024.

(** [n as f64] *)
Definition f_of_Z (z : Z) : f64 := binary_normalize 53 1024 z 0 false.

(** The literal [n/d]; [n] and [d] are below [2^53], hence exact. *)
Definition f_lit (n d : Z) : f64 := f_div (f_of_Z n) (f_of_Z d).

Definition f_zero : f64 := S754_zero false.

Definition f_lt (a b : f64) : bool := SFltb a b.
Definition f_le (a b : f64) : bool := SFleb a b.
Definition f_gt (a b : f64) : bool := SFltb b a.
Definition f_ge (a b : f64) : bool := SFleb b a.
Definition f_eq (a b : f64) : bool := SFeqb a b.

Definition f_is_nan (a : f64) : bool := match a with S754_nan => true | _ => false end.
Definition f_is_finite (a : f64) : bool :=
  match a with S754_nan | S754_infinity _ => false | _ => true end.

(** [f64::min], [f64::max]: a NaN argument yields the other one. *)
Definition f_min (a b : f64) : f64 :=
  if f_is_nan a then b else if f_is_nan b then a else if f_lt b a then b else a.
Definition f_max (a b : f64) : f64 :=
  if f_is_nan a then b else if f_is_nan b then a else if f_lt a b then b else a.

(** [x.powi(n)] for a non-negative exponent. *)
Fixpoint f_powi (x : f64) (n : nat) : f64 :=
  match n with O => f_of_Z 1 | S n' => f_mul (f_powi x n') x end.

(** ** Durations *)

Definition NANOS : Z := 1000000000.

(** [Duration::from_secs] *)
Definition from_secs (s : Z) : Z := s * NANOS.

(** The nearest integer to [n / d], ties to even. *)
Definition round_half_even (n d : Z) : Z :=
  let q := n / d in
  let r := n mod d in
  match Z.compare (2 * r) d with
  | Lt => q
  | Gt => q + 1
  | Eq => if Z.even q then q else q + 1
  end.

(** [Duration::try_from_secs_f64]: negative, NaN, infinite and too large values
    are refused; others round to the nearest nanosecond, ties to even. *)
Definition try_from_secs_f64 (x : f64) : option Z :=
  match x with
  | S754_zero _ => Some 0
  | S754_finite false m e =>
      let n := Zpos m * NANOS in
      let t := if 0 <=? e then n * 2 ^ e else round_half_even n (2 ^ (- e)) in
      if t <? 2 ^ 64 * NANOS then Some t else None
  | _ => None
  end.

(** [Duration::as_secs_f64]: whole seconds plus the fraction, in [f64]. *)
Definition as_secs_f64 (d : Z) : f64 :=
  f_add (f_of_Z (d / NANOS)) (f_div (f_of_Z (d mod NANOS)) (f_of_Z NANOS)).

(** [x as usize]: truncates, saturates, and sends NaN to zero. *)
Definition f_to_usize (x : f64) : Z :=
  match x with
  | S754_infinity false => U64_MAX
  | S754_finite false m e => Z.min (if 0 <=? e then Zpos m * 2 ^ e else Zpos m / 2 ^ (- e)) U64_MAX
  | _ => 0
  end.

(** [saturating_mul] and [saturating_add] of durations, below [Duration::MAX]. *)
Definition DURATION_LIMIT : Z := U64_MAX * NANOS + 999999999.
Definition dur_mul (d n : Z) : Z := Z.min (d * n) DURATION_LIMIT.
Definition dur_add (a b : Z) : Z := Z.min (a + b) DURATION_LIMIT.
(** [Duration::checked_add] *)
Definition dur_checked_add (a b : Z) : option Z := if a + b <=? DURATION_LIMIT then Some (a + b) else None.

(** The largest [Instant]: 63-bit seconds and the nanoseconds below one second. *)
Definition INSTANT_MAX : Z := (2 ^ 63 - 1) * NANOS + 999999999.

(** [Instant::checked_add] *)
Definition instant_add (i d : Z) : option Z := if i + d <=? INSTANT_MAX then Some (i + d) else None.

(** ** Order lemmas *)

(** On numbers, [x <= y] is the negation of [x > y]. *)
Lemma f_le_gt x y : f_is_nan x = false → f_is_nan y = false → f_le x y = negb (f_gt x y).
Proof.
  unfold f_le, f_gt, SFleb, SFltb, SFcompare. intros Hx Hy.
  destruct x as [sx|sx| |sx mx ex], y as [sy|sy| |sy my ey]; try done; simpl;
    try (destruct sx; done); try (destruct sy; done); try (destruct sx, sy; done).
  rewrite (Z.compare_antisym ex ey). destruct sx, sy; try done; destruct (Z.compare ex ey); simpl; try done;
    change (Pos.compare_cont Eq my mx) with (Pos.compare_cont (CompOpp Eq) my mx);
    rewrite <- (Pos.compare_cont_antisym mx my Eq); destruct (Pos.compare_cont Eq mx my); done.
Qed.

Lemma f_le_refl x : f_is_nan x = false → f_le x x = true.
Proof.
  unfold f_le, SFleb, SFcompare. destruct x as [s|s| |s m e]; try done; intros _; [by destruct s|].
  rewrite Z.compare_refl, Pos.compare_cont_refl. by destruct s.
Qed.

(** [x.min(c)] is at most [c]. *)
Lemma f_min_le x c : f_is_nan c = false → f_le (f_min x c) c = true.
Proof.
  intros Hc. unfold f_min. destruct (f_is_nan x) eqn:Hx; [by apply f_le_refl|]. rewrite Hc.
  destruct (f_lt c x) eqn:Hl; [by apply f_le_refl|].
  rewrite f_le_gt by done. unfold f_gt. unfold f_lt in Hl. by rewrite Hl.
Qed.

(** ** Bits *)

(** [f64::from_bits]: sign, eleven exponent bits, fifty-two fraction bits. *)
Definition f_of_bits (b : Z) : f64 :=
  let s := Z.testbit b 63 in
  let e := b / 2 ^ 52 mod 2 ^ 11 in
  let m := b mod 2 ^ 52 in
  if e =? 2047 then (if m =? 0 then S754_infinity s else S754_nan)
  else if e =? 0 then match m with Zpos p => S754_finite s p (-1074) | _ => S754_zero s end
  else match m + 2 ^ 52 with Zpos p => S754_finite s p (e - 1075) | _ => S754_zero s end.

(** [f64::to_bits]; a NaN is written in its usual quiet form. *)
Definition f_bits (x : f64) : Z :=
  let sign (s : bool) := if s then 2 ^ 63 else 0 in
  match x with
  | S754_zero s => sign s
  | S754_infinity s => sign s + 2047 * 2 ^ 52
  | S754_nan => 2047 * 2 ^ 52 + 2 ^ 51
  | S754_finite s m e => if Zpos m <? 2 ^ 52 then sign s + Zpos m else sign s + (e + 1075) * 2 ^ 52 + (Zpos m - 2 ^ 52)
  end.

(** [f64::from] of an [f32] given by its bits; exact. *)
Definition f_of_bits32 (b : Z) : f64 :=
  let e := b / 2 ^ 23 mod 2 ^ 8 in
  let m := b mod 2 ^ 23 in
  let v := if e =? 255 then (if m =? 0 then S754_infinity false else S754_nan)
           else if e =? 0 then binary_normalize 53 1024 m (-149) false
           else binary_normalize 53 1024 (m + 2 ^ 23) (e - 150) false in
  if Z.testbit b 31 then SFopp v else v.

(** [f64::clamp] (a NaN stays), [f64::abs]. *)
Definition f_clamp (x lo hi : f64) : f64 := if f_lt x lo then lo else if f_gt x hi then hi else x.
Definition f_abs (x : f64) : f64 := SFabs x.

(** [Duration::from_secs_f64], which panics where [try_from_secs_f64] refuses. *)
Definition secs {E} (x : f64) : res E Z := match try_from_secs_f64 x with Some d => Ok d | None => Panic end.

(** ** Results of rounding *)

(** A float that is not negative, whose mantissa fits. *)
Definition f_mag (x : f64) : Prop :=
  match x with
  | S754_zero false | S754_infinity false => True
  | S754_finite false m e => Zpos m < 2 ^ 53
  | _ => False
  end.

Lemma shr_1_half r : 0 ≤ shr_m r → shr_m (shr_1 r) = shr_m r / 2.
Proof.
  destruct r as [m b s]. cbn [shr_m]. intros Hm. destruct m as [|[p|p|]|p]; try done; unfold shr_1, shr_m.
  - rewrite Pos2Z.inj_xI, Z.add_comm, Z.mul_comm, Z.div_add by done. done.
  - rewrite Pos2Z.inj_xO, Z.mul_comm, Z.div_mul by done. done.
Qed.

Lemma shr_iter_half p : ∀ r, 0 ≤ shr_m r → shr_m (iter_pos shr_1 p r) = shr_m r / 2 ^ Zpos p.
Proof.
  assert (Hn : ∀ (r : shr_record) k, 0 ≤ shr_m r → 0 ≤ k → 0 ≤ shr_m r / 2 ^ k).
  { intros r k Hr Hk. apply Z.div_pos; [done|]. by apply Z.pow_pos_nonneg. }
  induction p as [p IH|p IH|]; intros r Hr; cbn [iter_pos].
  - assert (H1 : 0 ≤ shr_m (shr_1 r)) by (rewrite shr_1_half by done; apply Z.div_pos; lia).
    assert (H2 : 0 ≤ shr_m (iter_pos shr_1 p (shr_1 r))) by (rewrite IH by done; by apply Hn).
    rewrite !IH, shr_1_half by done. rewrite !Z.div_div by (try apply Z.pow_pos_nonneg; lia).
    f_equal. rewrite Pos2Z.inj_xI. rewrite <- Z.pow_add_r by lia. rewrite <- (Z.pow_1_r 2) at 1.
    rewrite <- Z.pow_add_r by lia. f_equal. lia.
  - assert (H2 : 0 ≤ shr_m (iter_pos shr_1 p r)) by (rewrite IH by done; by apply Hn).
    rewrite !IH by done. rewrite Z.div_div by (try apply Z.pow_pos_nonneg; lia).
    f_equal. rewrite Pos2Z.inj_xO. rewrite <- Z.pow_add_r by lia. f_equal. lia.
  - rewrite shr_1_half by done. done.
Qed.

Lemma digits2_bound p : Zpos p < 2 ^ Zpos (digits2_pos p).
Proof.
  induction p as [p IH|p IH|]; cbn [digits2_pos]; [..|done]; rewrite Pos2Z.inj_succ, Z.pow_succ_r by lia.
  - rewrite Pos2Z.inj_xI. lia.
  - rewrite (Pos2Z.inj_xO p). lia.
Qed.

Lemma shr_fexp_bound m e l : 0 ≤ m → 0 ≤ shr_m (shr_fexp 53 1024 m e l).1 < 2 ^ 53.
Proof.
  intros Hm. unfold shr_fexp, shr. set (r := shr_record_of_loc m l).
  assert (Hr : shr_m r = m) by (subst r; destruct l as [|[]]; done).
  assert (Hd : m < 2 ^ Zdigits2 m) by (destruct m; [done|apply digits2_bound|done]).
  set (n := fexp 53 1024 (Zdigits2 m + e) - e). assert (Hn : Zdigits2 m - 53 ≤ n) by (unfold n, fexp; lia).
  destruct n as [|p|p] eqn:En; cbn [fst].
  - rewrite Hr. split; [done|]. eapply Z.lt_le_trans; [exact Hd|]. apply Z.pow_le_mono_r; lia.
  - rewrite shr_iter_half, Hr by lia. split; [apply Z.div_pos; [done|]; by apply Z.pow_pos_nonneg|].
    apply Z.div_lt_upper_bound; [by apply Z.pow_pos_nonneg|]. rewrite <- Z.pow_add_r by lia.
    eapply Z.lt_le_trans; [exact Hd|]. apply Z.pow_le_mono_r; lia.
  - rewrite Hr. split; [done|]. eapply Z.lt_le_trans; [exact Hd|]. apply Z.pow_le_mono_r; lia.
Qed.

Lemma round_aux_mag m e l : 0 ≤ m → f_mag (binary_round_aux 53 1024 false m e l).
Proof.
  intros Hm. unfold binary_round_aux. pose proof (shr_fexp_bound m e l Hm) as H1.
  destruct (shr_fexp 53 1024 m e l) as [r1 e1]. cbn [fst] in H1.
  assert (Hr : 0 ≤ round_nearest_even (shr_m r1) (loc_of_shr_record r1)).
  { unfold round_nearest_even. repeat case_match; lia. }
  pose proof (shr_fexp_bound _ e1 loc_Exact Hr) as H2.
  destruct (shr_fexp 53 1024 _ e1 loc_Exact) as [r2 e2]. cbn [fst] in H2.
  destruct (shr_m r2) as [|p|p]; [done| |lia]. case_match; [|done]. cbn. lia.
Qed.

Lemma normalize_mag m e : 0 ≤ m → f_mag (binary_normalize 53 1024 m e false).
Proof.
  intros Hm. unfold binary_normalize, binary_round. destruct m as [|p|p]; [done| |lia].
  destruct (shl_align _ _ _) as [mz ez]. by apply round_aux_mag.
Qed.

Lemma f_of_Z_mag n : 0 ≤ n → f_mag (f_of_Z n).
Proof. apply normalize_mag. Qed.

Lemma f_add_mag x y : f_mag x → f_mag y → f_mag (f_add x y).
Proof.
  unfold f_add, SFadd. destruct x as [[]|[]| |[] mx ex], y as [[]|[]| |[] my ey]; try done; intros Hx Hy.
  apply normalize_mag. cbn [cond_Zopp]. lia.
Qed.

(** Products and quotients by a positive number. *)
Definition f_pos (x : f64) : Prop := match x with S754_finite false m e => Zpos m < 2 ^ 53 | _ => False end.

Lemma f_mul_mag x y : f_mag x → f_pos y → f_mag (f_mul x y).
Proof.
  unfold f_mul, SFmul. destruct x as [[]|[]| |[] mx ex], y as [|[]| |[] my ey]; try done; intros Hx Hy.
  cbn [xorb]. apply round_aux_mag. lia.
Qed.
Lemma f_div_mag x y : f_mag x → f_pos y → f_mag (f_div x y).
Proof.
  unfold f_div, SFdiv. destruct x as [[]|[]| |[] mx ex], y as [|[]| |[] my ey]; try done; intros Hx Hy.
  cbn [xorb]. unfold SFdiv_core_binary. set (m' := match _ with Zpos _ => _ | Z0 => _ | Zneg _ => _ end).
  assert (0 ≤ m') as Hm'. { subst m'. case_match; [lia| |lia]. apply Z.shiftl_nonneg. lia. }
  pose proof (Z.div_eucl_eq m' (Zpos my)) as He. destruct (Z.div_eucl m' (Zpos my)) as [q r] eqn:Hq.
  apply round_aux_mag. replace q with (m' / Zpos my) by (unfold Z.div; by rewrite Hq). by apply Z.div_pos.
Qed.

Lemma as_secs_mag d : 0 ≤ d → f_mag (as_secs_f64 d).
Proof.
  intros Hd. unfold as_secs_f64. apply f_add_mag; [by apply f_of_Z_mag, Z.div_pos|].
  apply f_div_mag; [apply f_of_Z_mag, Z.mod_pos_bound; done|]. by vm_compute.
Qed.

(** ** Bounded magnitudes *)

(** Zero, or positive and below [2 ^ (53 + k)]. *)
Definition f_lim (k : Z) (x : f64) : Prop :=
  match x with
  | S754_zero false => True
  | S754_finite false m e => Zpos m < 2 ^ 53 ∧ e ≤ k
  | _ => False
  end.

Lemma digits2_low p : 2 ^ (Zpos (digits2_pos p) - 1) ≤ Zpos p.
Proof.
  induction p as [p IH|p IH|]; cbn [digits2_pos]; [..|done]; rewrite Pos2Z.inj_succ;
    replace (Z.succ (Zpos (digits2_pos p)) - 1) with (Z.succ (Zpos (digits2_pos p) - 1)) by lia; rewrite Z.pow_succ_r by lia.
  - rewrite Pos2Z.inj_xI. lia.
  - rewrite (Pos2Z.inj_xO p). lia.
Qed.

Lemma Zdigits2_le m k : 0 ≤ m < 2 ^ k → 0 ≤ k → Zdigits2 m ≤ k.
Proof.
  intros [Hm Hk] H0. destruct m as [|p|p]; cbn [Zdigits2]; [done| |lia]. pose proof (digits2_low p) as Hl.
  assert (Zpos (digits2_pos p) - 1 < k); [|lia]. apply (Z.pow_lt_mono_r_iff 2); lia.
Qed.

Lemma shr_fexp_exp m e l : (shr_fexp 53 1024 m e l).2 = Z.max e (fexp 53 1024 (Zdigits2 m + e)).
Proof. unfold shr_fexp, shr. destruct (_ - e) eqn:Hn; cbn [snd]; lia. Qed.

Lemma round_aux_lim m e l k : 0 ≤ m < 2 ^ 106 → e + 54 ≤ k → -1073 ≤ k ≤ 971 →
  f_lim k (binary_round_aux 53 1024 false m e l).
Proof.
  intros Hm He Hk. unfold binary_round_aux. pose proof (shr_fexp_bound m e l ltac:(lia)) as H1.
  pose proof (shr_fexp_exp m e l) as E1. destruct (shr_fexp 53 1024 m e l) as [r1 e1]. cbn [fst snd] in H1, E1.
  assert (Hr : 0 ≤ round_nearest_even (shr_m r1) (loc_of_shr_record r1) < 2 ^ 54).
  { unfold round_nearest_even. repeat case_match; lia. }
  pose proof (shr_fexp_bound _ e1 loc_Exact (proj1 Hr)) as H2. pose proof (shr_fexp_exp (round_nearest_even (shr_m r1) (loc_of_shr_record r1)) e1 loc_Exact) as E2.
  destruct (shr_fexp 53 1024 _ e1 loc_Exact) as [r2 e2]. cbn [fst snd] in H2, E2.
  pose proof (Zdigits2_le _ 54 Hr ltac:(lia)) as D2. pose proof (Zdigits2_le m 106 Hm ltac:(lia)) as D1.
  unfold fexp in E1, E2. change (emin 53 1024) with (-1074) in *.
  destruct (shr_m r2) as [|p|p]; [done| |lia]. rewrite (proj2 (Z.leb_le e2 (1024 - 53))) by lia. cbn. lia.
Qed.

Lemma f_mul_lim x y a b k : f_lim a x → f_lim b y → a + b + 54 ≤ k → -1073 ≤ k ≤ 971 → f_lim k (f_mul x y).
Proof.
  unfold f_mul, SFmul. destruct x as [[]|[]| |[] mx ex], y as [[]|[]| |[] my ey]; try done. intros [Hx ?] [Hy ?] Hk Hr.
  cbn [xorb]. apply round_aux_lim; try done; [|lia]. rewrite Pos2Z.inj_mul. change (2 ^ 106) with (2 ^ 53 * 2 ^ 53). split; [lia|]. apply Z.mul_lt_mono_nonneg; lia.
Qed.

(** Below [2 ^ 63] seconds, a duration. *)
Lemma f_lim_secs x k : f_lim k x → k ≤ 10 → ∃ d, try_from_secs_f64 x = Some d ∧ 0 ≤ d.
Proof.
  unfold f_lim, try_from_secs_f64. destruct x as [[]|[]| |[] m e]; try done; [by exists 0|]. intros [Hm He] Hk.
  assert (HN : 0 < NANOS) by done. set (n := Zpos m * NANOS).
  assert (Hn : 0 ≤ n < 2 ^ 53 * NANOS) by (subst n; nia).
  destruct (Z.leb_spec 0 e) as [H0|H0].
  - assert (2 ^ e ≤ 2 ^ 10) by (apply Z.pow_le_mono_r; lia). assert (0 < 2 ^ e) by (apply Z.pow_pos_nonneg; lia).
    rewrite (proj2 (Z.ltb_lt _ _)); [|unfold NANOS in *; nia]. eexists. split; [done|nia].
  - assert (1 < 2 ^ (- e)) by (apply Z.pow_gt_1; lia). unfold round_half_even.
    assert (0 ≤ n / 2 ^ (- e) ≤ n) by (split; [apply Z.div_pos; lia|]; apply Z.div_le_upper_bound; nia).
    assert (Hb : ∀ r, n / 2 ^ (- e) ≤ r ≤ n / 2 ^ (- e) + 1 → (r <? 2 ^ 64 * NANOS) = true ∧ 0 ≤ r).
    { intros r Hr. split; [apply Z.ltb_lt|]; unfold NANOS in *; lia. }
    destruct (Hb match (2 * (n mod 2 ^ (- e)) ?= 2 ^ (- e)) with
      | Eq => if Z.even (n / 2 ^ (- e)) then n / 2 ^ (- e) else n / 2 ^ (- e) + 1 | Lt => n / 2 ^ (- e) | Gt => n / 2 ^ (- e) + 1 end)
      as [-> ?]; [repeat case_match; lia|]. by eexists.
Qed.

(** Comparing with a positive number bounds the exponent. *)
Lemma f_gt_lim x m e : f_mag x → f_gt x (S754_finite false m e) = false → f_lim e x.
Proof.
  unfold f_gt, SFltb, SFcompare. destruct x as [[]|[]| |[] mx ex]; try done. cbn. intros Hm.
  destruct (Z.compare_spec e ex); try done; intros _; split; lia.
Qed.
Lemma f_clamp_lim x lo m e : f_mag x → f_lim e lo → Zpos m < 2 ^ 53 → f_lim e (f_clamp x lo (S754_finite false m e)).
Proof.
  intros Hx Hlo Hm. unfold f_clamp. destruct (f_lt x lo); [done|]. destruct (f_gt x _) eqn:Hg; [by split|]. by eapply f_gt_lim.
Qed.

Lemma valid_mag x : valid_binary 53 1024 x = true → f_is_nan x = false → f_mag (f_abs x).
Proof.
  destruct x as [[]|[]| |s m e]; try done. cbn [valid_binary f_abs SFabs f_mag]. unfold bounded, canonical_mantissa. intros Hv _.
  apply andb_true_iff in Hv as [Hc _]. apply Z.eqb_eq in Hc. unfold fexp in Hc. pose proof (digits2_bound m) as Hd.
  eapply Z.lt_le_trans; [exact Hd|]. apply Z.pow_le_mono_r; lia.
Qed.

(** ** Canonical results *)

Lemma Zdigits2_ge m k : 0 ≤ k → 2 ^ k ≤ m → k + 1 ≤ Zdigits2 m.
Proof.
  intros Hk Hm. assert (0 < m) by (pose proof (Z.pow_pos_nonneg 2 k); lia). destruct m as [|p|p]; [lia| |lia]. cbn [Zdigits2].
  pose proof (digits2_bound p) as Hd. assert (k < Zpos (digits2_pos p)); [|lia]. apply (Z.pow_lt_mono_r_iff 2); lia.
Qed.
Lemma Zdigits2_eq m k : 0 ≤ k → 2 ^ k ≤ m < 2 ^ (k + 1) → Zdigits2 m = k + 1.
Proof.
  intros Hk Hm. assert (0 ≤ m) by (pose proof (Z.pow_pos_nonneg 2 k); lia). pose proof (Zdigits2_ge m k Hk (proj1 Hm)).
  pose proof (Zdigits2_le m (k + 1) ltac:(lia) ltac:(lia)). lia.
Qed.

Lemma shr_fexp_m m e l : 0 ≤ m → shr_m (shr_fexp 53 1024 m e l).1 = m / 2 ^ Z.max 0 (fexp 53 1024 (Zdigits2 m + e) - e).
Proof.
  intros Hm. unfold shr_fexp, shr. assert (Hr : shr_m (shr_record_of_loc m l) = m) by (destruct l as [|[]]; done).
  destruct (_ - e) as [|p|p]; cbn [fst].
  - by rewrite Hr, Z.div_1_r.
  - by rewrite shr_iter_half, Hr by lia.
  - rewrite Hr. by rewrite Z.div_1_r.
Qed.

(** A rounded mantissa at the exponent its magnitude asks for. *)
Definition aligned (r e : Z) : Prop := 0 ≤ r ≤ 2 ^ 53 ∧ -1074 ≤ e ∧ (e = -1074 ∨ 2 ^ 52 ≤ r).

Lemma aligned_canonical r e m : aligned r e → shr_m (shr_fexp 53 1024 r e loc_Exact).1 = Zpos m →
  canonical_mantissa 53 1024 m (shr_fexp 53 1024 r e loc_Exact).2 = true.
Proof.
  intros (Hr & He & Ha). rewrite shr_fexp_m, shr_fexp_exp by lia. unfold canonical_mantissa. rewrite Z.eqb_eq.
  destruct (decide (r = 2 ^ 53)) as [->|Hn].
  - change (Zdigits2 (2 ^ 53)) with 54. unfold fexp. change (emin 53 1024) with (-1074).
    replace (Z.max (54 + e - 53) (-1074)) with (e + 1) by lia. replace (Z.max 0 (e + 1 - e)) with 1 by lia.
    change (2 ^ 53 / 2 ^ 1) with (Zpos 4503599627370496). intros [= <-]. change (Zpos (digits2_pos 4503599627370496)) with 53. lia.
  - assert (Hd : Zdigits2 r ≤ 53) by (apply Zdigits2_le; lia).
    assert (Hd' : e = -1074 ∨ Zdigits2 r = 53) by (destruct Ha; [by left|right; apply (Zdigits2_eq r 52); lia]).
    unfold fexp. change (emin 53 1024) with (-1074). replace (Z.max 0 _) with 0 by lia. rewrite Z.div_1_r. intros Hm.
    rewrite Hm in *. cbn [Zdigits2] in *. lia.
Qed.

Lemma round_aux_valid s m e l : 0 ≤ m → e ≤ fexp 53 1024 (Zdigits2 m + e) → valid_binary 53 1024 (binary_round_aux 53 1024 s m e l) = true.
Proof.
  intros Hm He. unfold binary_round_aux. pose proof (shr_fexp_m m e l Hm) as H1. pose proof (shr_fexp_exp m e l) as E1.
  pose proof (shr_fexp_bound m e l Hm) as B1. destruct (shr_fexp 53 1024 m e l) as [r1 e1]. cbn [fst snd] in H1, E1, B1.
  assert (Ha : aligned (round_nearest_even (shr_m r1) (loc_of_shr_record r1)) e1).
  { unfold aligned. assert (Hb : shr_m r1 ≤ round_nearest_even (shr_m r1) (loc_of_shr_record r1) ≤ shr_m r1 + 1).
    { unfold round_nearest_even. repeat case_match; lia. }
    rewrite Z.max_r in E1 by done. unfold fexp in *. change (emin 53 1024) with (-1074) in *. split; [lia|]. split; [lia|].
    destruct (Z.le_gt_cases (Zdigits2 m + e - 53) (-1074)); [left; lia|right]. transitivity (shr_m r1); [|lia]. rewrite H1.
    assert (Hp : 0 < m) by (destruct m; simpl in *; lia). apply Z.div_le_lower_bound; [apply Z.pow_pos_nonneg; lia|].
    rewrite <- Z.pow_add_r by lia. destruct m as [|p|p]; [lia| |lia]. cbn [Zdigits2] in *.
    etrans; [|apply digits2_low]. apply Z.pow_le_mono_r; lia. }
  pose proof (λ p, aligned_canonical _ e1 p Ha) as Hc. destruct (shr_fexp 53 1024 _ e1 loc_Exact) as [r2 e2]. cbn [fst snd] in Hc.
  destruct (shr_m r2) as [|p|p]; [done| |done]. destruct (Z.leb e2 (1024 - 53)) eqn:Hl; [|done]. cbn [valid_binary]. unfold bounded.
  by rewrite (Hc p eq_refl), Hl.
Qed.

Lemma digits2_shift d m : Zpos (digits2_pos (Pos.iter xO m d)) = Zpos (digits2_pos m) + Zpos d.
Proof.
  induction d as [|d IH] using Pos.peano_ind; [cbn; lia|]. rewrite Pos.iter_succ. cbn [digits2_pos]. lia.
Qed.

Lemma normalize_valid m e s : valid_binary 53 1024 (binary_normalize 53 1024 m e s) = true.
Proof.
  assert (Hb : ∀ s p, valid_binary 53 1024 (binary_round 53 1024 s p e) = true).
  { intros s' p. unfold binary_round, shl_align. destruct (fexp 53 1024 (Zpos (digits2_pos p) + e) - e) as [|d|d] eqn:Hd.
    - apply round_aux_valid; cbn [Zdigits2]; lia.
    - apply round_aux_valid; cbn [Zdigits2]; lia.
    - apply round_aux_valid; [lia|]. cbn [Zdigits2]. rewrite digits2_shift. set (f := fexp 53 1024 (Zpos (digits2_pos p) + e)) in *.
      replace (Zpos (digits2_pos p) + Zpos d + f) with (Zpos (digits2_pos p) + e) by lia. subst f. lia. }
  destruct m; [done|apply Hb|apply Hb].
Qed.

Lemma div_valid x y : f_mag x → f_pos y → valid_binary 53 1024 (f_div x y) = true.
Proof.
  unfold f_div, SFdiv. destruct x as [[]|[]| |[] m1 e1], y as [|[]| |[] m2 e2]; try done; intros _ _. cbn [xorb].
  unfold SFdiv_core_binary. cbn [Zdigits2]. set (d1 := Zpos (digits2_pos m1)). set (d2 := Zpos (digits2_pos m2)).
  set (e' := Z.min _ _). set (m' := match _ with Zpos _ => _ | Z0 => _ | Zneg _ => _ end).
  assert (Hm : m' = Zpos m1 * 2 ^ (e1 - e2 - e')).
  { subst m'. destruct (e1 - e2 - e') as [|p|p] eqn:Hs; [lia| |lia]. apply Z.shiftl_mul_pow2. lia. }
  pose proof (Z.div_eucl_eq m' (Zpos m2)) as Hq. destruct (Z.div_eucl m' (Zpos m2)) as [q r] eqn:Hde.
  assert (Hqd : q = m' / Zpos m2) by (unfold Z.div; by rewrite Hde).
  assert (Hs0 : 0 ≤ e1 - e2 - e') by lia. assert (Hp : 0 < 2 ^ (e1 - e2 - e')) by (apply Z.pow_pos_nonneg; lia).
  apply round_aux_valid; [subst q; apply Z.div_pos; lia|].
  assert (Hdig : d1 + (e1 - e2 - e') - d2 ≤ Zdigits2 q).
  { destruct (Z.le_gt_cases (d1 + (e1 - e2 - e') - d2) 0) as [Hn|Hn].
    - assert (0 ≤ Zdigits2 q) by (destruct q; simpl; lia). lia.
    - replace (d1 + (e1 - e2 - e') - d2) with (d1 + (e1 - e2 - e') - d2 - 1 + 1) by lia. apply Zdigits2_ge; [lia|]. rewrite Hqd.
      apply Z.div_le_lower_bound; [lia|]. transitivity (2 ^ d2 * 2 ^ (d1 + (e1 - e2 - e') - d2 - 1)).
      + apply Z.mul_le_mono_nonneg_r; [apply Z.pow_nonneg; lia|]. apply Z.lt_le_incl, digits2_bound.
      + rewrite <- Z.pow_add_r by lia. rewrite Hm. replace (d2 + _) with ((d1 - 1) + (e1 - e2 - e')) by lia. rewrite Z.pow_add_r by lia.
        apply Z.mul_le_mono_nonneg_r; [lia|]. apply digits2_low. }
  unfold fexp in *. subst e'. lia.
Qed.

Lemma f_add_valid x y : valid_binary 53 1024 x = true → valid_binary 53 1024 y = true → valid_binary 53 1024 (f_add x y) = true.
Proof.
  unfold f_add, SFadd. destruct x as [[]|[]| |sx mx ex], y as [[]|[]| |sy my ey]; try done. intros _ _. apply normalize_valid.
Qed.

Lemma as_secs_valid d : 0 ≤ d → valid_binary 53 1024 (as_secs_f64 d) = true.
Proof.
  intros Hd. unfold as_secs_f64. apply f_add_valid; [apply normalize_valid|]. apply div_valid; [|by vm_compute].
  by apply f_of_Z_mag, Z.mod_pos_bound.
Qed.

(** ** Bits of a float *)

(** The fields of a word: sign, exponent, fraction. *)
Lemma bits_fields (s : bool) b f : 0 ≤ b < 2 ^ 11 → 0 ≤ f < 2 ^ 52 →
  let w := (if s then 2 ^ 63 else 0) + b * 2 ^ 52 + f in
  0 ≤ w < 2 ^ 64 ∧ Z.testbit w 63 = s ∧ w / 2 ^ 52 mod 2 ^ 11 = b ∧ w mod 2 ^ 52 = f.
Proof.
  intros Hb Hf. cbv zeta. set (h := (if s then 2 ^ 11 else 0) + b).
  assert (Hw : (if s then 2 ^ 63 else 0) + b * 2 ^ 52 + f = 2 ^ 52 * h + f) by (subst h; destruct s; lia). rewrite Hw.
  assert (Hh : 0 ≤ h < 2 ^ 12) by (subst h; destruct s; lia). split; [lia|]. split; [|split].
  - rewrite Z.testbit_odd, Z.shiftr_div_pow2 by lia. rewrite <- Hw. destruct s; [rewrite <- (Z.div_unique _ (2 ^ 63) 1 (b * 2 ^ 52 + f))|
      rewrite <- (Z.div_unique _ (2 ^ 63) 0 (b * 2 ^ 52 + f))]; try done; lia.
  - rewrite <- (Z.div_unique _ (2 ^ 52) h f) by lia. symmetry. apply (Z.mod_unique _ _ (if s then 1 else 0)); subst h; destruct s; lia.
  - symmetry. apply (Z.mod_unique _ _ h); lia.
Qed.

Lemma valid_bits x : valid_binary 53 1024 x = true → 0 ≤ f_bits x < 2 ^ 64 ∧ f_of_bits (f_bits x) = x.
Proof.
  destruct x as [[]|[]| |s m e]; [intros _; vm_compute; done..|]. cbn [valid_binary].
  unfold bounded, canonical_mantissa. rewrite andb_true_iff, Z.eqb_eq, Z.leb_le. unfold fexp. change (emin 53 1024) with (-1074).
  intros [Hc He]. pose proof (digits2_bound m) as Hd.
  assert (Hlim : Zpos m < 2 ^ 53) by (eapply Z.lt_le_trans; [exact Hd|apply Z.pow_le_mono_r; lia]).
  unfold f_bits, f_of_bits. destruct (Z.ltb_spec (Zpos m) (2 ^ 52)) as [H52|H52].
  - assert (Hdig : Zdigits2 (Zpos m) ≤ 52) by (apply Zdigits2_le; lia). cbn [Zdigits2] in Hdig.
    replace e with (-1074) by lia. pose proof (bits_fields s 0 (Zpos m) ltac:(lia) ltac:(lia)) as (H1 & H2 & H3 & H4).
    rewrite Z.mul_0_l, Z.add_0_r in H1, H2, H3, H4. split; [exact H1|]. by rewrite H2, H3, H4.
  - assert (Hdig : Zdigits2 (Zpos m) = 52 + 1) by (apply Zdigits2_eq; lia). cbn [Zdigits2] in Hdig.
    pose proof (bits_fields s (e + 1075) (Zpos m - 2 ^ 52) ltac:(lia) ltac:(lia)) as (H1 & H2 & H3 & H4).
    split; [exact H1|]. rewrite H2, H3, H4. rewrite (proj2 (Z.eqb_neq (e + 1075) 2047)), (proj2 (Z.eqb_neq (e + 1075) 0)) by lia.
    replace (Zpos m - 2 ^ 52 + 2 ^ 52) with (Zpos m) by lia. f_equal. lia.
Qed.
