(* ===== verification/Wire.v ===== *)
(** * Wire format: constants, flags byte, context byte, packet header

    Models [rns-wire/src/constants.rs], [flags.rs], [context.rs] and
    [header.rs].  Sizes are [nat], bytes are [Z].  Parsing functions index
    their input with the panicking accessors of the prelude, so absence of
    panics is a theorem and not a modelling choice. *)

From S2P Require Import Prelude.
From stdpp Require Import prelude list.

Open Scope Z_scope.

(** ** Protocol constants (constants.rs) *)

Definition MTU : nat := 500.
Definition TRUNCATED_HASHLENGTH : nat := 128.
Definition HASHLENGTH : nat := 256.
Definition KEYSIZE : nat := 512.
Definition TOKEN_OVERHEAD : nat := 48.
Definition AES128_BLOCKSIZE : nat := 16.
Definition HEADER_MINSIZE : nat := 2 + TRUNCATED_HASHLENGTH / 8 + 1.
Definition HEADER_MAXSIZE : nat := 2 + (TRUNCATED_HASHLENGTH / 8) * 2 + 1.
Definition MDU : nat := MTU - HEADER_MAXSIZE - 1.
Definition LINK_MDU : nat :=
  ((MTU - 1 - HEADER_MINSIZE - TOKEN_OVERHEAD) / AES128_BLOCKSIZE) * AES128_BLOCKSIZE - 1.
Definition SINGLE_PACKET_ENCRYPTED_MDU : nat :=
  ((MDU - TOKEN_OVERHEAD - KEYSIZE / 16) / AES128_BLOCKSIZE) * AES128_BLOCKSIZE - 1.
Definition EXPL_LENGTH : nat := 96.
Definition IMPL_LENGTH : nat := 64.

(** ** The flags byte (flags.rs) *)

Inductive PacketType := Data | Announce | LinkRequest | Proof.
Inductive DestinationType := Single | Group | Plain | Link.
Inductive HeaderType := Header1 | Header2.
Inductive TransportType := Broadcast | Transport.

#[export] Instance PacketType_eq_dec : EqDecision PacketType. Proof. solve_decision. Defined.
#[export] Instance DestinationType_eq_dec : EqDecision DestinationType. Proof. solve_decision. Defined.
#[export] Instance HeaderType_eq_dec : EqDecision HeaderType. Proof. solve_decision. Defined.
#[export] Instance TransportType_eq_dec : EqDecision TransportType. Proof. solve_decision. Defined.

Record PacketFlags := mkFlags {
  header_type : HeaderType;
  context_flag : bool;
  transport_type : TransportType;
  destination_type : DestinationType;
  packet_type : PacketType;
}.

#[export] Instance PacketFlags_eq_dec : EqDecision PacketFlags. Proof. solve_decision. Defined.

(** The [as u8] casts of the [repr(u8)] enums. *)
Definition PacketType_u8 (t : PacketType) : Z :=
  match t with Data => 0 | Announce => 1 | LinkRequest => 2 | Proof => 3 end.
Definition DestinationType_u8 (t : DestinationType) : Z :=
  match t with Single => 0 | Group => 1 | Plain => 2 | Link => 3 end.
Definition HeaderType_u8 (t : HeaderType) : Z :=
  match t with Header1 => 0 | Header2 => 1 end.
Definition TransportType_u8 (t : TransportType) : Z :=
  match t with Broadcast => 0 | Transport => 1 end.

(** [<<] on [u8] drops the bits shifted out. *)
Definition shl8 (a n : Z) : Z := Z.shiftl a n mod 256.

Definition flags_pack (f : PacketFlags) : Z :=
  let ht := shl8 (HeaderType_u8 f.(header_type)) 6 in
  let cf := shl8 (Z.b2z f.(context_flag)) 5 in
  let tt := shl8 (TransportType_u8 f.(transport_type)) 4 in
  let dt := shl8 (DestinationType_u8 f.(destination_type)) 2 in
  let pt := PacketType_u8 f.(packet_type) in
  Z.lor (Z.lor (Z.lor (Z.lor ht cf) tt) dt) pt.

(** The [unreachable!()] arms are panics. *)
Definition flags_unpack {E} (byte : Z) : res E (option PacketFlags) :=
  let* ht :=
    match Z.shiftr (Z.land byte 0x40) 6 with
    | 0 => Ok Header1 | 1 => Ok Header2 | _ => Panic end in
  let cf := negb (Z.shiftr (Z.land byte 0x20) 5 =? 0) in
  let* tt :=
    match Z.shiftr (Z.land byte 0x10) 4 with
    | 0 => Ok Broadcast | 1 => Ok Transport | _ => Panic end in
  let* dt :=
    match Z.shiftr (Z.land byte 0x0C) 2 with
    | 0 => Ok Single | 1 => Ok Group | 2 => Ok Plain | 3 => Ok Link | _ => Panic end in
  let* pt :=
    match Z.land byte 0x03 with
    | 0 => Ok Data | 1 => Ok Announce | 2 => Ok LinkRequest | 3 => Ok Proof | _ => Panic end in
  Ok (Some (mkFlags ht cf tt dt pt)).

(** ** The context byte (context.rs) *)

Inductive PacketContext :=
| CtxNone | Resource | ResourceAdv | ResourceReq | ResourceHmu | ResourcePrf | ResourceIcl
| ResourceRcl | CacheRequest | Request | Response | PathResponse | Command | CommandStatus
| Channel | Keepalive | LinkIdentify | LinkClose | LinkProof | Lrrtt | Lrproof
| Unknown (b : Z).

#[export] Instance PacketContext_eq_dec : EqDecision PacketContext. Proof. solve_decision. Defined.

Definition from_byte (byte : Z) : PacketContext :=
  match byte with
  | 0x00 => CtxNone | 0x01 => Resource | 0x02 => ResourceAdv | 0x03 => ResourceReq
  | 0x04 => ResourceHmu | 0x05 => ResourcePrf | 0x06 => ResourceIcl | 0x07 => ResourceRcl
  | 0x08 => CacheRequest | 0x09 => Request | 0x0A => Response | 0x0B => PathResponse
  | 0x0C => Command | 0x0D => CommandStatus | 0x0E => Channel | 0xFA => Keepalive
  | 0xFB => LinkIdentify | 0xFC => LinkClose | 0xFD => LinkProof | 0xFE => Lrrtt
  | 0xFF => Lrproof
  | other => Unknown other
  end.

Definition to_byte (c : PacketContext) : Z :=
  match c with
  | CtxNone => 0x00 | Resource => 0x01 | ResourceAdv => 0x02 | ResourceReq => 0x03
  | ResourceHmu => 0x04 | ResourcePrf => 0x05 | ResourceIcl => 0x06 | ResourceRcl => 0x07
  | CacheRequest => 0x08 | Request => 0x09 | Response => 0x0A | PathResponse => 0x0B
  | Command => 0x0C | CommandStatus => 0x0D | Channel => 0x0E | Keepalive => 0xFA
  | LinkIdentify => 0xFB | LinkClose => 0xFC | LinkProof => 0xFD | Lrrtt => 0xFE
  | Lrproof => 0xFF
  | Unknown b => b
  end.

Definition is_plaintext_context (c : PacketContext) : bool :=
  match c with
  | Resource | ResourcePrf | Keepalive | CacheRequest => true
  | _ => false
  end.

(** ** The packet header (header.rs) *)

Inductive HeaderError := TooShort (n : nat).

Record PacketHeader := mkHeader {
  flags : PacketFlags;
  hops : Z;
  transport_id : option bytes;
  destination_hash : bytes;
  context : PacketContext;
}.

Definition header_pack (h : PacketHeader) : bytes :=
  [flags_pack h.(flags); h.(hops)] ++
  match h.(transport_id) with Some tid => tid | None => [] end ++
  h.(destination_hash) ++
  [to_byte h.(context)].

Definition header_unpack (raw : bytes) : res HeaderError (PacketHeader * nat) :=
  if decide (length raw < HEADER_MINSIZE)%nat then Err (TooShort (length raw)) else
  let* b0 := idx raw 0 in
  let* fo := flags_unpack b0 in
  let* fl := ok_or fo (TooShort (length raw)) in
  let* hp := idx raw 1 in
  let hash_len := (TRUNCATED_HASHLENGTH / 8)%nat in
  match fl.(header_type) with
  | Header1 =>
      let* s := slice raw 2 (2 + hash_len) in
      let* dest_hash := copy_array 16 s in
      let* cb := idx raw (2 + hash_len) in
      let data_offset := (2 + hash_len + 1)%nat in
      Ok (mkHeader fl hp None dest_hash (from_byte cb), data_offset)
  | Header2 =>
      if decide (length raw < HEADER_MAXSIZE)%nat then Err (TooShort (length raw)) else
      let* s := slice raw 2 (2 + hash_len) in
      let* tid := copy_array 16 s in
      let* s' := slice raw (2 + hash_len) (2 + hash_len * 2) in
      let* dest_hash := copy_array 16 s' in
      let* cb := idx raw (2 + hash_len * 2) in
      let data_offset := (2 + hash_len * 2 + 1)%nat in
      Ok (mkHeader fl hp (Some tid) dest_hash (from_byte cb), data_offset)
  end.

Definition header_size (h : PacketHeader) : nat :=
  if decide (is_Some h.(transport_id)) then HEADER_MAXSIZE else HEADER_MINSIZE.

(** ** Well-formedness

    The documented contract of [PacketHeader]: the transport id is present
    exactly for Header2.  A context is canonical when it is the decoding of its
    own byte, which excludes [Unknown] carrying a known byte. *)

Definition ctx_ok (c : PacketContext) : Prop := u8 (to_byte c) ∧ from_byte (to_byte c) = c.

Definition header_ok (h : PacketHeader) : Prop :=
  u8 h.(hops) ∧ array_ok 16 h.(destination_hash) ∧ ctx_ok h.(context) ∧
  match h.(transport_id) with
  | Some tid => array_ok 16 tid ∧ h.(flags).(header_type) = Header2
  | None => h.(flags).(header_type) = Header1
  end.

#[export] Instance header_ok_dec h : Decision (header_ok h).
Proof. unfold header_ok, ctx_ok. destruct (transport_id h); apply _. Defined.

(** ** Flags and context lemmas *)

Lemma flags_unpack_pack {E} (f : PacketFlags) : flags_unpack (flags_pack f) = @Ok E _ (Some f).
Proof. by destruct f as [[] [] [] [] []]. Qed.

Lemma flags_pack_range f : 0 ≤ flags_pack f < 128.
Proof. by destruct f as [[] [] [] [] []]. Qed.

(** Unpacking is total on bytes and repacking clears exactly bit 7. *)
Lemma flags_unpack_total {E} b :
  u8 b → ∃ f, flags_unpack b = @Ok E _ (Some f) ∧ flags_pack f = Z.land b 0x7F.
Proof.
  intros Hb.
  set (ok x := match @flags_unpack E x with
               | Ok (Some f) => flags_pack f =? Z.land x 0x7F | _ => false end).
  assert (H : ok b = true) by (apply (range_forallb ok 256 b); [vm_compute; reflexivity|exact Hb]).
  unfold ok in H. destruct (flags_unpack b) as [[f|]| |]; try done.
  exists f. split; [done|]. by apply Z.eqb_eq.
Qed.

Lemma to_from_byte b : to_byte (from_byte b) = b.
Proof. destruct b as [|p|p]; try done. do 9 (try destruct p as [p|p|]); done. Qed.

Lemma from_byte_ok b : u8 b → ctx_ok (from_byte b).
Proof. intros Hb. split; by rewrite to_from_byte. Qed.

Lemma header_pack_ok h : header_ok h → bytes_ok (header_pack h).
Proof.
  intros (Hh & [_ Hd] & [Hc _] & Ht). unfold header_pack.
  pose proof (flags_pack_range (flags h)).
  rewrite !bytes_ok_app, !bytes_ok_cons. unfold u8 in *.
  repeat split; try done; try lia; [constructor| |constructor].
  destruct (transport_id h); [apply Ht|constructor].
Qed.

Lemma length_header_pack h : header_ok h → length (header_pack h) = header_size h.
Proof.
  intros (_ & [Hd _] & _ & Ht). unfold header_pack, header_size.
  destruct (transport_id h) as [t|].
  - rewrite decide_True by done. destruct Ht as [[Ht _] _]. rewrite !length_app, Ht, Hd. done.
  - rewrite decide_False by (by intros [? ?]). rewrite !length_app, Hd. done.
Qed.

(** ** Properties *)

(** Header round trip: for every header that satisfies the documented
    contract and every payload, [PacketHeader::unpack] of the packed header
    followed by the payload returns that header and the offset at which the
    payload starts. *)
Theorem header_roundtrip h data :
  header_ok h → header_unpack (header_pack h ++ data) = Ok (h, header_size h).
Proof.
  intros Hok. pose proof (length_header_pack h Hok) as Hlen.
  destruct Hok as (Hh & [Hd _] & [Hc Hcc] & Ht).
  unfold header_unpack. rewrite decide_False.
  2:{ rewrite length_app, Hlen. unfold header_size. case_decide; cbn; lia. }
  clear Hlen. destruct h as [f hp tid dest ctx]; simpl in *.
  unfold header_pack; simpl.
  rewrite flags_unpack_pack; simpl.
  destruct tid as [t|].
  - destruct Ht as [[Ht _] ->]. rewrite decide_False.
    2:{ simpl. rewrite !length_app, Ht, Hd. simpl. cbn. lia. }
    rewrite (slice_at [flags_pack f; hp] t (dest ++ [to_byte ctx] ++ data)) by seg. simpl.
    rewrite copy_array_ok by done. simpl.
    rewrite (slice_at (flags_pack f :: hp :: t) dest ([to_byte ctx] ++ data)) by seg. simpl.
    rewrite copy_array_ok by done. simpl.
    rewrite (idx_at (flags_pack f :: hp :: t ++ dest) (to_byte ctx) data) by seg.
    simpl. by rewrite Hcc.
  - rewrite Ht. simpl.
    rewrite (slice_at [flags_pack f; hp] dest ([to_byte ctx] ++ data)) by seg. simpl.
    rewrite copy_array_ok by done. simpl.
    rewrite (idx_at (flags_pack f :: hp :: dest) (to_byte ctx) data) by seg.
    simpl. by rewrite Hcc.
Qed.

(** Every sufficiently long list splits around a position. *)
Lemma split_around {A} (l : list A) n :
  (n < length l)%nat → ∃ x, l = take n l ++ x :: drop (S n) l.
Proof.
  intros Hn. destruct (lookup_lt_is_Some_2 l n Hn) as [x Hx].
  exists x. by rewrite take_drop_middle.
Qed.

Lemma header_unpack_h1 f b0 b1 dest cb data :
  flags_unpack b0 = @Ok HeaderError _ (Some f) → f.(header_type) = Header1 → length dest = 16%nat →
  header_unpack (b0 :: b1 :: dest ++ cb :: data) =
    Ok (mkHeader f b1 None dest (from_byte cb), 19%nat).
Proof.
  intros Hf Hty Hd. unfold header_unpack.
  rewrite decide_False by (simpl; rewrite length_app, Hd; cbn; lia).
  simpl. rewrite Hf; simpl. rewrite Hty; simpl.
  rewrite (slice_at [b0; b1] dest (cb :: data)) by seg. simpl.
  rewrite copy_array_ok by done. simpl.
  by rewrite (idx_at (b0 :: b1 :: dest) cb data) by seg.
Qed.

Lemma header_unpack_h2 f b0 b1 tid dest cb data :
  flags_unpack b0 = @Ok HeaderError _ (Some f) → f.(header_type) = Header2 →
  length tid = 16%nat → length dest = 16%nat →
  header_unpack (b0 :: b1 :: tid ++ dest ++ cb :: data) =
    Ok (mkHeader f b1 (Some tid) dest (from_byte cb), 35%nat).
Proof.
  intros Hf Hty Ht Hd. unfold header_unpack.
  rewrite decide_False by (simpl; rewrite !length_app, Ht, Hd; cbn; lia).
  simpl. rewrite Hf; simpl. rewrite Hty; simpl.
  rewrite decide_False by (simpl; rewrite !length_app, Ht, Hd; cbn; lia).
  rewrite (slice_at [b0; b1] tid (dest ++ cb :: data)) by seg. simpl.
  rewrite copy_array_ok by done. simpl.
  rewrite (slice_at (b0 :: b1 :: tid) dest (cb :: data)) by seg. simpl.
  rewrite copy_array_ok by done. simpl.
  by rewrite (idx_at (b0 :: b1 :: tid ++ dest) cb data) by seg.
Qed.

Lemma header_type_bit f b :
  flags_pack f = Z.land b 0x7F → f.(header_type) = if Z.testbit b 6 then Header2 else Header1.
Proof.
  intros H. assert (Hb : Z.testbit (flags_pack f) 6 = Z.testbit b 6).
  { rewrite H, Z.land_spec. apply andb_true_r. }
  rewrite <- Hb. by destruct f as [[] [] [] [] []].
Qed.

(** Header parsing is total and lossless on arbitrary bytes:
    [PacketHeader::unpack] never panics; it fails exactly when the input is
    shorter than the header its flags byte announces; on success the header is
    well-formed, the offset is its size and lies inside the input, and packing
    the header again gives back the input except for bit 7 of the flags byte,
    which the interface access-control layer owns. *)
Theorem header_unpack_total raw :
  bytes_ok raw →
  match header_unpack raw with
  | Ok (h, off) =>
      header_ok h ∧ off = header_size h ∧ (off ≤ length raw)%nat ∧
      ∃ b0 rest, raw = b0 :: rest ∧ header_pack h ++ drop off raw = Z.land b0 0x7F :: rest
  | Err (TooShort n) =>
      n = length raw ∧
      ((length raw < 19)%nat ∨
       (length raw < 35)%nat ∧ ∃ b0, raw !! 0%nat = Some b0 ∧ Z.testbit b0 6 = true)
  | Panic => False
  end.
Proof.
  intros Hok. destruct (decide (length raw < 19)%nat) as [Hs|Hs].
  { unfold header_unpack. rewrite decide_True by done. auto. }
  destruct raw as [|b0 [|b1 rest]]; simpl in Hs; try lia.
  apply bytes_ok_cons in Hok as [Hb0 Hok]. apply bytes_ok_cons in Hok as [Hb1 Hr].
  destruct (@flags_unpack_total HeaderError b0 Hb0) as (f & Hf & Hp).
  pose proof (header_type_bit f b0 Hp) as Hty.
  destruct (Z.testbit b0 6) eqn:Hbit.
  - destruct (decide (length rest < 33)%nat) as [Hs2|Hs2].
    { unfold header_unpack. rewrite decide_False by (simpl; cbn; lia).
      simpl. rewrite Hf; simpl. rewrite Hty, decide_True by (simpl; cbn; lia).
      split; [done|]. right. split; [simpl; lia|]. by exists b0. }
    destruct (split_around (drop 16 rest) 16) as [cb Hcb]; [rewrite length_drop; lia|].
    rewrite <- (take_drop 16 rest) in Hr |- *. rewrite Hcb in Hr |- *.
    set (tid := take 16 rest) in *. set (dest := take 16 (drop 16 rest)) in *.
    set (data := drop 17 (drop 16 rest)) in *.
    assert (Ht : length tid = 16%nat) by (unfold tid; rewrite length_take; lia).
    assert (Hd : length dest = 16%nat)
      by (unfold dest; rewrite length_take, length_drop; lia).
    rewrite (header_unpack_h2 f) by done.
    rewrite !bytes_ok_app, bytes_ok_cons in Hr. destruct Hr as (? & ? & ? & ?).
    split; [unfold header_ok, array_ok; simpl; auto 10 using from_byte_ok|]. split; [done|].
    split; [simpl; rewrite !length_app; simpl; lia|]. exists b0, (b1 :: tid ++ dest ++ cb :: data).
    split; [done|]. unfold header_pack; simpl. rewrite Hp, to_from_byte. do 2 f_equal.
    rewrite <- !app_assoc. do 2 f_equal. simpl. f_equal.
    replace 33%nat with (length tid + (length dest + 1))%nat by lia.
    rewrite !drop_app_add. done.
  - destruct (split_around rest 16) as [cb Hcb]; [lia|].
    rewrite Hcb in Hr |- *.
    set (dest := take 16 rest) in *. set (data := drop 17 rest) in *.
    assert (Hd : length dest = 16%nat) by (unfold dest; rewrite length_take; lia).
    rewrite (header_unpack_h1 f) by done.
    rewrite !bytes_ok_app, bytes_ok_cons in Hr. destruct Hr as (? & ? & ?).
    split; [unfold header_ok, array_ok; simpl; auto 10 using from_byte_ok|]. split; [done|].
    split; [simpl; rewrite !length_app; simpl; lia|]. exists b0, (b1 :: dest ++ cb :: data).
    split; [done|]. unfold header_pack; simpl. rewrite Hp, to_from_byte. do 2 f_equal.
    rewrite <- !app_assoc. do 2 f_equal. simpl.
    replace 17%nat with (length dest + 1)%nat by lia. by rewrite drop_app_add.
Qed.

(** ** Witnesses *)

Definition ex_wire_header : PacketHeader :=
  mkHeader (mkFlags Header2 false Transport Single Data) 3 (Some (replicate 16 0xBB))
    (replicate 16 0xCC) CtxNone.

Lemma header_roundtrip_witness :
  header_ok ex_wire_header ∧
  header_unpack (header_pack ex_wire_header ++ [1; 2]) = Ok (ex_wire_header, 35%nat).
Proof.
  assert (H : header_ok ex_wire_header) by (apply (bool_decide_eq_true_1 _); vm_compute; reflexivity).
  split; [exact H|]. exact (header_roundtrip ex_wire_header [1; 2] H).
Defined.

Lemma header_unpack_total_witness :
  ∃ h, header_unpack (0x81 :: replicate 20 7) = Ok (h, 19%nat) ∧ header_ok h.
Proof.
  assert (Hb : bytes_ok (0x81 :: replicate 20 7))
    by (apply (bool_decide_eq_true_1 _); vm_compute; reflexivity).
  pose proof (header_unpack_total _ Hb) as H.
  destruct (header_unpack (0x81 :: replicate 20 7)) as [[h off]|e|] eqn:Hu;
    vm_compute in Hu; [|discriminate..].
  injection Hu as <- <-. eexists. split; [reflexivity|]. exact (proj1 H).
Defined.
