(* ===== verification/Packet.v ===== *)
(** * Packet hashes and the parsed packet

    Models [rns-wire/src/hash.rs], [rns-wire/src/packet.rs] and the digest
    wrappers of [rns-crypto/src/sha.rs].  The SHA-256 implementation itself is
    the third-party [sha2] crate: it enters as the class [Digest] of its
    incremental interface, with the documented laws in [DigestLaws]. *)

From S2P Require Import Prelude Wire.
From stdpp Require Import prelude list.

Open Scope Z_scope.

(** ** The [sha2::Digest] interface *)

Class Digest := {
  hasher : Type;
  hasher_new : hasher;
  hasher_update : hasher → bytes → hasher;
  hasher_finalize : hasher → bytes;
}.

(** Feeding two chunks is feeding their concatenation; the output is an array
    of 32 bytes. *)
Class DigestLaws (D : Digest) : Prop := {
  digest_update_app : ∀ h a b, hasher_update (hasher_update h a) b = hasher_update h (a ++ b);
  digest_update_nil : ∀ h, hasher_update h [] = h;
  digest_length : ∀ h, length (hasher_finalize h) = 32%nat;
  digest_bytes : ∀ h, bytes_ok (hasher_finalize h);
}.

Section hashes.
Context `{D : Digest}.

(** ** rns-crypto/src/sha.rs *)

Definition sha256 (data : bytes) : bytes := hasher_finalize (hasher_update hasher_new data).

Definition truncated_hash {E} (data : bytes) : res E bytes :=
  let full := sha256 data in
  let* s := slice_to full 16 in
  copy_array 16 s.

(** ** rns-wire/src/hash.rs *)

Definition get_hashable_part {E} (raw : bytes) (ht : HeaderType) : res E bytes :=
  let* b0 := idx raw 0 in
  let hashable := [Z.land b0 0x0F] in
  match ht with
  | Header2 =>
      let skip := (TRUNCATED_HASHLENGTH / 8 + 2)%nat in
      if decide (skip < length raw)%nat
      then (let* s := slice_from raw skip in Ok (hashable ++ s)) else Ok hashable
  | Header1 =>
      if decide (2 < length raw)%nat
      then (let* s := slice_from raw 2 in Ok (hashable ++ s)) else Ok hashable
  end.

Definition packet_hash {E} (raw : bytes) (ht : HeaderType) : res E bytes :=
  let* b0 := idx raw 0 in
  let h := hasher_update hasher_new [Z.land b0 0x0F] in
  let skip := match ht with Header2 => (TRUNCATED_HASHLENGTH / 8 + 2)%nat | Header1 => 2%nat end in
  if decide (skip < length raw)%nat
  then (let* s := slice_from raw skip in Ok (hasher_finalize (hasher_update h s)))
  else Ok (hasher_finalize h).

Definition truncated_packet_hash {E} (raw : bytes) (ht : HeaderType) : res E bytes :=
  let* full := packet_hash raw ht in
  let* s := slice_to full 16 in
  copy_array 16 s.

Definition packet_hash_pair {E} (raw : bytes) (ht : HeaderType) : res E (bytes * bytes) :=
  let* full := packet_hash raw ht in
  let* s := slice_to full 16 in
  let* trunc := copy_array 16 s in
  Ok (full, trunc).

Definition ECPUBSIZE : nat := 64.

Definition link_id_from_raw {E} (raw : bytes) (ht : HeaderType) : res E bytes :=
  let* hashable := get_hashable_part raw ht in
  let header_in_hashable := (1 + 16 + 1)%nat in
  let data_in_hashable := (length hashable - header_in_hashable)%nat in
  let hashable :=
    if decide (ECPUBSIZE < data_in_hashable)%nat then
      let diff := (data_in_hashable - ECPUBSIZE)%nat in
      take (length hashable - diff) hashable
    else hashable in
  truncated_hash hashable.

(** ** rns-wire/src/packet.rs *)

Inductive PacketError :=
| ExceedsMtu (n : nat)
| Header (e : HeaderError)
| PacketTooShort.

Record Packet := mkPacket {
  header : PacketHeader;
  raw : bytes;
  data_offset : nat;
  p_hash : bytes;
  p_truncated_hash : bytes;
}.

Definition packet_data {E} (p : Packet) : res E bytes := slice_from p.(raw) p.(data_offset).

Definition packet_new (h : PacketHeader) (data : bytes) : res PacketError Packet :=
  let r := header_pack h in
  let off := length r in
  let r := r ++ data in
  if decide (MTU < length r)%nat then Err (ExceedsMtu (length r)) else
  let* hash := packet_hash r h.(flags).(header_type) in
  let* trunc := truncated_packet_hash r h.(flags).(header_type) in
  Ok (mkPacket h r off hash trunc).

Definition from_raw_owned (r : bytes) : res PacketError Packet :=
  if decide (length r < 19)%nat then Err PacketTooShort else
  let* '(h, off) := map_err Header (header_unpack r) in
  let* hash := packet_hash r h.(flags).(header_type) in
  let* trunc := truncated_packet_hash r h.(flags).(header_type) in
  Ok (mkPacket h r off hash trunc).

Definition from_raw (r : bytes) : res PacketError Packet := from_raw_owned r.

Definition set_hops (h : PacketHeader) (n : Z) : PacketHeader :=
  mkHeader h.(flags) n h.(transport_id) h.(destination_hash) h.(context).

Definition increment_hops (p : Packet) : Packet :=
  if p.(header).(hops) <? 255 then
    let h := set_hops p.(header) (p.(header).(hops) + 1) in
    let r := if decide (1 < length p.(raw))%nat then <[1%nat := h.(hops)]> p.(raw) else p.(raw) in
    mkPacket h r p.(data_offset) p.(p_hash) p.(p_truncated_hash)
  else p.

End hashes.

(** ** What the hash covers *)

(** The hash-stable part of a packet: the low nibble of the flags byte
    (destination and packet type), the destination hash, the context byte and
    the payload. *)
Definition hash_stable (h : PacketHeader) (data : bytes) : bytes :=
  [Z.lor (DestinationType_u8 h.(flags).(destination_type) * 4) (PacketType_u8 h.(flags).(packet_type))]
  ++ h.(destination_hash) ++ [to_byte h.(context)] ++ data.

Lemma flags_low_nibble f :
  Z.land (flags_pack f) 0x0F =
  Z.lor (DestinationType_u8 f.(destination_type) * 4) (PacketType_u8 f.(packet_type)).
Proof. by destruct f as [[] [] [] [] []]. Qed.

Lemma hashable_part_packed {E} h data :
  header_ok h →
  get_hashable_part (header_pack h ++ data) h.(flags).(header_type) = @Ok E _ (hash_stable h data).
Proof.
  intros (Hh & [Hd _] & _ & Ht). unfold get_hashable_part, hash_stable, header_pack.
  rewrite (idx_ok _ 0 (flags_pack (flags h))) by done. cbn [res_bind].
  rewrite flags_low_nibble. destruct (transport_id h) as [t|].
  - destruct Ht as [[Hl _] ->].
    rewrite decide_True, slice_from_ok by (simpl; rewrite !length_app, Hl, Hd; cbn; lia).
    cbn [res_bind]. simpl. rewrite <- !app_assoc.
    replace 16%nat with (length t). by rewrite drop_app_length.
  - rewrite Ht, decide_True, slice_from_ok by (simpl; rewrite !length_app, Hd; cbn; lia).
    cbn [res_bind]. simpl. by rewrite <- !app_assoc.
Qed.

Lemma hash_stable_inj h1 h2 d1 d2 :
  length h1.(destination_hash) = length h2.(destination_hash) →
  hash_stable h1 d1 = hash_stable h2 d2 →
  h1.(flags).(destination_type) = h2.(flags).(destination_type) ∧
  h1.(flags).(packet_type) = h2.(flags).(packet_type) ∧
  h1.(destination_hash) = h2.(destination_hash) ∧
  to_byte h1.(context) = to_byte h2.(context) ∧ d1 = d2.
Proof.
  intros Hl [= Hf [Hd [= Hc ->]]%app_inj_1]; [|done].
  destruct h1 as [[? ? ? dt1 pt1] ? ? ? ?], h2 as [[? ? ? dt2 pt2] ? ? ? ?]; simpl in *.
  repeat split; try done; by destruct dt1, dt2, pt1, pt2.
Qed.

(** The hashable part of a packet identifies it across forwarding: for two
    packets with well-formed headers, the bytes that enter the packet hash
    agree exactly when destination type, packet type, destination hash,
    context and payload agree.  Hop count, transport type, context flag,
    header layout and transport id never matter. *)
Theorem hashable_part_identity h1 h2 d1 d2 :
  header_ok h1 → header_ok h2 →
  (get_hashable_part (E:=Empty_set) (header_pack h1 ++ d1) h1.(flags).(header_type) =
     get_hashable_part (header_pack h2 ++ d2) h2.(flags).(header_type)
   ↔ h1.(flags).(destination_type) = h2.(flags).(destination_type) ∧
     h1.(flags).(packet_type) = h2.(flags).(packet_type) ∧
     h1.(destination_hash) = h2.(destination_hash) ∧ h1.(context) = h2.(context) ∧ d1 = d2).
Proof.
  intros H1 H2. rewrite !hashable_part_packed by done.
  destruct H1 as (_ & [Hl1 _] & [_ Hc1] & _), H2 as (_ & [Hl2 _] & [_ Hc2] & _). split.
  - intros Heq. assert (H : hash_stable h1 d1 = hash_stable h2 d2) by congruence.
    apply hash_stable_inj in H as (? & ? & ? & Hc & ?); [|congruence].
    repeat split; try done. congruence.
  - intros (Hdt & Hpt & Hd & Hc & ->). unfold hash_stable. by rewrite Hdt, Hpt, Hd, Hc.
Qed.

Section packet_facts.
Context `{L : DigestLaws}.

Lemma packet_hash_sha256 {E} r ht hp :
  get_hashable_part r ht = @Ok E _ hp → packet_hash r ht = @Ok E _ (sha256 hp).
Proof.
  unfold get_hashable_part, packet_hash, sha256. destruct (idx r 0) as [b0|e|]; cbn [res_bind]; try done.
  destruct ht; case_decide; try (intros [= <-]; done);
    rewrite slice_from_ok by lia; cbn [res_bind]; intros [= <-]; by rewrite digest_update_app.
Qed.

Lemma sha256_length l : length (sha256 l) = 32%nat.
Proof. apply digest_length. Qed.

Lemma truncate32 {E} (l : bytes) : length l = 32%nat → (let* s := slice_to l 16 in copy_array 16 s) = @Ok E _ (take 16 l).
Proof. intros H. rewrite slice_to_ok by lia. cbn. rewrite copy_array_ok; [done|]. rewrite length_take. lia. Qed.

Lemma truncated_hash_ok {E} l : truncated_hash l = @Ok E _ (take 16 (sha256 l)).
Proof. unfold truncated_hash. apply truncate32, sha256_length. Qed.

Lemma truncated_packet_hash_sha256 {E} r ht hp :
  get_hashable_part r ht = @Ok E _ hp → truncated_packet_hash r ht = @Ok E _ (take 16 (sha256 hp)).
Proof.
  intros H. unfold truncated_packet_hash. rewrite (packet_hash_sha256 _ _ _ H). cbn [res_bind].
  apply truncate32, sha256_length.
Qed.

(** The hashable part as a total function of the bytes. *)
Definition hashable_bytes (r : bytes) (ht : HeaderType) : bytes :=
  match r with
  | [] => []
  | b0 :: _ => Z.land b0 0x0F :: drop (match ht with Header2 => 18 | Header1 => 2 end) r
  end.

Lemma get_hashable_part_total {E} r ht :
  r ≠ [] → get_hashable_part r ht = @Ok E _ (hashable_bytes r ht).
Proof.
  destruct r as [|b0 r]; [done|]. intros _. unfold get_hashable_part, hashable_bytes.
  rewrite (idx_ok _ 0 b0) by done. cbn [res_bind].
  destruct ht; case_decide; rewrite ?slice_from_ok by lia; cbn [res_bind]; try done;
    by rewrite drop_ge by (cbn in *; lia).
Qed.

(** The streaming packet hash is the reference definition: on every
    nonempty packet [packet_hash] returns SHA-256 of [get_hashable_part], and
    [truncated_packet_hash] and [packet_hash_pair] return its first 16 bytes;
    none of them panics. *)
Theorem packet_hash_streaming {E} r ht :
  r ≠ [] →
  ∃ hp, get_hashable_part r ht = @Ok E _ hp ∧
    packet_hash r ht = @Ok E _ (sha256 hp) ∧
    truncated_packet_hash r ht = @Ok E _ (take 16 (sha256 hp)) ∧
    packet_hash_pair r ht = @Ok E _ (sha256 hp, take 16 (sha256 hp)).
Proof.
  intros Hp%(get_hashable_part_total (E:=E) r ht). eexists.
  pose proof (packet_hash_sha256 _ _ _ Hp) as Hh. split; [done|]. split; [done|].
  split; [by apply truncated_packet_hash_sha256|]. unfold packet_hash_pair. rewrite Hh. cbn [res_bind].
  rewrite slice_to_ok by (rewrite sha256_length; lia). cbn [res_bind].
  rewrite copy_array_ok; [done|]. rewrite length_take, sha256_length. done.
Qed.

(** ** The packet invariant *)

(** Every cached field agrees with the raw bytes. *)
Definition packet_ok (p : Packet) : Prop :=
  bytes_ok p.(raw) ∧ header_unpack p.(raw) = Ok (p.(header), p.(data_offset)) ∧
  packet_hash p.(raw) p.(header).(flags).(header_type) = @Ok Empty_set _ p.(p_hash) ∧
  truncated_packet_hash p.(raw) p.(header).(flags).(header_type) = @Ok Empty_set _ p.(p_truncated_hash).

Lemma packet_ok_hashes p :
  packet_ok p →
  p.(p_hash) = sha256 (hashable_bytes p.(raw) p.(header).(flags).(header_type)) ∧
  p.(p_truncated_hash) = take 16 (sha256 (hashable_bytes p.(raw) p.(header).(flags).(header_type))).
Proof.
  intros (_ & Hu & Hh & Ht).
  assert (Hne : raw p ≠ []) by (intros E; by rewrite E in Hu).
  pose proof (@get_hashable_part_total Empty_set _ (header_type (flags (header p))) Hne) as Hp.
  rewrite (packet_hash_sha256 _ _ _ Hp) in Hh.
  rewrite (truncated_packet_hash_sha256 _ _ _ Hp) in Ht. by simplify_eq.
Qed.

Lemma packet_ok_intro r h off hp ht :
  bytes_ok r → header_unpack r = Ok (h, off) → ht = h.(flags).(header_type) →
  hp = hashable_bytes r ht → packet_ok (mkPacket h r off (sha256 hp) (take 16 (sha256 hp))).
Proof.
  intros Hr Hu -> ->. assert (Hne : r ≠ []) by (intros ->; done).
  pose proof (@get_hashable_part_total Empty_set _ (header_type (flags h)) Hne) as Hp.
  repeat split; try done.
  - by apply packet_hash_sha256.
  - by apply truncated_packet_hash_sha256.
Qed.

Lemma hashable_bytes_packed h data :
  header_ok h → hashable_bytes (header_pack h ++ data) h.(flags).(header_type) = hash_stable h data.
Proof.
  intros Hh. pose proof (hashable_part_packed (E:=Empty_set) h data Hh) as H.
  rewrite get_hashable_part_total in H by done. congruence.
Qed.

Lemma packet_new_eq h data :
  header_ok h → (length (header_pack h ++ data) ≤ MTU)%nat →
  packet_new h data =
    Ok (mkPacket h (header_pack h ++ data) (header_size h) (sha256 (hash_stable h data))
          (take 16 (sha256 (hash_stable h data)))).
Proof.
  intros Hh Hl. unfold packet_new. rewrite decide_False by lia.
  rewrite (packet_hash_sha256 _ _ _ (hashable_part_packed h data Hh)). cbn [res_bind].
  rewrite (truncated_packet_hash_sha256 _ _ _ (hashable_part_packed h data Hh)). cbn [res_bind].
  by rewrite length_header_pack.
Qed.

(** [Packet::new] and [Packet::from_raw] are inverse: a packet built from a
    well-formed header and payload that fits the MTU satisfies the invariant,
    exposes that payload, and parsing its raw bytes rebuilds the same packet;
    beyond the MTU construction returns [ExceedsMtu] with the packed size. *)
Theorem packet_new_roundtrip h data :
  header_ok h → bytes_ok data →
  if decide (header_size h + length data ≤ MTU)%nat then
    ∃ p, packet_new h data = Ok p ∧ packet_ok p ∧ p.(header) = h ∧
      packet_data p = @Ok Empty_set _ data ∧ from_raw p.(raw) = Ok p
  else packet_new h data = Err (ExceedsMtu (header_size h + length data)).
Proof.
  intros Hh Hd. pose proof (length_header_pack h Hh) as Hl.
  assert (Hlen : length (header_pack h ++ data) = (header_size h + length data)%nat)
    by (rewrite length_app; lia).
  case_decide as Hc.
  - rewrite packet_new_eq by (done || lia). eexists. split; [done|].
    pose proof (header_roundtrip h data Hh) as Hu.
    split; [|split; [done|split]].
    + eapply packet_ok_intro; [|done..|by rewrite hashable_bytes_packed].
      apply bytes_ok_app. split; [by apply header_pack_ok|done].
    + unfold packet_data. cbn [raw data_offset]. rewrite slice_from_ok by (rewrite Hlen; lia).
      rewrite <- Hl. by rewrite drop_app_length.
    + cbn [raw]. unfold from_raw, from_raw_owned. rewrite decide_False.
      2:{ rewrite Hlen. unfold header_size. case_decide; cbn; lia. }
      rewrite Hu. cbn [map_err res_bind].
      rewrite (packet_hash_sha256 _ _ _ (hashable_part_packed h data Hh)). cbn [res_bind].
      by rewrite (truncated_packet_hash_sha256 _ _ _ (hashable_part_packed h data Hh)).
  - unfold packet_new. rewrite decide_True by lia. by rewrite Hlen.
Qed.

(** [Packet::from_raw] is total on arbitrary bytes: it never panics, and
    whatever it accepts satisfies the packet invariant with the input as its
    raw bytes. *)
Theorem from_raw_total r :
  bytes_ok r →
  match from_raw r with
  | Ok p => packet_ok p ∧ p.(raw) = r
  | Err _ => (length r < 35)%nat
  | Panic => False
  end.
Proof.
  intros Hr. unfold from_raw, from_raw_owned. case_decide; [lia|].
  pose proof (header_unpack_total r Hr) as Hu.
  destruct (header_unpack r) as [[h off]|[n]|] eqn:Hh; cbn [map_err res_bind]; [|lia|done].
  assert (Hne : r ≠ []) by (intros ->; done).
  pose proof (@get_hashable_part_total PacketError _ (header_type (flags h)) Hne) as Hp.
  rewrite (packet_hash_sha256 _ _ _ Hp), (truncated_packet_hash_sha256 _ _ _ Hp). cbn [res_bind].
  split; [|done]. by eapply packet_ok_intro.
Qed.

Lemma header_unpack_hops b0 b1 n rest h off :
  header_unpack (b0 :: b1 :: rest) = Ok (h, off) →
  h.(hops) = b1 ∧ header_unpack (b0 :: n :: rest) = Ok (set_hops h n, off).
Proof.
  unfold header_unpack. change (length (b0 :: n :: rest)) with (length (b0 :: b1 :: rest)).
  case_decide; [done|]. rewrite (idx_ok (b0 :: b1 :: rest) 0 b0), (idx_ok (b0 :: n :: rest) 0 b0) by done.
  cbn [res_bind]. destruct (flags_unpack b0) as [[f|]| |]; cbn [res_bind ok_or]; try done.
  rewrite (idx_ok (b0 :: b1 :: rest) 1 b1), (idx_ok (b0 :: n :: rest) 1 n) by done. cbn [res_bind].
  assert (Hsl : ∀ a b, slice (E:=HeaderError) (b0 :: n :: rest) (S (S a)) b =
                       slice (b0 :: b1 :: rest) (S (S a)) b) by done.
  assert (Hix : ∀ a, idx (E:=HeaderError) (b0 :: n :: rest) (S (S a)) = idx (b0 :: b1 :: rest) (S (S a))) by done.
  cbn [Nat.add]. rewrite !Hsl, !Hix.
  destruct (header_type f); [|case_decide; [done|]];
    intros H'; repeat (apply res_bind_Ok_inv in H' as (? & -> & H'); cbn [res_bind]); by simplify_eq.
Qed.

(** Forwarding preserves the packet: [increment_hops] keeps the invariant
    (raw bytes, header and cached hashes stay consistent), increments the hop
    count saturating at 255, and changes neither hash nor payload. *)
Theorem increment_hops_ok p :
  packet_ok p →
  packet_ok (increment_hops p) ∧
  (increment_hops p).(header).(hops) = Z.min (p.(header).(hops) + 1) 255 ∧
  (increment_hops p).(p_hash) = p.(p_hash) ∧
  (increment_hops p).(p_truncated_hash) = p.(p_truncated_hash) ∧
  packet_data (E:=Empty_set) (increment_hops p) = packet_data p.
Proof.
  intros Hok. pose proof Hok as (Hb & Hu & _). pose proof (packet_ok_hashes p Hok) as [Hh Ht].
  pose proof (header_unpack_total _ Hb) as Htot. rewrite Hu in Htot.
  destruct Htot as ((Hhops & _) & Hoff & Hle & _).
  assert (19 ≤ data_offset p)%nat by (rewrite Hoff; unfold header_size; case_decide; cbn; lia).
  destruct p as [h r off ph pt]; simpl in *. unfold increment_hops; simpl.
  destruct (Z.ltb_spec (hops h) 255); simpl; [|unfold u8 in Hhops; repeat split; try done; [apply Hok..|lia]].
  destruct r as [|b0 [|b1 rest]]; simpl in *; try lia.
  destruct (header_unpack_hops b0 b1 (hops h + 1) rest h off Hu) as [Hh1 Hu'].
  rewrite !bytes_ok_cons in Hb. destruct Hb as (? & ? & ?).
  split_and!; try done; [|lia|].
  - subst ph pt. apply packet_ok_intro with (header_type (flags h));
      [|done|done|by destruct (header_type (flags h))].
    rewrite !bytes_ok_cons. unfold u8 in *. split_and!; try done; lia.
  - unfold packet_data; simpl. destruct off as [|[|off]]; [lia..|]. done.
Qed.

(** The link identifier depends only on the identity-carrying fields and
    the two public keys: it is the truncated SHA-256 of the hash-stable part
    with the 64 key bytes, whatever signalling trailer follows the keys and
    whatever hops, transport id or header layout the request carries. *)
Theorem link_id_stable {E} h keys trailer :
  header_ok h → length keys = 64%nat →
  link_id_from_raw (header_pack h ++ keys ++ trailer) h.(flags).(header_type) =
    @Ok E _ (take 16 (sha256 (hash_stable h keys))).
Proof.
  intros Hh Hk. unfold link_id_from_raw. rewrite hashable_part_packed by done. cbn [res_bind].
  rewrite truncated_hash_ok. do 3 f_equal. destruct Hh as (_ & [Hd _] & _).
  unfold hash_stable. set (nib := Z.lor _ _).
  assert (Hl : length ([nib] ++ destination_hash h ++ [to_byte (context h)] ++ keys ++ trailer)
               = (82 + length trailer)%nat) by (rewrite !length_app, Hd, Hk; simpl; lia).
  rewrite Hl. unfold ECPUBSIZE. case_decide.
  - rewrite !app_assoc. rewrite take_app_le by (rewrite !length_app, Hd, Hk; simpl; lia).
    apply take_ge. rewrite !length_app, Hd, Hk. simpl. lia.
  - destruct trailer; [|simpl in *; lia]. by rewrite app_nil_r.
Qed.
End packet_facts.

(** ** Witnesses *)

(** A concrete digest: the first 32 bytes of the zero-padded input. *)
Definition toy_digest : Digest := {|
  hasher := bytes;
  hasher_new := [];
  hasher_update h b := h ++ b;
  hasher_finalize h := take 32 (map (λ b, b mod 256) h ++ replicate 32 0);
|}.

#[export] Instance toy_digest_laws : DigestLaws toy_digest.
Proof.
  split; intros; cbn [hasher hasher_update hasher_finalize toy_digest] in *.
  - by rewrite app_assoc.
  - apply app_nil_r.
  - rewrite length_take, length_app, length_replicate. lia.
  - apply bytes_ok_take, bytes_ok_app. split; [|apply bytes_ok_replicate; unfold u8; lia].
    apply Forall_map, Forall_true. intros x. unfold compose, u8. apply Z.mod_pos_bound. lia.
Qed.

Definition ex_header2 : PacketHeader :=
  mkHeader (mkFlags Header2 false Transport Single Data) 3 (Some (replicate 16 0xBB))
    (replicate 16 0xCC) Channel.
Definition ex_header1 : PacketHeader :=
  mkHeader (mkFlags Header1 true Broadcast Single Data) 0 None (replicate 16 0xCC) Channel.

Lemma ex_headers_ok : header_ok ex_header1 ∧ header_ok ex_header2.
Proof. split; vm_compute; repeat split; repeat constructor; discriminate. Qed.

Lemma hashable_part_identity_witness :
  get_hashable_part (E:=Empty_set) (header_pack ex_header1 ++ [1;2;3]) Header1 =
  get_hashable_part (header_pack ex_header2 ++ [1;2;3]) Header2.
Proof.
  apply (hashable_part_identity ex_header1 ex_header2 [1;2;3] [1;2;3]);
    [apply ex_headers_ok..|done].
Defined.

Lemma packet_hash_streaming_witness :
  packet_hash (D:=toy_digest) (E:=Empty_set) [0x71; 5; 1; 2; 3] Header1 =
    Ok ([1; 1; 2; 3] ++ replicate 28 0).
Proof.
  destruct (packet_hash_streaming (D:=toy_digest) (E:=Empty_set) [0x71; 5; 1; 2; 3] Header1)
    as (hp & Hp & Hh & _); [discriminate|].
  rewrite Hh. vm_compute in Hp. injection Hp as <-. vm_compute. reflexivity.
Defined.

Lemma packet_new_roundtrip_witness :
  ∃ p, packet_new (D:=toy_digest) ex_header2 [1; 2; 3] = Ok p ∧ from_raw (D:=toy_digest) p.(raw) = Ok p.
Proof.
  pose proof (packet_new_roundtrip (D:=toy_digest) ex_header2 [1; 2; 3] (proj2 ex_headers_ok)) as H.
  assert (Hb : bytes_ok [1; 2; 3]) by (apply (bool_decide_eq_true_1 _); vm_compute; reflexivity).
  specialize (H Hb). rewrite decide_True in H by (vm_compute; lia).
  destruct H as (p & Hn & _ & _ & _ & Hr). exists p. split; assumption.
Defined.

Lemma from_raw_total_witness :
  ∃ p, from_raw (D:=toy_digest) (header_pack ex_header1) = Ok p ∧ packet_ok (D:=toy_digest) p.
Proof.
  pose proof (from_raw_total (D:=toy_digest) (header_pack ex_header1)
    (header_pack_ok _ (proj1 ex_headers_ok))) as H.
  destruct (from_raw (D:=toy_digest) (header_pack ex_header1)) as [p|e|] eqn:Hf;
    [exists p; split; [reflexivity|apply H]|vm_compute in Hf; discriminate|contradiction].
Defined.

Definition ex_packet : Packet :=
  match packet_new (D:=toy_digest) ex_header2 [1; 2; 3] with
  | Ok p => p
  | _ => mkPacket ex_header2 [] 0 [] []
  end.

Lemma ex_packet_ok : packet_ok (D:=toy_digest) ex_packet.
Proof.
  split; [apply (bool_decide_eq_true_1 _); vm_compute; reflexivity|].
  split; [vm_compute; reflexivity|]. split; vm_compute; reflexivity.
Qed.

Lemma increment_hops_ok_witness :
  (increment_hops ex_packet).(header).(hops) = 4 ∧
  (increment_hops ex_packet).(p_hash) = ex_packet.(p_hash).
Proof.
  destruct (increment_hops_ok (D:=toy_digest) ex_packet ex_packet_ok) as (_ & Hh & Hp & _).
  split; [rewrite Hh; vm_compute; reflexivity|exact Hp].
Defined.

Lemma link_id_stable_witness :
  link_id_from_raw (D:=toy_digest) (E:=Empty_set)
    (header_pack ex_header1 ++ replicate 64 7 ++ [9; 9; 9]) Header1 =
  link_id_from_raw (D:=toy_digest) (header_pack ex_header1 ++ replicate 64 7 ++ []) Header1.
Proof.
  rewrite (link_id_stable (D:=toy_digest) ex_header1 (replicate 64 7) [9; 9; 9] (proj1 ex_headers_ok) eq_refl).
  rewrite (link_id_stable (D:=toy_digest) ex_header1 (replicate 64 7) [] (proj1 ex_headers_ok) eq_refl).
  reflexivity.
Defined.
