(* ===== verification/LinkSignalling.v ===== *)
(** * Link signalling: the MTU and mode trailer of link requests and proofs

    Models [rns-wire/src/link_signalling.rs].  [usize] is 64-bit. *)

From S2P Require Import Prelude Wire.
From stdpp Require Import prelude list.

Open Scope Z_scope.

Definition BASE_LINK_MTU : Z := 500.
Definition MAX_SIGNALLED_LINK_MTU : Z := 0x1fffff.
Definition DEFAULT_LINK_MODE : Z := 1.

Inductive LinkSignallingError :=
| InvalidLength (actual legacy modern : nat)
| InvalidMtu (m : Z)
| InvalidMode (m : Z)
| MduUnavailable.

(** ** LinkMtu: a validated MTU *)

Record LinkMtu := mkLinkMtu { mtu_get : Z }.
Definition LinkMtu_BASE : LinkMtu := mkLinkMtu BASE_LINK_MTU.

Definition try_from_signal (signal : option Z) : res LinkSignallingError LinkMtu :=
  match signal with
  | None => Ok LinkMtu_BASE
  | Some v =>
      if v =? 0 then Ok LinkMtu_BASE
      else if (BASE_LINK_MTU <=? v) && (v <=? MAX_SIGNALLED_LINK_MTU) then Ok (mkLinkMtu v)
      else Err (InvalidMtu v)
  end.

(** [usize::checked_add] and [usize::checked_sub]. *)
Definition checked_add (a b : Z) : option Z := if a + b <=? USIZE_MAX then Some (a + b) else None.
Definition checked_sub (a b : Z) : option Z := if b <=? a then Some (a - b) else None.

Definition checked_mdu (m : LinkMtu) : res LinkSignallingError Z :=
  let* mtu := (if m.(mtu_get) <=? USIZE_MAX then Ok m.(mtu_get) else Err MduUnavailable) in
  let* overhead :=
    ok_or (n ← checked_add 1 (Z.of_nat HEADER_MINSIZE); checked_add n (Z.of_nat TOKEN_OVERHEAD))
          MduUnavailable in
  ok_or (n ← checked_sub mtu overhead;
         checked_sub (n / Z.of_nat AES128_BLOCKSIZE * Z.of_nat AES128_BLOCKSIZE) 1)
        MduUnavailable.

(** ** The three-byte representation *)

Record SignallingData := mkSig { sd_mode : Z; sd_mtu : Z }.

Definition sd_new (mode mtu : Z) : SignallingData :=
  mkSig (Z.land mode 7) (Z.land mtu MAX_SIGNALLED_LINK_MTU).

Definition sd_try_new (mode mtu : Z) : res LinkSignallingError SignallingData :=
  if 7 <? mode then Err (InvalidMode mode) else
  let* m := try_from_signal (Some mtu) in
  Ok (mkSig mode m.(mtu_get)).

(** [u32] shift left by 21 drops the bits above 32. *)
Definition sd_pack {E} (d : SignallingData) : res E bytes :=
  let value := Z.lor (Z.land d.(sd_mtu) MAX_SIGNALLED_LINK_MTU)
                     (Z.shiftl (Z.land d.(sd_mode) 7) 21 mod 2 ^ 32) in
  let b := be_bytes 4 value in
  let* b1 := idx b 1 in
  let* b2 := idx b 2 in
  let* b3 := idx b 3 in
  Ok [b1; b2; b3].

Definition sd_unpack {E} (b : bytes) : res E (option SignallingData) :=
  if decide (length b < 3)%nat then Ok None else
  let* b0 := idx b 0 in
  let* b1 := idx b 1 in
  let* b2 := idx b 2 in
  let value := Z.lor (Z.lor (Z.shiftl b0 16) (Z.shiftl b1 8)) b2 in
  Ok (Some (mkSig (Z.land (Z.shiftr value 21) 7 mod 256) (Z.land value MAX_SIGNALLED_LINK_MTU))).

(** ** Checked parsing *)

Record LinkSignalling := mkLinkSig { ls_mode : Z; ls_mtu : LinkMtu; signalling_present : bool }.

Definition ls_parse (data : bytes) (legacy : nat) : res LinkSignallingError LinkSignalling :=
  if decide (length data = legacy) then Ok (mkLinkSig DEFAULT_LINK_MODE LinkMtu_BASE false) else
  if decide (length data ≠ legacy + 3)%nat
  then Err (InvalidLength (length data) legacy (legacy + 3)) else
  let* tail := slice_from data legacy in
  let* so := sd_unpack tail in
  let* s := expect so in
  let* m := try_from_signal (Some s.(sd_mtu)) in
  Ok (mkLinkSig s.(sd_mode) m true).

Definition parse_request_signalling (data : bytes) := ls_parse data 64.
Definition parse_proof_signalling (data : bytes) := ls_parse data 96.

(** ** Lemmas *)

Definition sd_ok (d : SignallingData) : Prop :=
  0 ≤ d.(sd_mode) ≤ 7 ∧ 0 ≤ d.(sd_mtu) ≤ MAX_SIGNALLED_LINK_MTU.

(** The packed value of the pair, as arithmetic. *)
Definition sd_value (d : SignallingData) : Z := d.(sd_mtu) + d.(sd_mode) * 2 ^ 21.

Lemma land_mtu v : Z.land v MAX_SIGNALLED_LINK_MTU = v mod 2 ^ 21.
Proof. apply (land_ones_mod v 21). lia. Qed.
Lemma land_mode v : Z.land v 7 = v mod 2 ^ 3.
Proof. apply (land_ones_mod v 3). lia. Qed.

Lemma sd_pack_value {E} d : sd_ok d → sd_pack d = @Ok E _ (be_bytes 3 (sd_value d)).
Proof.
  unfold sd_ok, MAX_SIGNALLED_LINK_MTU. intros [Hm Hu]. unfold sd_pack.
  rewrite land_mtu, land_mode, (Z.mod_small (sd_mtu d)), (Z.mod_small (sd_mode d)) by lia.
  rewrite (Z.mod_small (Z.shiftl _ _)) by (rewrite Z.shiftl_mul_pow2 by lia; lia).
  rewrite lor_disjoint_add by lia. done.
Qed.

Lemma unpack_value b0 b1 b2 :
  u8 b0 → u8 b1 → u8 b2 →
  Z.lor (Z.lor (Z.shiftl b0 16) (Z.shiftl b1 8)) b2 = be_value [b0; b1; b2].
Proof.
  unfold u8, be_value. intros. simpl foldl.
  rewrite Z.lor_comm, (Z.lor_comm (Z.shiftl b0 16)), Z.lor_assoc.
  rewrite (lor_disjoint_add b2 b1 8), lor_disjoint_add by lia. lia.
Qed.

Lemma sd_unpack_value {E} b0 b1 b2 rest :
  u8 b0 → u8 b1 → u8 b2 →
  sd_unpack (b0 :: b1 :: b2 :: rest) =
    @Ok E _ (Some (mkSig (be_value [b0; b1; b2] / 2 ^ 21) (be_value [b0; b1; b2] mod 2 ^ 21))).
Proof.
  intros H0 H1 H2. unfold sd_unpack. rewrite decide_False by (simpl; lia). simpl.
  rewrite unpack_value by done. rewrite land_mtu, land_mode, Z.shiftr_div_pow2 by lia.
  assert (Hv : 0 ≤ be_value [b0; b1; b2] < 256 ^ 3).
  { apply (be_value_range [b0; b1; b2]). rewrite !bytes_ok_cons. auto using bytes_ok_nil. }
  assert (0 ≤ be_value [b0; b1; b2] / 2 ^ 21 < 8).
  { split; [apply Z.div_pos; lia|apply Z.div_lt_upper_bound; lia]. }
  rewrite (Z.mod_small _ (2 ^ 3)), Z.mod_small by lia. done.
Qed.

Lemma try_from_signal_ok s m :
  try_from_signal s = Ok m → BASE_LINK_MTU ≤ m.(mtu_get) ≤ MAX_SIGNALLED_LINK_MTU.
Proof.
  unfold try_from_signal, LinkMtu_BASE, BASE_LINK_MTU, MAX_SIGNALLED_LINK_MTU.
  destruct s as [v|]; repeat case_match; intros [= <-]; simpl; lia.
Qed.

Lemma sd_unpack_pack d rest :
  sd_ok d →
  ∃ b, (∀ E, sd_pack d = @Ok E _ b) ∧ length b = 3%nat ∧
       ∀ E, sd_unpack (b ++ rest) = @Ok E _ (Some d).
Proof.
  intros Hd. exists (be_bytes 3 (sd_value d)). split; [intros E; by apply sd_pack_value|].
  split; [done|]. intros E.
  pose proof (be_bytes_ok 3 (sd_value d)) as Hb.
  assert (Hv : be_value (be_bytes 3 (sd_value d)) = sd_value d).
  { apply be_value_bytes. unfold sd_value. unfold sd_ok, MAX_SIGNALLED_LINK_MTU in Hd.
    change (256 ^ Z.of_nat 3) with (2 ^ 24). lia. }
  destruct (be_bytes 3 (sd_value d)) as [|x [|y [|z [|]]]] eqn:He; try done.
  rewrite !bytes_ok_cons in Hb. destruct Hb as (? & ? & ? & _). simpl.
  rewrite sd_unpack_value, Hv by done. unfold sd_value.
  unfold sd_ok, MAX_SIGNALLED_LINK_MTU in Hd.
  rewrite Z.div_add, Z.mod_add, Z.div_small, Z.mod_small by lia.
  by destruct d.
Qed.

(** ** Properties *)

(** The three-byte signalling field round-trips in both directions:
    unpacking a packed in-range mode and MTU returns them, and packing whatever
    was unpacked returns the three bytes. *)
Theorem signalling_roundtrip d rest b0 b1 b2 :
  sd_ok d → u8 b0 → u8 b1 → u8 b2 →
  (∃ b, sd_pack d = @Ok Empty_set _ b ∧ length b = 3%nat ∧ sd_unpack (b ++ rest) = @Ok Empty_set _ (Some d)) ∧
  (∃ d', sd_unpack (b0 :: b1 :: b2 :: rest) = @Ok Empty_set _ (Some d') ∧ sd_ok d' ∧
     sd_pack d' = @Ok Empty_set _ [b0; b1; b2]).
Proof.
  intros Hd H0 H1 H2. split.
  - destruct (sd_unpack_pack d rest Hd) as (b & ? & ? & ?). eauto.
  - rewrite sd_unpack_value by done. eexists. split; [done|].
    assert (Hbo : bytes_ok [b0; b1; b2]) by (rewrite !bytes_ok_cons; auto using bytes_ok_nil).
    pose proof (be_value_range _ Hbo) as Hv. change (256 ^ Z.of_nat (length [b0; b1; b2])) with (2 ^ 24) in Hv.
    set (v := be_value [b0; b1; b2]) in *.
    assert (Hok : sd_ok (mkSig (v / 2 ^ 21) (v mod 2 ^ 21))).
    { unfold sd_ok, MAX_SIGNALLED_LINK_MTU; simpl sd_mode; simpl sd_mtu.
      pose proof (Z.mod_pos_bound v (2 ^ 21)). split; [|lia].
      split; [apply Z.div_pos; lia|]. apply Zlt_succ_le, Z.div_lt_upper_bound; lia. }
    split; [done|]. rewrite sd_pack_value by done. unfold sd_value; simpl sd_mode; simpl sd_mtu.
    replace (v mod 2 ^ 21 + v / 2 ^ 21 * 2 ^ 21) with v by (rewrite (Z.div_mod v (2 ^ 21)) at 1; lia).
    f_equal. exact (be_bytes_value _ Hbo).
Qed.

(** Handshake payload parsing is total and exact.  For every byte string
    and legacy size: no panic; the legacy size gives the default mode and base
    MTU without signalling; any other size except legacy+3 is [InvalidLength];
    legacy+3 is accepted exactly when the signalled MTU is zero or within
    500..2097151, and an accepted result always carries a mode within 0..7 and
    an MTU within the protocol range. *)
Theorem ls_parse_total data legacy :
  bytes_ok data →
  match ls_parse data legacy with
  | Ok s =>
      0 ≤ s.(ls_mode) ≤ 7 ∧ BASE_LINK_MTU ≤ s.(ls_mtu).(mtu_get) ≤ MAX_SIGNALLED_LINK_MTU ∧
      if s.(signalling_present) then
        length data = (legacy + 3)%nat ∧
        s.(ls_mode) = be_value (drop legacy data) / 2 ^ 21 ∧
        try_from_signal (Some (be_value (drop legacy data) mod 2 ^ 21)) = Ok s.(ls_mtu)
      else length data = legacy ∧ s.(ls_mode) = 1 ∧ s.(ls_mtu) = LinkMtu_BASE
  | Err (InvalidLength a l m) =>
      a = length data ∧ l = legacy ∧ m = (legacy + 3)%nat ∧ a ≠ l ∧ a ≠ m
  | Err (InvalidMtu m) =>
      length data = (legacy + 3)%nat ∧ m = be_value (drop legacy data) mod 2 ^ 21 ∧ 0 < m < 500
  | Err _ => False
  | Panic => False
  end.
Proof.
  intros Hb. unfold ls_parse. case_decide as Hl; [by unfold BASE_LINK_MTU, MAX_SIGNALLED_LINK_MTU|].
  case_decide as Hm; [done|]. assert (Hlen : length data = (legacy + 3)%nat) by lia.
  rewrite slice_from_ok by lia. cbn [res_bind].
  pose proof (bytes_ok_drop legacy data Hb) as Hd.
  assert (Hdl : length (drop legacy data) = 3%nat) by (rewrite length_drop; lia).
  destruct (drop legacy data) as [|b0 [|b1 [|b2 [|]]]]; try done.
  pose proof (be_value_range _ Hd) as Hv. change (256 ^ Z.of_nat (length [b0; b1; b2])) with (2 ^ 24) in Hv.
  rewrite !bytes_ok_cons in Hd. destruct Hd as (? & ? & ? & _).
  rewrite sd_unpack_value by done. cbn [res_bind expect sd_mtu sd_mode].
  set (v := be_value [b0; b1; b2]) in *. pose proof (Z.mod_pos_bound v (2 ^ 21)).
  assert (0 ≤ v / 2 ^ 21 ≤ 7).
  { split; [apply Z.div_pos; lia|]. apply Zlt_succ_le, Z.div_lt_upper_bound; lia. }
  destruct (try_from_signal (Some (v mod 2 ^ 21))) as [m|e|] eqn:Ht; cbn [res_bind].
  - simpl. split; [done|]. split; [by eapply try_from_signal_ok|]. auto.
  - unfold try_from_signal, BASE_LINK_MTU, MAX_SIGNALLED_LINK_MTU in Ht.
    repeat case_match; simplify_eq. split_and!; try done; lia.
  - unfold try_from_signal in Ht. repeat case_match; done.
Qed.

(** The MDU of a validated link MTU is exact: [checked_mdu] always
    succeeds, and a plaintext of [k] bytes fits the link (one access-code byte,
    minimal header, token overhead and the padded AES-CBC ciphertext of [k]
    bytes) exactly when [k] is at most the returned value. *)
Theorem checked_mdu_exact s m :
  try_from_signal s = Ok m →
  ∃ n, checked_mdu m = Ok n ∧ Z.of_nat LINK_MDU ≤ n ∧
    ∀ k, 0 ≤ k → (k ≤ n ↔ 1 + Z.of_nat HEADER_MINSIZE + Z.of_nat TOKEN_OVERHEAD + 16 * (k / 16 + 1) ≤ m.(mtu_get)).
Proof.
  intros Hm%try_from_signal_ok. destruct m as [v]; simpl in Hm.
  unfold BASE_LINK_MTU, MAX_SIGNALLED_LINK_MTU in Hm.
  exists ((v - 68) / 16 * 16 - 1). split; [|split].
  - unfold checked_mdu. cbn [mtu_get].
    rewrite (proj2 (Z.leb_le v USIZE_MAX)) by (unfold USIZE_MAX, U64_MAX; lia). cbn [res_bind].
    change (ok_or (n ← _; _) MduUnavailable) with (@Ok LinkSignallingError Z 68) at 1. cbn [res_bind].
    change (Z.of_nat AES128_BLOCKSIZE) with 16. unfold checked_sub at 2.
    rewrite (proj2 (Z.leb_le 68 v)) by lia. cbn [mbind option_bind]. unfold checked_sub.
    assert (27 ≤ (v - 68) / 16) by (apply Z.div_le_lower_bound; lia).
    by rewrite (proj2 (Z.leb_le 1 _)) by lia.
  - change (Z.of_nat LINK_MDU) with 431.
    assert (27 ≤ (v - 68) / 16) by (apply Z.div_le_lower_bound; lia). lia.
  - intros k Hk. change (1 + Z.of_nat HEADER_MINSIZE + Z.of_nat TOKEN_OVERHEAD) with 68. simpl mtu_get.
    pose proof (Z.div_mod (v - 68) 16). pose proof (Z.mod_pos_bound (v - 68) 16).
    pose proof (Z.div_mod k 16). pose proof (Z.mod_pos_bound k 16). lia.
Qed.

(** A signalling trailer built by the checked constructor is admitted
    unchanged by the peer: appended to a payload of the legacy size it parses
    to the same mode and the normalised MTU. *)
Theorem try_new_parse mode mtu d keys :
  0 ≤ mode → sd_try_new mode mtu = Ok d → bytes_ok keys →
  ∃ b, sd_pack d = @Ok Empty_set _ b ∧
    ls_parse (keys ++ b) (length keys) = Ok (mkLinkSig mode (mkLinkMtu d.(sd_mtu)) true).
Proof.
  intros Hmode Hn Hk. unfold sd_try_new in Hn.
  destruct (Z.ltb_spec 7 mode); [done|].
  apply res_bind_Ok_inv in Hn as (m & Ht & [= <-]).
  pose proof (try_from_signal_ok _ _ Ht) as Hr. unfold BASE_LINK_MTU, MAX_SIGNALLED_LINK_MTU in Hr.
  set (d := mkSig mode (mtu_get m)).
  assert (Hd : sd_ok d) by (unfold sd_ok, MAX_SIGNALLED_LINK_MTU; simpl; lia).
  destruct (sd_unpack_pack d [] Hd) as (b & Hp & Hl & Hu).
  exists b. split; [done|]. unfold ls_parse.
  rewrite length_app, decide_False, decide_False by lia.
  rewrite slice_from_ok by (rewrite length_app; lia). cbn [res_bind]. rewrite drop_app_length.
  rewrite app_nil_r in Hu. rewrite Hu. cbn [res_bind expect d sd_mtu sd_mode].
  unfold try_from_signal, BASE_LINK_MTU, MAX_SIGNALLED_LINK_MTU.
  rewrite (proj2 (Z.eqb_neq _ 0)) by lia. rewrite !(proj2 (Z.leb_le _ _)) by lia. done.
Qed.

(** ** Witnesses *)

Lemma signalling_roundtrip_witness :
  ∃ b, sd_pack (mkSig 1 500) = @Ok Empty_set _ b ∧ sd_unpack (b ++ []) = @Ok Empty_set _ (Some (mkSig 1 500)).
Proof.
  destruct (signalling_roundtrip (mkSig 1 500) [] 1 2 3) as [(b & Hp & _ & Hu) _];
    [unfold sd_ok, MAX_SIGNALLED_LINK_MTU; simpl; lia|unfold u8; lia..|].
  exists b. split; assumption.
Defined.

Lemma ls_parse_total_witness :
  ∃ s, ls_parse (replicate 64 0 ++ [0x20; 0x01; 0xF4]) 64 = Ok s ∧ BASE_LINK_MTU ≤ s.(ls_mtu).(mtu_get).
Proof.
  pose proof (ls_parse_total (replicate 64 0 ++ [0x20; 0x01; 0xF4]) 64) as H.
  assert (Hb : bytes_ok (replicate 64 0 ++ [0x20; 0x01; 0xF4]))
    by (apply (bool_decide_eq_true_1 _); vm_compute; reflexivity).
  specialize (H Hb). exists (mkLinkSig 1 (mkLinkMtu 500) true).
  assert (He : ls_parse (replicate 64 0 ++ [0x20; 0x01; 0xF4]) 64 = Ok (mkLinkSig 1 (mkLinkMtu 500) true))
    by (vm_compute; reflexivity).
  rewrite He in H. split; [exact He|]. apply H.
Defined.

Lemma checked_mdu_exact_witness : ∃ n, checked_mdu LinkMtu_BASE = Ok n ∧ 431 ≤ n.
Proof.
  destruct (checked_mdu_exact None LinkMtu_BASE eq_refl) as (n & Hn & Hl & _).
  exists n. split; [exact Hn|exact Hl].
Defined.

Lemma try_new_parse_witness :
  ∃ b, sd_pack (mkSig 3 1064) = @Ok Empty_set _ b ∧
    ls_parse (replicate 64 7 ++ b) 64 = Ok (mkLinkSig 3 (mkLinkMtu 1064) true).
Proof.
  apply (try_new_parse 3 1064 (mkSig 3 1064) (replicate 64 7));
    [lia|vm_compute; reflexivity|apply (bool_decide_eq_true_1 _); vm_compute; reflexivity].
Defined.
