(* ===== verification/Receipt.v ===== *)
(** * Delivery proofs and packet receipts

    Models [rns-wire/src/proof.rs] and [rns-wire/src/receipt.rs].  [Instant]
    and [Duration] are nanosecond counts; each operation that reads the clock
    takes the reading as an argument.  A boxed [FnOnce] callback is a token;
    an operation returns the callbacks it invoked, in order, each with the
    receipt it was given.  Ed25519 is the third-party [ed25519-dalek] behind
    [rns-crypto::ed25519]: the class [Ed25519] is its interface. *)

From S2P Require Import Prelude Wire.
From stdpp Require Import prelude list.

Open Scope Z_scope.

Class Ed25519 := {
  verifying_key : Type;
  public_key_from_bytes : bytes → option verifying_key;
  (** [verify key message signature] *)
  ed_verify : verifying_key → bytes → bytes → bool;
}.

(** ** Proof bodies (proof.rs) *)

Inductive ProofData :=
| Explicit (packet_hash signature : bytes)
| Implicit (signature : bytes).

Definition proof_from_bytes {E} (data : bytes) : res E (option ProofData) :=
  if decide (length data = EXPL_LENGTH) then
    let* a := slice_to data 32 in
    let* hash := copy_array 32 a in
    let* b := slice data 32 96 in
    let* sig := copy_array 64 b in
    Ok (Some (Explicit hash sig))
  else if decide (length data = IMPL_LENGTH) then
    let* a := slice_to data 64 in
    let* sig := copy_array 64 a in
    Ok (Some (Implicit sig))
  else Ok None.

Definition proof_to_bytes (p : ProofData) : bytes :=
  match p with
  | Explicit packet_hash signature => packet_hash ++ signature
  | Implicit signature => signature
  end.

Definition proof_signature (p : ProofData) : bytes :=
  match p with Explicit _ signature => signature | Implicit signature => signature end.

Definition proof_ok (p : ProofData) : Prop :=
  match p with
  | Explicit h s => length h = 32%nat ∧ length s = 64%nat
  | Implicit s => length s = 64%nat
  end.

Lemma proof_from_explicit {E} h s :
  length h = 32%nat → length s = 64%nat → proof_from_bytes (h ++ s) = @Ok E _ (Some (Explicit h s)).
Proof.
  intros Hh Hs. unfold proof_from_bytes.
  rewrite decide_True by (rewrite length_app, Hh, Hs; done).
  rewrite slice_to_ok by (rewrite length_app; lia). cbn [res_bind].
  rewrite take_app_length' by done. rewrite copy_array_ok by done. cbn [res_bind].
  rewrite (slice_at h s []) by (rewrite ?app_nil_r; done || lia). cbn [res_bind].
  by rewrite copy_array_ok.
Qed.

Lemma proof_from_implicit {E} s :
  length s = 64%nat → proof_from_bytes s = @Ok E _ (Some (Implicit s)).
Proof.
  intros Hs. unfold proof_from_bytes.
  rewrite decide_False by (unfold EXPL_LENGTH; lia). rewrite decide_True by done.
  rewrite slice_to_ok by lia. cbn [res_bind]. rewrite take_ge by lia.
  by rewrite copy_array_ok.
Qed.

(** Proof bodies round-trip: parsing a serialised proof returns it, and
    parsing is total: exactly the 96- and 64-byte bodies are accepted, and an
    accepted body serialises back to the input. *)
Theorem proof_roundtrip {E} p data :
  proof_ok p →
  proof_from_bytes (proof_to_bytes p) = @Ok E _ (Some p) ∧
  match @proof_from_bytes E data with
  | Ok (Some q) => proof_ok q ∧ proof_to_bytes q = data
  | Ok None => length data ≠ 96%nat ∧ length data ≠ 64%nat
  | Err e => False
  | Panic => False
  end.
Proof.
  intros Hp. split.
  { destruct p as [h s|s]; simpl in *; [destruct Hp; by apply proof_from_explicit|by apply proof_from_implicit]. }
  destruct (decide (length data = 96%nat)) as [H96|H96].
  - rewrite <- (take_drop 32 data), proof_from_explicit
      by (rewrite ?length_take, ?length_drop; lia).
    simpl. rewrite take_drop, length_take, length_drop. split; [lia|done].
  - destruct (decide (length data = 64%nat)) as [H64|H64].
    + by rewrite proof_from_implicit.
    + unfold proof_from_bytes. by rewrite !decide_False.
Qed.

(** ** Receipts (receipt.rs) *)

Definition NANOS : Z := 1000000000.
(** [Duration::MAX] in nanoseconds. *)
Definition DURATION_MAX : Z := U64_MAX * NANOS + 999999999.

(** [f64::from(hops) * 6.0] is at most 1530 and exact, so the conversion to a
    duration is exact too. *)
Definition receipt_timeout_for_route (first_hop hops : Z) : Z :=
  Z.min (first_hop + hops * 6 * NANOS) DURATION_MAX.

Inductive ReceiptStatus := Sent | Delivered | Failed | Culled | Receiving.
#[export] Instance ReceiptStatus_eq_dec : EqDecision ReceiptStatus. Proof. solve_decision. Defined.

(** A registered callback. *)
Abbreviation callback := nat.

Record PacketReceipt := mkReceipt {
  r_hash : bytes;
  r_truncated_hash : bytes;
  r_destination_hash : option bytes;
  r_destination_public_key : option bytes;
  r_status : ReceiptStatus;
  r_sent_at : Z;
  r_concluded_at : option Z;
  r_timeout : option Z;
  cb_delivery : option callback;
  cb_timeout : option callback;
}.

(** Callbacks invoked by an operation, with the receipt each one saw. *)
Abbreviation fired := (list (callback * PacketReceipt)).

Definition receipt_new (now : Z) (hash truncated_hash : bytes) (timeout : option Z) : PacketReceipt :=
  mkReceipt hash truncated_hash None None Sent now None timeout None None.

Definition set_destination_identity (r : PacketReceipt) (dh : bytes) (pk : option bytes) : PacketReceipt :=
  let dest := match r.(r_destination_hash) with None => Some dh | Some _ => r.(r_destination_hash) end in
  let key :=
    if bool_decide (dest = Some dh) && bool_decide (r.(r_destination_public_key) = None)
       && bool_decide (is_Some pk)
    then pk else r.(r_destination_public_key) in
  mkReceipt r.(r_hash) r.(r_truncated_hash) dest key r.(r_status) r.(r_sent_at) r.(r_concluded_at)
    r.(r_timeout) r.(cb_delivery) r.(cb_timeout).

(** [status := s; concluded_at := Some(now)] *)
Definition conclude (r : PacketReceipt) (s : ReceiptStatus) (now : Z) : PacketReceipt :=
  mkReceipt r.(r_hash) r.(r_truncated_hash) r.(r_destination_hash) r.(r_destination_public_key) s
    r.(r_sent_at) (Some now) r.(r_timeout) r.(cb_delivery) r.(cb_timeout).

(** [if let Some(cb) = self.callbacks.delivery.take() { cb(self) }] *)
Definition fire_delivery (r : PacketReceipt) : PacketReceipt * fired :=
  match r.(cb_delivery) with
  | Some cb =>
      let r' := mkReceipt r.(r_hash) r.(r_truncated_hash) r.(r_destination_hash)
        r.(r_destination_public_key) r.(r_status) r.(r_sent_at) r.(r_concluded_at) r.(r_timeout)
        None r.(cb_timeout) in
      (r', [(cb, r')])
  | None => (r, [])
  end.

Definition fire_timeout (r : PacketReceipt) : PacketReceipt * fired :=
  match r.(cb_timeout) with
  | Some cb =>
      let r' := mkReceipt r.(r_hash) r.(r_truncated_hash) r.(r_destination_hash)
        r.(r_destination_public_key) r.(r_status) r.(r_sent_at) r.(r_concluded_at) r.(r_timeout)
        r.(cb_delivery) None in
      (r', [(cb, r')])
  | None => (r, [])
  end.

Definition deliver (r : PacketReceipt) (now : Z) : PacketReceipt * fired :=
  fire_delivery (conclude r Delivered now).
Definition fail (r : PacketReceipt) (now : Z) : PacketReceipt * fired :=
  fire_timeout (conclude r Failed now).
Definition cull (r : PacketReceipt) (now : Z) : PacketReceipt := conclude r Culled now.

(** [duration_since] saturates to zero. *)
Definition get_rtt (r : PacketReceipt) : option Z :=
  (λ t, Z.max 0 (t - r.(r_sent_at))) <$> r.(r_concluded_at).

Definition is_timed_out (r : PacketReceipt) (now : Z) : bool :=
  match r.(r_timeout) with
  | Some timeout => timeout <? Z.max 0 (now - r.(r_sent_at))
  | None => false
  end.

Definition set_delivery_callback (r : PacketReceipt) (cb : callback) : PacketReceipt :=
  mkReceipt r.(r_hash) r.(r_truncated_hash) r.(r_destination_hash) r.(r_destination_public_key)
    r.(r_status) r.(r_sent_at) r.(r_concluded_at) r.(r_timeout) (Some cb) r.(cb_timeout).
Definition set_timeout_callback (r : PacketReceipt) (cb : callback) : PacketReceipt :=
  mkReceipt r.(r_hash) r.(r_truncated_hash) r.(r_destination_hash) r.(r_destination_public_key)
    r.(r_status) r.(r_sent_at) r.(r_concluded_at) r.(r_timeout) r.(cb_delivery) (Some cb).

Definition validate_proof {E} (r : PacketReceipt) (now : Z) (proof : bytes)
    (verify : bytes → bytes → bool) : res E (bool * PacketReceipt * fired) :=
  if decide (length proof = EXPL_LENGTH) then
    let* proof_hash := slice_to proof 32 in
    let* signature := slice proof 32 96 in
    if bool_decide (proof_hash = r.(r_hash)) && verify signature r.(r_hash) then
      let '(r', f) := fire_delivery (conclude r Delivered now) in Ok (true, r', f)
    else Ok (false, r, [])
  else if decide (length proof = IMPL_LENGTH) then
    let* signature := slice_to proof 64 in
    if verify signature r.(r_hash) then
      let '(r', f) := fire_delivery (conclude r Delivered now) in Ok (true, r', f)
    else Ok (false, r, [])
  else Ok (false, r, []).

Definition validate_proof_from_destination {E} `{Ed25519} (r : PacketReceipt) (now : Z)
    (proof : bytes) : res E (bool * PacketReceipt * fired) :=
  match r.(r_destination_public_key) with
  | None => Ok (false, r, [])
  | Some public_key =>
      let* tail := slice_from public_key 32 in
      let* signing_key := copy_array 32 tail in
      match public_key_from_bytes signing_key with
      | None => Ok (false, r, [])
      | Some verifier =>
          validate_proof r now proof (λ signature message,
            if decide (length signature = 64%nat) then ed_verify verifier message signature else false)
      end
  end.

Definition check_timeout (r : PacketReceipt) (now_check now : Z) : bool * PacketReceipt * fired :=
  if is_timed_out r now_check && bool_decide (r.(r_status) = Sent) then
    let '(r', f) := fire_timeout (conclude r Failed now) in (true, r', f)
  else (false, r, []).

(** ** Properties *)

(** [proof] is an acceptable delivery proof for [hash]: an explicit body naming
    that hash, or an implicit body, whose signature verifies over the hash. *)
Definition proof_accepts (verify : bytes → bytes → bool) (hash proof : bytes) : Prop :=
  ∃ p, proof_ok p ∧ proof = proof_to_bytes p ∧ verify (proof_signature p) hash = true ∧
       match p with Explicit h _ => h = hash | Implicit _ => True end.

Lemma validate_proof_cases {E} r now proof verify :
  validate_proof r now proof verify =
    @Ok E _ (let '(r', f) := fire_delivery (conclude r Delivered now) in (true, r', f))
    ∧ proof_accepts verify r.(r_hash) proof ∨
  validate_proof r now proof verify = @Ok E _ (false, r, [])
    ∧ ¬ proof_accepts verify r.(r_hash) proof.
Proof.
  unfold validate_proof. case_decide as H96; [|case_decide as H64].
  - rewrite slice_to_ok, slice_ok by (rewrite H96; unfold EXPL_LENGTH; lia). cbn [res_bind].
    assert (Hd : drop 32 proof = take (96 - 32) (drop 32 proof))
      by (rewrite take_ge; [done|rewrite length_drop, H96; done]).
    rewrite <- Hd. destruct (bool_decide _ && _) eqn:Hb; [left|right].
    + apply andb_prop in Hb as [Hh%bool_decide_eq_true Hv]. split; [by destruct (fire_delivery _)|].
      exists (Explicit (take 32 proof) (drop 32 proof)). simpl. rewrite take_drop.
      split_and!; try done; rewrite ?length_take, ?length_drop, H96; done.
    + split; [done|]. intros (p & Hok & -> & Hv & Hh). destruct p as [h s|s]; simpl in *.
      * subst h. destruct Hok as [Hl _]. rewrite take_app_length', drop_app_length' in Hb by done.
        rewrite bool_decide_true, Hv in Hb by done. done.
      * unfold EXPL_LENGTH in H96. lia.
  - rewrite slice_to_ok by (rewrite H64; unfold IMPL_LENGTH; lia). cbn [res_bind].
    rewrite take_ge by (rewrite H64; done). destruct (verify proof (r_hash r)) eqn:Hv; [left|right].
    + split; [by destruct (fire_delivery _)|]. by exists (Implicit proof).
    + split; [done|]. intros (p & Hok & -> & Hv' & Hh). destruct p as [h s|s]; simpl in *.
      * rewrite length_app in H64. unfold IMPL_LENGTH in H64. lia.
      * congruence.
  - right. split; [done|]. intros (p & Hok & -> & _). destruct p as [h s|s]; simpl in *.
    + rewrite length_app in *. unfold EXPL_LENGTH in *. lia.
    + unfold IMPL_LENGTH in *. lia.
Qed.

(** A receipt is marked delivered by a proof exactly when the proof is
    acceptable: [validate_proof] never panics; it returns true, concludes the
    receipt as delivered and fires the pending delivery callback if and only
    if the body is an explicit proof for this packet's hash or an implicit
    proof, with a signature that verifies over the packet hash; otherwise it
    returns false and changes nothing. *)
Theorem validate_proof_exact {E} r now proof verify :
  ∃ ok r' f, validate_proof r now proof verify = @Ok E _ (ok, r', f) ∧
    (ok = true ↔ proof_accepts verify r.(r_hash) proof) ∧
    (if ok then r'.(r_status) = Delivered ∧ r'.(r_concluded_at) = Some now ∧ r'.(cb_delivery) = None ∧
                f.*1 = option_list r.(cb_delivery)
     else r' = r ∧ f = []).
Proof.
  destruct (@validate_proof_cases E r now proof verify) as [[-> H]|[-> H]].
  - unfold fire_delivery, conclude; simpl. destruct (cb_delivery r);
      (eexists true, _, _; split; [done|]; split; [done|]; done).
  - exists false, r, []. split; [done|]. split; [|done]. split; [done|]. intros H'. by destruct (H H').
Qed.

(** The operations of a receipt's owner after registration; [E] collects what
    the callbacks saw. *)
Inductive receipt_step (verify : bytes → bytes → bool) :
  PacketReceipt → fired → PacketReceipt → Prop :=
| step_identity r dh pk : receipt_step verify r [] (set_destination_identity r dh pk)
| step_proof r now proof ok r' f :
    validate_proof (E:=Empty_set) r now proof verify = Ok (ok, r', f) → receipt_step verify r f r'
| step_timeout r n1 n2 ok r' f :
    check_timeout r n1 n2 = (ok, r', f) → receipt_step verify r f r'
| step_cull r now : receipt_step verify r [] (cull r now).

Inductive receipt_steps (verify : bytes → bytes → bool) :
  PacketReceipt → fired → PacketReceipt → Prop :=
| steps_nil r : receipt_steps verify r [] r
| steps_cons r f r' f' r'' :
    receipt_step verify r f r' → receipt_steps verify r' f' r'' → receipt_steps verify r (f ++ f') r''.

(** Callbacks that are still registered, as a multiset of tokens. *)
Definition pending (r : PacketReceipt) : list callback :=
  option_list r.(cb_delivery) ++ option_list r.(cb_timeout).

Lemma fire_delivery_spec r :
  let '(r', f) := fire_delivery r in
  pending r ≡ₚ f.*1 ++ pending r' ∧ r'.(r_hash) = r.(r_hash) ∧ r'.(r_status) = r.(r_status) ∧
  Forall (λ x, x.2.(r_status) = r.(r_status)) f.
Proof.
  unfold fire_delivery, pending. destruct (cb_delivery r) eqn:H; simpl; rewrite ?H; simpl; auto 10.
Qed.

Lemma fire_timeout_spec r :
  let '(r', f) := fire_timeout r in
  pending r ≡ₚ f.*1 ++ pending r' ∧ r'.(r_hash) = r.(r_hash) ∧ r'.(r_status) = r.(r_status) ∧
  Forall (λ x, x.2.(r_status) = r.(r_status)) f.
Proof.
  unfold fire_timeout, pending. destruct (cb_timeout r) eqn:H; simpl; rewrite ?H, ?app_nil_r; simpl.
  - split; [by rewrite Permutation_app_comm|]. auto.
  - auto.
Qed.

Lemma pending_conclude r s now : pending (conclude r s now) = pending r.
Proof. done. Qed.

Lemma receipt_step_inv verify r f r' :
  receipt_step verify r f r' →
  pending r ≡ₚ f.*1 ++ pending r' ∧ r'.(r_hash) = r.(r_hash) ∧
  (r.(r_status) ≠ Sent → r'.(r_status) = Failed → r.(r_status) = Failed) ∧
  Forall (λ x, x.2.(r_status) = Delivered ∨ x.2.(r_status) = Failed) f.
Proof.
  intros H. destruct H as [r dh pk|r now proof ok r' f H|r n1 n2 ok r' f H|r now].
  - done.
  - destruct (@validate_proof_cases Empty_set r now proof verify) as [[Hv _]|[Hv _]];
      rewrite H in Hv; [|by simplify_eq].
    pose proof (fire_delivery_spec (conclude r Delivered now)) as Hf.
    destruct (fire_delivery _) as [r2 f2]. simplify_eq. simpl in Hf.
    destruct Hf as (Hp & Hh & Hs & Hall). split; [done|]. split; [done|].
    split; [congruence|]. eapply Forall_impl; [done|]. naive_solver.
  - unfold check_timeout in H. destruct (is_timed_out _ _ && _) eqn:Hb; [|by simplify_eq].
    apply andb_prop in Hb as [_ Hs%bool_decide_eq_true].
    pose proof (fire_timeout_spec (conclude r Failed n2)) as Hf.
    destruct (fire_timeout _) as [r2 f2]. simplify_eq. simpl in Hf.
    destruct Hf as (Hp & Hh & Hs2 & Hall). split; [done|]. split; [done|].
    split; [congruence|]. eapply Forall_impl; [done|]. naive_solver.
  - done.
Qed.

(** Receipt callbacks fire at most once: over any sequence of identity
    bindings, proofs, timeout checks and culling, the callbacks fired are among
    those registered at the start, each at most once, each sees a concluded
    receipt, and the packet hash the proofs are checked against never changes. *)
Theorem receipt_callbacks_once verify r f r' :
  receipt_steps verify r f r' →
  pending r ≡ₚ f.*1 ++ pending r' ∧ r'.(r_hash) = r.(r_hash) ∧
  (length f.*1 ≤ 2)%nat ∧
  Forall (λ x, x.2.(r_status) = Delivered ∨ x.2.(r_status) = Failed) f.
Proof.
  intros H.
  assert (Hinv : pending r ≡ₚ f.*1 ++ pending r' ∧ r'.(r_hash) = r.(r_hash) ∧
    Forall (λ x, x.2.(r_status) = Delivered ∨ x.2.(r_status) = Failed) f).
  { induction H as [r|r f r' f' r'' Hs _ (IHp & IHh & IHf)]; [done|].
    destruct (receipt_step_inv _ _ _ _ Hs) as (Hp & Hh & _ & Hf).
    rewrite fmap_app, <- app_assoc, <- IHp. rewrite Forall_app. split_and!; try done. congruence. }
  destruct Hinv as (Hp & Hh & Hf). split_and!; try done.
  apply Permutation_length in Hp. rewrite length_app in Hp.
  assert (length (pending r) ≤ 2)%nat by (unfold pending; destruct (cb_delivery r), (cb_timeout r); simpl; lia).
  lia.
Qed.

(** Timeouts respect delivery: [check_timeout] reports a timeout exactly
    for a receipt still in [Sent] whose timeout has strictly elapsed, in which
    case it fails the receipt and fires the pending timeout callback; in every
    other state, in particular after delivery, it changes nothing.  A second
    check never fires again. *)
Theorem check_timeout_exact r n1 n2 n3 n4 :
  let '(ok, r', f) := check_timeout r n1 n2 in
  (ok = true ↔ r.(r_status) = Sent ∧ ∃ t, r.(r_timeout) = Some t ∧ t < Z.max 0 (n1 - r.(r_sent_at))) ∧
  (if ok then r'.(r_status) = Failed ∧ f.*1 = option_list r.(cb_timeout) ∧
              check_timeout r' n3 n4 = (false, r', [])
   else r' = r ∧ f = []).
Proof.
  unfold check_timeout. destruct (is_timed_out r n1 && _) eqn:Hb.
  - apply andb_prop in Hb as [Ht Hs%bool_decide_eq_true].
    unfold is_timed_out in Ht. destruct (r_timeout r) as [t|] eqn:Hto; [|done].
    apply Z.ltb_lt in Ht. unfold fire_timeout, conclude; simpl.
    destruct (cb_timeout r); simpl;
      (split; [split; eauto|split; [done|split; [done|]]]; by rewrite andb_false_r).
  - split; [|done]. split; [done|]. intros (Hs & t & Hto & Hlt). unfold is_timed_out in Hb.
    rewrite Hto, Hs, bool_decide_true, andb_true_r in Hb by done.
    apply Z.ltb_ge in Hb. lia.
Qed.

(** The identity a sequence of bindings leaves on a fresh receipt: the first
    hash, and the first key supplied together with that hash. *)
Definition bind_all (r : PacketReceipt) (calls : list (bytes * option bytes)) : PacketReceipt :=
  foldl (λ r c, set_destination_identity r c.1 c.2) r calls.

Definition first_key (dh : bytes) (calls : list (bytes * option bytes)) : option bytes :=
  head (omap (λ c : bytes * option bytes, if bool_decide (c.1 = dh) then c.2 else None) calls).

Lemma bind_all_bound r calls dh :
  r.(r_destination_hash) = Some dh →
  (bind_all r calls).(r_destination_hash) = Some dh ∧
  (bind_all r calls).(r_destination_public_key) =
    match r.(r_destination_public_key) with Some k => Some k | None => first_key dh calls end.
Proof.
  revert r. induction calls as [|[h k] calls IH]; intros r Hd; simpl.
  { split; [done|]. by destruct (r_destination_public_key r). }
  destruct (IH (set_destination_identity r h k)) as [IH1 IH2].
  { unfold set_destination_identity; simpl. by rewrite Hd. }
  split; [done|]. rewrite IH2. unfold set_destination_identity, first_key; simpl. rewrite Hd.
  destruct (r_destination_public_key r) as [k0|] eqn:Hk.
  - by rewrite (bool_decide_false (Some k0 = None)), andb_false_r by done.
  - destruct (decide (h = dh)) as [->|Hne].
    + rewrite (bool_decide_true (Some dh = Some dh)), (bool_decide_true (dh = dh)) by done.
      by destruct k.
    + by rewrite (bool_decide_false (Some dh = Some h)), (bool_decide_false (h = dh)) by congruence.
Qed.

(** The destination identity of a receipt is pinned: after any sequence of
    [set_destination_identity] calls on a new receipt, the recorded hash is the
    first one supplied and the verification key is the first key supplied with
    that same hash; later calls cannot replace either. *)
Theorem destination_identity_pinned now hash trunc timeout dh k calls :
  let r := bind_all (receipt_new now hash trunc timeout) ((dh, k) :: calls) in
  r.(r_destination_hash) = Some dh ∧
  r.(r_destination_public_key) = first_key dh ((dh, k) :: calls).
Proof.
  cbn [bind_all foldl fst snd].
  set (r0 := set_destination_identity _ dh k).
  destruct (bind_all_bound r0 calls dh) as [H1 H2]; [done|]. split; [exact H1|].
  unfold bind_all in H2. rewrite H2. unfold r0, set_destination_identity, first_key; simpl.
  rewrite (bool_decide_true (Some dh = Some dh)), (bool_decide_true (dh = dh)) by done.
  by destruct k.
Qed.

(** ** Witnesses *)

Lemma proof_roundtrip_witness :
  proof_from_bytes (proof_to_bytes (Explicit (replicate 32 1) (replicate 64 2))) =
    @Ok Empty_set _ (Some (Explicit (replicate 32 1) (replicate 64 2))).
Proof.
  apply (proof_roundtrip (E:=Empty_set) (Explicit (replicate 32 1) (replicate 64 2)) []).
  split; reflexivity.
Defined.

Definition ex_receipt : PacketReceipt :=
  set_delivery_callback (receipt_new 0 (replicate 32 1) (replicate 16 1) (Some 10)) 7.

Lemma receipt_callbacks_once_witness :
  ∃ f r', receipt_steps (λ _ _, true) ex_receipt f r' ∧ f.*1 = [7%nat] ∧ (length f.*1 ≤ 2)%nat.
Proof.
  destruct (validate_proof (E:=Empty_set) ex_receipt 5 (replicate 64 2) (λ _ _, true))
    as [[[ok r'] f]|e|] eqn:Hv; [|destruct e|vm_compute in Hv; discriminate].
  assert (Hs : receipt_steps (λ _ _, true) ex_receipt (f ++ []) r')
    by (eapply steps_cons; [eapply step_proof; exact Hv|constructor]).
  exists (f ++ []), r'. split; [exact Hs|]. split.
  - vm_compute in Hv. injection Hv as <- <- <-. reflexivity.
  - apply (receipt_callbacks_once _ _ _ _ Hs).
Defined.
