(* ===== verification/Hdlc.v ===== *)
(** * HDLC framing

    Models [rns-interface/src/hdlc.rs].  The [while] loops carry an index into
    the input; here each iteration receives the remaining suffix [data[i..]].
    Loop fuel is one more than the input length: every iteration consumes at
    least one byte, and the equations with the byte-wise reference functions
    show that the fuel never runs out. *)

From S2P Require Import Prelude.
From stdpp Require Import prelude list.

Open Scope Z_scope.

Definition FLAG : Z := 0x7E.
Definition ESC : Z := 0x7D.
Definition ESC_MASK : Z := 0x20.
Definition MAX_FRAME_SIZE : Z := 524288.

(** ** Escaping *)

Fixpoint escape_loop (fuel : nat) (rest out : bytes) : bytes :=
  match fuel with
  | O => out
  | S fuel' =>
      match rest with
      | [] => out
      | _ =>
          match position (λ b, (b =? ESC) || (b =? FLAG)) rest with
          | Some rel =>
              let hit := nth rel rest 0 in
              escape_loop fuel' (drop (S rel) rest) (out ++ take rel rest ++ [ESC; Z.lxor hit ESC_MASK])
          | None => out ++ rest
          end
      end
  end.

Definition escape_into (data out : bytes) : bytes := escape_loop (S (length data)) data out.

Fixpoint unescape_loop (fuel : nat) (rest out : bytes) : bytes :=
  match fuel with
  | O => out
  | S fuel' =>
      match rest with
      | [] => out
      | _ =>
          match position (λ b, b =? ESC) rest with
          | Some hit =>
              let out := out ++ take hit rest in
              match rest !! S hit with
              | Some next =>
                  let out :=
                    if next =? Z.lxor FLAG ESC_MASK then out ++ [FLAG]
                    else if next =? Z.lxor ESC ESC_MASK then out ++ [ESC]
                    else out ++ [ESC; next] in
                  unescape_loop fuel' (drop (S (S hit)) rest) out
              | None => out ++ [ESC]
              end
          | None => out ++ rest
          end
      end
  end.

Definition unescape_into (data out : bytes) : bytes := unescape_loop (S (length data)) data out.

Definition frame_into (data out : bytes) : bytes := escape_into data (out ++ [FLAG]) ++ [FLAG].

Definition escape (data : bytes) : bytes := escape_into data [].
Definition unescape (data : bytes) : bytes := unescape_into data [].
Definition frame (data : bytes) : bytes := frame_into data [].

(** ** The deframer *)

Record HdlcDeframer := mkHdlc {
  buffer : bytes;
  in_frame : bool;
  unescape_scratch : bytes;
}.

Definition hdlc_new : HdlcDeframer := mkHdlc [] false [].

Definition append_in_frame (d : HdlcDeframer) (chunk : bytes) : HdlcDeframer :=
  if MAX_FRAME_SIZE <? len d.(buffer) + len chunk
  then mkHdlc [] false d.(unescape_scratch)
  else mkHdlc (d.(buffer) ++ chunk) d.(in_frame) d.(unescape_scratch).

(** The [if !self.buffer.is_empty()] block: unescape into the scratch buffer
    and hand it out when it is not empty. *)
Definition emit (d : HdlcDeframer) : HdlcDeframer * list bytes :=
  match d.(buffer) with
  | [] => (d, [])
  | _ =>
      let scratch := unescape_into d.(buffer) [] in
      match scratch with
      | [] => (mkHdlc d.(buffer) d.(in_frame) scratch, [])
      | _ => (mkHdlc d.(buffer) d.(in_frame) [], [scratch])
      end
  end.

Definition clear_buffer (d : HdlcDeframer) : HdlcDeframer :=
  mkHdlc [] d.(in_frame) d.(unescape_scratch).
Definition set_in_frame (d : HdlcDeframer) (b : bool) : HdlcDeframer :=
  mkHdlc d.(buffer) b d.(unescape_scratch).

Fixpoint feed_loop (fuel : nat) (d : HdlcDeframer) (rest : bytes) (frames : list bytes)
    : HdlcDeframer * list bytes :=
  match fuel with
  | O => (d, frames)
  | S fuel' =>
      match rest with
      | [] => (d, frames)
      | _ =>
          match position (λ b, b =? FLAG) rest with
          | Some hit =>
              let '(d, frames) :=
                if d.(in_frame) then
                  let d := append_in_frame d (take hit rest) in
                  let '(d, fs) := emit d in
                  (clear_buffer d, frames ++ fs)
                else (d, frames) in
              feed_loop fuel' (set_in_frame d true) (drop (S hit) rest) frames
          | None =>
              (if d.(in_frame) then append_in_frame d rest else d, frames)
          end
      end
  end.

Definition feed (d : HdlcDeframer) (data : bytes) : HdlcDeframer * list bytes :=
  feed_loop (S (length data)) d data [].

Definition reset (d : HdlcDeframer) : HdlcDeframer := mkHdlc [] false d.(unescape_scratch).

(** ** Byte-wise reference functions *)

Definition esc1 (b : Z) : bytes :=
  if (b =? ESC) || (b =? FLAG) then [ESC; Z.lxor b ESC_MASK] else [b].

Fixpoint unescape_ref (l : bytes) : bytes :=
  match l with
  | [] => []
  | b :: l' =>
      if b =? ESC then
        match l' with
        | [] => [ESC]
        | next :: l'' =>
            (if next =? 0x5E then [FLAG] else if next =? 0x5D then [ESC] else [ESC; next])
            ++ unescape_ref l''
        end
      else b :: unescape_ref l'
  end.

(** One byte of input; the previous byte-loop the code comments refer to. *)
Definition feed1 (d : HdlcDeframer) (b : Z) : HdlcDeframer * list bytes :=
  if b =? FLAG then
    if d.(in_frame) then
      match d.(buffer) with
      | [] => (mkHdlc [] true d.(unescape_scratch), [])
      | _ => (mkHdlc [] true [], [unescape_ref d.(buffer)])
      end
    else (mkHdlc d.(buffer) true d.(unescape_scratch), [])
  else if d.(in_frame) then
    if MAX_FRAME_SIZE <? len d.(buffer) + 1 then (mkHdlc [] false d.(unescape_scratch), [])
    else (mkHdlc (d.(buffer) ++ [b]) true d.(unescape_scratch), [])
  else (d, []).

Fixpoint feed_ref (d : HdlcDeframer) (data : bytes) : HdlcDeframer * list bytes :=
  match data with
  | [] => (d, [])
  | b :: data' =>
      let '(d1, f1) := feed1 d b in
      let '(d2, f2) := feed_ref d1 data' in (d2, f1 ++ f2)
  end.

(** ** Lemmas: the loops compute the reference functions *)

Lemma flat_map_esc1_id l :
  Forall (λ b, (b =? ESC) || (b =? FLAG) = false) l → flat_map esc1 l = l.
Proof.
  induction 1 as [|b l Hb _ IH]; simpl; [done|].
  rewrite IH. unfold esc1. by rewrite Hb.
Qed.

Lemma escape_loop_ref fuel rest out :
  (length rest < fuel)%nat → escape_loop fuel rest out = out ++ flat_map esc1 rest.
Proof.
  revert rest out. induction fuel as [|fuel IH]; intros rest out Hf; [lia|]. cbn [escape_loop].
  destruct rest as [|b0 rest0] eqn:Hr; [by rewrite app_nil_r|]. rewrite <- Hr in *.
  destruct (position _ rest) as [rel|] eqn:Hp.
  - pose proof (position_lt _ _ _ Hp) as Hlt.
    destruct (position_split _ _ _ Hp) as (x & Heq & Hx & Hall & ->).
    rewrite IH by (rewrite length_drop; lia). rewrite <- app_assoc. f_equal.
    rewrite Heq at 3. rewrite flat_map_app, (flat_map_esc1_id (take rel rest)) by done. simpl.
    unfold esc1 at 2. by rewrite Hx, <- app_assoc.
  - apply position_None in Hp. by rewrite flat_map_esc1_id.
Qed.

Lemma escape_into_ref data out : escape_into data out = out ++ flat_map esc1 data.
Proof. apply escape_loop_ref. lia. Qed.

Lemma unescape_ref_plain l k :
  Forall (λ b, (b =? ESC) = false) l → unescape_ref (l ++ k) = l ++ unescape_ref k.
Proof. induction 1 as [|b l Hb _ IH]; simpl; [done|]. by rewrite Hb, IH. Qed.

Lemma unescape_loop_ref fuel rest out :
  (length rest < fuel)%nat → unescape_loop fuel rest out = out ++ unescape_ref rest.
Proof.
  revert rest out. induction fuel as [|fuel IH]; intros rest out Hf; [lia|]. cbn [unescape_loop].
  destruct rest as [|b0 rest0] eqn:Hr; [by rewrite app_nil_r|]. rewrite <- Hr in *.
  destruct (position _ rest) as [hit|] eqn:Hp.
  - pose proof (position_lt _ _ _ Hp) as Hlt.
    destruct (position_split _ _ _ Hp) as (x & Heq & Hx & Hall & _).
    assert (Hn : rest !! S hit = drop (S hit) rest !! 0%nat) by (by rewrite lookup_drop, Nat.add_0_r).
    assert (Hu : unescape_ref rest = take hit rest ++ unescape_ref (x :: drop (S hit) rest))
      by (rewrite Heq at 1; by apply unescape_ref_plain).
    rewrite Hn, Hu. cbn [unescape_ref]. rewrite Hx. replace (drop (S (S hit)) rest) with (drop 1 (drop (S hit) rest))
      by (rewrite drop_drop; f_equal; lia).
    destruct (drop (S hit) rest) as [|next l''] eqn:Hd; simpl; [by rewrite <- app_assoc|].
    assert (length l'' < fuel)%nat.
    { assert (length (drop (S hit) rest) = S (length l'')) by (by rewrite Hd).
      rewrite length_drop in *. lia. }
    rewrite drop_0, IH by done.
    change (Z.lxor FLAG ESC_MASK) with 0x5E. change (Z.lxor ESC ESC_MASK) with 0x5D.
    destruct (next =? 0x5E), (next =? 0x5D); by rewrite <- !app_assoc.
  - apply position_None in Hp. rewrite <- (app_nil_r rest) at 2.
    by rewrite unescape_ref_plain, app_nil_r.
Qed.

Lemma unescape_into_ref data out : unescape_into data out = out ++ unescape_ref data.
Proof. apply unescape_loop_ref. lia. Qed.

Lemma unescape_ref_nil l : unescape_ref l = [] → l = [].
Proof. destruct l as [|b [|c l]]; simpl; repeat case_match; done. Qed.

(** ** The deframer invariant: a bounded buffer *)

Definition hdlc_ok (d : HdlcDeframer) : Prop := len d.(buffer) ≤ MAX_FRAME_SIZE.

Lemma hdlc_new_ok : hdlc_ok hdlc_new.
Proof. unfold hdlc_ok, MAX_FRAME_SIZE, len. simpl. lia. Qed.

Lemma append_in_frame_ok d chunk : hdlc_ok (append_in_frame d chunk).
Proof.
  unfold hdlc_ok, append_in_frame. destruct (Z.ltb_spec MAX_FRAME_SIZE (len (buffer d) + len chunk)); simpl.
  - unfold MAX_FRAME_SIZE, len. simpl. lia.
  - rewrite len_app. lia.
Qed.

Lemma feed_ref_outside d l k :
  d.(in_frame) = false → Forall (λ b, (b =? FLAG) = false) l → feed_ref d (l ++ k) = feed_ref d k.
Proof.
  intros Hd. induction 1 as [|b l Hb _ IH]; simpl; [done|].
  unfold feed1 at 1. rewrite Hb, Hd, IH. by destruct (feed_ref d k).
Qed.

(** A run of bytes without a delimiter is one [append_in_frame]. *)
Lemma feed_ref_chunk d l k :
  hdlc_ok d → d.(in_frame) = true → Forall (λ b, (b =? FLAG) = false) l →
  feed_ref d (l ++ k) = feed_ref (append_in_frame d l) k.
Proof.
  intros Hok Hin Hall. revert d Hok Hin. induction Hall as [|b l Hb Hall IH]; intros d Hok Hin; simpl.
  - f_equal. unfold append_in_frame, hdlc_ok in *. destruct d as [buf inf sc]; simpl in *. subst inf.
    rewrite (proj2 (Z.ltb_ge _ _)) by (unfold len at 2; simpl; lia). by rewrite app_nil_r.
  - unfold feed1. rewrite Hb, Hin.
    destruct (Z.ltb_spec MAX_FRAME_SIZE (len (buffer d) + 1)) as [Hov|Hov].
    + rewrite feed_ref_outside by done. unfold append_in_frame.
      rewrite (proj2 (Z.ltb_lt _ _)) by (rewrite len_cons; pose proof (len_nonneg l); lia).
      by destruct (feed_ref _ k).
    + set (d' := mkHdlc (buffer d ++ [b]) true (unescape_scratch d)).
      assert (Hok' : hdlc_ok d') by (unfold hdlc_ok; simpl; rewrite len_app, len_cons; unfold len at 2; simpl; lia).
      rewrite (IH d' Hok' eq_refl). replace (append_in_frame d' l) with (append_in_frame d (b :: l)).
      * by destruct (feed_ref _ k).
      * unfold append_in_frame, d'; simpl. rewrite !len_cons, len_app, Hin, <- app_assoc; simpl.
        replace (len [b]) with 1 by done. by rewrite <- Z.add_assoc.
Qed.

(** Closing a frame: the [in_frame] branch at a delimiter. *)
Lemma feed1_flag d :
  hdlc_ok d → d.(in_frame) = true ∨ d.(buffer) = [] →
  feed1 d FLAG = let '(d', fs) := emit d in (set_in_frame (clear_buffer d') true, fs).
Proof.
  intros Hok Hin. unfold feed1, emit. rewrite Z.eqb_refl. destruct d as [buf inf sc]; simpl in *.
  destruct buf as [|b buf]; [by destruct inf|]. destruct Hin as [->|]; [|done].
  rewrite unescape_into_ref. cbn [app].
  destruct (unescape_ref (b :: buf)) eqn:Hu; [by apply unescape_ref_nil in Hu|done].
Qed.

Lemma feed_loop_ref fuel d rest frames :
  (length rest < fuel)%nat → hdlc_ok d →
  feed_loop fuel d rest frames = let '(d', fs) := feed_ref d rest in (d', frames ++ fs).
Proof.
  revert d rest frames. induction fuel as [|fuel IH]; intros d rest frames Hf Hok; [lia|]. cbn [feed_loop].
  destruct rest as [|b0 rest0] eqn:Hr; [simpl; by rewrite app_nil_r|]. rewrite <- Hr in *.
  destruct (position _ rest) as [hit|] eqn:Hp.
  - pose proof (position_lt _ _ _ Hp) as Hlt.
    destruct (position_split _ _ _ Hp) as (x & Heq & Hx%Z.eqb_eq & Hall & _). subst x.
    assert (Hfr : feed_ref d rest = feed_ref d (take hit rest ++ FLAG :: drop (S hit) rest))
      by (by rewrite <- Heq).
    rewrite Hfr. assert (length (drop (S hit) rest) < fuel)%nat by (rewrite length_drop; lia).
    destruct (in_frame d) eqn:Hin.
    + pose proof (append_in_frame_ok d (take hit rest)) as Hok1.
      rewrite feed_ref_chunk by done. cbn [feed_ref].
      rewrite feed1_flag by (done || (unfold append_in_frame; case_match; simpl; auto)).
      destruct (emit _) as [d1 fs] eqn:He. rewrite IH; [|done|unfold hdlc_ok; simpl; unfold MAX_FRAME_SIZE, len; simpl; lia].
      destruct (feed_ref (set_in_frame _ _) _) as [d2 f2]. by rewrite app_assoc.
    + rewrite feed_ref_outside by done. cbn [feed_ref]. unfold feed1. rewrite Z.eqb_refl, Hin.
      rewrite IH by done. change (mkHdlc (buffer d) true (unescape_scratch d)) with (set_in_frame d true).
      by destruct (feed_ref (set_in_frame d true) _) as [d2 f2].
  - apply position_None in Hp. rewrite <- (app_nil_r rest) at 2. destruct (in_frame d) eqn:Hin.
    + rewrite feed_ref_chunk by done. simpl. by rewrite app_nil_r.
    + rewrite feed_ref_outside by done. simpl. by rewrite app_nil_r.
Qed.

Lemma feed_feed_ref d data : hdlc_ok d → feed d data = feed_ref d data.
Proof.
  intros Hok. unfold feed. rewrite feed_loop_ref by (done || lia).
  by destruct (feed_ref d data).
Qed.

Lemma feed1_ok d b : hdlc_ok d → hdlc_ok (feed1 d b).1.
Proof.
  unfold hdlc_ok, feed1. intros Hok. pose proof (len_nonneg (buffer d)).
  assert (len (@nil Z) = 0) as Hnil by done.
  repeat (case_match; simpl); rewrite ?Hnil; try (unfold MAX_FRAME_SIZE in *; lia).
  rewrite len_app. replace (len [b]) with 1 by done. apply Z.ltb_ge. done.
Qed.

Lemma feed_ref_ok d data : hdlc_ok d → hdlc_ok (feed_ref d data).1.
Proof.
  revert d. induction data as [|b data IH]; intros d Hok; simpl; [done|].
  pose proof (feed1_ok d b Hok) as H1. destruct (feed1 d b) as [d1 f1]. simpl in H1.
  pose proof (IH d1 H1) as H2. by destruct (feed_ref d1 data) as [d2 f2].
Qed.

Lemma feed_ref_app d a b :
  feed_ref d (a ++ b) =
    let '(d1, f1) := feed_ref d a in let '(d2, f2) := feed_ref d1 b in (d2, f1 ++ f2).
Proof.
  revert d. induction a as [|x a IH]; intros d; simpl; [by destruct (feed_ref d b)|].
  destruct (feed1 d x) as [d1 f1]. rewrite IH. destruct (feed_ref d1 a) as [d2 f2].
  destruct (feed_ref d2 b) as [d3 f3]. by rewrite app_assoc.
Qed.

(** Feeding a sequence of chunks, in order. *)
Fixpoint feed_all (d : HdlcDeframer) (chunks : list bytes) : HdlcDeframer * list bytes :=
  match chunks with
  | [] => (d, [])
  | c :: cs =>
      let '(d1, f1) := feed d c in
      let '(d2, f2) := feed_all d1 cs in (d2, f1 ++ f2)
  end.

Lemma feed_all_ref d chunks : hdlc_ok d → feed_all d chunks = feed_ref d (concat chunks).
Proof.
  revert d. induction chunks as [|c cs IH]; intros d Hok; simpl; [done|].
  rewrite feed_feed_ref, feed_ref_app by done. pose proof (feed_ref_ok d c Hok) as Hok1.
  destruct (feed_ref d c) as [d1 f1]. simpl in Hok1. by rewrite IH.
Qed.

(** ** Round trip *)

Lemma unescape_esc1 b k : unescape_ref (esc1 b ++ k) = b :: unescape_ref k.
Proof.
  unfold esc1. destruct (Z.eqb_spec b ESC) as [->|H1]; [done|].
  destruct (Z.eqb_spec b FLAG) as [->|H2]; [done|]. simpl.
  by rewrite (proj2 (Z.eqb_neq b ESC) H1).
Qed.

Lemma unescape_flat l : unescape_ref (flat_map esc1 l) = l.
Proof. induction l as [|b l IH]; [done|]. cbn [flat_map]. by rewrite unescape_esc1, IH. Qed.

Lemma esc1_no_flag b : Forall (λ c, (c =? FLAG) = false) (esc1 b).
Proof.
  unfold esc1. destruct (Z.eqb_spec b ESC) as [->|H1]; [by repeat constructor|].
  destruct (Z.eqb_spec b FLAG) as [->|H2]; [by repeat constructor|].
  constructor; [|done]. by apply Z.eqb_neq.
Qed.

Lemma escaped_no_flag l : Forall (λ c, (c =? FLAG) = false) (flat_map esc1 l).
Proof. induction l; simpl; [done|]. apply Forall_app. auto using esc1_no_flag. Qed.

Lemma frame_eq data : frame data = FLAG :: flat_map esc1 data ++ [FLAG].
Proof. unfold frame, frame_into. by rewrite escape_into_ref. Qed.

Lemma flat_map_esc1_nil l : flat_map esc1 l = [] → l = [].
Proof. destruct l as [|b l]; [done|]. simpl. unfold esc1. by case_match. Qed.

Lemma feed_ref_frame d data k :
  hdlc_ok d → d.(in_frame) = true → d.(buffer) = [] →
  data ≠ [] → len (escape data) ≤ MAX_FRAME_SIZE →
  feed_ref d (flat_map esc1 data ++ FLAG :: k) =
    let '(d2, f2) := feed_ref (mkHdlc [] true []) k in (d2, data :: f2).
Proof.
  intros Hok Hin Hb Hne Hlen. unfold escape in Hlen. rewrite escape_into_ref in Hlen. simpl in Hlen.
  rewrite feed_ref_chunk by (done || apply escaped_no_flag).
  unfold append_in_frame. rewrite (proj2 (Z.ltb_ge _ _)) by (rewrite Hb; unfold len in *; simpl; lia).
  rewrite Hb, Hin. cbn [feed_ref app]. unfold feed1. rewrite Z.eqb_refl. cbn [in_frame buffer].
  destruct (flat_map esc1 data) eqn:Hf; [by apply flat_map_esc1_nil in Hf|].
  rewrite <- Hf, unescape_flat. by destruct (feed_ref _ k).
Qed.

Lemma feed_ref_frames payloads d :
  hdlc_ok d → d.(in_frame) = true → d.(buffer) = [] →
  Forall (λ p, p ≠ [] ∧ len (escape p) ≤ MAX_FRAME_SIZE) payloads →
  ∃ d', feed_ref d (concat (map frame payloads)) = (d', payloads) ∧ hdlc_ok d'.
Proof.
  intros Hok Hin Hb Hall. revert d Hok Hin Hb.
  induction Hall as [|p ps [Hp Hl] _ IH]; intros d Hok Hin Hb; simpl; [by exists d|].
  rewrite frame_eq. simpl. unfold feed1 at 1. rewrite Z.eqb_refl, Hin, Hb.
  rewrite <- app_assoc. simpl. rewrite feed_ref_frame by done.
  destruct (IH (mkHdlc [] true [])) as (d' & Hd' & Hok'); [apply hdlc_new_ok|done..|].
  rewrite Hd'. by exists d'.
Qed.

(** ** Properties *)

(** HDLC escaping is a faithful byte-stuffing: unescaping an escaped
    payload returns it, the escaped form never contains the frame delimiter,
    and it is at most twice as long. *)
Theorem hdlc_escape_roundtrip data :
  unescape (escape data) = data ∧ (FLAG ∉ escape data) ∧ len (escape data) ≤ 2 * len data.
Proof.
  unfold unescape, escape. rewrite unescape_into_ref, escape_into_ref. simpl.
  split; [apply unescape_flat|]. split.
  - intros Hin. pose proof (escaped_no_flag data) as H. rewrite Forall_forall in H.
    specialize (H _ Hin). by rewrite Z.eqb_refl in H.
  - induction data as [|b l IH]; [done|]. cbn [flat_map]. rewrite len_app, len_cons.
    assert (len (esc1 b) ≤ 2) by (unfold esc1; by case_match). lia.
Qed.

(** C39.  The chunk-scanning deframer is the byte-wise state machine, so the
    chunking of the input is irrelevant: from any state with a bounded buffer,
    feeding any list of chunks yields the same frames and the same final state
    as feeding their bytes one at a time, and the buffer stays bounded by
    [MAX_FRAME_SIZE]. *)
Theorem hdlc_feed_bytewise d chunks :
  hdlc_ok d →
  feed_all d chunks = feed_ref d (concat chunks) ∧ hdlc_ok (feed_all d chunks).1.
Proof. intros Hok. rewrite feed_all_ref by done. split; [done|by apply feed_ref_ok]. Qed.

(** HDLC transport round trip: the concatenation of framed payloads,
    preceded by arbitrary delimiter-free line noise and cut into chunks in any
    way, is deframed to exactly those payloads, for nonempty payloads whose
    escaped form fits the frame limit. *)
Theorem hdlc_frames_roundtrip noise payloads chunks :
  Forall (λ p, p ≠ [] ∧ len (escape p) ≤ MAX_FRAME_SIZE) payloads → (FLAG ∉ noise) →
  concat chunks = noise ++ concat (map frame payloads) →
  (feed_all hdlc_new chunks).2 = payloads.
Proof.
  intros Hall Hn Hc. rewrite feed_all_ref, Hc by apply hdlc_new_ok.
  rewrite feed_ref_outside; [|done|].
  2:{ apply Forall_forall. intros b Hb. apply Z.eqb_neq. by intros ->. }
  destruct Hall as [|p ps [Hp Hl] Hps]; [done|]. simpl. rewrite frame_eq. simpl.
  rewrite <- app_assoc. simpl. rewrite feed_ref_frame; [|apply hdlc_new_ok|done..].
  destruct (feed_ref_frames ps (mkHdlc [] true [])) as (d' & -> & _); [apply hdlc_new_ok|done..].
Qed.

(** ** Witnesses *)

Lemma hdlc_feed_bytewise_witness :
  feed_all hdlc_new [[0x7E; 1]; [2; 0x7E]] = (mkHdlc [] true [], [[1; 2]]).
Proof.
  rewrite (proj1 (hdlc_feed_bytewise hdlc_new [[0x7E; 1]; [2; 0x7E]] hdlc_new_ok)).
  vm_compute. reflexivity.
Defined.

Lemma hdlc_frames_roundtrip_witness :
  (feed_all hdlc_new [[9; 0x7E; 0x7D]; [0x5E; 0x7E; 0x7E; 3]; [0x7E]]).2 = [[0x7E]; [3]].
Proof.
  apply (hdlc_frames_roundtrip [9] [[0x7E]; [3]]).
  - repeat constructor; discriminate.
  - apply (bool_decide_eq_true_1 _). vm_compute. reflexivity.
  - vm_compute. reflexivity.
Defined.
