(* ===== verification/Kiss.v ===== *)
(** * KISS framing

    Models [rns-interface/src/kiss.rs]: escaping, framing with a command byte,
    the raw deframer that owns the state machine, and the classic deframer that
    masks the port nibble.  Loops are modelled as in the HDLC file: suffix in
    place of index, fuel one more than the input length. *)

From S2P Require Import Prelude.
From stdpp Require Import prelude list.

Open Scope Z_scope.

Definition FEND : Z := 0xC0.
Definition FESC : Z := 0xDB.
Definition TFEND : Z := 0xDC.
Definition TFESC : Z := 0xDD.
Definition CMD_DATA : Z := 0x00.
Definition CMD_MASK : Z := 0x0F.
Definition MAX_FRAME_SIZE : Z := 524288.

(** ** Escaping *)

Fixpoint escape_loop (fuel : nat) (rest out : bytes) : bytes :=
  match fuel with
  | O => out
  | S fuel' =>
      match rest with
      | [] => out
      | _ =>
          match position (λ b, (b =? FESC) || (b =? FEND)) rest with
          | Some rel =>
              let hit := nth rel rest 0 in
              escape_loop fuel' (drop (S rel) rest)
                (out ++ take rel rest ++ [FESC; if hit =? FEND then TFEND else TFESC])
          | None => out ++ rest
          end
      end
  end.

Definition escape_into (data out : bytes) : bytes := escape_loop (S (length data)) data out.

Fixpoint unescape_loop (fuel : nat) (rest out : bytes) : bytes :=
  match fuel with
  | O => out
  | S fuel' =>
      match rest with
      | [] => out
      | _ =>
          match position (λ b, b =? FESC) rest with
          | Some hit =>
              let out := out ++ take hit rest in
              match rest !! S hit with
              | Some next =>
                  let out :=
                    if next =? TFEND then out ++ [FEND]
                    else if next =? TFESC then out ++ [FESC]
                    else out ++ [FESC; next] in
                  unescape_loop fuel' (drop (S (S hit)) rest) out
              | None => out ++ [FESC]
              end
          | None => out ++ rest
          end
      end
  end.

Definition unescape_into (data out : bytes) : bytes := unescape_loop (S (length data)) data out.

Definition frame_into (data out : bytes) : bytes :=
  escape_into data (out ++ [FEND; CMD_DATA]) ++ [FEND].
Definition frame_with_command_into (cmd : Z) (data out : bytes) : bytes :=
  escape_into data (out ++ [FEND; cmd]) ++ [FEND].

Definition escape (data : bytes) : bytes := escape_into data [].
Definition unescape (data : bytes) : bytes := unescape_into data [].
Definition frame (data : bytes) : bytes := frame_into data [].
Definition frame_with_command (cmd : Z) (data : bytes) : bytes := frame_with_command_into cmd data [].

(** ** The raw deframer *)

Record RawKissDeframer := mkRaw {
  buffer : bytes;
  in_frame : bool;
  command : option Z;
  unescape_scratch : bytes;
}.

Definition raw_new : RawKissDeframer := mkRaw [] false None [].

(** [self.buffer.len() + chunk.len() > MAX_FRAME_SIZE] and the append. *)
Definition append_payload (d : RawKissDeframer) (chunk : bytes) : RawKissDeframer :=
  if MAX_FRAME_SIZE <? len d.(buffer) + len chunk
  then mkRaw [] false None d.(unescape_scratch)
  else mkRaw (d.(buffer) ++ chunk) d.(in_frame) d.(command) d.(unescape_scratch).

Definition append_in_frame (d : RawKissDeframer) (chunk : bytes) : RawKissDeframer :=
  match d.(command) with
  | None =>
      match chunk with
      | first :: rest =>
          append_payload (mkRaw d.(buffer) d.(in_frame) (Some first) d.(unescape_scratch)) rest
      | [] => d
      end
  | Some _ => append_payload d chunk
  end.

Definition emit (d : RawKissDeframer) : RawKissDeframer * list (Z * bytes) :=
  match d.(buffer) with
  | [] => (d, [])
  | _ =>
      let frame_data := unescape_into d.(buffer) [] in
      (mkRaw d.(buffer) d.(in_frame) d.(command) [],
       match d.(command) with Some c => [(c, frame_data)] | None => [] end)
  end.

Definition clear_buffer (d : RawKissDeframer) : RawKissDeframer :=
  mkRaw [] d.(in_frame) d.(command) d.(unescape_scratch).
(** [self.in_frame = true; self.command = None] *)
Definition open_frame (d : RawKissDeframer) : RawKissDeframer :=
  mkRaw d.(buffer) true None d.(unescape_scratch).

Fixpoint feed_loop (fuel : nat) (d : RawKissDeframer) (rest : bytes) (frames : list (Z * bytes))
    : RawKissDeframer * list (Z * bytes) :=
  match fuel with
  | O => (d, frames)
  | S fuel' =>
      match rest with
      | [] => (d, frames)
      | _ =>
          match position (λ b, b =? FEND) rest with
          | Some hit =>
              let '(d, frames) :=
                if d.(in_frame) then
                  let d := append_in_frame d (take hit rest) in
                  let '(d, fs) := emit d in
                  (clear_buffer d, frames ++ fs)
                else (d, frames) in
              feed_loop fuel' (open_frame d) (drop (S hit) rest) frames
          | None =>
              (if d.(in_frame) then append_in_frame d rest else d, frames)
          end
      end
  end.

Definition raw_feed (d : RawKissDeframer) (data : bytes) : RawKissDeframer * list (Z * bytes) :=
  feed_loop (S (length data)) d data [].

Definition raw_reset (d : RawKissDeframer) : RawKissDeframer := mkRaw [] false None d.(unescape_scratch).

(** ** The classic deframer *)

Record KissDeframer := mkKiss { inner : RawKissDeframer }.
Definition kiss_new : KissDeframer := mkKiss raw_new.
Definition kiss_feed (d : KissDeframer) (data : bytes) : KissDeframer * list (Z * bytes) :=
  let '(r, frames) := raw_feed d.(inner) data in
  (mkKiss r, map (λ f, (Z.land f.1 CMD_MASK, f.2)) frames).
Definition kiss_reset (d : KissDeframer) : KissDeframer := mkKiss (raw_reset d.(inner)).

(** ** Byte-wise reference functions *)

Definition esc1 (b : Z) : bytes :=
  if (b =? FESC) || (b =? FEND) then [FESC; if b =? FEND then TFEND else TFESC] else [b].

Fixpoint unescape_ref (l : bytes) : bytes :=
  match l with
  | [] => []
  | b :: l' =>
      if b =? FESC then
        match l' with
        | [] => [FESC]
        | next :: l'' =>
            (if next =? TFEND then [FEND] else if next =? TFESC then [FESC] else [FESC; next])
            ++ unescape_ref l''
        end
      else b :: unescape_ref l'
  end.

Definition feed1 (d : RawKissDeframer) (b : Z) : RawKissDeframer * list (Z * bytes) :=
  if b =? FEND then
    if d.(in_frame) then
      match d.(buffer) with
      | [] => (mkRaw [] true None d.(unescape_scratch), [])
      | _ => (mkRaw [] true None [],
              match d.(command) with Some c => [(c, unescape_ref d.(buffer))] | None => [] end)
      end
    else (mkRaw d.(buffer) true None d.(unescape_scratch), [])
  else if d.(in_frame) then
    match d.(command) with
    | None => (mkRaw d.(buffer) true (Some b) d.(unescape_scratch), [])
    | Some _ =>
        if MAX_FRAME_SIZE <? len d.(buffer) + 1 then (mkRaw [] false None d.(unescape_scratch), [])
        else (mkRaw (d.(buffer) ++ [b]) true d.(command) d.(unescape_scratch), [])
    end
  else (d, []).

Fixpoint feed_ref (d : RawKissDeframer) (data : bytes) : RawKissDeframer * list (Z * bytes) :=
  match data with
  | [] => (d, [])
  | b :: data' =>
      let '(d1, f1) := feed1 d b in
      let '(d2, f2) := feed_ref d1 data' in (d2, f1 ++ f2)
  end.

(** ** Lemmas: the loops compute the reference functions *)

Lemma kiss_flat_map_esc1_id l :
  Forall (λ b, (b =? FESC) || (b =? FEND) = false) l → flat_map esc1 l = l.
Proof.
  induction 1 as [|b l Hb _ IH]; simpl; [done|].
  rewrite IH. unfold esc1. by rewrite Hb.
Qed.

Lemma kiss_escape_loop_ref fuel rest out :
  (length rest < fuel)%nat → escape_loop fuel rest out = out ++ flat_map esc1 rest.
Proof.
  revert rest out. induction fuel as [|fuel IH]; intros rest out Hf; [lia|]. cbn [escape_loop].
  destruct rest as [|b0 rest0] eqn:Hr; [by rewrite app_nil_r|]. rewrite <- Hr in *.
  destruct (position _ rest) as [rel|] eqn:Hp.
  - pose proof (position_lt _ _ _ Hp) as Hlt.
    destruct (position_split _ _ _ Hp) as (x & Heq & Hx & Hall & ->).
    rewrite IH by (rewrite length_drop; lia). rewrite <- app_assoc. f_equal.
    rewrite Heq at 3. rewrite flat_map_app, (kiss_flat_map_esc1_id (take rel rest)) by done. simpl.
    unfold esc1 at 2. by rewrite Hx, <- app_assoc.
  - apply position_None in Hp. by rewrite kiss_flat_map_esc1_id.
Qed.

Lemma kiss_escape_into_ref data out : escape_into data out = out ++ flat_map esc1 data.
Proof. apply kiss_escape_loop_ref. lia. Qed.

Lemma kiss_unescape_ref_plain l k :
  Forall (λ b, (b =? FESC) = false) l → unescape_ref (l ++ k) = l ++ unescape_ref k.
Proof. induction 1 as [|b l Hb _ IH]; simpl; [done|]. by rewrite Hb, IH. Qed.

Lemma kiss_unescape_loop_ref fuel rest out :
  (length rest < fuel)%nat → unescape_loop fuel rest out = out ++ unescape_ref rest.
Proof.
  revert rest out. induction fuel as [|fuel IH]; intros rest out Hf; [lia|]. cbn [unescape_loop].
  destruct rest as [|b0 rest0] eqn:Hr; [by rewrite app_nil_r|]. rewrite <- Hr in *.
  destruct (position _ rest) as [hit|] eqn:Hp.
  - pose proof (position_lt _ _ _ Hp) as Hlt.
    destruct (position_split _ _ _ Hp) as (x & Heq & Hx & Hall & _).
    assert (Hn : rest !! S hit = drop (S hit) rest !! 0%nat) by (by rewrite lookup_drop, Nat.add_0_r).
    assert (Hu : unescape_ref rest = take hit rest ++ unescape_ref (x :: drop (S hit) rest))
      by (rewrite Heq at 1; by apply kiss_unescape_ref_plain).
    rewrite Hn, Hu. cbn [unescape_ref]. rewrite Hx. replace (drop (S (S hit)) rest) with (drop 1 (drop (S hit) rest))
      by (rewrite drop_drop; f_equal; lia).
    destruct (drop (S hit) rest) as [|next l''] eqn:Hd; simpl; [by rewrite <- app_assoc|].
    assert (length l'' < fuel)%nat.
    { assert (length (drop (S hit) rest) = S (length l'')) by (by rewrite Hd).
      rewrite length_drop in *. lia. }
    rewrite drop_0, IH by done.
    destruct (next =? TFEND), (next =? TFESC); by rewrite <- !app_assoc.
  - apply position_None in Hp. rewrite <- (app_nil_r rest) at 2.
    by rewrite kiss_unescape_ref_plain, app_nil_r.
Qed.

Lemma kiss_unescape_into_ref data out : unescape_into data out = out ++ unescape_ref data.
Proof. apply kiss_unescape_loop_ref. lia. Qed.

(** ** The deframer invariant: a bounded buffer *)

Definition raw_ok (d : RawKissDeframer) : Prop := len d.(buffer) ≤ MAX_FRAME_SIZE.

Lemma raw_ok_nil i c s : raw_ok (mkRaw [] i c s).
Proof. unfold raw_ok, MAX_FRAME_SIZE, len. simpl. lia. Qed.

Lemma append_payload_ok d chunk : raw_ok (append_payload d chunk).
Proof.
  unfold append_payload. destruct (Z.ltb_spec MAX_FRAME_SIZE (len (buffer d) + len chunk)); [apply raw_ok_nil|].
  unfold raw_ok; simpl. rewrite len_app. lia.
Qed.

Lemma kiss_append_in_frame_ok d chunk : raw_ok d → raw_ok (append_in_frame d chunk).
Proof. intros. unfold append_in_frame. repeat case_match; auto using append_payload_ok. Qed.

Lemma kiss_feed_ref_outside d l k :
  d.(in_frame) = false → Forall (λ b, (b =? FEND) = false) l → feed_ref d (l ++ k) = feed_ref d k.
Proof.
  intros Hd. induction 1 as [|b l Hb _ IH]; simpl; [done|].
  unfold feed1 at 1. rewrite Hb, Hd, IH. by destruct (feed_ref d k).
Qed.

Lemma feed_ref_payload d l k c :
  raw_ok d → d.(in_frame) = true → d.(command) = Some c → Forall (λ b, (b =? FEND) = false) l →
  feed_ref d (l ++ k) = feed_ref (append_payload d l) k.
Proof.
  intros Hok Hin Hc Hall. revert d Hok Hin Hc. induction Hall as [|b l Hb Hall IH]; intros d Hok Hin Hc; simpl.
  - f_equal. unfold append_payload, raw_ok in *. destruct d as [buf inf cm sc]; simpl in *.
    rewrite (proj2 (Z.ltb_ge _ _)) by (unfold len at 2; simpl; lia). by rewrite app_nil_r.
  - unfold feed1. rewrite Hb, Hin, Hc.
    destruct (Z.ltb_spec MAX_FRAME_SIZE (len (buffer d) + 1)) as [Hov|Hov].
    + rewrite kiss_feed_ref_outside by done. unfold append_payload.
      rewrite (proj2 (Z.ltb_lt _ _)) by (rewrite len_cons; pose proof (len_nonneg l); lia).
      by destruct (feed_ref _ k).
    + set (d' := mkRaw (buffer d ++ [b]) true (Some c) (unescape_scratch d)).
      assert (Hok' : raw_ok d') by (unfold raw_ok; simpl; rewrite len_app; replace (len [b]) with 1 by done; lia).
      rewrite (IH d' Hok' eq_refl eq_refl). replace (append_payload d' l) with (append_payload d (b :: l)).
      * by destruct (feed_ref _ k).
      * unfold append_payload, d'; simpl. rewrite !len_cons, len_app, Hin, Hc, <- app_assoc; simpl.
        replace (len [b]) with 1 by done. by rewrite <- Z.add_assoc.
Qed.

(** A run of bytes without a delimiter is one [append_in_frame]. *)
Lemma kiss_feed_ref_chunk d l k :
  raw_ok d → d.(in_frame) = true → Forall (λ b, (b =? FEND) = false) l →
  feed_ref d (l ++ k) = feed_ref (append_in_frame d l) k.
Proof.
  intros Hok Hin Hall. unfold append_in_frame. destruct (command d) as [c|] eqn:Hc.
  { by eapply feed_ref_payload. }
  destruct Hall as [|b l Hb Hall]; [done|]. simpl. unfold feed1. rewrite Hb, Hin, Hc.
  set (d' := mkRaw (buffer d) true (Some b) (unescape_scratch d)).
  rewrite (feed_ref_payload d' l k b) by done. by destruct (feed_ref _ k).
Qed.

Lemma feed1_fend d :
  d.(in_frame) = true ∨ d.(buffer) = [] →
  feed1 d FEND = let '(d', fs) := emit d in (open_frame (clear_buffer d'), fs).
Proof.
  intros Hin. unfold feed1, emit. rewrite Z.eqb_refl. destruct d as [buf inf cm sc]; simpl in *.
  destruct buf as [|b buf]; [by destruct inf|]. destruct Hin as [->|]; [|done].
  by rewrite kiss_unescape_into_ref.
Qed.

Lemma append_in_frame_open d l :
  d.(in_frame) = true → (append_in_frame d l).(in_frame) = true ∨ (append_in_frame d l).(buffer) = [].
Proof. intros Hin. unfold append_in_frame, append_payload. repeat case_match; simpl; auto. Qed.

Lemma kiss_feed_loop_ref fuel d rest frames :
  (length rest < fuel)%nat → raw_ok d →
  feed_loop fuel d rest frames = let '(d', fs) := feed_ref d rest in (d', frames ++ fs).
Proof.
  revert d rest frames. induction fuel as [|fuel IH]; intros d rest frames Hf Hok; [lia|]. cbn [feed_loop].
  destruct rest as [|b0 rest0] eqn:Hr; [simpl; by rewrite app_nil_r|]. rewrite <- Hr in *.
  destruct (position _ rest) as [hit|] eqn:Hp.
  - pose proof (position_lt _ _ _ Hp) as Hlt.
    destruct (position_split _ _ _ Hp) as (x & Heq & Hx%Z.eqb_eq & Hall & _). subst x.
    assert (Hfr : feed_ref d rest = feed_ref d (take hit rest ++ FEND :: drop (S hit) rest))
      by (by rewrite <- Heq).
    rewrite Hfr. assert (length (drop (S hit) rest) < fuel)%nat by (rewrite length_drop; lia).
    destruct (in_frame d) eqn:Hin.
    + rewrite kiss_feed_ref_chunk by done. cbn [feed_ref].
      rewrite feed1_fend by (by apply append_in_frame_open).
      destruct (emit _) as [d1 fs] eqn:He. rewrite IH; [|done|apply raw_ok_nil].
      destruct (feed_ref (open_frame _) _) as [d2 f2]. by rewrite app_assoc.
    + rewrite kiss_feed_ref_outside by done. cbn [feed_ref]. unfold feed1. rewrite Z.eqb_refl, Hin.
      rewrite IH by done. change (mkRaw (buffer d) true None (unescape_scratch d)) with (open_frame d).
      by destruct (feed_ref (open_frame d) _) as [d2 f2].
  - apply position_None in Hp. rewrite <- (app_nil_r rest) at 2. destruct (in_frame d) eqn:Hin.
    + rewrite kiss_feed_ref_chunk by done. simpl. by rewrite app_nil_r.
    + rewrite kiss_feed_ref_outside by done. simpl. by rewrite app_nil_r.
Qed.

Lemma raw_feed_ref d data : raw_ok d → raw_feed d data = feed_ref d data.
Proof.
  intros Hok. unfold raw_feed. rewrite kiss_feed_loop_ref by (done || lia).
  by destruct (feed_ref d data).
Qed.

Lemma kiss_feed1_ok d b : raw_ok d → raw_ok (feed1 d b).1.
Proof.
  unfold feed1. intros Hok. repeat (case_match; simpl); try apply raw_ok_nil; try done.
  unfold raw_ok in *; simpl. rewrite len_app. replace (len [b]) with 1 by done. apply Z.ltb_ge. done.
Qed.

Lemma kiss_feed_ref_ok d data : raw_ok d → raw_ok (feed_ref d data).1.
Proof.
  revert d. induction data as [|b data IH]; intros d Hok; simpl; [done|].
  pose proof (kiss_feed1_ok d b Hok) as H1. destruct (feed1 d b) as [d1 f1]. simpl in H1.
  pose proof (IH d1 H1) as H2. by destruct (feed_ref d1 data) as [d2 f2].
Qed.

Lemma kiss_feed_ref_app d a b :
  feed_ref d (a ++ b) =
    let '(d1, f1) := feed_ref d a in let '(d2, f2) := feed_ref d1 b in (d2, f1 ++ f2).
Proof.
  revert d. induction a as [|x a IH]; intros d; simpl; [by destruct (feed_ref d b)|].
  destruct (feed1 d x) as [d1 f1]. rewrite IH. destruct (feed_ref d1 a) as [d2 f2].
  destruct (feed_ref d2 b) as [d3 f3]. by rewrite app_assoc.
Qed.

(** Feeding a sequence of chunks to the classic deframer, in order. *)
Fixpoint feed_all (d : KissDeframer) (chunks : list bytes) : KissDeframer * list (Z * bytes) :=
  match chunks with
  | [] => (d, [])
  | c :: cs =>
      let '(d1, f1) := kiss_feed d c in
      let '(d2, f2) := feed_all d1 cs in (d2, f1 ++ f2)
  end.

Definition mask_cmd (f : Z * bytes) : Z * bytes := (Z.land f.1 CMD_MASK, f.2).

Lemma kiss_feed_all_ref d chunks :
  raw_ok d.(inner) →
  feed_all d chunks = let '(r, fs) := feed_ref d.(inner) (concat chunks) in (mkKiss r, map mask_cmd fs).
Proof.
  revert d. induction chunks as [|c cs IH]; intros d Hok; simpl; [by destruct d|].
  unfold kiss_feed. rewrite raw_feed_ref, kiss_feed_ref_app by done. pose proof (kiss_feed_ref_ok _ c Hok) as Hok1.
  destruct (feed_ref (inner d) c) as [d1 f1]. simpl in Hok1. rewrite IH by done. simpl.
  destruct (feed_ref d1 _) as [d2 f2]. by rewrite map_app.
Qed.

(** ** Round trip *)

Lemma kiss_unescape_esc1 b k : unescape_ref (esc1 b ++ k) = b :: unescape_ref k.
Proof.
  unfold esc1. destruct (Z.eqb_spec b FESC) as [->|H1]; [done|].
  destruct (Z.eqb_spec b FEND) as [->|H2]; [done|]. simpl.
  by rewrite (proj2 (Z.eqb_neq b FESC) H1).
Qed.

Lemma kiss_unescape_flat l : unescape_ref (flat_map esc1 l) = l.
Proof. induction l as [|b l IH]; [done|]. cbn [flat_map]. by rewrite kiss_unescape_esc1, IH. Qed.

Lemma esc1_no_fend b : Forall (λ c, (c =? FEND) = false) (esc1 b).
Proof.
  unfold esc1. destruct (Z.eqb_spec b FESC) as [->|H1]; [by repeat constructor|].
  destruct (Z.eqb_spec b FEND) as [->|H2]; [by repeat constructor|].
  constructor; [|done]. by apply Z.eqb_neq.
Qed.

Lemma escaped_no_fend l : Forall (λ c, (c =? FEND) = false) (flat_map esc1 l).
Proof. induction l; simpl; [done|]. apply Forall_app. auto using esc1_no_fend. Qed.

Lemma kiss_flat_map_esc1_nil l : flat_map esc1 l = [] → l = [].
Proof. destruct l as [|b l]; [done|]. simpl. unfold esc1. by case_match. Qed.

Lemma kiss_frame_eq c data : frame_with_command c data = FEND :: c :: flat_map esc1 data ++ [FEND].
Proof. unfold frame_with_command, frame_with_command_into. by rewrite kiss_escape_into_ref. Qed.

(** A frame the link can carry: a command byte that is not the delimiter and a
    nonempty payload that fits. *)
Definition frame_ok (f : Z * bytes) : Prop :=
  f.1 ≠ FEND ∧ f.2 ≠ [] ∧ len (escape f.2) ≤ MAX_FRAME_SIZE.

Lemma kiss_feed_ref_frame s c data k :
  frame_ok (c, data) →
  feed_ref (mkRaw [] true None s) (c :: flat_map esc1 data ++ FEND :: k) =
    let '(d2, f2) := feed_ref (mkRaw [] true None []) k in (d2, (c, data) :: f2).
Proof.
  intros (Hc%Z.eqb_neq & Hne & Hlen); simpl in *. unfold escape in Hlen.
  rewrite kiss_escape_into_ref in Hlen. simpl in Hlen. unfold feed1 at 1. rewrite Hc. simpl.
  rewrite (feed_ref_payload _ _ _ c) by (done || apply escaped_no_fend || apply raw_ok_nil).
  unfold append_payload. rewrite (proj2 (Z.ltb_ge _ _)) by (unfold len in *; simpl in *; lia).
  cbn [feed_ref app buffer in_frame command unescape_scratch]. unfold feed1. rewrite Z.eqb_refl.
  cbn [in_frame buffer]. destruct (flat_map esc1 data) eqn:Hf; [by apply kiss_flat_map_esc1_nil in Hf|].
  rewrite <- Hf, kiss_unescape_flat. simpl. by destruct (feed_ref _ k).
Qed.

Lemma feed_ref_cons d b k :
  feed_ref d (b :: k) =
    let '(d1, f1) := feed1 d b in let '(d2, f2) := feed_ref d1 k in (d2, f1 ++ f2).
Proof. done. Qed.

Lemma kiss_feed_ref_frames fs s :
  Forall frame_ok fs →
  (feed_ref (mkRaw [] true None s) (concat (map (λ f, frame_with_command f.1 f.2) fs))).2 = fs.
Proof.
  intros Hall. revert s. induction Hall as [|[c p] fs Hf _ IH]; intros s; [done|].
  cbn [map concat fst snd]. rewrite kiss_frame_eq. cbn [app]. rewrite feed_ref_cons. unfold feed1 at 1. rewrite Z.eqb_refl. cbn [in_frame buffer].
  rewrite <- app_assoc. cbn [app]. rewrite kiss_feed_ref_frame by done.
  specialize (IH []). destruct (feed_ref _ _) as [d2 f2]. simpl in *. by rewrite IH.
Qed.

(** ** Properties *)

(** KISS escaping is a faithful byte-stuffing: unescaping an escaped
    payload returns it, the escaped form never contains the frame delimiter,
    and it is at most twice as long. *)
Theorem kiss_escape_roundtrip data :
  unescape (escape data) = data ∧ (FEND ∉ escape data) ∧ len (escape data) ≤ 2 * len data.
Proof.
  unfold unescape, escape. rewrite kiss_unescape_into_ref, kiss_escape_into_ref. simpl.
  split; [apply kiss_unescape_flat|]. split.
  - intros Hin. pose proof (escaped_no_fend data) as H. rewrite Forall_forall in H.
    specialize (H _ Hin). by rewrite Z.eqb_refl in H.
  - induction data as [|b l IH]; [done|]. cbn [flat_map]. rewrite len_app, len_cons.
    assert (len (esc1 b) ≤ 2) by (unfold esc1; by case_match). lia.
Qed.

(** KISS transport round trip: command frames preceded by delimiter-free
    noise and cut into chunks in any way are deframed to exactly the commands
    (port nibble masked) and payloads that were framed, provided no command is
    the delimiter byte, payloads are nonempty and fit the frame limit; the
    deframer's buffer stays bounded throughout. *)
Theorem kiss_frames_roundtrip noise fs chunks :
  Forall frame_ok fs → (FEND ∉ noise) →
  concat chunks = noise ++ concat (map (λ f, frame_with_command f.1 f.2) fs) →
  (feed_all kiss_new chunks).2 = map mask_cmd fs ∧ raw_ok (feed_all kiss_new chunks).1.(inner).
Proof.
  intros Hall Hn Hc. rewrite kiss_feed_all_ref by apply raw_ok_nil. rewrite Hc.
  rewrite kiss_feed_ref_outside; [|done|].
  2:{ apply Forall_forall. intros b Hb. apply Z.eqb_neq. by intros ->. }
  pose proof (kiss_feed_ref_ok raw_new (concat (map (λ f, frame_with_command f.1 f.2) fs)) (raw_ok_nil _ _ _)) as Hok.
  assert (Hfs : (feed_ref raw_new (concat (map (λ f, frame_with_command f.1 f.2) fs))).2 = fs).
  { destruct Hall as [|[c p] fs Hf Hall]; [done|].
    cbn [map concat fst snd]. rewrite kiss_frame_eq. cbn [app]. rewrite feed_ref_cons. unfold feed1 at 1. rewrite Z.eqb_refl.
    cbn [in_frame buffer raw_new].
    rewrite <- app_assoc. cbn [app]. rewrite kiss_feed_ref_frame by done.
    pose proof (kiss_feed_ref_frames fs [] Hall) as H.
    destruct (feed_ref (mkRaw [] true None []) _) as [d2 f2]. simpl in H. by subst f2. }
  simpl inner. destruct (feed_ref raw_new _) as [d2 f2]. simpl in *. by rewrite Hfs.
Qed.

(** ** Witnesses *)

Lemma kiss_frames_roundtrip_witness :
  (feed_all kiss_new [[9; 0xC0]; [0x10; 0xDB]; [0xDC; 0xC0]]).2 = [(0, [0xC0])].
Proof.
  apply (kiss_frames_roundtrip [9] [(0x10, [0xC0])] [[9; 0xC0]; [0x10; 0xDB]; [0xDC; 0xC0]]).
  - repeat constructor; discriminate.
  - apply (bool_decide_eq_true_1 _). vm_compute. reflexivity.
  - vm_compute. reflexivity.
Defined.
