(* ===== verification/Token.v ===== *)
(** * Padding, AES-CBC wrapper and the encryption token

    Models [rns-crypto/src/pkcs7.rs], [aes_cbc.rs], [hmac.rs] and [token.rs].
    The block cipher and the MAC are third-party crates ([aes], [cbc],
    [hmac]/[sha2]): the classes [AesCbc] and [Hmac] are their interfaces and
    [AesCbcLaws], [HmacLaws] state the documented behaviour used here.  The
    random IV is an argument. *)

From S2P Require Import Prelude.
From stdpp Require Import prelude list.

Open Scope Z_scope.

(** ** PKCS7 (pkcs7.rs) *)

Definition BLOCK_SIZE : nat := 16.

Inductive Pkcs7Error := InvalidPaddingValue (b : Z) | InconsistentPadding | EmptyInput.

Definition pad (data : bytes) : bytes :=
  let pad_len := (BLOCK_SIZE - length data mod BLOCK_SIZE)%nat in
  data ++ replicate pad_len (Z.of_nat pad_len mod 256).

Definition unpad (data : bytes) : res Pkcs7Error bytes :=
  if decide (data = []) then Err EmptyInput else
  let* pad_byte := idx data (length data - 1) in
  if (pad_byte =? 0) || (Z.of_nat BLOCK_SIZE <? pad_byte) then Err (InvalidPaddingValue pad_byte) else
  let pad_len := Z.to_nat pad_byte in
  if decide (length data < pad_len)%nat then Err (InvalidPaddingValue pad_byte) else
  let start := (length data - pad_len)%nat in
  let* tail := slice_from data start in
  if forallb (λ b, b =? pad_byte) tail then slice_to data start else Err InconsistentPadding.

(** ** AES-CBC (aes_cbc.rs) *)

Definition AES_BLOCK_SIZE : nat := 16.

Definition is_nonzero_block_aligned (n : nat) : bool :=
  negb (Nat.eqb n 0) && Nat.eqb (n mod AES_BLOCK_SIZE) 0.

(** The block ciphers of the [aes] crate, and the [cbc] crate's two modes:
    construction from slices and in-place processing without padding. *)
Inductive BlockCipher := Aes128 | Aes256.

Definition key_size (c : BlockCipher) : nat :=
  match c with Aes128 => 16 | Aes256 => 32 end.

Class AesCbc := {
  Encryptor : Type;
  Decryptor : Type;
  enc_new_from_slices : BlockCipher → bytes → bytes → option Encryptor;
  dec_new_from_slices : BlockCipher → bytes → bytes → option Decryptor;
  encrypt_padded_mut : Encryptor → bytes → option bytes;
  decrypt_padded_mut : Decryptor → bytes → option bytes;
}.

(** Documented behaviour: a key of the cipher's size and a one-block IV are
    accepted by both modes, whole blocks are processed without failing and
    without changing their number, and decryption inverts encryption under
    the same key and IV. *)
Class AesCbcLaws (A : AesCbc) : Prop := {
  cipher_new : ∀ c k iv, length k = key_size c → length iv = 16%nat →
    ∃ e d, enc_new_from_slices c k iv = Some e ∧ dec_new_from_slices c k iv = Some d;
  cipher_inverse : ∀ c k iv e d p,
    enc_new_from_slices c k iv = Some e → dec_new_from_slices c k iv = Some d →
    is_nonzero_block_aligned (length p) = true → bytes_ok p →
    ∃ ct, encrypt_padded_mut e p = Some ct ∧ length ct = length p ∧ bytes_ok ct ∧
          decrypt_padded_mut d ct = Some p;
  cipher_decrypt_ok : ∀ d ct p, decrypt_padded_mut d ct = Some p →
    length p = length ct ∧ bytes_ok p;
}.

Inductive AesCbcError :=
| AesInvalidKeyLength (n : nat) | AesInvalidIvLength (n : nat) | NotBlockAligned
| AesDecryptionFailed | AesEncryptionFailed.

Section aes_cbc.
Context `{A : AesCbc}.

Definition aes_encrypt (key iv plaintext : bytes) : res AesCbcError bytes :=
  if decide (length iv ≠ AES_BLOCK_SIZE) then Err (AesInvalidIvLength (length iv)) else
  if negb (is_nonzero_block_aligned (length plaintext)) then Err NotBlockAligned else
  if decide (length key = 16%nat) then
      let* enc := ok_or (enc_new_from_slices Aes128 key iv) (AesInvalidKeyLength (length key)) in
      ok_or (encrypt_padded_mut enc plaintext) AesEncryptionFailed
  else if decide (length key = 32%nat) then
      let* enc := ok_or (enc_new_from_slices Aes256 key iv) (AesInvalidKeyLength (length key)) in
      ok_or (encrypt_padded_mut enc plaintext) AesEncryptionFailed
  else Err (AesInvalidKeyLength (length key)).

Definition aes_decrypt (key iv ciphertext : bytes) : res AesCbcError bytes :=
  if decide (length iv ≠ AES_BLOCK_SIZE) then Err (AesInvalidIvLength (length iv)) else
  if negb (is_nonzero_block_aligned (length ciphertext)) then Err NotBlockAligned else
  if decide (length key = 16%nat) then
      let* dec := ok_or (dec_new_from_slices Aes128 key iv) (AesInvalidKeyLength (length key)) in
      ok_or (decrypt_padded_mut dec ciphertext) AesDecryptionFailed
  else if decide (length key = 32%nat) then
      let* dec := ok_or (dec_new_from_slices Aes256 key iv) (AesInvalidKeyLength (length key)) in
      ok_or (decrypt_padded_mut dec ciphertext) AesDecryptionFailed
  else Err (AesInvalidKeyLength (length key)).
End aes_cbc.

(** ** HMAC (hmac.rs) *)

Class Hmac := { hmac_sha256 : bytes → bytes → bytes }.
Class HmacLaws (H : Hmac) : Prop := { hmac_length : ∀ k d, length (hmac_sha256 k d) = 32%nat }.

Definition hmac_verify `{Hmac} (key data expected : bytes) : bool :=
  bool_decide (hmac_sha256 key data = expected).

(** ** The token (token.rs) *)

Definition KEY_LENGTH : nat := 64.
Definition LEGACY_KEY_LENGTH : nat := 32.

Inductive TokenError :=
| InvalidKeyLength (n : nat) | TooShort | AuthenticationFailed | DecryptionFailed | EncryptionFailed.

Definition split_key (key : bytes) : res TokenError (bytes * bytes) :=
  if decide (length key = KEY_LENGTH) then
    let* a := slice_to key 32 in let* b := slice_from key 32 in Ok (a, b)
  else if decide (length key = LEGACY_KEY_LENGTH) then
    let* a := slice_to key 16 in let* b := slice_from key 16 in Ok (a, b)
  else Err (InvalidKeyLength (length key)).

Section token_format.
Context `{A : AesCbc} `{H : Hmac}.

Definition token_encrypt (plaintext key iv : bytes) : res TokenError bytes :=
  let* '(signing_key, encryption_key) := split_key key in
  let padded := pad plaintext in
  let* ciphertext := map_err (λ _, EncryptionFailed) (aes_encrypt encryption_key iv padded) in
  let signed_parts := iv ++ ciphertext in
  let mac := hmac_sha256 signing_key signed_parts in
  Ok (signed_parts ++ mac).

Definition token_decrypt (token key : bytes) : res TokenError bytes :=
  let* '(signing_key, encryption_key) := split_key key in
  if decide (length token < 64)%nat then Err AuthenticationFailed else
  let split_point := (length token - 32)%nat in
  let* signed_parts := slice_to token split_point in
  let* rest := slice_from token split_point in
  let* received_hmac := copy_array 32 rest in
  if negb (hmac_verify signing_key signed_parts received_hmac) then Err AuthenticationFailed else
  let* iv := slice_to signed_parts 16 in
  let* ciphertext := slice_from signed_parts 16 in
  if negb (is_nonzero_block_aligned (length ciphertext)) then Err AuthenticationFailed else
  let* padded := map_err (λ _, AuthenticationFailed) (aes_decrypt encryption_key iv ciphertext) in
  let* u := map_err (λ _, AuthenticationFailed) (unpad padded) in
  Ok (take (length u) padded).
End token_format.

(** ** PKCS7 lemmas *)

Lemma forallb_replicate (b : Z) l : forallb (λ x, x =? b) l = true ↔ l = replicate (length l) b.
Proof.
  induction l as [|x l IH]; simpl; [done|]. rewrite andb_true_iff, Z.eqb_eq, IH. split.
  - intros [-> Hl]. by rewrite <- Hl.
  - intros [= -> Hl]. by rewrite <- Hl.
Qed.

Lemma unpad_app d n :
  (1 ≤ n ≤ 16)%nat → unpad (d ++ replicate n (Z.of_nat n)) = Ok d.
Proof.
  intros Hn. unfold unpad. rewrite decide_False by (destruct d, n; simpl; try done; lia).
  rewrite length_app, length_replicate.
  rewrite (idx_ok _ _ (Z.of_nat n)).
  2:{ rewrite lookup_app_r, lookup_replicate by lia. split; [done|lia]. }
  cbn [res_bind].
  rewrite (proj2 (Z.eqb_neq _ _)), (proj2 (Z.ltb_ge _ _)) by (unfold BLOCK_SIZE; lia). cbn [orb].
  rewrite Nat2Z.id, decide_False by lia.
  replace (length d + n - n)%nat with (length d) by lia.
  rewrite slice_from_ok by (rewrite length_app; lia). cbn [res_bind].
  rewrite drop_app_length, (proj2 (forallb_replicate _ _)) by (by rewrite length_replicate).
  rewrite slice_to_ok by (rewrite length_app; lia). by rewrite take_app_length.
Qed.

Lemma unpad_inv p d :
  bytes_ok p → unpad p = Ok d → ∃ n, (1 ≤ n ≤ 16)%nat ∧ p = d ++ replicate n (Z.of_nat n).
Proof.
  intros Hok. unfold unpad. case_decide as Hne; [done|]. intros Hu.
  assert (Hl : (0 < length p)%nat) by (destruct p; simpl; [done|lia]).
  destruct (idx_lt_inv (E:=Pkcs7Error) p (length p - 1)) as (b & Hb & Hi); [lia|].
  rewrite Hi in Hu. cbn [res_bind] in Hu. pose proof (bytes_ok_lookup _ _ _ Hok Hb) as Hu8. unfold u8 in Hu8.
  destruct (Z.eqb_spec b 0), (Z.ltb_spec (Z.of_nat BLOCK_SIZE) b); cbn [orb] in Hu; try done.
  unfold BLOCK_SIZE in *. case_decide as Hp; [done|].
  rewrite slice_from_ok in Hu by lia. cbn [res_bind] in Hu.
  destruct (forallb _ _) eqn:Hf; [|done]. rewrite slice_to_ok in Hu by lia. injection Hu as <-.
  apply forallb_replicate in Hf. rewrite length_drop in Hf.
  exists (Z.to_nat b). split; [lia|]. rewrite Z2Nat.id by lia.
  replace (length p - (length p - Z.to_nat b))%nat with (Z.to_nat b) in Hf by lia.
  by rewrite <- Hf, take_drop.
Qed.

Lemma unpad_no_panic p : unpad p ≠ Panic.
Proof.
  unfold unpad. case_decide as Hne; [done|].
  assert (Hl : (0 < length p)%nat) by (destruct p; simpl; [done|lia]).
  destruct (idx_lt_inv (E:=Pkcs7Error) p (length p - 1)) as (b & Hb & Hi); [lia|].
  rewrite Hi. cbn [res_bind]. destruct (_ || _); [done|]. case_decide; [done|].
  rewrite slice_from_ok by lia. cbn [res_bind]. destruct (forallb _ _); [|done].
  by rewrite slice_to_ok by lia.
Qed.

Lemma pad_shape d :
  ∃ n, (1 ≤ n ≤ 16)%nat ∧ pad d = d ++ replicate n (Z.of_nat n) ∧
       (length d + n = 16 * (length d / 16 + 1))%nat.
Proof.
  exists (16 - length d mod 16)%nat.
  pose proof (Nat.mod_upper_bound (length d) 16). pose proof (Nat.div_mod_eq (length d) 16).
  split_and!; [lia|lia| |lia].
  unfold pad, BLOCK_SIZE. cbv zeta. f_equal. f_equal. apply Z.mod_small. lia.
Qed.

Lemma length_pad d : length (pad d) = (16 * (length d / 16 + 1))%nat.
Proof. destruct (pad_shape d) as (n & _ & -> & <-). by rewrite length_app, length_replicate. Qed.

Lemma unpad_pad d : unpad (pad d) = Ok d.
Proof. destruct (pad_shape d) as (n & Hn & -> & _). by apply unpad_app. Qed.

Lemma pad_bytes_ok d : bytes_ok d → bytes_ok (pad d).
Proof.
  destruct (pad_shape d) as (n & Hn & -> & _). intros. apply bytes_ok_app. split; [done|].
  apply bytes_ok_replicate. unfold u8. lia.
Qed.

Lemma aligned_pad d : is_nonzero_block_aligned (length (pad d)) = true.
Proof.
  rewrite length_pad. unfold is_nonzero_block_aligned, AES_BLOCK_SIZE.
  rewrite Nat.mul_comm, Nat.Div0.mod_mul.
  rewrite (proj2 (Nat.eqb_neq _ _)) by lia. done.
Qed.

(** PKCS7 is exact: a padded message is one to sixteen bytes longer, a
    multiple of the block size, and unpads to itself; unpadding never panics,
    and it accepts precisely the inputs that end in [n] copies of the byte
    [n] for some [n] between 1 and 16, returning what precedes them. *)
Theorem pkcs7_exact d p m :
  bytes_ok p →
  unpad (pad d) = Ok d ∧
  length (pad d) = (BLOCK_SIZE * (length d / BLOCK_SIZE + 1))%nat ∧
  unpad p ≠ Panic ∧
  (unpad p = Ok m ↔ ∃ n, (1 ≤ n ≤ BLOCK_SIZE)%nat ∧ p = m ++ replicate n (Z.of_nat n)).
Proof.
  intros Hp. split_and!.
  - apply unpad_pad.
  - apply length_pad.
  - apply unpad_no_panic.
  - split; [by apply unpad_inv|]. intros (n & Hn & ->). by apply unpad_app.
Qed.

Lemma pkcs7_exact_witness : bytes_ok [7; 2; 2] ∧ unpad [7; 2; 2] ≠ Panic.
Proof.
  assert (H : bytes_ok [7; 2; 2]) by (apply (bool_decide_eq_true_1 _); vm_compute; reflexivity).
  split; [exact H|]. apply (pkcs7_exact [] [7; 2; 2] [7] H).
Defined.

(** ** Token lemmas *)

Section token_proofs.
Context `{LA : AesCbcLaws} `{LH : HmacLaws}.

(** The two accepted key layouts. *)
Definition key_len_ok (k : bytes) : Prop := length k = KEY_LENGTH ∨ length k = LEGACY_KEY_LENGTH.

Lemma split_key_ok key :
  key_len_ok key →
  ∃ c sk ek, key = sk ++ ek ∧ split_key key = Ok (sk, ek) ∧
             length sk = key_size c ∧ length ek = key_size c.
Proof.
  unfold key_len_ok, split_key, KEY_LENGTH, LEGACY_KEY_LENGTH. intros Hk.
  case_decide as H1; [|rewrite decide_True by lia].
  - rewrite slice_to_ok, slice_from_ok by lia. exists Aes256, (take 32 key), (drop 32 key).
    rewrite take_drop, length_take, length_drop. cbn [key_size res_bind]. split_and!; done || lia.
  - rewrite slice_to_ok, slice_from_ok by lia. exists Aes128, (take 16 key), (drop 16 key).
    rewrite take_drop, length_take, length_drop. cbn [key_size res_bind]. split_and!; done || lia.
Qed.

Lemma split_key_err key : ¬ key_len_ok key → split_key key = Err (InvalidKeyLength (length key)).
Proof.
  unfold key_len_ok, split_key. intros Hk. by rewrite !decide_False by tauto.
Qed.

Lemma aes_encrypt_unfold c k iv p :
  length k = key_size c → length iv = 16%nat → is_nonzero_block_aligned (length p) = true →
  aes_encrypt k iv p =
    (let* e := ok_or (enc_new_from_slices c k iv) (AesInvalidKeyLength (length k)) in
     ok_or (encrypt_padded_mut e p) AesEncryptionFailed).
Proof.
  intros Hk Hiv Hp. unfold aes_encrypt, AES_BLOCK_SIZE. rewrite decide_False, Hp by (intros Hn; by apply Hn).
  destruct c; cbn in Hk; by rewrite Hk.
Qed.

Lemma aes_decrypt_unfold c k iv p :
  length k = key_size c → length iv = 16%nat → is_nonzero_block_aligned (length p) = true →
  aes_decrypt k iv p =
    (let* e := ok_or (dec_new_from_slices c k iv) (AesInvalidKeyLength (length k)) in
     ok_or (decrypt_padded_mut e p) AesDecryptionFailed).
Proof.
  intros Hk Hiv Hp. unfold aes_decrypt, AES_BLOCK_SIZE. rewrite decide_False, Hp by (intros Hn; by apply Hn).
  destruct c; cbn in Hk; by rewrite Hk.
Qed.

Lemma aes_roundtrip c k iv p :
  length k = key_size c → length iv = 16%nat → is_nonzero_block_aligned (length p) = true →
  bytes_ok p →
  ∃ ct, aes_encrypt k iv p = Ok ct ∧ length ct = length p ∧ aes_decrypt k iv ct = Ok p.
Proof.
  intros Hk Hiv Ha Hp. destruct (cipher_new c k iv) as (e & d & He & Hd); [done..|].
  destruct (cipher_inverse c k iv e d p) as (ct & H1 & H2 & _ & H3); [done..|].
  exists ct. rewrite (aes_encrypt_unfold c), (aes_decrypt_unfold c) by congruence.
  rewrite He, Hd. simpl. by rewrite H1, H3.
Qed.

Lemma aes_decrypt_length k iv ct p :
  aes_decrypt k iv ct = Ok p → length p = length ct ∧ bytes_ok p.
Proof.
  unfold aes_decrypt. case_decide; [done|]. destruct (negb _); [done|].
  repeat case_decide; try done.
  all: destruct (dec_new_from_slices _ _ _) as [d|]; simpl; [|done];
    destruct (decrypt_padded_mut d ct) eqn:Hd; simpl; [|done];
    intros [= <-]; by apply cipher_decrypt_ok in Hd.
Qed.

Lemma aes_decrypt_no_panic k iv ct : aes_decrypt k iv ct ≠ Panic.
Proof.
  unfold aes_decrypt. case_decide; [done|]. destruct (negb _); [done|].
  repeat case_decide; try done.
  all: destruct (dec_new_from_slices _ _ _) as [d|]; simpl; [|done];
    by destruct (decrypt_padded_mut d ct).
Qed.

(** [decrypt] after the key has been split, for a token long enough to hold an
    IV, a block and a tag. *)
Lemma token_decrypt_body token key sk ek :
  split_key key = Ok (sk, ek) → (64 ≤ length token)%nat →
  token_decrypt token key =
    let body := take (length token - 32) token in
    let tag := drop (length token - 32) token in
    if negb (hmac_verify sk body tag) then Err AuthenticationFailed else
    if negb (is_nonzero_block_aligned (length body - 16)) then Err AuthenticationFailed else
    let* padded := map_err (λ _, AuthenticationFailed) (aes_decrypt ek (take 16 body) (drop 16 body)) in
    let* u := map_err (λ _, AuthenticationFailed) (unpad padded) in
    Ok (take (length u) padded).
Proof.
  intros Hs Hl. unfold token_decrypt. rewrite Hs. cbn [res_bind].
  rewrite decide_False by lia. cbv zeta.
  rewrite slice_to_ok, slice_from_ok by lia. cbn [res_bind].
  rewrite copy_array_ok by (rewrite length_drop; lia). cbn [res_bind].
  destruct (negb _); [done|].
  rewrite slice_to_ok, slice_from_ok by (rewrite length_take; lia). cbn [res_bind].
  by rewrite length_drop.
Qed.

Lemma encrypt_decrypt plaintext key iv :
  key_len_ok key → length iv = 16%nat → bytes_ok plaintext →
  ∃ token, token_encrypt plaintext key iv = Ok token ∧
    length token = (48 + 16 * (length plaintext / 16 + 1))%nat ∧
    take 16 token = iv ∧
    token_decrypt token key = Ok plaintext.
Proof.
  intros Hk Hiv Hp. destruct (split_key_ok key Hk) as (c & sk & ek & _ & Hs & _ & Hek).
  destruct (aes_roundtrip c ek iv (pad plaintext)) as (ct & He & Hl & Hd);
    [done|done|apply aligned_pad|by apply pad_bytes_ok|].
  pose proof (hmac_length sk (iv ++ ct)) as Hm. rewrite length_pad in Hl.
  exists ((iv ++ ct) ++ hmac_sha256 sk (iv ++ ct)).
  assert (Hlen : (length ((iv ++ ct) ++ hmac_sha256 sk (iv ++ ct)) - 32)%nat = length (iv ++ ct)).
  { rewrite length_app, Hm. lia. }
  split_and!.
  - unfold token_encrypt. rewrite Hs. cbn [res_bind]. by rewrite He.
  - rewrite !length_app, Hm, Hiv, Hl. lia.
  - rewrite <- app_assoc. by rewrite <- Hiv, take_app_length.
  - rewrite (token_decrypt_body _ _ sk ek) by (rewrite ?length_app; done || lia).
    cbv zeta. rewrite Hlen, take_app_length, drop_app_length.
    unfold hmac_verify. rewrite bool_decide_true by done. cbn [negb].
    rewrite <- Hiv, take_app_length, drop_app_length, Hd, length_app.
    replace (length iv + length ct - length iv)%nat with (length (pad plaintext)) by (rewrite length_pad; lia).
    rewrite aligned_pad. cbn [negb map_err res_bind].
    rewrite unpad_pad. cbn [map_err res_bind].
    destruct (pad_shape plaintext) as (n & _ & -> & _). by rewrite take_app_length.
Qed.

(** C25.  A token decrypts to its plaintext: under a 32- or 64-byte key and
    any 16-byte IV, [encrypt] succeeds, the token is the IV, the padded
    ciphertext and a 32-byte tag, and [decrypt] returns the plaintext. *)
Theorem token_roundtrip plaintext key iv :
  key_len_ok key → length iv = 16%nat → bytes_ok plaintext →
  ∃ token, token_encrypt plaintext key iv = Ok token ∧
    length token = (48 + 16 * (length plaintext / 16 + 1))%nat ∧
    take 16 token = iv ∧
    token_decrypt token key = Ok plaintext.
Proof. apply encrypt_decrypt. Qed.

(** The outcome of decryption, by the parts of the token. *)
Lemma token_decrypt_cases token key :
  match token_decrypt token key with
  | Ok m => ∃ sk ek iv ct n,
      key = sk ++ ek ∧ key_len_ok key ∧ length sk = length ek ∧
      token = (iv ++ ct) ++ hmac_sha256 sk (iv ++ ct) ∧ length iv = 16%nat ∧
      is_nonzero_block_aligned (length ct) = true ∧
      (1 ≤ n ≤ 16)%nat ∧ aes_decrypt ek iv ct = Ok (m ++ replicate n (Z.of_nat n))
  | Err (InvalidKeyLength n) => n = length key ∧ ¬ key_len_ok key
  | Err AuthenticationFailed => key_len_ok key
  | _ => False
  end.
Proof.
  destruct (decide (key_len_ok key)) as [Hk|Hk].
  2:{ unfold token_decrypt. by rewrite split_key_err. }
  destruct (split_key_ok key Hk) as (c & sk & ek & Hke & Hs & Hsk & Hek).
  destruct (decide (length token < 64)%nat) as [Hl|Hl].
  { unfold token_decrypt. rewrite Hs. cbn [res_bind]. by rewrite decide_True. }
  rewrite (token_decrypt_body _ _ sk ek) by (done || lia). cbv zeta.
  set (body := take (length token - 32) token). set (tag := drop (length token - 32) token).
  unfold hmac_verify. case_bool_decide as Hv; [|done]. cbn [negb].
  destruct (is_nonzero_block_aligned _) eqn:Ha; [|done]. cbn [negb].
  destruct (aes_decrypt ek (take 16 body) (drop 16 body)) as [p|e|] eqn:Hd; cbn [map_err res_bind];
    [|done|by apply aes_decrypt_no_panic in Hd].
  destruct (aes_decrypt_length _ _ _ _ Hd) as [Hpl Hpo].
  destruct (unpad p) as [u|e|] eqn:Hu; cbn [map_err res_bind]; [|done|by apply unpad_no_panic in Hu].
  destruct (unpad_inv p u Hpo Hu) as (n & Hn & Hp).
  assert (Hb : length body = (length token - 32)%nat) by (unfold body; rewrite length_take; lia).
  exists sk, ek, (take 16 body), (drop 16 body), n. rewrite take_drop. split_and!; try done; try lia.
  - rewrite Hv. unfold body, tag. by rewrite take_drop.
  - rewrite length_take. lia.
  - by rewrite length_drop.
  - rewrite Hd. f_equal. rewrite Hp at 1. by rewrite Hp, take_app_length.
Qed.

(** Decryption is total and authenticates: it never panics, a key that is
    neither 32 nor 64 bytes is the only source of [InvalidKeyLength], every
    other failure is [AuthenticationFailed], and a token that decrypts is a
    16-byte IV, whole ciphertext blocks, and the MAC of the two under the
    signing half of the key, while the padded plaintext is what the block
    cipher recovers under the encryption half. *)
Theorem token_decrypt_total token key :
  match token_decrypt token key with
  | Ok m => ∃ sk ek iv ct n,
      key = sk ++ ek ∧ key_len_ok key ∧ length sk = length ek ∧
      token = (iv ++ ct) ++ hmac_sha256 sk (iv ++ ct) ∧ length iv = 16%nat ∧
      is_nonzero_block_aligned (length ct) = true ∧
      (1 ≤ n ≤ 16)%nat ∧ aes_decrypt ek iv ct = Ok (m ++ replicate n (Z.of_nat n))
  | Err (InvalidKeyLength n) => n = length key ∧ ¬ key_len_ok key
  | Err AuthenticationFailed => key_len_ok key
  | _ => False
  end.
Proof. apply token_decrypt_cases. Qed.
End token_proofs.

(** ** A concrete instance *)

(** A block "cipher" that adds the first key byte, and a MAC that repeats the
    sum of its input: enough to evaluate the token format. *)
#[export] Instance toy_aes : AesCbc := {|
  Encryptor := Z; Decryptor := Z;
  enc_new_from_slices := λ _ k _, Some (hd 0 k);
  dec_new_from_slices := λ _ k _, Some (hd 0 k);
  encrypt_padded_mut := λ k p, Some ((λ b, (b + k) mod 256) <$> p);
  decrypt_padded_mut := λ k p, Some ((λ b, (b - k) mod 256) <$> p);
|}.

#[export] Instance toy_hmac : Hmac := {|
  hmac_sha256 := λ k d, replicate 32 (foldr Z.add (hd 0 k) d mod 256);
|}.

Lemma fmap_mod_ok (f : Z → Z) p : bytes_ok ((λ b, f b mod 256) <$> p).
Proof. induction p; simpl; constructor; [apply Z.mod_pos_bound; lia|done]. Qed.

#[export] Instance toy_aes_laws : AesCbcLaws toy_aes.
Proof.
  split; simpl.
  - intros. eauto.
  - intros c k iv e d p [= <-] [= <-] Hp Hok. eexists. split_and!; [done|by rewrite length_fmap|apply fmap_mod_ok|].
    f_equal. rewrite <- list_fmap_compose. rewrite <- (list_fmap_id p) at 2.
    apply list_fmap_ext. intros i x Hx. simpl.
    pose proof (bytes_ok_lookup _ _ _ Hok Hx) as Hu. unfold u8 in Hu.
    rewrite Zminus_mod_idemp_l. rewrite Z.add_simpl_r. by apply Z.mod_small.
  - intros d ct p [= <-]. rewrite length_fmap. split; [done|apply fmap_mod_ok].
Qed.

#[export] Instance toy_hmac_laws : HmacLaws toy_hmac.
Proof. split. intros. apply length_replicate. Qed.

Lemma token_roundtrip_witness :
  ∃ token, token_encrypt [1; 2; 3] (replicate 64 5) (replicate 16 9) = Ok token ∧
    length token = 64%nat ∧ take 16 token = replicate 16 9 ∧
    token_decrypt token (replicate 64 5) = Ok [1; 2; 3].
Proof.
  apply (token_roundtrip [1; 2; 3] (replicate 64 5) (replicate 16 9)).
  - left. reflexivity.
  - reflexivity.
  - apply (bool_decide_eq_true_1 _). vm_compute. reflexivity.
Defined.

Lemma token_decrypt_total_witness :
  token_decrypt (replicate 80 0) (replicate 33 0) = Err (InvalidKeyLength 33) ∧
  (33%nat = length (replicate 33 0) ∧ ¬ key_len_ok (replicate 33 0)).
Proof.
  split; [vm_compute; reflexivity|].
  exact (token_decrypt_total (replicate 80 0) (replicate 33 0)).
Defined.
