(* ===== verification/Ifac.v ===== *)
(** * Interface access codes

    Models [rns-transport/src/ifac.rs] and the [hkdf_sha256] wrapper of
    [rns-crypto/src/hkdf.rs].  The [hkdf] crate and Ed25519 signing are
    third-party code: the classes [Hkdf] and [Ed25519Signer] are their
    interfaces. *)

From S2P Require Import Prelude.
From stdpp Require Import prelude list.

Open Scope Z_scope.

(** ** HKDF (hkdf.rs) *)

(** [Hkdf::<Sha256>::new(salt, ikm)] and [expand(info, &mut okm)], with the
    requested length in place of the buffer. *)
Class Hkdf := {
  hk : Type;
  hkdf_new : option bytes → bytes → hk;
  hkdf_expand : hk → bytes → nat → option bytes;
}.

Definition MAX_OUTPUT_LENGTH : nat := 255 * 32.

(** RFC 5869: expansion succeeds up to 255 hash lengths and fills the buffer. *)
Class HkdfLaws (H : Hkdf) : Prop := {
  hkdf_expand_ok : ∀ h info n, (n ≤ MAX_OUTPUT_LENGTH)%nat →
    ∃ okm, hkdf_expand h info n = Some okm ∧ length okm = n ∧ bytes_ok okm;
}.

Inductive HkdfError := OutputTooLong (n : nat) | ExpansionFailed.

Definition hkdf_sha256 `{Hkdf} (n : nat) (ikm : bytes) (salt info : option bytes)
  : res HkdfError bytes :=
  if decide (MAX_OUTPUT_LENGTH < n)%nat then Err (OutputTooLong n) else
  let h := hkdf_new salt ikm in
  ok_or (hkdf_expand h (default [] info) n) ExpansionFailed.

(** ** IFAC (ifac.rs) *)

(** [Ed25519PrivateKey::from_bytes(seed).sign(message)]. *)
Class Ed25519Signer := { ed_sign : bytes → bytes → bytes }.
Class Ed25519SignerLaws (S : Ed25519Signer) : Prop := {
  ed_sign_length : ∀ seed m, length (ed_sign seed m) = 64%nat;
  ed_sign_ok : ∀ seed m, bytes_ok (ed_sign seed m);
}.

Definition IFAC_FLAG : Z := 128.
Definition MAX_IFAC_WIRE_BYTES : nat := 255 * 32.

Inductive IfacSignError := InvalidTagSize | ShortPacket | PacketTooLarge.

Section ifac.
Context `{Hkdf} `{Ed25519Signer}.

(** The masking loop of [try_ifac_sign], from index [i]. *)
Fixpoint mask_loop (ifac_size : nat) (mask : bytes) (i : nat) (raw : bytes) : res IfacSignError bytes :=
  match raw with
  | [] => Ok []
  | byte :: rest =>
      let* out :=
        if Nat.eqb i 0 then
          let* m := idx mask i in Ok (Z.lor (Z.lxor byte m) IFAC_FLAG)
        else if Nat.eqb i 1 || Nat.ltb (ifac_size + 1) i then
          let* m := idx mask i in Ok (Z.lxor byte m)
        else Ok byte in
      let* outs := mask_loop ifac_size mask (S i) rest in
      Ok (out :: outs)
  end.

Definition try_ifac_sign (packet ifac_key : bytes) (ifac_size : nat) : res IfacSignError bytes :=
  if negb (Nat.leb 1 ifac_size && Nat.leb ifac_size 64) then Err InvalidTagSize else
  if decide (length packet < 2)%nat then Err ShortPacket else
  let* mask_len :=
    if decide (length packet + ifac_size ≤ MAX_IFAC_WIRE_BYTES)%nat
    then Ok (length packet + ifac_size)%nat else Err PacketTooLarge in
  let* seed := slice ifac_key 32 64 in
  let* signing_seed := copy_array 32 seed in
  let signature := ed_sign signing_seed packet in
  let* tag := slice_from signature (64 - ifac_size) in
  let* mask := map_err (λ _, PacketTooLarge) (hkdf_sha256 mask_len tag (Some ifac_key) None) in
  let* b0 := idx packet 0 in
  let* b1 := idx packet 1 in
  let* rest := slice_from packet 2 in
  let new_raw := [Z.lor b0 IFAC_FLAG; b1] ++ tag ++ rest in
  mask_loop ifac_size mask 0 new_raw.

(** [expect] turns an error into a panic. *)
Definition ifac_sign (packet ifac_key : bytes) (ifac_size : nat) : res Empty_set bytes :=
  match try_ifac_sign packet ifac_key ifac_size with
  | Ok out => Ok out
  | Err _ | Panic => Panic
  end.

(** The unmasking loop of [ifac_verify], from index [i]. *)
Fixpoint unmask_loop {E} (ifac_size : nat) (mask : bytes) (i : nat) (raw : bytes) : res E bytes :=
  match raw with
  | [] => Ok []
  | byte :: rest =>
      let* out :=
        if Nat.leb i 1 || Nat.ltb (ifac_size + 1) i then
          let* m := idx mask i in Ok (Z.lxor byte m)
        else Ok byte in
      let* outs := unmask_loop ifac_size mask (S i) rest in
      Ok (out :: outs)
  end.

(** [None] is [Ok None]; [!IFAC_FLAG] on a byte is 0x7f. *)
Definition ifac_verify (raw ifac_key : bytes) (ifac_size : nat) : res Empty_set (option bytes) :=
  if decide (ifac_size = 0%nat ∨ (64 < ifac_size)%nat) then Ok None else
  if decide (length raw ≤ 2 + ifac_size)%nat then Ok None else
  let* b0 := idx raw 0 in
  if Z.land b0 IFAC_FLAG =? 0 then Ok None else
  let* ifac := slice raw 2 (2 + ifac_size) in
  let* m := res_ok (hkdf_sha256 (length raw) ifac (Some ifac_key) None) in
  match m with
  | None => Ok None
  | Some mask =>
      let* unmasked_raw := unmask_loop ifac_size mask 0 raw in
      let* u0 := idx unmasked_raw 0 in
      let* u1 := idx unmasked_raw 1 in
      let new_header := [Z.land u0 (255 - IFAC_FLAG); u1] in
      let* rest := slice_from unmasked_raw (2 + ifac_size) in
      let new_raw := new_header ++ rest in
      let* seed := slice ifac_key 32 64 in
      let* signing_seed := copy_array 32 seed in
      let expected_sig := ed_sign signing_seed new_raw in
      let* expected_ifac := slice_from expected_sig (64 - ifac_size) in
      Ok (if decide (ifac = expected_ifac) then Some new_raw else None)
  end.
End ifac.

Definition has_ifac_flag {E} (raw : bytes) : res E bool :=
  match raw with
  | [] => Ok false
  | _ => let* b := idx raw 0 in Ok (negb (Z.land b IFAC_FLAG =? 0))
  end.

(** ** The masking loops as pointwise XOR *)

Definition zip_xor (l k : bytes) : bytes := zip_with Z.lxor l k.

(** Past the tag both loops XOR every byte. *)
Lemma mask_loop_tail n mask i l :
  (n + 1 < i)%nat → (i + length l ≤ length mask)%nat →
  mask_loop n mask i l = Ok (zip_xor l (drop i mask)).
Proof.
  revert i. induction l as [|b l IH]; intros i Hi Hl; simpl in Hl; [done|].
  cbn [mask_loop]. rewrite (proj2 (Nat.eqb_neq i 0)) by lia.
  rewrite (proj2 (Nat.ltb_lt _ _)), orb_true_r by lia.
  destruct (idx_lt_inv (E:=IfacSignError) mask i) as (m & Hm & ->); [lia|]. cbn [res_bind].
  rewrite IH by lia. cbn [res_bind]. rewrite (drop_S _ _ _ Hm). done.
Qed.

Lemma unmask_loop_tail {E} n mask i l :
  (n + 1 < i)%nat → (i + length l ≤ length mask)%nat →
  @unmask_loop E n mask i l = Ok (zip_xor l (drop i mask)).
Proof.
  revert i. induction l as [|b l IH]; intros i Hi Hl; simpl in Hl; [done|].
  cbn [unmask_loop].
  rewrite (proj2 (Nat.ltb_lt _ _)), orb_true_r by lia.
  destruct (idx_lt_inv (E:=E) mask i) as (m & Hm & ->); [lia|]. cbn [res_bind].
  rewrite IH by lia. cbn [res_bind]. rewrite (drop_S _ _ _ Hm). done.
Qed.

(** On the tag both loops copy. *)
Lemma mask_loop_tag n mask i t l :
  (2 ≤ i)%nat → (i + length t = n + 2)%nat →
  mask_loop n mask i (t ++ l) =
    let* outs := mask_loop n mask (n + 2) l in Ok (t ++ outs).
Proof.
  revert i. induction t as [|b t IH]; intros i Hi Hl; simpl in Hl.
  - replace i with (n + 2)%nat by lia. simpl. by destruct (mask_loop _ _ _ _).
  - cbn [mask_loop app]. rewrite (proj2 (Nat.eqb_neq i 0)), (proj2 (Nat.eqb_neq i 1)) by lia.
    rewrite (proj2 (Nat.ltb_ge _ _)) by lia. cbn [orb res_bind].
    rewrite IH by lia. rewrite res_bind_assoc. by destruct (mask_loop _ _ _ _).
Qed.

Lemma unmask_loop_tag {E} n mask i t l :
  (2 ≤ i)%nat → (i + length t = n + 2)%nat →
  @unmask_loop E n mask i (t ++ l) =
    let* outs := unmask_loop n mask (n + 2) l in Ok (t ++ outs).
Proof.
  revert i. induction t as [|b t IH]; intros i Hi Hl; simpl in Hl.
  - replace i with (n + 2)%nat by lia. simpl. by destruct (unmask_loop _ _ _ _).
  - cbn [unmask_loop app]. rewrite (proj2 (Nat.leb_gt i 1)) by lia.
    rewrite (proj2 (Nat.ltb_ge _ _)) by lia. cbn [orb res_bind].
    rewrite IH by lia. rewrite res_bind_assoc. by destruct (unmask_loop _ _ _ _).
Qed.

(** The closed forms of the two loops on header, tag and payload. *)
Lemma mask_loop_eq n m0 m1 mask b0 b1 t l :
  length t = n → (2 + n + length l ≤ length (m0 :: m1 :: mask))%nat →
  mask_loop n (m0 :: m1 :: mask) 0 (b0 :: b1 :: t ++ l) =
    Ok (Z.lor (Z.lxor b0 m0) IFAC_FLAG :: Z.lxor b1 m1 :: t ++ zip_xor l (drop n mask)).
Proof.
  intros Ht Hl. cbn [mask_loop Nat.eqb]. rewrite (idx_ok _ 0 m0), (idx_ok _ 1 m1) by done.
  cbn [res_bind orb]. rewrite mask_loop_tag by lia. rewrite mask_loop_tail by lia.
  cbn [res_bind]. by replace (n + 2)%nat with (S (S n)) by lia.
Qed.

Lemma unmask_loop_eq {E} n m0 m1 mask b0 b1 t l :
  length t = n → (2 + n + length l ≤ length (m0 :: m1 :: mask))%nat →
  @unmask_loop E n (m0 :: m1 :: mask) 0 (b0 :: b1 :: t ++ l) =
    Ok (Z.lxor b0 m0 :: Z.lxor b1 m1 :: t ++ zip_xor l (drop n mask)).
Proof.
  intros Ht Hl. cbn [unmask_loop Nat.leb]. rewrite (idx_ok _ 0 m0), (idx_ok _ 1 m1) by done.
  cbn [res_bind orb]. rewrite unmask_loop_tag by lia. rewrite unmask_loop_tail by lia.
  cbn [res_bind]. by replace (n + 2)%nat with (S (S n)) by lia.
Qed.

Lemma zip_xor_involutive l k : (length l ≤ length k)%nat → zip_xor (zip_xor l k) k = l.
Proof.
  revert k. induction l as [|b l IH]; intros [|m k] Hl; simpl in *; try done; try lia.
  rewrite Z.lxor_assoc, Z.lxor_nilpotent, Z.lxor_0_r. f_equal. apply IH. lia.
Qed.

Lemma length_zip_xor l k : (length l ≤ length k)%nat → length (zip_xor l k) = length l.
Proof. intros. unfold zip_xor. rewrite length_zip_with. lia. Qed.

(** The header byte: the flag bit is forced on the wire and cleared on receipt,
    so masking does not disturb a flag-clear byte. *)
Lemma header_byte_unmask b m :
  0 ≤ b < 128 → u8 m →
  Z.land (Z.lxor (Z.lor (Z.lxor (Z.lor b IFAC_FLAG) m) IFAC_FLAG) m) (255 - IFAC_FLAG) = b ∧
  Z.land (Z.lor (Z.lxor (Z.lor b IFAC_FLAG) m) IFAC_FLAG) IFAC_FLAG ≠ 0.
Proof.
  intros Hb Hm.
  assert (H : ∀ i, 0 ≤ i → Z.testbit (255 - IFAC_FLAG) i = (i <? 7)).
  { intros i Hi. change (255 - IFAC_FLAG) with (Z.ones 7).
    destruct (Z.ltb_spec i 7); [apply Z.ones_spec_low|apply Z.ones_spec_high]; lia. }
  assert (H' : ∀ i, Z.testbit IFAC_FLAG i = (i =? 7)).
  { intros i. change IFAC_FLAG with (2 ^ 7). rewrite Z.pow2_bits_eqb by lia. apply Z.eqb_sym. }
  split.
  - apply Z.bits_inj'. intros i Hi. rewrite !Z.land_spec, !Z.lxor_spec, !Z.lor_spec, !Z.lxor_spec, !Z.lor_spec.
    rewrite H, H' by done. destruct (Z.ltb_spec i 7).
    + rewrite (proj2 (Z.eqb_neq i 7)) by lia. by destruct (Z.testbit b i), (Z.testbit m i).
    + rewrite andb_false_r. destruct (decide (b = 0)) as [->|]; [by rewrite Z.bits_0|].
      symmetry. apply Z.bits_above_log2; [lia|]. apply Z.lt_le_trans with 7; [|lia].
      apply Z.log2_lt_pow2; lia.
  - intros Hz. assert (Ht : Z.testbit (Z.land (Z.lor (Z.lxor (Z.lor b IFAC_FLAG) m) IFAC_FLAG) IFAC_FLAG) 7 = false).
    { rewrite Hz. apply Z.bits_0. }
    rewrite Z.land_spec, Z.lor_spec, H', Z.eqb_refl, orb_true_r in Ht. done.
Qed.

(** ** Closed forms of signing and verification *)

Section ifac_proofs.
Context `{LH : HkdfLaws} `{LS : Ed25519SignerLaws}.

(** The tag of a packet: the last [n] signature bytes under the key's seed. *)
Definition ifac_tag (packet key : bytes) (n : nat) : bytes :=
  drop (64 - n) (ed_sign (take 32 (drop 32 key)) packet).

Lemma length_ifac_tag p key n : (n ≤ 64)%nat → length (ifac_tag p key n) = n.
Proof. intros. unfold ifac_tag. rewrite length_drop, ed_sign_length. lia. Qed.

Lemma hkdf_mask k tag key :
  (2 ≤ k ≤ MAX_IFAC_WIRE_BYTES)%nat →
  ∃ m0 m1 mask, hkdf_sha256 k tag (Some key) None = Ok (m0 :: m1 :: mask) ∧
    length (m0 :: m1 :: mask) = k ∧ bytes_ok (m0 :: m1 :: mask).
Proof.
  intros [H2 H8]. unfold hkdf_sha256.
  rewrite decide_False by (unfold MAX_IFAC_WIRE_BYTES, MAX_OUTPUT_LENGTH in *; lia). cbv zeta.
  destruct (hkdf_expand_ok (hkdf_new (Some key) tag) [] k) as (okm & He & Hl & Hok); [done|].
  simpl. rewrite He. destruct okm as [|m0 [|m1 mask]]; simpl in Hl; try lia.
  by exists m0, m1, mask.
Qed.

Lemma signing_seed_ok {E B} key (f : bytes → res E B) :
  length key = 64%nat →
  (let* seed := slice key 32 64 in let* s := copy_array 32 seed in f s) = f (take 32 (drop 32 key)).
Proof.
  intros Hk. rewrite slice_ok by lia. cbn [res_bind].
  rewrite copy_array_ok by (rewrite length_take, length_drop; lia). done.
Qed.

Definition sign_args_ok (packet : bytes) (n : nat) : Prop :=
  (1 ≤ n ≤ 64)%nat ∧ (2 ≤ length packet)%nat ∧ (length packet + n ≤ MAX_IFAC_WIRE_BYTES)%nat.

Lemma try_ifac_sign_eq b0 b1 rest key n m0 m1 mask :
  length key = 64%nat → sign_args_ok (b0 :: b1 :: rest) n →
  hkdf_sha256 (length (b0 :: b1 :: rest) + n) (ifac_tag (b0 :: b1 :: rest) key n) (Some key) None
    = Ok (m0 :: m1 :: mask) →
  length (m0 :: m1 :: mask) = (length (b0 :: b1 :: rest) + n)%nat →
  try_ifac_sign (b0 :: b1 :: rest) key n =
    Ok (Z.lor (Z.lxor (Z.lor b0 IFAC_FLAG) m0) IFAC_FLAG :: Z.lxor b1 m1 ::
        ifac_tag (b0 :: b1 :: rest) key n ++ zip_xor rest (drop n mask)).
Proof.
  intros Hk (Hn & Hp & Hl) Hm Hml. unfold try_ifac_sign.
  rewrite (proj2 (Nat.leb_le 1 n)), (proj2 (Nat.leb_le n 64)) by lia. cbn [andb negb].
  rewrite decide_False, decide_True by lia. cbn [res_bind].
  rewrite (signing_seed_ok key) by done. cbv zeta.
  rewrite slice_from_ok by (rewrite ed_sign_length; lia). cbn [res_bind].
  fold (ifac_tag (b0 :: b1 :: rest) key n). rewrite Hm. cbn [map_err res_bind].
  rewrite (idx_ok _ 0 b0), (idx_ok _ 1 b1) by done. cbn [res_bind].
  rewrite slice_from_ok by (simpl; lia). cbn [res_bind]. cbn [drop app].
  apply mask_loop_eq; [apply length_ifac_tag; lia|]. simpl in *. lia.
Qed.

Lemma ifac_verify_eq b0 b1 t rest key n m0 m1 mask :
  length key = 64%nat → (1 ≤ n ≤ 64)%nat → length t = n → rest ≠ [] →
  Z.land b0 IFAC_FLAG ≠ 0 →
  hkdf_sha256 (length (b0 :: b1 :: t ++ rest)) t (Some key) None = Ok (m0 :: m1 :: mask) →
  length (m0 :: m1 :: mask) = length (b0 :: b1 :: t ++ rest) →
  let p := Z.land (Z.lxor b0 m0) (255 - IFAC_FLAG) :: Z.lxor b1 m1 :: zip_xor rest (drop n mask) in
  ifac_verify (b0 :: b1 :: t ++ rest) key n = Ok (if decide (t = ifac_tag p key n) then Some p else None).
Proof.
  intros Hk Hn Ht Hr Hf Hm Hml. cbv zeta. unfold ifac_verify.
  assert (Hl : (2 + n < length (b0 :: b1 :: t ++ rest))%nat).
  { simpl. rewrite length_app. destruct rest; [done|simpl; lia]. }
  rewrite !decide_False by lia. rewrite (idx_ok _ 0 b0) by done. cbn [res_bind].
  rewrite (proj2 (Z.eqb_neq _ _)) by done.
  rewrite (slice_at [b0; b1] t rest) by (done || simpl; lia). cbn [res_bind].
  rewrite Hm. cbn [res_ok res_bind].
  rewrite unmask_loop_eq by (done || simpl in *; rewrite length_app in *; lia). cbn [res_bind].
  rewrite (idx_ok _ 0 (Z.lxor b0 m0)), (idx_ok _ 1 (Z.lxor b1 m1)) by done. cbn [res_bind].
  rewrite slice_from_ok by (simpl; rewrite length_app; lia). cbn [res_bind].
  replace (drop (2 + n) (Z.lxor b0 m0 :: Z.lxor b1 m1 :: t ++ zip_xor rest (drop n mask)))
    with (zip_xor rest (drop n mask)) by (simpl; by rewrite <- Ht, drop_app_length).
  rewrite (signing_seed_ok key) by done.
  rewrite slice_from_ok by (rewrite ed_sign_length; lia). done.
Qed.

(** The wire header byte is recovered exactly from the unmasked one. *)
Lemma header_byte_remask b m :
  u8 b → u8 m → Z.land b IFAC_FLAG ≠ 0 →
  Z.lor (Z.lxor (Z.lor (Z.land (Z.lxor b m) (255 - IFAC_FLAG)) IFAC_FLAG) m) IFAC_FLAG = b.
Proof.
  intros Hb Hm Hf. unfold u8 in *. change 256 with (2 ^ 8) in *.
  assert (H7 : Z.testbit b 7 = true).
  { rewrite <- land_pow2_test by lia. by apply negb_true_iff, Z.eqb_neq. }
  apply Z.bits_inj'. intros i Hi.
  rewrite !Z.lor_spec, !Z.lxor_spec, !Z.lor_spec, !Z.land_spec, !Z.lxor_spec.
  change (255 - IFAC_FLAG) with (Z.ones 7). change IFAC_FLAG with (2 ^ 7).
  rewrite Z.pow2_bits_eqb, Z.testbit_ones_nonneg by lia.
  destruct (Z.eqb_spec 7 i) as [<-|]; [by rewrite orb_true_r|]. destruct (Z.ltb_spec i 7).
  - by destruct (Z.testbit b i), (Z.testbit m i).
  - by rewrite !(testbit_above _ 8 i) by (done || lia).
Qed.

Lemma land_7f b : Z.land b (255 - IFAC_FLAG) = b mod 128.
Proof. exact (land_ones_mod b 7 ltac:(lia)). Qed.

Lemma lxor_u8 a b : u8 a → u8 b → u8 (Z.lxor a b).
Proof.
  unfold u8. intros Ha Hb. split; [apply Z.lxor_nonneg; lia|].
  change 256 with (2 ^ 8) in *. destruct (decide (Z.lxor a b = 0)) as [->|]; [lia|].
  assert (0 ≤ Z.lxor a b) by (apply Z.lxor_nonneg; lia).
  apply Z.log2_lt_pow2; [lia|]. eapply Z.le_lt_trans; [apply Z.log2_lxor; lia|].
  assert (∀ x, 0 ≤ x < 2 ^ 8 → Z.log2 x < 8) as Hx.
  { intros x Hx. destruct (decide (x = 0)) as [->|]; [done|]. apply Z.log2_lt_pow2; lia. }
  pose proof (Hx a Ha). pose proof (Hx b Hb). lia.
Qed.

Lemma zip_xor_ok l k : bytes_ok l → bytes_ok k → bytes_ok (zip_xor l k).
Proof.
  intros Hl. revert k. induction Hl as [|b l Hb Hl IH]; intros [|m k] Hk; simpl; try constructor.
  - inversion Hk; subst. by apply lxor_u8.
  - inversion Hk; subst. by apply IH.
Qed.

Lemma flag_clear b l :
  u8 b → @has_ifac_flag Empty_set (b :: l) = Ok false ↔ 0 ≤ b < 128.
Proof.
  intros Hb. unfold has_ifac_flag. erewrite idx_ok by done. cbn [res_bind].
  assert (Hr : (Z.land b IFAC_FLAG =? 0) = (b <? 128)) by (by_all_bytes Hb). rewrite Hr.
  unfold u8 in Hb. destruct (Z.ltb_spec b 128); split; intros; done || lia.
Qed.

(** Signing with admissible arguments, and with inadmissible ones. *)
Lemma sign_form packet key n :
  length key = 64%nat → sign_args_ok packet n →
  ∃ b0 b1 rest m0 m1 mask,
    packet = b0 :: b1 :: rest ∧
    hkdf_sha256 (length packet + n) (ifac_tag packet key n) (Some key) None = Ok (m0 :: m1 :: mask) ∧
    length (m0 :: m1 :: mask) = (length packet + n)%nat ∧ bytes_ok (m0 :: m1 :: mask) ∧
    try_ifac_sign packet key n =
      Ok (Z.lor (Z.lxor (Z.lor b0 IFAC_FLAG) m0) IFAC_FLAG :: Z.lxor b1 m1 ::
          ifac_tag packet key n ++ zip_xor rest (drop n mask)).
Proof.
  intros Hk Ha. destruct packet as [|b0 [|b1 rest]]; [destruct Ha; simpl in *; lia..|].
  destruct (hkdf_mask (length (b0 :: b1 :: rest) + n) (ifac_tag (b0 :: b1 :: rest) key n) key)
    as (m0 & m1 & mask & Hm & Hml & Hmo); [destruct Ha; simpl in *; lia|].
  exists b0, b1, rest, m0, m1, mask. split_and!; try done. by apply try_ifac_sign_eq.
Qed.

Lemma sign_err packet key n :
  ¬ sign_args_ok packet n →
  ∃ e, try_ifac_sign packet key n = Err e ∧
    match e with
    | InvalidTagSize => ¬ (1 ≤ n ≤ 64)%nat
    | ShortPacket => (length packet < 2)%nat
    | PacketTooLarge => (MAX_IFAC_WIRE_BYTES < length packet + n)%nat
    end.
Proof.
  unfold try_ifac_sign, sign_args_ok. intros Ha.
  destruct (Nat.leb_spec 1 n); [destruct (Nat.leb_spec n 64)|]; cbn [andb negb];
    try (eexists; split; [done|]; simpl; lia).
  case_decide; [by eexists|]. rewrite decide_False by lia. cbn [res_bind].
  eexists. split; [done|]. simpl. lia.
Qed.

(** Signing is total and precise: on a 64-byte key [try_ifac_sign] never
    panics; it fails exactly for a tag size outside 1..64, a packet without
    its two header bytes, or a result above 8160 bytes, and otherwise returns
    a packet [ifac_size] bytes longer with the access flag set.  The
    unchecked [ifac_sign] panics exactly on those failures. *)
Theorem ifac_sign_exact packet key n :
  length key = 64%nat →
  match try_ifac_sign packet key n with
  | Ok wire => sign_args_ok packet n ∧ length wire = (length packet + n)%nat ∧
               @has_ifac_flag Empty_set wire = Ok true ∧ ifac_sign packet key n = Ok wire
  | Err e => ifac_sign packet key n = Panic ∧
      match e with
      | InvalidTagSize => ¬ (1 ≤ n ≤ 64)%nat
      | ShortPacket => (length packet < 2)%nat
      | PacketTooLarge => (MAX_IFAC_WIRE_BYTES < length packet + n)%nat
      end
  | Panic => False
  end.
Proof.
  intros Hk. unfold ifac_sign.
  destruct (decide (sign_args_ok packet n)) as [Ha|Ha].
  - destruct (sign_form packet key n Hk Ha) as (b0 & b1 & rest & m0 & m1 & mask & Hp & _ & Hml & _ & ->).
    split_and!; [done| | |done].
    + pose proof (length_ifac_tag packet key n) as Ht. destruct Ha as (Hn & _). subst packet.
      simpl in *. rewrite length_app, Ht, length_zip_xor by (rewrite ?length_drop; lia). lia.
    + unfold has_ifac_flag. erewrite idx_ok by done. cbn [res_bind].
      rewrite (proj2 (Z.eqb_neq _ _)); [done|]. intros Hz.
      assert (Hb : Z.testbit 0 7 = true); [|done]. rewrite <- Hz.
      by rewrite Z.land_spec, Z.lor_spec, orb_true_r.
  - destruct (sign_err packet key n Ha) as (e & -> & He). by destruct e.
Qed.

(** A signed flag-clear packet verifies. *)
Lemma verify_sign p key n raw :
  length key = 64%nat → bytes_ok p → (3 ≤ length p)%nat →
  @has_ifac_flag Empty_set p = Ok false → try_ifac_sign p key n = Ok raw →
  ifac_verify raw key n = Ok (Some p).
Proof.
  intros Hk Hp Hl Hf Hs. destruct (decide (sign_args_ok p n)) as [Ha|Ha].
  2:{ destruct (sign_err p key n Ha) as (e & He & _). congruence. }
  destruct (sign_form p key n Hk Ha) as (b0 & b1 & rest & m0 & m1 & mask & Hpe & Hm & Hml & Hmo & He).
  rewrite Hs in He. injection He as ->.
  pose proof (length_ifac_tag p key n) as Ht. destruct Ha as (Hn & _). specialize (Ht (proj2 Hn)).
  assert (Hb : u8 b0) by (subst p; by inversion Hp).
  assert (Hb128 : 0 ≤ b0 < 128) by (subst p; by apply flag_clear in Hf).
  assert (Hmu : u8 m0) by (by inversion Hmo).
  destruct (header_byte_unmask b0 m0 Hb128 Hmu) as [Hu Hset].
  assert (Hlr : (length rest ≤ length (drop n mask))%nat).
  { subst p. rewrite length_drop. simpl in *. lia. }
  assert (Hlen : length (Z.lor (Z.lxor (Z.lor b0 IFAC_FLAG) m0) IFAC_FLAG :: Z.lxor b1 m1 ::
      ifac_tag p key n ++ zip_xor rest (drop n mask)) = (length p + n)%nat).
  { subst p. simpl. rewrite length_app, Ht, length_zip_xor by done. simpl. lia. }
  rewrite (ifac_verify_eq _ _ _ _ _ _ m0 m1 mask); try done.
  - rewrite Hu, zip_xor_involutive by done.
    rewrite Z.lxor_assoc, Z.lxor_nilpotent, Z.lxor_0_r. rewrite <- Hpe. by rewrite decide_True.
  - destruct rest; [subst p; simpl in Hl; lia|]. destruct (drop n mask); simpl in *; [lia|done].
  - by rewrite Hlen.
  - by rewrite Hlen.
Qed.

(** Splitting an accepted wire packet into header, tag and payload. *)
Lemma wire_split (raw : bytes) n :
  (2 + n < length raw)%nat →
  ∃ b0 b1 t rest, raw = b0 :: b1 :: t ++ rest ∧ length t = n ∧ rest ≠ [].
Proof.
  intros Hl. destruct raw as [|b0 [|b1 raw]]; simpl in Hl; try lia.
  exists b0, b1, (take n raw), (drop n raw). rewrite take_drop, length_take. split_and!; [done|lia|].
  intros Hd. apply (f_equal length) in Hd. rewrite length_drop in Hd. simpl in Hd. lia.
Qed.

(** Verification without the flag, or beyond the mask's length, yields nothing. *)
Lemma verify_none raw key n :
  (¬ (1 ≤ n ≤ 64)%nat ∨ (length raw ≤ 2 + n)%nat ∨ (MAX_IFAC_WIRE_BYTES < length raw)%nat ∨
   (∃ b l, raw = b :: l ∧ Z.land b IFAC_FLAG = 0)) →
  ifac_verify raw key n = Ok None.
Proof.
  intros H0. unfold ifac_verify. case_decide; [done|]. case_decide; [done|].
  destruct (idx_lt_inv (E:=Empty_set) raw 0) as (b & Hb & ->); [lia|]. cbn [res_bind].
  destruct (Z.eqb_spec (Z.land b IFAC_FLAG) 0); [done|].
  destruct H0 as [?|[?|[Hbig|(b' & l & -> & Hz)]]]; [lia|lia| |simplify_eq/=; done].
  rewrite slice_ok by lia. cbn [res_bind]. unfold hkdf_sha256.
  by rewrite decide_True by (unfold MAX_IFAC_WIRE_BYTES, MAX_OUTPUT_LENGTH in *; lia).
Qed.

(** What verification of a well-sized flagged packet returns. *)
Lemma verify_some raw key n :
  length key = 64%nat → bytes_ok raw → (1 ≤ n ≤ 64)%nat →
  (2 + n < length raw ≤ MAX_IFAC_WIRE_BYTES)%nat →
  (∀ b l, raw = b :: l → Z.land b IFAC_FLAG ≠ 0) →
  ∃ q, bytes_ok q ∧ (3 ≤ length q)%nat ∧ @has_ifac_flag Empty_set q = Ok false ∧
    ((ifac_verify raw key n = Ok (Some q) ∧ try_ifac_sign q key n = Ok raw) ∨
     ifac_verify raw key n = Ok None).
Proof.
  intros Hk Hok Hn [Hl1 Hl2] Hf. destruct (wire_split raw n Hl1) as (b0 & b1 & t & rest & -> & Ht & Hr).
  destruct (hkdf_mask (length (b0 :: b1 :: t ++ rest)) t key) as (m0 & m1 & mask & Hm & Hml & Hmo);
    [simpl in *; lia|].
  pose proof (ifac_verify_eq b0 b1 t rest key n m0 m1 mask Hk Hn Ht Hr (Hf _ _ eq_refl) Hm Hml) as Hv.
  cbv zeta in Hv. set (q := Z.land (Z.lxor b0 m0) (255 - IFAC_FLAG) :: Z.lxor b1 m1 :: zip_xor rest (drop n mask)) in *.
  apply bytes_ok_cons in Hok as [Hb0 Hok]. apply bytes_ok_cons in Hok as [Hb1 Hok].
  apply bytes_ok_app in Hok as [_ Hrest].
  apply bytes_ok_cons in Hmo as [Hm0 Hmo]. apply bytes_ok_cons in Hmo as [Hm1 Hmo].
  assert (Hlr : (length rest ≤ length (drop n mask))%nat).
  { rewrite length_drop. simpl in Hml. rewrite length_app in Hml. lia. }
  assert (Hh : 0 ≤ Z.land (Z.lxor b0 m0) (255 - IFAC_FLAG) < 128).
  { rewrite land_7f. apply Z.mod_pos_bound. lia. }
  assert (Hlq : length q = (2 + length rest)%nat) by (unfold q; simpl; by rewrite length_zip_xor).
  assert (Hrl : (1 ≤ length rest)%nat) by (destruct rest; [done|simpl; lia]).
  exists q. split_and!.
  - apply bytes_ok_cons. split; [unfold u8; lia|]. apply bytes_ok_cons. split; [by apply lxor_u8|].
    apply zip_xor_ok; [done|by apply bytes_ok_drop].
  - lia.
  - apply flag_clear; [unfold u8; lia|done].
  - rewrite Hv. case_decide as Htag; [left|by right]. split; [done|].
    assert (Hlen : (length q + n)%nat = length (b0 :: b1 :: t ++ rest)).
    { rewrite Hlq. simpl. rewrite length_app. lia. }
    unfold q. rewrite (try_ifac_sign_eq _ _ _ _ _ m0 m1 mask); fold q; rewrite ?Hlen; try done.
    + rewrite header_byte_remask, zip_xor_involutive by (done || by apply (Hf _ _ eq_refl)).
      by rewrite Z.lxor_assoc, Z.lxor_nilpotent, Z.lxor_0_r, <- Htag.
    + split_and!; lia.
    + by rewrite <- Htag.
Qed.

(** C18.  Verification accepts exactly what signing emits: for byte strings,
    [ifac_verify] never panics, and it returns the packet [p] from [raw] if
    and only if [p] is a packet of at least three bytes with the access flag
    clear whose signed form is [raw].  In particular signing then verifying
    is the identity, every accepted packet has a single wire form, and no
    two-byte packet is ever accepted. *)
Theorem ifac_verify_exact raw key n p :
  length key = 64%nat → bytes_ok raw →
  ifac_verify raw key n ≠ Panic ∧
  (ifac_verify raw key n = Ok (Some p) ↔
   bytes_ok p ∧ (3 ≤ length p)%nat ∧ @has_ifac_flag Empty_set p = Ok false ∧
   try_ifac_sign p key n = Ok raw).
Proof.
  intros Hk Hok.
  assert (Hnone : ifac_verify raw key n = Ok None ∨ ∃ q, bytes_ok q ∧ (3 ≤ length q)%nat ∧
    @has_ifac_flag Empty_set q = Ok false ∧ ifac_verify raw key n = Ok (Some q) ∧
    try_ifac_sign q key n = Ok raw).
  { destruct (decide ((1 ≤ n ≤ 64) ∧ (2 + n < length raw ≤ MAX_IFAC_WIRE_BYTES))%nat) as [[Hn Hl]|Hn];
      [|left; apply verify_none; lia].
    destruct raw as [|b l]; [simpl in Hl; lia|].
    destruct (decide (Z.land b IFAC_FLAG = 0)) as [Hz|Hz]; [left; apply verify_none; do 3 right; by exists b, l|].
    destruct (verify_some (b :: l) key n) as (q & ? & ? & ? & Hq); try done; [by intros ? ? [= <- <-]|].
    destruct Hq as [[? ?]|?]; [|by left].
    right. by exists q. }
  split.
  - by destruct Hnone as [->|(q & _ & _ & _ & -> & _)].
  - split.
    + intros Hv. destruct Hnone as [Hno|(q & ? & ? & ? & Hq & ?)]; [congruence|].
      rewrite Hv in Hq. by injection Hq as ->.
    + intros (? & ? & ? & ?). by apply verify_sign.
Qed.
End ifac_proofs.

(** ** A concrete instance *)

#[export] Instance toy_hkdf : Hkdf := {|
  hk := bytes; hkdf_new := λ _ ikm, ikm;
  hkdf_expand := λ ikm _ n, Some (replicate n (hd 0 ikm mod 256));
|}.
#[export] Instance toy_hkdf_laws : HkdfLaws toy_hkdf.
Proof.
  split. intros h info n _. eexists. split_and!; [done|apply length_replicate|].
  apply bytes_ok_replicate, Z.mod_pos_bound. lia.
Qed.
#[export] Instance toy_signer : Ed25519Signer := {|
  ed_sign := λ seed m, replicate 64 (foldr Z.add (hd 0 seed) m mod 256);
|}.
#[export] Instance toy_signer_laws : Ed25519SignerLaws toy_signer.
Proof.
  split; intros; [apply length_replicate|]. apply bytes_ok_replicate, Z.mod_pos_bound. lia.
Qed.

Lemma ifac_sign_exact_witness :
  length (replicate 64 3) = 64%nat ∧
  ifac_sign [1; 2; 3; 4] (replicate 64 3) 0 = Panic ∧ ¬ (1 ≤ 0 ≤ 64)%nat.
Proof.
  split; [reflexivity|].
  exact (ifac_sign_exact [1; 2; 3; 4] (replicate 64 3) 0 eq_refl).
Defined.

(** The wire form of a four-byte packet under a one-byte tag. *)
Lemma ifac_verify_exact_witness :
  length (replicate 64 3) = 64%nat ∧ bytes_ok [140; 14; 12; 15; 8] ∧
  ifac_verify [140; 14; 12; 15; 8] (replicate 64 3) 1 = Ok (Some [0; 2; 3; 4]).
Proof.
  assert (Hok : bytes_ok [140; 14; 12; 15; 8]) by (apply (bool_decide_eq_true_1 _); vm_compute; reflexivity).
  split; [reflexivity|]. split; [exact Hok|].
  apply (ifac_verify_exact [140; 14; 12; 15; 8] (replicate 64 3) 1 [0; 2; 3; 4] eq_refl Hok).
  split; [apply (bool_decide_eq_true_1 _); vm_compute; reflexivity|].
  split; [simpl; lia|]. split; vm_compute; reflexivity.
Defined.
