(* ===== verification/Channel.v ===== *)
(** * Sequenced message channel

    Models [rns-protocol/src/channel.rs] (up to [LinkChannel]) and
    [channel_message.rs].  A [dyn MessageBase] is the pair of results of its
    [msg_type] and [pack]; a boxed handler is a function to [option bool],
    [None] when it panics; [receive] also returns the handler calls it made.
    [usize] and [u16] values are [Z]; each clock reading is an argument. *)

From S2P Require Import Prelude F64.
From stdpp Require Import prelude list sorting.

Open Scope Z_scope.

(** ** Constants *)

Definition WINDOW_INITIAL : Z := 2.
Definition WINDOW_MIN : Z := 2.
Definition WINDOW_MIN_LIMIT_MEDIUM : Z := 5.
Definition WINDOW_MIN_LIMIT_FAST : Z := 16.
Definition WINDOW_MAX_SLOW : Z := 5.
Definition WINDOW_MAX_MEDIUM : Z := 12.
Definition WINDOW_MAX_FAST : Z := 48.
Definition WINDOW_MAX : Z := WINDOW_MAX_FAST.
Definition FAST_RATE_THRESHOLD : Z := 10.
Definition RTT_FAST : f64 := f_lit 18 100.
Definition RTT_MEDIUM : f64 := f_lit 75 100.
Definition RTT_SLOW : f64 := f_lit 145 100.
Definition WINDOW_FLEXIBILITY : Z := 4.
Definition SEQ_MODULUS : Z := 65536.
Definition ENVELOPE_HEADER_SIZE : nat := 6.
Definition MAX_TRIES : Z := 5.
Definition MIN_TIMEOUT_BASE : f64 := f_lit 25 1000.
Definition RTT_MAX : f64 := f_of_Z 720.

Definition SYSTEM_MESSAGE_TYPE_MIN : Z := 61440.
Definition SMT_STREAM_DATA : Z := 65280.

Definition initial_rtt (rtt : f64) : f64 :=
  if f_is_finite rtt && f_ge rtt f_zero then f_min rtt RTT_MAX else f_of_Z 1.

(** ** Messages and envelopes *)

Record MessageBase := { m_msg_type : Z; m_pack : bytes }.

Inductive MessageState := New | Sent | Delivered | Failed.
#[export] Instance MessageState_eq_dec : EqDecision MessageState.
Proof. solve_decision. Defined.

Inductive ChannelMessageError := UnpackFailed | InvalidType | TooShort.

Record Envelope := {
  msg_type : Z;
  sequence : Z;
  raw : bytes;
  packed : bool;
  tries : Z;
  state : MessageState;
  last_sent : option Z;
}.

Definition envelope_pack (msg : MessageBase) (seq : Z) : Envelope :=
  let data := m_pack msg in
  let length := len data mod 65536 in
  {| msg_type := m_msg_type msg;
     sequence := seq;
     raw := be_bytes 2 (m_msg_type msg) ++ be_bytes 2 seq ++ be_bytes 2 length ++ data;
     packed := true; tries := 0; state := New; last_sent := None |}.

Definition envelope_unpack (r : bytes) : res ChannelMessageError Envelope :=
  if decide (length r < ENVELOPE_HEADER_SIZE)%nat then Err TooShort else
  let* b0 := idx r 0 in let* b1 := idx r 1 in
  let* b2 := idx r 2 in let* b3 := idx r 3 in
  Ok {| msg_type := be_value [b0; b1];
        sequence := be_value [b2; b3];
        raw := r; packed := true; tries := 0; state := New; last_sent := None |}.

Definition payload {E} (e : Envelope) : res E bytes :=
  if decide (ENVELOPE_HEADER_SIZE < length (raw e))%nat
  then slice_from (raw e) ENVELOPE_HEADER_SIZE else Ok [].

(** ** Flow-control window *)

Record ChannelWindow := {
  window : Z;
  window_min : Z;
  window_max : Z;
  window_flexibility : Z;
  fast_rate_rounds : Z;
  medium_rate_rounds : Z;
}.

Definition window_new (rtt : f64) : ChannelWindow :=
  let rtt := initial_rtt rtt in
  if f_gt rtt RTT_SLOW then
    {| window := 1; window_min := 1; window_max := 1; window_flexibility := 1;
       fast_rate_rounds := 0; medium_rate_rounds := 0 |}
  else
    {| window := WINDOW_INITIAL; window_min := WINDOW_MIN; window_max := WINDOW_MAX_SLOW;
       window_flexibility := WINDOW_FLEXIBILITY; fast_rate_rounds := 0; medium_rate_rounds := 0 |}.

Definition clamp_window (w : ChannelWindow) : ChannelWindow :=
  {| window := Z.min (window w) WINDOW_MAX;
     window_min := Z.min (window_min w) WINDOW_MAX;
     window_max := Z.min (window_max w) WINDOW_MAX;
     window_flexibility := Z.min (window_flexibility w) WINDOW_MAX;
     fast_rate_rounds := fast_rate_rounds w;
     medium_rate_rounds := medium_rate_rounds w |}.

Definition set_window (w : ChannelWindow) (n : Z) : ChannelWindow :=
  {| window := n; window_min := window_min w; window_max := window_max w;
     window_flexibility := window_flexibility w;
     fast_rate_rounds := fast_rate_rounds w; medium_rate_rounds := medium_rate_rounds w |}.

Definition set_limits (w : ChannelWindow) (mx mn : Z) : ChannelWindow :=
  {| window := window w; window_min := mn; window_max := mx;
     window_flexibility := window_flexibility w;
     fast_rate_rounds := fast_rate_rounds w; medium_rate_rounds := medium_rate_rounds w |}.

Definition set_rounds (w : ChannelWindow) (fast medium : Z) : ChannelWindow :=
  {| window := window w; window_min := window_min w; window_max := window_max w;
     window_flexibility := window_flexibility w;
     fast_rate_rounds := fast; medium_rate_rounds := medium |}.

Definition grow (w : ChannelWindow) (rtt : f64) : ChannelWindow :=
  let w := clamp_window w in
  if negb (f_is_finite rtt) || f_lt rtt f_zero then w else
  let rtt := f_min rtt RTT_MAX in
  let w := if window w <? window_max w then set_window w (window w + 1) else w in
  if f_eq rtt f_zero then w else
  if f_gt rtt RTT_FAST then
    let w := set_rounds w 0 (medium_rate_rounds w) in
    if f_gt rtt RTT_MEDIUM then set_rounds w (fast_rate_rounds w) 0
    else
      let w := set_rounds w (fast_rate_rounds w) (sat_add64 (medium_rate_rounds w) 1) in
      if (window_max w <? WINDOW_MAX_MEDIUM) && (medium_rate_rounds w =? FAST_RATE_THRESHOLD)
      then set_limits w WINDOW_MAX_MEDIUM WINDOW_MIN_LIMIT_MEDIUM else w
  else
    let w := set_rounds w (sat_add64 (fast_rate_rounds w) 1) (medium_rate_rounds w) in
    if (window_max w <? WINDOW_MAX_FAST) && (fast_rate_rounds w =? FAST_RATE_THRESHOLD)
    then set_limits w WINDOW_MAX_FAST WINDOW_MIN_LIMIT_FAST else w.

Definition shrink (w : ChannelWindow) : ChannelWindow :=
  let w := clamp_window w in
  if window_min w <? window w then
    let w := set_window w (window w - 1) in
    if window_min w + window_flexibility w <? window_max w
    then set_limits w (window_max w - 1) (window_min w) else w
  else w.

(** ** Channel state *)

Definition MessageCallback : Type := Z → bytes → option bool.

Record Channel := {
  next_tx_sequence : Z;
  next_rx_sequence : Z;
  tx_ring : list Envelope;
  rx_ring : list Envelope;
  win : ChannelWindow;
  active : bool;
  current_rtt : f64;
  registered_types : list Z;
  message_handlers : list (Z * MessageCallback);
  next_handler_id : Z;
}.

Inductive ChannelError :=
| ChannelClosed | NotReady | MaxRetriesExceeded | InvalidEnvelope
| UnknownMessageType (t : Z) | InvalidMessageType (t : Z)
| MessageTooLarge (actual max : Z).

Definition channel_new (rtt : f64) : Channel :=
  let rtt := initial_rtt rtt in
  {| next_tx_sequence := 0; next_rx_sequence := 0; tx_ring := []; rx_ring := [];
     win := window_new rtt; active := true; current_rtt := rtt;
     registered_types := []; message_handlers := []; next_handler_id := 0 |}.

(** Field updates. *)
Definition with_tx (c : Channel) (nt : Z) (t : list Envelope) : Channel :=
  {| next_tx_sequence := nt; next_rx_sequence := next_rx_sequence c; tx_ring := t;
     rx_ring := rx_ring c; win := win c; active := active c; current_rtt := current_rtt c;
     registered_types := registered_types c; message_handlers := message_handlers c;
     next_handler_id := next_handler_id c |}.
Definition with_rx (c : Channel) (nr : Z) (r : list Envelope) : Channel :=
  {| next_tx_sequence := next_tx_sequence c; next_rx_sequence := nr; tx_ring := tx_ring c;
     rx_ring := r; win := win c; active := active c; current_rtt := current_rtt c;
     registered_types := registered_types c; message_handlers := message_handlers c;
     next_handler_id := next_handler_id c |}.
Definition with_win (c : Channel) (w : ChannelWindow) : Channel :=
  {| next_tx_sequence := next_tx_sequence c; next_rx_sequence := next_rx_sequence c; tx_ring := tx_ring c;
     rx_ring := rx_ring c; win := w; active := active c; current_rtt := current_rtt c;
     registered_types := registered_types c; message_handlers := message_handlers c;
     next_handler_id := next_handler_id c |}.
Definition with_types (c : Channel) (ts : list Z) : Channel :=
  {| next_tx_sequence := next_tx_sequence c; next_rx_sequence := next_rx_sequence c; tx_ring := tx_ring c;
     rx_ring := rx_ring c; win := win c; active := active c; current_rtt := current_rtt c;
     registered_types := ts; message_handlers := message_handlers c;
     next_handler_id := next_handler_id c |}.
Definition with_handlers (c : Channel) (hs : list (Z * MessageCallback)) (nid : Z) : Channel :=
  {| next_tx_sequence := next_tx_sequence c; next_rx_sequence := next_rx_sequence c; tx_ring := tx_ring c;
     rx_ring := rx_ring c; win := win c; active := active c; current_rtt := current_rtt c;
     registered_types := registered_types c; message_handlers := hs; next_handler_id := nid |}.
Definition with_active (c : Channel) (a : bool) : Channel :=
  {| next_tx_sequence := next_tx_sequence c; next_rx_sequence := next_rx_sequence c; tx_ring := tx_ring c;
     rx_ring := rx_ring c; win := win c; active := a; current_rtt := current_rtt c;
     registered_types := registered_types c; message_handlers := message_handlers c;
     next_handler_id := next_handler_id c |}.
Definition with_rtt (c : Channel) (r : f64) : Channel :=
  {| next_tx_sequence := next_tx_sequence c; next_rx_sequence := next_rx_sequence c; tx_ring := tx_ring c;
     rx_ring := rx_ring c; win := win c; active := active c; current_rtt := r;
     registered_types := registered_types c; message_handlers := message_handlers c;
     next_handler_id := next_handler_id c |}.

(** ** Registration and callbacks *)

Definition register_system_type (c : Channel) (t : Z) : Channel :=
  if decide (t ∈ registered_types c) then c else with_types c (registered_types c ++ [t]).

Definition register_message_type (c : Channel) (t : Z) : res ChannelError Channel :=
  if SYSTEM_MESSAGE_TYPE_MIN <=? t then Err (InvalidMessageType t) else
  if decide (t ∈ registered_types c) then Ok c else Ok (with_types c (registered_types c ++ [t])).

Definition add_message_handler (c : Channel) (h : MessageCallback) : Channel * Z :=
  let id := next_handler_id c in
  (with_handlers c (message_handlers c ++ [(id, h)]) ((id + 1) mod 2 ^ 64), id).

Definition remove_message_handler (c : Channel) (id : Z) : Channel * bool :=
  match position (λ h, fst h =? id) (message_handlers c) with
  | None => (c, false)
  | Some i =>
      (with_handlers c (take i (message_handlers c) ++ drop (S i) (message_handlers c)) (next_handler_id c), true)
  end.

Definition clear_message_handlers (c : Channel) : Channel := with_handlers c [] (next_handler_id c).

(** The handlers called, and whether one consumed the message. *)
Fixpoint run_handlers (hs : list (Z * MessageCallback)) (t : Z) (p : bytes) : list Z * bool :=
  match hs with
  | [] => ([], false)
  | (id, h) :: rest =>
      if default false (h t p) then ([id], true)
      else let '(ids, b) := run_handlers rest t p in (id :: ids, b)
  end.

Definition run_callbacks (c : Channel) (t : Z) (p : bytes) : list Z * bool :=
  run_handlers (message_handlers c) t p.

Definition is_type_registered (c : Channel) (t : Z) : bool := bool_decide (t ∈ registered_types c).

(** ** Sending *)

Definition undelivered (e : Envelope) : bool := negb (bool_decide (state e = Delivered)).

Definition outstanding_count (c : Channel) : Z := len (List.filter undelivered (tx_ring c)).

Definition is_ready_to_send (c : Channel) : bool :=
  if negb (active c) then false else
  let outstanding := len (List.filter undelivered (tx_ring c)) in
  outstanding <? Z.min (window (win c)) WINDOW_MAX.

Definition is_drained (c : Channel) : bool := bool_decide (tx_ring c = []).

Definition mark_sent (e : Envelope) (now : Z) : Envelope :=
  {| msg_type := msg_type e; sequence := sequence e; raw := raw e; packed := packed e;
     tries := 1; state := Sent; last_sent := Some now |}.

Definition send_tracked_with_max_envelope (c : Channel) (msg : MessageBase) (max : option Z) (now : Z)
  : Channel * res ChannelError (Z * bytes) :=
  if negb (active c) then (c, Err ChannelClosed) else
  if negb (is_ready_to_send c) then (c, Err NotReady) else
  let seq := next_tx_sequence c in
  let envelope := envelope_pack msg seq in
  if match max with Some m => m <? len (raw envelope) | None => false end
  then (c, Err (MessageTooLarge (len (raw envelope)) (default 0 max))) else
  let envelope := mark_sent envelope now in
  (with_tx c ((next_tx_sequence c + 1) mod SEQ_MODULUS) (tx_ring c ++ [envelope]),
   Ok (seq, raw envelope)).

Definition send_tracked (c : Channel) (msg : MessageBase) (now : Z) : Channel * res ChannelError (Z * bytes) :=
  send_tracked_with_max_envelope c msg None now.

Definition send (c : Channel) (msg : MessageBase) (now : Z) : Channel * res ChannelError bytes :=
  let '(c', r) := send_tracked c msg now in
  (c', let* '(_, data) := r in Ok data).

(** [while front is delivered { pop_front }] *)
Fixpoint drain_delivered (ring : list Envelope) : list Envelope :=
  match ring with
  | [] => []
  | e :: rest => if bool_decide (state e = Delivered) then drain_delivered rest else ring
  end.

Definition set_delivered (e : Envelope) : Envelope :=
  {| msg_type := msg_type e; sequence := sequence e; raw := raw e; packed := packed e;
     tries := tries e; state := Delivered; last_sent := last_sent e |}.

Definition find_seq (seq : Z) (ring : list Envelope) : option nat :=
  position (λ e, sequence e =? seq) ring.

Definition delivered (c : Channel) (seq : Z) (rtt : f64) : Channel :=
  let ring := match find_seq seq (tx_ring c) with
              | Some i => alter set_delivered i (tx_ring c)
              | None => tx_ring c
              end in
  let c := with_tx c (next_tx_sequence c) (drain_delivered ring) in
  with_win c (grow (win c) rtt).

Definition set_tries (e : Envelope) (t : Z) : Envelope :=
  {| msg_type := msg_type e; sequence := sequence e; raw := raw e; packed := packed e;
     tries := t; state := state e; last_sent := last_sent e |}.
Definition set_last_sent (e : Envelope) (now : Z) : Envelope :=
  {| msg_type := msg_type e; sequence := sequence e; raw := raw e; packed := packed e;
     tries := tries e; state := state e; last_sent := Some now |}.

Definition timeout (c : Channel) (seq now : Z) : Channel * res ChannelError (option bytes) :=
  match find_seq seq (tx_ring c) with
  | Some i =>
      match tx_ring c !! i with
      | Some e =>
          let e := set_tries e (sat_add64 (tries e) 1) in
          if MAX_TRIES <? tries e then
            (with_active (with_tx c (next_tx_sequence c) (<[i := e]> (tx_ring c))) false,
             Err MaxRetriesExceeded)
          else
            let e := set_last_sent e now in
            let c := with_tx c (next_tx_sequence c) (<[i := e]> (tx_ring c)) in
            (with_win c (shrink (win c)), Ok (Some (raw e)))
      | None => (c, Ok None)
      end
  | None => (c, Ok None)
  end.

(** ** Retransmission timers *)

(** [tries.clamp(1, MAX_TRIES) - 1] *)
Definition compute_timeout (c : Channel) (t : Z) : f64 :=
  let rtt := current_rtt c in
  let backoff := f_powi (f_lit 3 2) (Z.to_nat (Z.min (Z.max t 1) MAX_TRIES - 1)) in
  let base := f_max (f_mul rtt (f_lit 5 2)) MIN_TIMEOUT_BASE in
  let outstanding := f_add (f_of_Z (Z.min (outstanding_count c) WINDOW_MAX)) (f_lit 3 2) in
  f_mul (f_mul backoff base) outstanding.

Definition timeout_duration (c : Channel) (t : Z) : Z :=
  default (from_secs 1) (try_from_secs_f64 (f_max (compute_timeout c t) MIN_TIMEOUT_BASE)).

(** [sent.elapsed()] saturates at zero. *)
Definition elapsed (sent now : Z) : Z := Z.max 0 (now - sent).

Definition timed_out_sequences (c : Channel) (now : Z) : list Z :=
  sequence <$> List.filter
    (λ env, undelivered env &&
       match last_sent env with
       | Some sent => timeout_duration c (tries env) <=? elapsed sent now
       | None => false
       end) (tx_ring c).

(** [Iterator::min] *)
Definition min_list (l : list Z) : option Z :=
  match l with [] => None | x :: l' => Some (foldl Z.min x l') end.

Definition next_timeout_duration (c : Channel) (now : Z) : option Z :=
  min_list (omap
    (λ env, sent ← last_sent env;
            let t := timeout_duration c (tries env) in
            Some (Z.max 0 (t - elapsed sent now)))
    (List.filter undelivered (tx_ring c))).

Definition update_rtt (c : Channel) (rtt : f64) : Channel :=
  if f_is_finite rtt && f_ge rtt f_zero then with_rtt c (f_min rtt RTT_MAX) else c.

(** ** Receiving *)

Definition is_acceptable_sequence (c : Channel) (seq : Z) : bool :=
  if next_rx_sequence c <=? seq then seq <=? next_rx_sequence c + WINDOW_MAX else
  let window_overflow := (next_rx_sequence c + WINDOW_MAX) mod SEQ_MODULUS in
  (window_overflow <? next_rx_sequence c) && (seq <=? window_overflow).

Definition seq_diff (next seq : Z) : Z :=
  if next <=? seq then seq - next else SEQ_MODULUS - next + seq.

Definition emplace_envelope (c : Channel) (envelope : Envelope) : Channel :=
  if existsb (λ e, sequence e =? sequence envelope) (rx_ring c) then c else
  let pos := position (λ e,
    let diff_new := seq_diff (next_rx_sequence c) (sequence envelope) in
    let diff_existing := seq_diff (next_rx_sequence c) (sequence e) in
    diff_new <? diff_existing) (rx_ring c) in
  match pos with
  | Some i => with_rx c (next_rx_sequence c) (take i (rx_ring c) ++ envelope :: drop i (rx_ring c))
  | None => with_rx c (next_rx_sequence c) (rx_ring c ++ [envelope])
  end.

(** The messages delivered, and for each the handlers that were called. *)
Abbreviation deliveries := (list (Z * bytes) * list (list Z))%type.

(** The delivery loop.  Every iteration removes an envelope, so the length of
    the ring is enough fuel. *)
Fixpoint deliver_loop (fuel : nat) (c : Channel) (out : deliveries) : res ChannelError (Channel * deliveries) :=
  match find_seq (next_rx_sequence c) (rx_ring c), fuel with
  | Some i, S fuel' =>
      let* env := expect (rx_ring c !! i) in
      let* p := payload env in
      let '(calls, _) := run_callbacks c (msg_type env) p in
      let c := with_rx c ((next_rx_sequence c + 1) mod SEQ_MODULUS)
                 (take i (rx_ring c) ++ drop (S i) (rx_ring c)) in
      deliver_loop fuel' c (out.1 ++ [(msg_type env, p)], out.2 ++ [calls])
  | _, _ => Ok (c, out)
  end.

(** An error leaves the channel as it was. *)
Definition receive (c : Channel) (r : bytes) : res ChannelError (Channel * deliveries) :=
  if negb (active c) then Err ChannelClosed else
  let* envelope := map_err (λ _, InvalidEnvelope) (envelope_unpack r) in
  if negb (is_type_registered c (msg_type envelope)) then Err (UnknownMessageType (msg_type envelope)) else
  if negb (is_acceptable_sequence c (sequence envelope)) then Ok (c, ([], [])) else
  let c := emplace_envelope c envelope in
  deliver_loop (length (rx_ring c)) c ([], []).

Definition shutdown (c : Channel) : Channel :=
  with_handlers (with_rx (with_tx (with_active c false) (next_tx_sequence c) []) (next_rx_sequence c) [])
    [] (next_handler_id c).

Definition channel_mdu (link_mdu : Z) : Z :=
  let mdu := Z.max 0 (link_mdu - Z.of_nat ENVELOPE_HEADER_SIZE) in
  Z.min mdu 65535.

(** ** The flow-control window *)

(** Window sizes stay between one and the channel ceiling. *)
Definition window_ok (w : ChannelWindow) : Prop :=
  1 ≤ window w ≤ window_max w ∧ 1 ≤ window_min w ≤ window_max w ∧ window_max w ≤ WINDOW_MAX ∧
  1 ≤ window_flexibility w ≤ WINDOW_MAX.

Ltac window_cases :=
  repeat match goal with
  | |- context [if ?b then _ else _] => let H := fresh "Hb" in destruct b eqn:H
  end;
  rewrite ?andb_true_iff, ?Z.ltb_lt, ?Z.ltb_ge in *;
  unfold WINDOW_MAX, WINDOW_MAX_FAST, WINDOW_MAX_MEDIUM, WINDOW_MAX_SLOW, WINDOW_MIN, WINDOW_INITIAL,
    WINDOW_MIN_LIMIT_FAST, WINDOW_MIN_LIMIT_MEDIUM, WINDOW_FLEXIBILITY in *;
  simpl in *; lia.

Lemma window_new_ok rtt : window_ok (window_new rtt).
Proof. unfold window_ok, window_new. cbv zeta. window_cases. Qed.

Lemma grow_ok w rtt : window_ok w → window_ok (grow w rtt) ∧ window w ≤ window (grow w rtt) ≤ window w + 1.
Proof. unfold window_ok, grow, clamp_window, set_rounds, set_limits, set_window. cbv zeta. intros. window_cases. Qed.

Lemma shrink_ok w : window_ok w → window_ok (shrink w) ∧ window w - 1 ≤ window (shrink w) ≤ window w ∧
  Z.min (window w) (window_min w) ≤ window (shrink w).
Proof. unfold window_ok, shrink, clamp_window, set_limits, set_window. cbv zeta. intros. window_cases. Qed.

(** ** Sequence arithmetic *)

Definition dist (next seq : Z) : Z := (seq - next) mod SEQ_MODULUS.

Lemma seq_diff_dist next seq : u16 next → u16 seq → seq_diff next seq = dist next seq.
Proof.
  unfold u16, seq_diff, dist, SEQ_MODULUS. intros Hn Hs. destruct (Z.leb_spec next seq).
  - by rewrite Z.mod_small by lia.
  - rewrite <- (Z_mod_plus_full (seq - next) 1), Z.mod_small by lia. lia.
Qed.

Lemma acceptable_dist c seq :
  u16 (next_rx_sequence c) → u16 seq →
  is_acceptable_sequence c seq = true ↔ dist (next_rx_sequence c) seq ≤ WINDOW_MAX.
Proof.
  intros Hn Hs. rewrite <- seq_diff_dist by done. unfold is_acceptable_sequence, seq_diff.
  unfold u16, SEQ_MODULUS, WINDOW_MAX, WINDOW_MAX_FAST in *.
  destruct (Z.leb_spec (next_rx_sequence c) seq).
  - rewrite Z.leb_le. lia.
  - rewrite andb_true_iff, Z.ltb_lt, Z.leb_le. cbv zeta.
    destruct (decide (next_rx_sequence c + 48 < 65536)).
    + rewrite Z.mod_small by lia. lia.
    + assert ((next_rx_sequence c + 48) mod 65536 = next_rx_sequence c + 48 - 65536) as ->; [|lia].
      symmetry. apply (Z.mod_unique_pos _ _ 1); lia.
Qed.

(** ** Envelopes *)

Lemma be_value_two x : u16 x → be_value (be_bytes 2 x) = x.
Proof. unfold u16. intros. apply be_value_bytes. simpl. lia. Qed.

Lemma be_value_u16 a b : u8 a → u8 b → u16 (be_value [a; b]).
Proof. unfold u8, u16, be_value. simpl. lia. Qed.

Lemma unpack_pack msg seq :
  u16 (m_msg_type msg) → u16 seq →
  envelope_unpack (raw (envelope_pack msg seq)) = Ok (envelope_pack msg seq).
Proof.
  intros Ht Hs. pose proof (be_value_two _ Ht) as H1. pose proof (be_value_two _ Hs) as H2.
  unfold envelope_unpack, envelope_pack. cbn [raw].
  change (be_bytes 2 (m_msg_type msg)) with [m_msg_type msg / 256 mod 256; m_msg_type msg mod 256] in *.
  change (be_bytes 2 seq) with [seq / 256 mod 256; seq mod 256] in *.
  change (be_bytes 2 (len (m_pack msg) mod 65536)) with
    [len (m_pack msg) mod 65536 / 256 mod 256; len (m_pack msg) mod 65536 mod 256].
  cbn [app]. rewrite decide_False by (cbn [length]; unfold ENVELOPE_HEADER_SIZE; lia).
  do 4 (erewrite idx_ok by done; cbn [res_bind]). by rewrite H1, H2.
Qed.

Lemma payload_pack {E} msg seq : @payload E (envelope_pack msg seq) = Ok (m_pack msg).
Proof.
  unfold payload, envelope_pack. cbn [raw].
  case_decide as H.
  - rewrite slice_from_ok by (unfold ENVELOPE_HEADER_SIZE in *; lia). done.
  - unfold ENVELOPE_HEADER_SIZE in H. simpl in H. destruct (m_pack msg); [done|simpl in H; lia].
Qed.

(** Channel frames round-trip: unpacking a packed frame returns the
    envelope, with the message type, the sequence number and the whole
    payload, whatever the payload's length; a frame shorter than its six-byte
    header is the only input refused, and unpacking never panics. *)
Theorem envelope_roundtrip msg seq r :
  u16 (m_msg_type msg) → u16 seq → bytes_ok r →
  envelope_unpack (raw (envelope_pack msg seq)) = Ok (envelope_pack msg seq) ∧
  @payload Empty_set (envelope_pack msg seq) = Ok (m_pack msg) ∧
  sequence (envelope_pack msg seq) = seq ∧ msg_type (envelope_pack msg seq) = m_msg_type msg ∧
  match envelope_unpack r with
  | Ok e => (6 ≤ length r)%nat ∧ raw e = r ∧ u16 (sequence e) ∧ u16 (msg_type e) ∧
            @payload Empty_set e = Ok (drop 6 r)
  | Err e => e = TooShort ∧ (length r < 6)%nat
  | Panic => False
  end.
Proof.
  intros Ht Hs Hr. split_and!; [by apply unpack_pack|by apply payload_pack|done..|].
  unfold envelope_unpack, ENVELOPE_HEADER_SIZE. case_decide as Hl; [done|].
  destruct r as [|b0 [|b1 [|b2 [|b3 r]]]]; simpl in Hl; try lia.
  do 4 (erewrite idx_ok by done; cbn [res_bind]). cbn [raw sequence msg_type].
  apply bytes_ok_cons in Hr as [H0 Hr]. apply bytes_ok_cons in Hr as [H1 Hr].
  apply bytes_ok_cons in Hr as [H2 Hr]. apply bytes_ok_cons in Hr as [H3 Hr].
  split_and!; try done; try (simpl; lia).
  - by apply be_value_u16.
  - by apply be_value_u16.
  - unfold payload. cbn [raw]. case_decide as H6.
    + by rewrite slice_from_ok by (simpl in *; unfold ENVELOPE_HEADER_SIZE in *; lia).
    + simpl in *. destruct r as [|? [|? r]]; simpl in *; unfold ENVELOPE_HEADER_SIZE in *; try lia.
      destruct r; [done|simpl in *; lia].
Qed.

Lemma envelope_roundtrip_witness :
  u16 7 ∧ u16 65535 ∧
  envelope_unpack [0; 7; 255; 255; 0; 1; 9] =
    Ok (envelope_pack {| m_msg_type := 7; m_pack := [9] |} 65535).
Proof.
  assert (H7 : u16 7) by (unfold u16; lia). assert (Hs : u16 65535) by (unfold u16; lia).
  split; [exact H7|]. split; [exact Hs|].
  apply (envelope_roundtrip {| m_msg_type := 7; m_pack := [9] |} 65535 [] H7 Hs bytes_ok_nil).
Defined.

(** ** In-order delivery *)

(** Ordered insertion without duplicates: what [emplace_envelope] computes on
    the absolute message numbers. *)
Fixpoint ins (k : nat) (l : list nat) : list nat :=
  match l with
  | [] => [k]
  | x :: l' => if decide (k < x)%nat then k :: l else if decide (k = x) then l else x :: ins k l'
  end.

Lemma elem_of_ins k l x : x ∈ ins k l ↔ x = k ∨ x ∈ l.
Proof.
  induction l as [|y l IH]; simpl; [set_solver|].
  case_decide; [set_solver|]. case_decide; [set_solver|]. set_solver.
Qed.

Lemma ins_sorted k l : StronglySorted lt l → StronglySorted lt (ins k l).
Proof.
  induction 1 as [|y l Hs IH Hy]; simpl; [repeat constructor|].
  case_decide as H1.
  { constructor; [by constructor|]. constructor; [done|]. eapply Forall_impl; [exact Hy|]. simpl. lia. }
  case_decide as H2; [by constructor|]. constructor; [done|].
  apply Forall_forall. intros x Hx%elem_of_ins. destruct Hx as [->|Hx]; [lia|].
  by eapply Forall_forall in Hy.
Qed.

(** The smallest message number that has not arrived. *)
Definition first_missing (arr : list nat) : nat :=
  default 0%nat (head (List.filter (λ n, bool_decide (n ∉ arr)) (seq 0 (S (length arr))))).

Lemma first_missing_eq arr n :
  n ∉ arr → (∀ i, (i < n)%nat → i ∈ arr) → first_missing arr = n.
Proof.
  intros Hn Hlt. unfold first_missing.
  assert (Hle : (n ≤ length arr)%nat).
  { rewrite <- (length_seq n 0). apply submseteq_length, NoDup_submseteq; [apply NoDup_seq|].
    intros x Hx%elem_of_seq. apply Hlt. lia. }
  replace (S (length arr)) with (n + S (length arr - n))%nat by lia.
  rewrite seq_app, List.filter_app.
  assert (List.filter (λ i, bool_decide (i ∉ arr)) (seq 0 n) = []) as ->.
  { assert (Hall : ∀ i, i ∈ seq 0 n → i ∈ arr) by (intros i Hi%elem_of_seq; apply Hlt; lia).
    revert Hall. generalize (seq 0 n). intros l Hl. induction l as [|x l IH]; [done|]. simpl.
    rewrite bool_decide_false by (intros Hx; apply Hx, Hl; set_solver). apply IH. set_solver. }
  simpl. by rewrite bool_decide_true.
Qed.

Section delivery.
Context (msgs : nat → MessageBase).

(** Message [k] travels in an envelope numbered [k] modulo the sequence space. *)
Definition msg_env (k : nat) : Envelope := envelope_pack (msgs k) (Z.of_nat k mod SEQ_MODULUS).
Definition msg_frame (k : nat) : bytes := raw (msg_env k).
Definition msg_out (k : nat) : Z * bytes := (m_msg_type (msgs k), m_pack (msgs k)).

(** Absolute numbers [N..N+48] are recovered from their sequence numbers. *)
Lemma dist_abs N k :
  Z.of_nat N ≤ Z.of_nat k < Z.of_nat N + 65536 →
  dist (Z.of_nat N mod SEQ_MODULUS) (Z.of_nat k mod SEQ_MODULUS) = Z.of_nat (k - N).
Proof.
  intros H. unfold dist, SEQ_MODULUS. rewrite <- Zminus_mod. rewrite Z.mod_small by lia. lia.
Qed.

Lemma dist_old N k :
  Z.of_nat k < Z.of_nat N ≤ Z.of_nat k + 65487 →
  dist (Z.of_nat N mod SEQ_MODULUS) (Z.of_nat k mod SEQ_MODULUS) > WINDOW_MAX.
Proof.
  intros H. unfold dist, SEQ_MODULUS, WINDOW_MAX, WINDOW_MAX_FAST. rewrite <- Zminus_mod.
  rewrite <- (Z_mod_plus_full _ 1), Z.mod_small by lia. lia.
Qed.

Lemma seq_u16 k : u16 (Z.of_nat k mod SEQ_MODULUS).
Proof. unfold u16, SEQ_MODULUS. apply Z.mod_pos_bound. lia. Qed.

(** Within one window, sequence numbers are equal only for equal messages. *)
Lemma seq_eqb N k k' :
  (N ≤ k ≤ N + 48)%nat → (N ≤ k' ≤ N + 48)%nat →
  (sequence (msg_env k) =? sequence (msg_env k')) = bool_decide (k = k').
Proof.
  intros H H'. cbn. apply eq_bool_prop_intro. rewrite Is_true_true, Z.eqb_eq, bool_decide_spec.
  split; [|by intros ->]. intros Heq.
  pose proof (dist_abs N k) as D. pose proof (dist_abs N k') as D'. rewrite Heq in D. lia.
Qed.

(** The receiver expects message [N] and buffers exactly the messages [ks]. *)
Record rx_state (c : Channel) (N : nat) (ks : list nat) : Prop := {
  rx_next : next_rx_sequence c = Z.of_nat N mod SEQ_MODULUS;
  rx_buffer : rx_ring c = msg_env <$> ks;
  rx_sorted : StronglySorted lt ks;
  rx_range : Forall (λ k, (N ≤ k ≤ N + 48)%nat) ks;
}.

Lemma existsb_buffer N ks k :
  (N ≤ k ≤ N + 48)%nat → Forall (λ k, (N ≤ k ≤ N + 48)%nat) ks →
  existsb (λ e, sequence e =? sequence (msg_env k)) (msg_env <$> ks) = bool_decide (k ∈ ks).
Proof.
  intros Hk. induction 1 as [|x ks Hx Hks IH]; [done|]. cbn [fmap list_fmap existsb].
  rewrite IH, (seq_eqb N) by done. apply eq_bool_prop_intro.
  rewrite !Is_true_true, orb_true_iff, !bool_decide_eq_true. set_solver.
Qed.

Lemma emplace_pos N ks k :
  (N ≤ k ≤ N + 48)%nat → Forall (λ k, (N ≤ k ≤ N + 48)%nat) ks →
  position (λ e, seq_diff (Z.of_nat N mod SEQ_MODULUS) (sequence (msg_env k)) <?
                 seq_diff (Z.of_nat N mod SEQ_MODULUS) (sequence e)) (msg_env <$> ks)
  = position (λ x, Nat.ltb k x) ks.
Proof.
  intros Hk. induction 1 as [|x ks Hx Hks IH]; [done|]. cbn [fmap list_fmap position].
  rewrite IH. replace (_ <? _) with (Nat.ltb k x); [done|].
  cbn [msg_env envelope_pack sequence]. rewrite !seq_diff_dist by apply seq_u16. cbn beta in Hx. rewrite !dist_abs by lia.
  destruct (Nat.ltb_spec k x), (Z.ltb_spec (Z.of_nat (k - N)) (Z.of_nat (x - N))); done || lia.
Qed.

Lemma ins_pos k ks :
  StronglySorted lt ks → k ∉ ks →
  ins k ks = match position (λ x, Nat.ltb k x) ks with
             | Some i => take i ks ++ k :: drop i ks
             | None => ks ++ [k]
             end.
Proof.
  induction 1 as [|y l Hs IH Hy]; intros Hk; simpl; [done|].
  destruct (Nat.ltb_spec k y); [by rewrite decide_True by lia|].
  rewrite !decide_False by set_solver by lia. rewrite IH by set_solver.
  by destruct (position _ l).
Qed.

Lemma ins_in k ks : StronglySorted lt ks → k ∈ ks → ins k ks = ks.
Proof.
  induction 1 as [|y l Hs IH Hy]; intros Hk; simpl; [by apply not_elem_of_nil in Hk|].
  apply elem_of_cons in Hk as [->|Hk].
  - rewrite decide_False by lia. by rewrite decide_True.
  - eapply Forall_forall in Hy; [|exact Hk]. rewrite !decide_False by lia. by rewrite IH.
Qed.

Lemma emplace_state c N ks k :
  rx_state c N ks → (N ≤ k ≤ N + 48)%nat →
  rx_state (emplace_envelope c (msg_env k)) N (ins k ks) ∧
  emplace_envelope c (msg_env k) = with_rx c (next_rx_sequence c) (msg_env <$> ins k ks).
Proof.
  intros [Hn Hb Hs Hr] Hk.
  assert (Heq : emplace_envelope c (msg_env k) = with_rx c (next_rx_sequence c) (msg_env <$> ins k ks)).
  { unfold emplace_envelope. rewrite Hb, (existsb_buffer N) by done. case_bool_decide as Hin.
    - rewrite ins_in by done. rewrite <- Hb. by destruct c.
    - cbv zeta. rewrite Hn, (emplace_pos N) by done. rewrite ins_pos by done.
      destruct (position _ ks); rewrite ?fmap_app, ?fmap_cons, ?fmap_take, ?fmap_drop; done. }
  split; [|done]. rewrite Heq. split; simpl; [done|done|by apply ins_sorted|].
  apply Forall_forall. intros x Hx%elem_of_ins. destruct Hx as [->|Hx]; [done|].
  by eapply Forall_forall in Hr.
Qed.

Lemma next_seq_eqb c N x :
  next_rx_sequence c = Z.of_nat N mod SEQ_MODULUS → (N ≤ x ≤ N + 48)%nat →
  (sequence (msg_env x) =? next_rx_sequence c) = bool_decide (x = N).
Proof. intros Hn Hx. rewrite Hn. apply (seq_eqb N x N); lia. Qed.

Definition msg_calls (c : Channel) (k : nat) : list Z := (run_callbacks c (msg_out k).1 (msg_out k).2).1.

Lemma deliver_step fuel c N ks out :
  next_rx_sequence c = Z.of_nat N mod SEQ_MODULUS → rx_ring c = msg_env <$> N :: ks →
  deliver_loop (S fuel) c out =
    deliver_loop fuel (with_rx c (Z.of_nat (S N) mod SEQ_MODULUS) (msg_env <$> ks))
      (out.1 ++ [msg_out N], out.2 ++ [msg_calls c N]).
Proof.
  intros Hn Hb. unfold deliver_loop at 1. fold deliver_loop. unfold find_seq. rewrite Hb.
  cbn [fmap list_fmap position]. rewrite (next_seq_eqb c N) by (done || lia).
  rewrite bool_decide_true by done. cbn [lookup list_lookup expect res_bind].
  assert (Hp : @payload ChannelError (msg_env N) = Ok (m_pack (msgs N))) by apply payload_pack.
  rewrite Hp. cbn [res_bind].
  change (msg_type (msg_env N)) with (m_msg_type (msgs N)).
  unfold msg_calls, msg_out. simpl. destruct (run_callbacks c _ _) as [calls b]. simpl.
  rewrite drop_0, Hn. rewrite Zplus_mod_idemp_l. do 3 f_equal. lia.
Qed.

Lemma deliver_stop fuel c N ks out :
  rx_state c N ks → N ∉ ks → deliver_loop fuel c out = Ok (c, out).
Proof.
  intros [Hn Hb Hs Hr] HN.
  assert (Hnf : find_seq (next_rx_sequence c) (rx_ring c) = None).
  { unfold find_seq. apply position_None. rewrite Hb. apply Forall_fmap, Forall_forall.
    intros x Hx. change ((sequence (msg_env x) =? next_rx_sequence c) = false). rewrite (next_seq_eqb c N) by (done || by eapply Forall_forall in Hr).
    apply bool_decide_false. by intros ->. }
  destruct fuel; cbn [deliver_loop]; by rewrite Hnf.
Qed.

(** The loop delivers the maximal run of consecutive messages from [N]. *)
Lemma deliver_loop_run ks : ∀ fuel c N out,
  rx_state c N ks → (length ks ≤ fuel)%nat →
  ∃ m ks', ks = seq N m ++ ks' ∧
    rx_state (with_rx c (Z.of_nat (N + m) mod SEQ_MODULUS) (msg_env <$> ks')) (N + m) ks' ∧
    (¬ ((N + m)%nat ∈ ks')) ∧
    deliver_loop fuel c out =
      Ok (with_rx c (Z.of_nat (N + m) mod SEQ_MODULUS) (msg_env <$> ks'),
          (out.1 ++ (msg_out <$> seq N m), out.2 ++ (msg_calls c <$> seq N m))).
Proof.
  induction ks as [|k ks IH]; intros fuel c N out Hst Hf; [|destruct (decide (k = N)) as [->|Hne]].
  - exists 0%nat, []. rewrite Nat.add_0_r, (deliver_stop _ _ N []) by (done || set_solver).
    destruct Hst as [Hn Hb _ _]. split_and!; [done|split; done || constructor|set_solver|].
    rewrite !app_nil_r. destruct c, out; simpl in *; by subst.
  - destruct Hst as [Hn Hb Hs Hr]. inversion Hs as [|? ? Hs' Hk]; subst. inversion Hr as [|? ? _ Hr']; subst.
    destruct fuel as [|fuel]; [simpl in Hf; lia|]. rewrite (deliver_step fuel c N ks) by done.
    edestruct (IH fuel) as (m & ks' & Hks & Hst & Hnot & ->); [|simpl in Hf; lia|].
    { split; [done|done|done|]. apply Forall_forall. intros x Hx.
      eapply Forall_forall in Hk; [|exact Hx]. eapply Forall_forall in Hr'; [|exact Hx]. simpl in *. lia. }
    exists (S m), ks'. rewrite Nat.add_succ_r, <- Nat.add_succ_l.
    split_and!; [by rewrite Hks|exact Hst|done|].
    cbn [fst snd seq fmap list_fmap]. by rewrite <- !app_assoc.
  - assert (HN : N ∉ k :: ks).
    { destruct Hst as [_ _ Hs Hr]. inversion Hs as [|? ? _ Hk]; subst. inversion Hr; subst.
      intros Hin. apply list_elem_of_In in Hin as [->|Hin%list_elem_of_In]; [done|].
      eapply Forall_forall in Hk; [|exact Hin]. simpl in *. lia. }
    exists 0%nat, (k :: ks). rewrite Nat.add_0_r, (deliver_stop _ _ N (k :: ks)) by done.
    destruct Hst as [Hn Hb Hs Hr]. split_and!; [done|by split|done|].
    rewrite !app_nil_r, <- Hn, <- Hb. by destruct c, out.
Qed.

(** One arrival.  [arr] are the messages that have already arrived. *)
Record delivery_state (c : Channel) (arr : list nat) (N : nat) (ks : list nat) : Prop := {
  ds_rx : rx_state c N ks;
  ds_active : active c = true;
  ds_types : ∀ k, m_msg_type (msgs k) ∈ registered_types c;
  ds_arrived : ∀ k, k ∈ arr ↔ (k < N)%nat ∨ k ∈ ks;
  ds_missing : N ∉ arr;
}.

Lemma ds_first_missing c arr N ks : delivery_state c arr N ks → first_missing arr = N.
Proof. intros [_ _ _ Ha Hm]. apply first_missing_eq; [done|]. intros i Hi. apply Ha. by left. Qed.

Context (types_ok : ∀ k, u16 (m_msg_type (msgs k))).

Lemma receive_unfold c k :
  active c = true → m_msg_type (msgs k) ∈ registered_types c →
  receive c (msg_frame k) =
    if negb (is_acceptable_sequence c (sequence (msg_env k))) then Ok (c, ([], [])) else
    let c := emplace_envelope c (msg_env k) in deliver_loop (length (rx_ring c)) c ([], []).
Proof.
  intros Ha Ht. unfold receive. rewrite Ha. cbn [negb].
  unfold msg_frame. unfold msg_env at 1. rewrite unpack_pack by (done || apply seq_u16). cbn [map_err res_bind].
  unfold is_type_registered. cbn [msg_type envelope_pack]. by rewrite bool_decide_true.
Qed.

Lemma receive_step c arr N ks k :
  delivery_state c arr N ks → (k ≤ N + 48)%nat → Z.of_nat N ≤ Z.of_nat k + 65487 →
  ∃ c' m ks', receive c (msg_frame k) = Ok (c', (msg_out <$> seq N m, msg_calls c <$> seq N m)) ∧
    delivery_state c' (arr ++ [k]) (N + m) ks' ∧ message_handlers c' = message_handlers c.
Proof.
  intros [Hrx Hac Hty Harr Hmiss] Hk1 Hk2. rewrite receive_unfold by done.
  pose proof (acceptable_dist c (sequence (msg_env k))) as Hacc. rewrite (rx_next _ _ _ Hrx) in Hacc.
  specialize (Hacc (seq_u16 N) (seq_u16 k)). cbn [sequence msg_env envelope_pack] in Hacc |- *.
  destruct (decide (k < N)%nat) as [Hold|Hnew].
  - pose proof (dist_old N k ltac:(lia)) as Hd.
    destruct (is_acceptable_sequence c _); [lia|]. cbn [negb].
    exists c, 0%nat, ks. rewrite Nat.add_0_r. split_and!; [done| |done]. split; try done.
    + intros x. rewrite elem_of_app, Harr, list_elem_of_singleton. naive_solver.
    + rewrite elem_of_app, list_elem_of_singleton. intros [?| ->]; [done|lia].
  - pose proof (dist_abs N k ltac:(lia)) as Hd.
    destruct (is_acceptable_sequence c _); [|unfold WINDOW_MAX, WINDOW_MAX_FAST in *; lia]. cbn [negb]. cbv zeta.
    destruct (emplace_state c N ks k Hrx) as [He Heq]; [lia|].
    destruct (deliver_loop_run (ins k ks) (length (rx_ring (emplace_envelope c (msg_env k))))
      _ N ([], []) He) as (m & ks' & Hks & Hst & Hnot & ->); [by rewrite (rx_buffer _ _ _ He), length_fmap|].
    rewrite Heq in *. cbn [fst snd app].
    exists (with_rx c (Z.of_nat (N + m) mod SEQ_MODULUS) (msg_env <$> ks')), m, ks'. split_and!; [done| |done].
    assert (Hiff : ∀ x, x ∈ arr ++ [k] ↔ (x < N + m)%nat ∨ x ∈ ks').
    { intros x. rewrite elem_of_app, Harr, list_elem_of_singleton.
      pose proof (elem_of_ins k ks x) as Hi. rewrite Hks, elem_of_app, elem_of_seq in Hi.
      destruct (decide (x < N)%nat); [naive_solver lia|].
      assert (N ≤ x)%nat by lia. intuition lia. }
    split; try done. rewrite Hiff. intros [?|?]; [lia|done].
Qed.
(** Receiving a sequence of frames, collecting what is delivered. *)
Fixpoint receive_all (c : Channel) (frames : list bytes) : res ChannelError (Channel * deliveries) :=
  match frames with
  | [] => Ok (c, ([], []))
  | f :: fs =>
      let* '(c', d) := receive c f in
      let* '(c'', ds) := receive_all c' fs in
      Ok (c'', (d.1 ++ ds.1, d.2 ++ ds.2))
  end.

(** Every arrival is at most a window ahead of the next expected message and
    at most [2^16 - 49] behind it. *)
Fixpoint in_window (seen arr : list nat) : Prop :=
  match arr with
  | [] => True
  | k :: arr' =>
      (k ≤ first_missing seen + 48)%nat ∧ Z.of_nat (first_missing seen) ≤ Z.of_nat k + 65487 ∧
      in_window (seen ++ [k]) arr'
  end.

Lemma msg_calls_ext c c' k : message_handlers c' = message_handlers c → msg_calls c' k = msg_calls c k.
Proof. unfold msg_calls, run_callbacks. by intros ->. Qed.

Lemma receive_all_run arr : ∀ c seen N ks,
  delivery_state c seen N ks → in_window seen arr →
  ∃ c' m ks', receive_all c (msg_frame <$> arr) =
      Ok (c', (msg_out <$> seq N m, msg_calls c <$> seq N m)) ∧
    delivery_state c' (seen ++ arr) (N + m) ks'.
Proof.
  induction arr as [|k arr IH]; intros c seen N ks Hst Hw.
  - exists c, 0%nat, ks. by rewrite Nat.add_0_r, app_nil_r.
  - destruct Hw as (H1 & H2 & Hw). rewrite (ds_first_missing _ _ _ _ Hst) in H1, H2.
    destruct (receive_step c seen N ks k Hst H1 H2) as (c1 & m & ks1 & Hr & Hst1 & Hh).
    destruct (IH c1 (seen ++ [k]) (N + m)%nat ks1 Hst1 Hw) as (c2 & m2 & ks2 & Hr2 & Hst2).
    exists c2, (m + m2)%nat, ks2. cbn [fmap list_fmap receive_all]. rewrite Hr. cbn [res_bind].
    change (list_fmap _ _ msg_frame arr) with (msg_frame <$> arr). rewrite Hr2. cbn [res_bind fst snd].
    rewrite seq_app, !fmap_app, Nat.add_assoc. split; [|by rewrite <- app_assoc in Hst2].
    do 4 f_equal. apply list_fmap_ext. intros. by apply msg_calls_ext.
Qed.

(** C1.  Reliable in-order delivery: however the network reorders, duplicates
    or repeats the frames of a sender, as long as each arrival lies in the
    receive window, a fresh receiver hands out the messages exactly once, in
    the order they were sent, and as far as they have arrived without a gap:
    the output is messages [0 .. n-1] where [n] is the first message that has
    not arrived.  Each is offered to the registered handlers in order up to
    the first that consumes it.  Sequence numbers wrap at 2^16. *)
Theorem channel_in_order_exactly_once c arr :
  next_rx_sequence c = 0 → rx_ring c = [] → active c = true →
  (∀ k, m_msg_type (msgs k) ∈ registered_types c) →
  in_window [] arr →
  ∃ c', receive_all c (msg_frame <$> arr) =
    Ok (c', (msg_out <$> seq 0 (first_missing arr), msg_calls c <$> seq 0 (first_missing arr))) ∧
    next_rx_sequence c' = Z.of_nat (first_missing arr) mod SEQ_MODULUS ∧
    (∀ e, e ∈ rx_ring c' → ∃ k, k ∈ arr ∧ e = msg_env k ∧ (first_missing arr < k)%nat).
Proof.
  intros Hn Hr Ha Ht Hw.
  destruct (receive_all_run arr c [] 0 []) as (c' & m & ks & Hrun & Hst); [|done|].
  { split; [split; done || constructor|done|done| |set_solver]. intros k. split; [set_solver|].
    intros [?|?]; [lia|set_solver]. }
  pose proof (ds_first_missing _ _ _ _ Hst) as Hm. simpl in *. rewrite Hm.
  destruct Hst as [[Hnx Hb Hs Hrg] _ _ Harr Hmiss].
  exists c'. split_and!; [done|done|]. rewrite Hb. intros e He. apply list_elem_of_fmap in He as (k & -> & Hk).
  exists k. split_and!; [apply Harr; by right|done|].
  eapply Forall_forall in Hrg; [|exact Hk]. simpl in Hrg.
  assert (k ≠ m) by (intros ->; apply Hmiss, Harr; by right). lia.
Qed.
End delivery.

Definition demo_msgs (k : nat) : MessageBase := {| m_msg_type := 5; m_pack := [Z.of_nat k mod 256] |}.
Definition demo_channel : Channel := with_types (channel_new f_zero) [5].

Lemma channel_in_order_exactly_once_witness :
  ∃ c', receive_all demo_channel (msg_frame demo_msgs <$> [2; 0; 2; 1; 5; 0]%nat) =
    Ok (c', ([(5, [0]); (5, [1]); (5, [2])], [[]; []; []])).
Proof.
  destruct (channel_in_order_exactly_once demo_msgs) with (c := demo_channel) (arr := [2; 0; 2; 1; 5; 0]%nat)
    as (c' & H & _ & _).
  - intros k. unfold u16. simpl. lia.
  - reflexivity.
  - reflexivity.
  - reflexivity.
  - intros k. simpl. apply list_elem_of_singleton. reflexivity.
  - simpl. repeat split; vm_compute; lia || (intros; discriminate).
  - exists c'. exact H.
Defined.

(** ** The channel state machine *)

Inductive ChannelOp :=
| OpRegister (t : Z) | OpRegisterSystem (t : Z)
| OpAddHandler (h : MessageCallback) | OpRemoveHandler (id : Z) | OpClearHandlers
| OpSend (msg : MessageBase) (max : option Z) (now : Z)
| OpDelivered (seq : Z) (rtt : f64)
| OpTimeout (seq now : Z)
| OpReceive (r : bytes)
| OpUpdateRtt (rtt : f64)
| OpShutdown.

(** The channel after an operation; one that fails leaves it as the code does. *)
Definition channel_step (c : Channel) (op : ChannelOp) : Channel :=
  match op with
  | OpRegister t => match register_message_type c t with Ok c' => c' | _ => c end
  | OpRegisterSystem t => register_system_type c t
  | OpAddHandler h => (add_message_handler c h).1
  | OpRemoveHandler id => (remove_message_handler c id).1
  | OpClearHandlers => clear_message_handlers c
  | OpSend msg max now => (send_tracked_with_max_envelope c msg max now).1
  | OpDelivered seq rtt => delivered c seq rtt
  | OpTimeout seq now => (timeout c seq now).1
  | OpReceive r => match receive c r with Ok (c', _) => c' | _ => c end
  | OpUpdateRtt rtt => update_rtt c rtt
  | OpShutdown => shutdown c
  end.

Definition op_ok (op : ChannelOp) : Prop :=
  match op with OpReceive r => bytes_ok r | _ => True end.

(** Distances of the buffered envelopes from the next expected one. *)
Definition rx_dists (n : Z) (ring : list Envelope) : list Z := (λ e, dist n (sequence e)) <$> ring.

Definition rx_ok (lo : Z) (n : Z) (ring : list Envelope) : Prop :=
  u16 n ∧ Forall (λ e, u16 (sequence e)) ring ∧
  StronglySorted Z.lt (rx_dists n ring) ∧ Forall (λ d, lo ≤ d ≤ WINDOW_MAX) (rx_dists n ring).

Definition tx_ok (c : Channel) : Prop :=
  u16 (next_tx_sequence c) ∧
  Forall (λ e, u16 (sequence e) ∧ 1 ≤ tries e ∧ (tries e ≤ MAX_TRIES ∨ active c = false)) (tx_ring c) ∧
  outstanding_count c ≤ WINDOW_MAX.

Record channel_ok (c : Channel) : Prop := {
  ok_window : window_ok (win c);
  ok_rx : rx_ok 1 (next_rx_sequence c) (rx_ring c);
  ok_tx : tx_ok c;
}.

(** Sorted insertion at the first larger key keeps the keys sorted. *)
Lemma insert_sorted_pos {A} (f : A → Z) x l :
  StronglySorted Z.lt (f <$> l) → Forall (λ e, f e ≠ f x) l →
  StronglySorted Z.lt (f <$> match position (λ e, f x <? f e) l with
                             | Some i => take i l ++ x :: drop i l
                             | None => l ++ [x]
                             end).
Proof.
  intros Hs Hn. induction l as [|y l IH]; [repeat constructor|].
  cbn [position]. inversion Hs as [|? ? Hs' Hy]; subst. inversion Hn as [|? ? Hyx Hn']; subst.
  destruct (Z.ltb_spec (f x) (f y)).
  - simpl. constructor; [done|]. constructor; [done|]. eapply Forall_impl; [exact Hy|]. simpl. lia.
  - specialize (IH Hs' Hn').
    assert (Hall : ∀ l', f <$> l' ≡ₚ f x :: (f <$> l) → Forall (Z.lt (f y)) (f <$> l')).
    { intros l' Hp. rewrite Hp. constructor; [lia|done]. }
    destruct (position _ l) as [i|]; simpl; constructor; try done; apply Hall.
    + rewrite fmap_app, fmap_cons, <- Permutation_middle, <- fmap_app. by rewrite take_drop.
    + rewrite fmap_app. simpl. by rewrite <- Permutation_cons_append.
Qed.

Lemma dist_range n s : 0 ≤ dist n s < SEQ_MODULUS.
Proof. apply Z.mod_pos_bound. unfold SEQ_MODULUS. lia. Qed.

Lemma dist_self n : dist n n = 0.
Proof. unfold dist. by rewrite Z.sub_diag. Qed.

Lemma dist_inj n s s' : u16 s → u16 s' → dist n s = dist n s' → s = s'.
Proof.
  unfold dist, u16, SEQ_MODULUS. intros Hs Hs' H.
  pose proof (Z.div_mod (s - n) 65536). pose proof (Z.div_mod (s' - n) 65536).
  nia.
Qed.

Lemma position_ext {A} (p q : A → bool) l : Forall (λ x, p x = q x) l → position p l = position q l.
Proof. induction 1 as [|x l Hx Hl IH]; simpl; [done|]. by rewrite Hx, IH. Qed.

Lemma insert_perm {A} (x : A) (l : list A) (o : option nat) :
  match o with Some i => take i l ++ x :: drop i l | None => l ++ [x] end ≡ₚ x :: l.
Proof.
  destruct o as [i|].
  - by rewrite <- Permutation_middle, take_drop.
  - by rewrite <- Permutation_cons_append.
Qed.

Lemma emplace_ok c e :
  rx_ok 1 (next_rx_sequence c) (rx_ring c) → u16 (sequence e) →
  is_acceptable_sequence c (sequence e) = true →
  ∃ ring, emplace_envelope c e = with_rx c (next_rx_sequence c) ring ∧
          rx_ok 0 (next_rx_sequence c) ring.
Proof.
  intros (Hn & Hu & Hs & Hr) He Ha. apply acceptable_dist in Ha; [|done..].
  assert (Hr0 : Forall (λ d, 0 ≤ d ≤ WINDOW_MAX) (rx_dists (next_rx_sequence c) (rx_ring c))).
  { eapply Forall_impl; [exact Hr|]. simpl. lia. }
  unfold emplace_envelope. destruct (existsb _ _) eqn:Hex.
  { exists (rx_ring c). split; [by destruct c|by split_and!]. }
  assert (Hne : Forall (λ x, dist (next_rx_sequence c) (sequence x) ≠ dist (next_rx_sequence c) (sequence e)) (rx_ring c)).
  { apply Forall_forall. intros x Hx Hd. apply dist_inj in Hd; [|by eapply Forall_forall in Hu|done].
    enough (existsb (λ e0, sequence e0 =? sequence e) (rx_ring c) = true) by congruence.
    apply existsb_exists. exists x. split; [by apply list_elem_of_In|lia]. }
  cbv zeta. erewrite (position_ext _ (λ x, dist (next_rx_sequence c) (sequence e) <? dist (next_rx_sequence c) (sequence x))).
  2:{ eapply Forall_impl; [exact Hu|]. intros x Hx. simpl. by rewrite !seq_diff_dist. }
  pose proof (insert_sorted_pos (λ x, dist (next_rx_sequence c) (sequence x)) e (rx_ring c) Hs Hne) as Hs'.
  cbv beta in Hs'.
  pose proof (insert_perm e (rx_ring c) (position (λ x, dist (next_rx_sequence c) (sequence e) <? dist (next_rx_sequence c) (sequence x)) (rx_ring c))) as Hp.
  destruct (position _ _) as [i|]; (eexists; split; [reflexivity|]; split_and!; [done| |exact Hs'|]).
  all: try (rewrite Hp; by constructor).
  all: unfold rx_dists; rewrite Hp; constructor; [|done].
  all: pose proof (dist_range (next_rx_sequence c) (sequence e)); lia.
Qed.

(** Advancing past a delivered head shortens every distance by one. *)
Lemma rx_ok_advance n e ring :
  rx_ok 0 n (e :: ring) → sequence e = n → rx_ok 0 ((n + 1) mod SEQ_MODULUS) ring.
Proof.
  intros (Hn & Hu & Hs & Hr) He. inversion Hu as [|? ? _ Hu']; subst.
  inversion Hs as [|? ? Hs' Hh]; subst. inversion Hr as [|? ? _ Hr']; subst.
  assert (Heq : rx_dists ((sequence e + 1) mod SEQ_MODULUS) ring = (λ d, d - 1) <$> rx_dists (sequence e) ring).
  { unfold rx_dists. rewrite <- list_fmap_compose. apply list_fmap_ext. intros i x Hx. simpl.
    assert (Hlt : dist (sequence e) (sequence e) < dist (sequence e) (sequence x)).
    { rewrite Forall_forall in Hh. apply Hh. apply (list_elem_of_fmap_2 (λ e0, dist (sequence e) (sequence e0))).
      by eapply list_elem_of_lookup_2. }
    pose proof (dist_range (sequence e) (sequence x)) as Hrg.
    unfold dist, SEQ_MODULUS in *. rewrite Z.sub_diag, Z.mod_0_l in Hlt by lia.
    rewrite Zminus_mod_idemp_r. replace (sequence x - (sequence e + 1)) with ((sequence x - sequence e) - 1) by lia.
    rewrite <- Zminus_mod_idemp_l. apply Z.mod_small. lia. }
  split_and!; [unfold u16, SEQ_MODULUS; apply Z.mod_pos_bound; lia|done|..]; rewrite Heq.
  - clear -Hs'. induction Hs' as [|d l Hs IH Hd]; simpl; constructor; [done|].
    apply Forall_fmap. eapply Forall_impl; [exact Hd|]. simpl. lia.
  - apply Forall_fmap. rewrite Forall_forall in Hh, Hr'. apply Forall_forall. intros d Hd.
    specialize (Hh d Hd). specialize (Hr' d Hd). unfold dist in Hh. rewrite Z.sub_diag in Hh.
    simpl in *. unfold SEQ_MODULUS in Hh. rewrite Z.mod_0_l in Hh by lia. lia.
Qed.

Lemma rx_ok_nofind n ring :
  rx_ok 0 n ring → find_seq n ring = None → rx_ok 1 n ring.
Proof.
  intros (Hn & Hu & Hs & Hr) Hf. split_and!; try done.
  apply position_None in Hf. unfold rx_dists in *. apply Forall_fmap. rewrite Forall_fmap in Hr.
  rewrite Forall_forall in *. intros e He. specialize (Hf e He). specialize (Hr e He). specialize (Hu e He).
  simpl in *. enough (dist n (sequence e) ≠ 0) by lia. intros H0.
  assert (sequence e = n); [|lia]. apply (dist_inj n); try done. rewrite H0. unfold dist.
  by rewrite Z.sub_diag.
Qed.

(** A hit is at the head: its distance is zero, all others are larger. *)
Lemma rx_find_head n ring i :
  rx_ok 0 n ring → find_seq n ring = Some i → ∃ e rest, ring = e :: rest ∧ sequence e = n ∧ i = 0%nat.
Proof.
  intros (Hn & Hu & Hs & Hr) Hf. apply position_Some in Hf as (x & Hx & Hxn & Hall).
  apply Z.eqb_eq in Hxn. destruct i as [|i]; destruct ring as [|e rest]; try done.
  { simpl in Hx. injection Hx as ->. by exists x, rest. }
  exfalso. inversion Hs as [|? ? _ Hh]; subst. simpl in Hx.
  assert (H0 : 0 ∈ rx_dists (sequence x) rest).
  { apply list_elem_of_fmap. exists x. rewrite dist_self. split; [done|]. by eapply list_elem_of_lookup_2. }
  rewrite Forall_forall in Hh. specialize (Hh 0 H0).
  pose proof (dist_range (sequence x) (sequence e)). lia.
Qed.

Lemma payload_total {E} e : ∃ p, @payload E e = Ok p.
Proof.
  unfold payload. case_decide; [|by eexists]. rewrite slice_from_ok by lia. by eexists.
Qed.

Lemma deliver_loop_ok ring : ∀ fuel c out,
  rx_ring c = ring → (length ring ≤ fuel)%nat → rx_ok 0 (next_rx_sequence c) ring →
  ∃ n' ring' out', deliver_loop fuel c out = Ok (with_rx c n' ring', out') ∧ rx_ok 1 n' ring' ∧
    (length ring' ≤ length ring)%nat.
Proof.
  induction ring as [|e ring IH]; intros fuel c out Hc Hf Hok.
  - exists (next_rx_sequence c), [], out. split_and!; [|by apply rx_ok_nofind|done].
    destruct fuel; cbn [deliver_loop]; rewrite Hc; simpl; by destruct c; simpl in *; subst.
  - destruct fuel as [|fuel]; [simpl in Hf; lia|]. cbn [deliver_loop]. rewrite Hc.
    destruct (find_seq _ _) as [i|] eqn:Hfind.
    + destruct (rx_find_head _ _ _ Hok Hfind) as (e' & rest & [= <- <-] & Hs & ->).
      cbn [lookup list_lookup expect res_bind]. destruct (payload_total (E:=ChannelError) e) as [p ->].
      cbn [res_bind]. destruct (run_callbacks c _ _) as [calls b]. cbn [take drop app].
      edestruct (IH fuel) as (n' & ring' & out' & -> & Hok' & Hl); [reflexivity|simpl in Hf; simpl; lia| |].
      { by eapply rx_ok_advance. }
      exists n', ring', out'. split_and!; [done|done|]. simpl. lia.
    + exists (next_rx_sequence c), (e :: ring), out. split_and!; [|by apply rx_ok_nofind|done].
      by destruct c; simpl in *; subst.
Qed.

Lemma unpack_total r :
  bytes_ok r → (∃ e, envelope_unpack r = Ok e ∧ u16 (sequence e)) ∨ envelope_unpack r = Err TooShort.
Proof.
  intros Hr. unfold envelope_unpack. case_decide as Hl; [by right|left]. unfold ENVELOPE_HEADER_SIZE in Hl.
  destruct r as [|b0 [|b1 [|b2 [|b3 r]]]]; simpl in Hl; try lia.
  do 4 (erewrite idx_ok by done; cbn [res_bind]). eexists. split; [done|]. cbn [sequence].
  apply be_value_u16; eapply (bytes_ok_lookup _ _ _ Hr); [by instantiate (1 := 2%nat)|by instantiate (1 := 3%nat)].
Qed.

Lemma receive_ok c r :
  rx_ok 1 (next_rx_sequence c) (rx_ring c) → bytes_ok r →
  match receive c r with
  | Ok (c', _) => ∃ n' ring', c' = with_rx c n' ring' ∧ rx_ok 1 n' ring'
  | Err _ => True
  | Panic => False
  end.
Proof.
  intros Hok Hr. unfold receive. destruct (active c); [|done]. cbn [negb].
  destruct (unpack_total r Hr) as [(e & -> & He)| ->]; [|done]. cbn [map_err res_bind].
  destruct (is_type_registered _ _); [|done]. cbn [negb].
  destruct (is_acceptable_sequence c (sequence e)) eqn:Ha; cbn [negb].
  2:{ exists (next_rx_sequence c), (rx_ring c). split; [by destruct c|done]. }
  destruct (emplace_ok c e Hok He Ha) as (ring & -> & Hok0). cbv zeta.
  edestruct (deliver_loop_ok ring) as (n' & ring' & out' & -> & Hok' & _); [reflexivity|done|done|].
  by exists n', ring'.
Qed.

(** *** The sender's side *)

Lemma outstanding_app l k : len (List.filter undelivered (l ++ k)) =
  len (List.filter undelivered l) + len (List.filter undelivered k).
Proof. by rewrite List.filter_app, len_app. Qed.

Lemma drain_suffix l : ∃ d, l = d ++ drain_delivered l.
Proof.
  induction l as [|e l [d Hd]]; simpl; [by exists []|].
  case_bool_decide; [exists (e :: d); simpl; by f_equal|by exists []].
Qed.

Lemma outstanding_alter l i f :
  (∀ e, state (f e) = state e ∨ state (f e) = Delivered) →
  len (List.filter undelivered (alter f i l)) ≤ len (List.filter undelivered l).
Proof.
  intros Hf. revert i. induction l as [|e l IH]; intros [|i]; simpl; try done.
  - assert (Hu : undelivered (f e) = undelivered e ∨ undelivered (f e) = false).
    { unfold undelivered. destruct (Hf e) as [-> | ->]; [by left|by right]. }
    destruct Hu as [-> | ->]; destruct (undelivered e); unfold len; simpl; lia.
  - specialize (IH i). change (list_alter f i l) with (alter f i l).
    destruct (undelivered e); unfold len in *; simpl; lia.
Qed.

Lemma timeout_alter c i e e' :
  tx_ring c !! i = Some e → state e' = state e →
  len (List.filter undelivered (<[i := e']> (tx_ring c))) ≤ outstanding_count c.
Proof.
  intros Hi He. unfold outstanding_count. revert i Hi. generalize (tx_ring c).
  intros l. induction l as [|x l IH]; intros [|i] Hi; simplify_eq/=.
  - assert (undelivered e' = undelivered e) as -> by (unfold undelivered; by rewrite He).
    destruct (undelivered e); unfold len; simpl; lia.
  - specialize (IH i Hi). change (list_insert i e' l) with (<[i := e']> l).
    destruct (undelivered x); unfold len in *; simpl; lia.
Qed.

Lemma sat_add_small a : 0 ≤ a → a ≤ MAX_TRIES → sat_add64 a 1 = a + 1.
Proof. unfold sat_add64, U64_MAX, MAX_TRIES. lia. Qed.

Lemma tx_ok_send c msg max now :
  tx_ok c → tx_ok (send_tracked_with_max_envelope c msg max now).1.
Proof.
  intros Htx. pose proof Htx as (Hn & Ht & Ho). unfold send_tracked_with_max_envelope.
  destruct (active c) eqn:Ha; [|done]. cbn [negb].
  destruct (is_ready_to_send c) eqn:Hready; [|done]. cbn [negb].
  destruct (match max with Some _ => _ | None => _ end); [done|]. cbn [fst].
  unfold is_ready_to_send in Hready. rewrite Ha in Hready. cbn [negb] in Hready. apply Z.ltb_lt in Hready.
  split_and!; simpl.
  - unfold u16, SEQ_MODULUS. apply Z.mod_pos_bound. lia.
  - apply Forall_app. split; [eapply Forall_impl; [exact Ht|]; naive_solver|]. constructor; [|done].
    split; [exact Hn|]. split; [simpl; lia|]. left. unfold MAX_TRIES. simpl. lia.
  - unfold outstanding_count. simpl. rewrite outstanding_app. unfold len at 2. simpl. lia.
Qed.

Lemma tx_ok_delivered c seq rtt : tx_ok c → tx_ok (delivered c seq rtt).
Proof.
  intros Htx. pose proof Htx as (Hn & Ht & Ho). unfold delivered. cbv zeta.
  set (ring := match find_seq seq (tx_ring c) with Some i => _ | None => _ end).
  assert (Hring : Forall (λ e, u16 (sequence e) ∧ 1 ≤ tries e ∧ (tries e ≤ MAX_TRIES ∨ active c = false)) ring ∧
                  len (List.filter undelivered ring) ≤ WINDOW_MAX).
  { unfold ring. destruct (find_seq _ _) as [i|]; [|done]. split.
    - apply Forall_alter; [done|]. by intros x Hx ?.
    - etrans; [apply outstanding_alter; by right|exact Ho]. }
  destruct (drain_suffix ring) as [d Hd]. destruct Hring as [Hall Hlen]. rewrite Hd in Hall, Hlen.
  apply Forall_app in Hall as [_ Hall]. rewrite outstanding_app in Hlen.
  pose proof (len_nonneg (List.filter undelivered d)). split_and!; simpl; [done|done|].
  unfold outstanding_count. simpl. lia.
Qed.

Lemma tx_ok_timeout c seq now : tx_ok c → tx_ok (timeout c seq now).1.
Proof.
  intros Htx. pose proof Htx as (Hn & Ht & Ho). unfold timeout.
  destruct (find_seq _ _) as [i|]; [|done]. destruct (tx_ring c !! i) as [e|] eqn:Hi; [|done].
  pose proof (proj1 (Forall_lookup _ _) Ht i e Hi) as (Hu & Htr & _).
  assert (1 ≤ sat_add64 (tries e) 1) by (unfold sat_add64, U64_MAX; lia).
  cbn [set_tries tries]. destruct (Z.ltb_spec MAX_TRIES (sat_add64 (tries e) 1)); simpl.
  - split_and!; simpl; [done| |].
    + apply Forall_insert; simpl; [|by auto].
      eapply Forall_impl; [exact Ht|]. simpl. naive_solver.
    + unfold outstanding_count. simpl. etrans; [by eapply timeout_alter|done].
  - split_and!; simpl; [done| |].
    + apply Forall_insert; simpl; [done|]. naive_solver.
    + unfold outstanding_count. simpl. etrans; [by eapply timeout_alter|done].
Qed.

Lemma channel_new_ok rtt : channel_ok (channel_new rtt).
Proof.
  split; simpl; [apply window_new_ok| |].
  - split_and!; try constructor; unfold u16; lia.
  - split_and!; simpl; [unfold u16; lia|constructor|unfold outstanding_count, WINDOW_MAX, WINDOW_MAX_FAST, len; simpl; lia].
Qed.

Lemma channel_step_ok c op : channel_ok c → op_ok op → channel_ok (channel_step c op).
Proof.
  intros Hc Hop. pose proof Hc as [Hw Hr Ht]. destruct op; cbn [channel_step].
  - unfold register_message_type. repeat case_match; simplify_eq; done.
  - unfold register_system_type. by case_decide.
  - done.
  - unfold remove_message_handler. by case_match.
  - done.
  - split; [..|by apply tx_ok_send]; unfold send_tracked_with_max_envelope; repeat case_match; done.
  - split; [simpl; by apply grow_ok|done|by apply tx_ok_delivered].
  - split; [..|by apply tx_ok_timeout]; unfold timeout; repeat case_match; simpl; try done.
    by apply shrink_ok.
  - pose proof (receive_ok c r Hr Hop) as H. destruct (receive c r) as [[c' out]|e|]; [|done|done].
    destruct H as (n' & ring' & -> & Hok). by split.
  - unfold update_rtt. by case_match.
  - split; simpl; [done| |].
    + destruct Hr as (Hn & _). split_and!; done || constructor.
    + destruct Ht as (Hn & _). split_and!; [done|constructor|unfold outstanding_count; simpl; unfold WINDOW_MAX, WINDOW_MAX_FAST, len; simpl; lia].
Qed.

Lemma rx_bounded n ring : rx_ok 1 n ring → (length ring ≤ 48)%nat ∧ NoDup (sequence <$> ring).
Proof.
  intros (Hn & Hu & Hs & Hr). 
  assert (Hnd : NoDup (rx_dists n ring)).
  { clear -Hs. induction Hs as [|d l Hs IH Hd]; constructor; [|done].
    intros Hin. eapply Forall_forall in Hd; [|exact Hin]. lia. }
  split.
  - rewrite <- (length_fmap (λ e, dist n (sequence e)) ring). fold (rx_dists n ring).
    replace 48%nat with (length (seqZ 1 48)) by (by rewrite length_seqZ).
    apply submseteq_length, NoDup_submseteq; [done|]. intros d Hd. apply elem_of_seqZ.
    eapply Forall_forall in Hr; [|exact Hd]. unfold WINDOW_MAX, WINDOW_MAX_FAST in Hr. lia.
  - unfold rx_dists in Hnd. rewrite (list_fmap_compose sequence (dist n)) in Hnd.
    by apply NoDup_fmap_1 in Hnd.
Qed.

(** C24.  Whatever operations a program and its peer drive a channel through,
    starting from a new one: the window lies between one and its ceiling of at
    most 48, at most 48 envelopes are unacknowledged, the reorder buffer holds
    at most 48 envelopes with distinct sequence numbers in order of distance
    from the next expected one, all of them within the receive window, every
    queued envelope of an active channel has been tried between one and five
    times, and receiving never panics on any bytes. *)
Theorem channel_invariant rtt ops r :
  Forall op_ok ops → bytes_ok r →
  let c := foldl channel_step (channel_new rtt) ops in
  window_ok (win c) ∧ outstanding_count c ≤ WINDOW_MAX ∧
  (length (rx_ring c) ≤ 48)%nat ∧ NoDup (sequence <$> rx_ring c) ∧
  rx_ok 1 (next_rx_sequence c) (rx_ring c) ∧ u16 (next_tx_sequence c) ∧
  (active c = true → Forall (λ e, 1 ≤ tries e ≤ MAX_TRIES) (tx_ring c)) ∧
  receive c r ≠ Panic.
Proof.
  intros Hops Hr c.
  assert (Hc : channel_ok c).
  { unfold c. clear c. pose proof (channel_new_ok rtt) as H0. revert H0. generalize (channel_new rtt).
    induction Hops as [|op ops Hop Hops IH]; intros c Hc; [done|]. simpl. by apply IH, channel_step_ok. }
  destruct Hc as [Hw Hrx (Hn & Ht & Ho)]. destruct (rx_bounded _ _ Hrx) as [H48 Hnd].
  split_and!; try done.
  - intros Ha. eapply Forall_impl; [exact Ht|]. intros e (_ & ? & [?|?]); [lia|congruence].
  - pose proof (receive_ok c r Hrx Hr) as H. by intros Hp; rewrite Hp in H.
Qed.

Lemma channel_invariant_witness :
  let c := foldl channel_step (channel_new f_zero)
             [OpRegister 5; OpSend {| m_msg_type := 5; m_pack := [1] |} None 0; OpReceive [0; 5; 0; 3; 0; 0];
              OpTimeout 0 7] in
  (length (rx_ring c) ≤ 48)%nat ∧ length (rx_ring c) = 1%nat.
Proof.
  split; [|vm_compute; reflexivity].
  apply (channel_invariant f_zero
    [OpRegister 5; OpSend {| m_msg_type := 5; m_pack := [1] |} None 0; OpReceive [0; 5; 0; 3; 0; 0]; OpTimeout 0 7] []).
  - repeat constructor; vm_compute; intros; discriminate.
  - constructor.
Defined.

(** *** Sending and timing out, case by case *)

Lemma send_cases c msg max now :
  let '(c', r) := send_tracked_with_max_envelope c msg max now in
  match r with
  | Ok (s, data) =>
      active c = true ∧ outstanding_count c < Z.min (window (win c)) WINDOW_MAX ∧
      (∀ m, max = Some m → len data ≤ m) ∧ s = next_tx_sequence c ∧
      data = raw (envelope_pack msg s) ∧
      next_tx_sequence c' = (s + 1) mod SEQ_MODULUS ∧
      (∃ e, tx_ring c' = tx_ring c ++ [e] ∧ raw e = data ∧ sequence e = s ∧ tries e = 1 ∧
            state e = Sent ∧ last_sent e = Some now) ∧ outstanding_count c' = outstanding_count c + 1
  | Err ChannelClosed => c' = c ∧ active c = false
  | Err NotReady => c' = c ∧ Z.min (window (win c)) WINDOW_MAX ≤ outstanding_count c
  | Err (MessageTooLarge actual m) => c' = c ∧ max = Some m ∧ m < actual
  | _ => False
  end.
Proof.
  unfold send_tracked_with_max_envelope. destruct (active c) eqn:Ha; [|done]. cbn [negb].
  destruct (is_ready_to_send c) eqn:Hr; unfold is_ready_to_send in Hr; rewrite Ha in Hr; cbn [negb] in *.
  2:{ apply Z.ltb_ge in Hr. done. }
  apply Z.ltb_lt in Hr. destruct max as [m|].
  - destruct (Z.ltb_spec m (len (raw (envelope_pack msg (next_tx_sequence c))))); [done|].
    split_and!; try done; [by intros ? [= <-]|by eexists|]. unfold outstanding_count. simpl.
    by rewrite outstanding_app.
  - split_and!; try done; [by eexists|]. unfold outstanding_count. simpl. by rewrite outstanding_app.
Qed.

Lemma timeout_cases c seq now :
  let '(c', r) := timeout c seq now in
  match r with
  | Ok None => c' = c ∧ Forall (λ e, sequence e ≠ seq) (tx_ring c)
  | Ok (Some data) => ∃ i e, tx_ring c !! i = Some e ∧ sequence e = seq ∧ data = raw e ∧ tries e < MAX_TRIES ∧
      tx_ring c' = <[i := set_last_sent (set_tries e (tries e + 1)) now]> (tx_ring c) ∧
      win c' = shrink (win c) ∧ active c' = active c
  | Err MaxRetriesExceeded =>
      (∃ e, e ∈ tx_ring c ∧ sequence e = seq ∧ MAX_TRIES ≤ tries e) ∧ active c' = false
  | _ => False
  end.
Proof.
  unfold timeout. destruct (find_seq seq (tx_ring c)) as [i|] eqn:Hf.
  2:{ split; [done|]. apply position_None in Hf. eapply Forall_impl; [exact Hf|]. simpl. intros e He. lia. }
  apply position_Some in Hf as (e & Hi & He & _). apply Z.eqb_eq in He. rewrite Hi.
  cbn [set_tries tries]. unfold sat_add64. unfold MAX_TRIES. destruct (Z.ltb_spec 5 (Z.min (tries e + 1) U64_MAX)).
  - split; [|done]. exists e. split_and!; [by eapply list_elem_of_lookup_2|done|lia].
  - exists i, e. unfold U64_MAX in *. assert (Z.min (tries e + 1) 18446744073709551615 = tries e + 1) as -> by lia.
    split_and!; done || lia.
Qed.

Lemma closed_step c op : active c = false → active (channel_step c op) = false.
Proof.
  intros Ha. destruct op; cbn [channel_step]; try done.
  - unfold register_message_type. by repeat case_match; simplify_eq.
  - unfold register_system_type. by case_decide.
  - unfold remove_message_handler. by case_match.
  - unfold send_tracked_with_max_envelope. by rewrite Ha.
  - unfold timeout. by repeat case_match.
  - unfold receive. by rewrite Ha.
  - unfold update_rtt. by case_match.
Qed.

Lemma closed_forever ops : ∀ c, active c = false → active (foldl channel_step c ops) = false.
Proof. induction ops as [|op ops IH]; intros c Hc; [done|]. simpl. by apply IH, closed_step. Qed.

Lemma closed_refuses c msg max now bs :
  active c = false →
  (send_tracked_with_max_envelope c msg max now).2 = Err ChannelClosed ∧ receive c bs = Err ChannelClosed.
Proof. intros Ha. unfold send_tracked_with_max_envelope, receive. by rewrite Ha. Qed.

(** Sending respects the window and the retry budget: a send succeeds
    exactly when the channel is open, fewer than [min window 48] envelopes are
    unacknowledged and the packed frame fits the limit; it then takes the next
    sequence number and queues precisely the returned bytes as a first try,
    and a refused send changes nothing.  A timeout retransmits the same bytes
    while fewer than five tries were made, and otherwise closes the channel,
    after which sending and receiving are refused for good. *)
Theorem channel_send_timeout_exact c msg max now seq :
  (let '(c', r) := send_tracked_with_max_envelope c msg max now in
   match r with
   | Ok (s, data) =>
       active c = true ∧ outstanding_count c < Z.min (window (win c)) WINDOW_MAX ∧
       (∀ m, max = Some m → len data ≤ m) ∧ s = next_tx_sequence c ∧
       data = raw (envelope_pack msg s) ∧
       next_tx_sequence c' = (s + 1) mod SEQ_MODULUS ∧
       (∃ e, tx_ring c' = tx_ring c ++ [e] ∧ raw e = data ∧ sequence e = s ∧ tries e = 1 ∧
             state e = Sent ∧ last_sent e = Some now) ∧ outstanding_count c' = outstanding_count c + 1
   | Err ChannelClosed => c' = c ∧ active c = false
   | Err NotReady => c' = c ∧ Z.min (window (win c)) WINDOW_MAX ≤ outstanding_count c
   | Err (MessageTooLarge actual m) => c' = c ∧ max = Some m ∧ m < actual
   | _ => False
   end) ∧
  (let '(c', r) := timeout c seq now in
   match r with
   | Ok None => c' = c ∧ Forall (λ e, sequence e ≠ seq) (tx_ring c)
   | Ok (Some data) => ∃ i e, tx_ring c !! i = Some e ∧ sequence e = seq ∧ data = raw e ∧ tries e < MAX_TRIES ∧
       tx_ring c' = <[i := set_last_sent (set_tries e (tries e + 1)) now]> (tx_ring c) ∧
       win c' = shrink (win c) ∧ active c' = active c
   | Err MaxRetriesExceeded => (∃ e, e ∈ tx_ring c ∧ sequence e = seq ∧ MAX_TRIES ≤ tries e) ∧
       active c' = false ∧
       ∀ ops msg' max' now' bs, let c'' := foldl channel_step c' ops in
         (send_tracked_with_max_envelope c'' msg' max' now').2 = Err ChannelClosed ∧
         receive c'' bs = Err ChannelClosed
   | _ => False
   end).
Proof.
  split; [apply send_cases|]. pose proof (timeout_cases c seq now) as H.
  destruct (timeout c seq now) as [c' [[data|]|e|]]; try done. destruct e; try done.
  destruct H as (Hex & Hcl). split_and!; try done. intros ops msg' max' now' bs c''.
  apply closed_refuses. by apply closed_forever.
Qed.

(** *** Timers *)

Lemma min_list_le l t : (∃ d, min_list l = Some d ∧ d ≤ t) ↔ ∃ x, x ∈ l ∧ x ≤ t.
Proof.
  assert (Hm : ∀ l x, foldl Z.min x l ≤ t ↔ ∃ y, y ∈ x :: l ∧ y ≤ t).
  { clear. induction l as [|y l IH]; intros x; simpl.
    - set_solver.
    - rewrite IH. setoid_rewrite elem_of_cons. setoid_rewrite elem_of_cons. split.
      + intros (z & [->|Hz] & Hle); [|by eauto]. destruct (Z.min_spec x y) as [[? E]|[? E]]; rewrite E in Hle; eauto.
      + intros (z & [->|[->|Hz]] & Hle); [exists (Z.min x y); split; [by left|lia]..|eauto]. }
  destruct l as [|x l]; simpl; [set_solver|]. rewrite <- (Hm l x). naive_solver.
Qed.

(** Clock readings never precede the transmissions they are compared with. *)
Definition sent_before (c : Channel) (now : Z) : Prop :=
  Forall (λ e, match last_sent e with Some s => s ≤ now | None => True end) (tx_ring c).

(** The retransmission timers agree: at any later instant some envelope
    is reported as timed out exactly when the wait computed by
    [next_timeout_duration] has passed, so a driver that sleeps for that long
    wakes neither early nor late, and one with nothing pending may sleep. *)
Theorem channel_timers_agree c now t :
  sent_before c now → 0 ≤ t →
  timed_out_sequences c (now + t) ≠ [] ↔ ∃ d, next_timeout_duration c now = Some d ∧ d ≤ t.
Proof.
  intros Hs Ht. unfold next_timeout_duration. rewrite min_list_le.
  assert (Hne : timed_out_sequences c (now + t) ≠ [] ↔ ∃ e s, e ∈ tx_ring c ∧ undelivered e = true ∧
    last_sent e = Some s ∧ timeout_duration c (tries e) ≤ elapsed s (now + t)).
  { unfold timed_out_sequences. split.
    - destruct (List.filter _ _) as [|e l] eqn:Hf; [done|]. intros _.
      assert (He : In e (e :: l)) by (by left). rewrite <- Hf in He.
      apply filter_In in He as [He%list_elem_of_In Hb]. apply andb_true_iff in Hb as [Hu Hb].
      destruct (last_sent e) as [s|] eqn:Hl; [|done]. exists e, s. split_and!; [done..|lia].
    - intros (e & s & He & Hu & Hl & Hle) Hnil. apply fmap_nil_inv in Hnil.
      assert (Hin : In e []); [|done]. rewrite <- Hnil. apply filter_In. split; [by apply list_elem_of_In|].
      rewrite Hu, Hl. simpl. lia. }
  rewrite Hne. setoid_rewrite list_elem_of_omap. split.
  - intros (e & s & He & Hu & Hl & Hle). eexists. split.
    + exists e. split; [apply list_elem_of_In, filter_In; split; [by apply list_elem_of_In|done]|]. by rewrite Hl.
    + cbv zeta. unfold elapsed in *. unfold sent_before in Hs. rewrite Forall_forall in Hs.
      specialize (Hs e He). rewrite Hl in Hs. lia.
  - intros (x & (e & He & Hx) & Hle). apply list_elem_of_In, filter_In in He as [He%list_elem_of_In Hu].
    destruct (last_sent e) as [s|] eqn:Hl; [|done]. simplify_eq/=. exists e, s. split_and!; try done.
    unfold elapsed in *. unfold sent_before in Hs. rewrite Forall_forall in Hs. specialize (Hs e He).
    rewrite Hl in Hs. lia.
Qed.

Definition demo_sent : Channel :=
  (send_tracked_with_max_envelope demo_channel (demo_msgs 0) None 0).1.

Lemma channel_timers_agree_witness :
  sent_before demo_sent 0 ∧
  (timed_out_sequences demo_sent (0 + 62500000) ≠ [] ↔
   ∃ d, next_timeout_duration demo_sent 0 = Some d ∧ d ≤ 62500000).
Proof.
  assert (H : sent_before demo_sent 0) by (repeat constructor; vm_compute; discriminate).
  split; [exact H|]. apply (channel_timers_agree demo_sent 0 62500000 H). lia.
Defined.

(** ** The sender may overrun the receive window *)

(** A sender whose message 0 stays unproved while every later one is proved:
    the window counts unproved messages, not their distance. *)
Definition overrun_ops (n : nat) : list ChannelOp :=
  OpSend (demo_msgs 0) None 0 :: flat_map (λ k, [OpSend (demo_msgs k) None 0; OpDelivered (Z.of_nat k) f_zero]) (seq 1 n).
Definition overrun_sender : Channel := foldl channel_step (channel_new f_zero) (overrun_ops 48).

(** The receiver that got messages 1 to 48 and not message 0. *)
Definition overrun_receiver : res ChannelError (Channel * deliveries) :=
  receive_all demo_channel (msg_frame demo_msgs <$> seq 1 48).

(** The sender can overrun the receive window.  With message 0
    outstanding the sender still accepts message 49; the
    receiver drops it without an error, and after message 0 has arrived it
    has delivered 0 to 48 and waits for 49 with nothing buffered.  A proof of
    message 49 (the receiving runtime proves a channel packet before handing
    it to the channel) removes it from the sender for good. *)
Theorem channel_window_overrun :
  (send_tracked overrun_sender (demo_msgs 49) 0).2 = Ok (49, msg_frame demo_msgs 49) ∧
  match overrun_receiver with
  | Ok (c, d) => d.1 = [] ∧ receive c (msg_frame demo_msgs 49) = Ok (c, ([], [])) ∧
      match receive c (msg_frame demo_msgs 0) with
      | Ok (c', d') => d'.1 = msg_out demo_msgs <$> seq 0 49 ∧ next_rx_sequence c' = 49 ∧ rx_ring c' = []
      | _ => False
      end
  | _ => False
  end.
Proof. vm_compute. repeat split. Qed.
