(* ===== verification/Stream.v ===== *)
(** * Byte streams over a channel

    Models [rns-protocol/src/stream_data.rs], [buffer.rs] and
    [compression.rs].  The [bzip2] crate is third-party code: the class [Bzip2]
    is its interface, with one encoder call and a stateful decoder that is
    read in blocks, and [Bzip2Laws] says that decoding inverts encoding. *)

From S2P Require Import Prelude Channel.
From stdpp Require Import prelude list.

Open Scope Z_scope.

(** ** Compression (compression.rs) *)

Class Bzip2 := {
  (** [BzEncoder::new(..)], [write_all], [finish] *)
  bz_encode : bytes → option bytes;
  BzDecoder : Type;
  bz_decoder_new : bytes → BzDecoder;
  (** [read] into a buffer of the given size; [None] is an I/O error. *)
  bz_read : BzDecoder → nat → option (bytes * BzDecoder);
}.

Definition AUTO_COMPRESS_MAX_SIZE : Z := 67108864.

Inductive CompressionError := CompressFailed | DecompressFailed | DecompressedTooLarge.

Definition READ_SIZE : nat := 8192.

Section compression.
Context `{Bzip2}.

(** What successive reads yield until the first empty one. *)
Inductive decodes : BzDecoder → bytes → Prop :=
| decodes_end d d' : bz_read d READ_SIZE = Some ([], d') → decodes d []
| decodes_more d d' chunk rest :
    bz_read d READ_SIZE = Some (chunk, d') → chunk ≠ [] → (length chunk ≤ READ_SIZE)%nat →
    decodes d' rest → decodes d (chunk ++ rest).

Definition bz2_compress (data : bytes) : res CompressionError bytes :=
  ok_or (bz_encode data) CompressFailed.

(** The read loop.  Each turn adds a byte, and the loop stops above
    [max_size], so [max_size + 2] turns are enough. *)
Fixpoint decompress_loop (fuel : nat) (decoder : BzDecoder) (output : bytes) (max_size : nat)
  : res CompressionError bytes :=
  match fuel with
  | O => Ok output
  | S fuel' =>
      let* '(buf, decoder) := ok_or (bz_read decoder READ_SIZE) DecompressFailed in
      if decide (buf = []) then Ok output else
      let output := output ++ buf in
      if decide (max_size < length output)%nat then Err DecompressedTooLarge
      else decompress_loop fuel' decoder output max_size
  end.

Definition bz2_decompress (data : bytes) (max_size : nat) : res CompressionError bytes :=
  decompress_loop (max_size + 2) (bz_decoder_new data) [] max_size.

Definition try_compress (data : bytes) : bytes * bool :=
  if AUTO_COMPRESS_MAX_SIZE <? len data then (data, false) else
  match bz2_compress data with
  | Ok compressed => if decide (length compressed < length data)%nat then (compressed, true) else (data, false)
  | _ => (data, false)
  end.
End compression.

(** Compressed output is bytes, and decodes to the input. *)
Class Bzip2Laws (B : Bzip2) : Prop := {
  bz_roundtrip : ∀ data c, bz_encode data = Some c → decodes (bz_decoder_new c) data;
  bz_nonempty : ∀ data c, bz_encode data = Some c → c ≠ [];
}.

(** ** Stream frames (stream_data.rs) *)

Definition STREAM_ID_MAX : Z := 16383.
Definition OVERHEAD : nat := 8.
Definition MAX_CHUNK_LEN : nat := 16384.
Definition COMPRESSION_TRIES : nat := 4.

Record StreamDataMessage := {
  stream_id : Z;
  eof : bool;
  compressed : bool;
  data : bytes;
}.

Definition stream_new (id : Z) (d : bytes) (e : bool) : StreamDataMessage :=
  {| stream_id := Z.land id STREAM_ID_MAX; eof := e; compressed := false; data := d |}.

Definition header_value (m : StreamDataMessage) : Z :=
  let val := Z.land (stream_id m) STREAM_ID_MAX in
  let val := if eof m then Z.lor val 32768 else val in
  if compressed m then Z.lor val 16384 else val.

Definition parse_header (val : Z) : Z * bool * bool :=
  let eof := negb (Z.land val 32768 =? 0) in
  let compressed := negb (Z.land val 16384 =? 0) in
  let stream_id := Z.land val STREAM_ID_MAX in
  (stream_id, eof, compressed).

Definition stream_pack (m : StreamDataMessage) : bytes := be_bytes 2 (header_value m) ++ data m.

Definition stream_message (m : StreamDataMessage) : MessageBase :=
  {| m_msg_type := SMT_STREAM_DATA; m_pack := stream_pack m |}.

(** [unpack] assigns the header fields before it decodes the payload, so they
    are updated even when decompression fails. *)
Definition stream_unpack `{Bzip2} (self : StreamDataMessage) (r : bytes)
  : res Empty_set (StreamDataMessage * option ChannelMessageError) :=
  if decide (length r < 2)%nat then Ok (self, Some TooShort) else
  let* b0 := idx r 0 in
  let* b1 := idx r 1 in
  let '(id, e, c) := parse_header (be_value [b0; b1]) in
  let* payload := slice_from r 2 in
  if c && negb (bool_decide (payload = [])) then
    match bz2_decompress payload MAX_CHUNK_LEN with
    | Ok d => Ok ({| stream_id := id; eof := e; compressed := c; data := d |}, None)
    | Err _ => Ok ({| stream_id := id; eof := e; compressed := c; data := data self |}, Some UnpackFailed)
    | Panic => Panic
    end
  else Ok ({| stream_id := id; eof := e; compressed := c; data := payload |}, None).

(** ** Readers and writers (buffer.rs) *)

Record StreamReader := { r_stream_id : Z; r_buffer : bytes; r_eof : bool }.

Definition reader_new (id : Z) : StreamReader :=
  {| r_stream_id := Z.land id STREAM_ID_MAX; r_buffer := []; r_eof := false |}.

Definition feed (r : StreamReader) (msg : StreamDataMessage) : StreamReader * bool :=
  if negb (stream_id msg =? r_stream_id r) then (r, false) else
  ({| r_stream_id := r_stream_id r;
      r_buffer := if bool_decide (data msg = []) then r_buffer r else r_buffer r ++ data msg;
      r_eof := if eof msg then true else r_eof r |}, true).

Definition with_buffer (r : StreamReader) (b : bytes) : StreamReader :=
  {| r_stream_id := r_stream_id r; r_buffer := b; r_eof := r_eof r |}.

Definition read (r : StreamReader) (size : nat) : StreamReader * option bytes :=
  if bool_decide (r_buffer r = []) then
    if r_eof r then (r, Some []) else (r, None)
  else
    let n := Nat.min size (length (r_buffer r)) in
    (with_buffer r (drop n (r_buffer r)), Some (take n (r_buffer r))).

Definition read_all (r : StreamReader) : StreamReader * option bytes :=
  if bool_decide (r_buffer r = []) then
    if r_eof r then (r, Some []) else (r, None)
  else (with_buffer r [], Some (r_buffer r)).

Definition available (r : StreamReader) : nat := length (r_buffer r).
Definition is_eof (r : StreamReader) : bool := r_eof r.
Definition is_done (r : StreamReader) : bool := r_eof r && bool_decide (r_buffer r = []).

Record StreamWriter := { w_stream_id : Z; max_data_len : nat; closed : bool }.

Inductive BufferError := WriterClosed.

Definition writer_new (id : Z) (max : nat) : StreamWriter :=
  {| w_stream_id := Z.land id STREAM_ID_MAX; max_data_len := max; closed := false |}.

Section writer.
Context `{Bzip2}.

(** [for comp_try in comp_try..COMPRESSION_TRIES], over the remaining tries:
    the first prefix that compresses, if any. *)
Fixpoint compress_tries (tries comp_try : nat) (max : nat) (chunk : bytes)
  : res BufferError (option (bytes * nat)) :=
  match tries with
  | O => Ok None
  | S tries' =>
      let segment_len := (length chunk / comp_try)%nat in
      if decide (segment_len ≤ 32)%nat then Ok None else
      let* segment := slice_to chunk segment_len in
      match bz2_compress segment with
      | Ok c =>
          if decide (length c < max ∧ length c < segment_len)%nat then Ok (Some (c, segment_len))
          else compress_tries tries' (S comp_try) max chunk
      | _ => compress_tries tries' (S comp_try) max chunk
      end
  end.

Definition try_compress_chunk (w : StreamWriter) (chunk : bytes) : res BufferError (bytes * nat * bool) :=
  if decide (length chunk ≤ 32)%nat then
    let send_len := Nat.min (length chunk) (max_data_len w) in
    let* d := slice_to chunk send_len in Ok (d, send_len, false)
  else
    let* hit := compress_tries (COMPRESSION_TRIES - 1) 1 (max_data_len w) chunk in
    match hit with
    | Some (c, segment_len) => Ok (c, segment_len, true)
    | None =>
        let send_len := Nat.min (length chunk) (max_data_len w) in
        let* d := slice_to chunk send_len in Ok (d, send_len, false)
    end.

(** The splitting loop.  With a positive budget every turn consumes a byte, so
    [length data] turns are enough; with a zero budget the source does not
    terminate on a nonempty input, and the model runs out of fuel. *)
Fixpoint write_loop (fuel : nat) (w : StreamWriter) (d : bytes) (offset : nat)
  : res BufferError (option (list StreamDataMessage)) :=
  if decide (offset < length d)%nat then
    match fuel with
    | O => Ok None
    | S fuel' =>
        let* remaining := slice_from d offset in
        let chunk_len := Nat.min (length remaining) MAX_CHUNK_LEN in
        let* chunk := slice_to remaining chunk_len in
        let* '(msg_data, consumed, c) := try_compress_chunk w chunk in
        let msg := stream_new (w_stream_id w) msg_data false in
        let msg := {| stream_id := stream_id msg; eof := eof msg; compressed := c; data := data msg |} in
        let* rest := write_loop fuel' w d (offset + consumed) in
        Ok (cons msg <$> rest)
    end
  else Ok (Some []).

(** [Ok None] is a loop that did not finish. *)
Definition write (w : StreamWriter) (d : bytes) : res BufferError (option (list StreamDataMessage)) :=
  if closed w then Err WriterClosed else
  if bool_decide (d = []) then Ok (Some []) else write_loop (length d) w d 0.
End writer.

Definition close_simple (w : StreamWriter) : StreamWriter * StreamDataMessage :=
  ({| w_stream_id := w_stream_id w; max_data_len := max_data_len w; closed := true |},
   stream_new (w_stream_id w) [] true).

Record DrainClose := { eof_message : StreamDataMessage }.

Definition close (w : StreamWriter) : StreamWriter * DrainClose :=
  ({| w_stream_id := w_stream_id w; max_data_len := max_data_len w; closed := true |},
   {| eof_message := stream_new (w_stream_id w) [] true |}).

Record ChannelBuffer := { b_writer : StreamWriter; b_reader : StreamReader; b_stream_id : Z }.

Definition buffer_new (id : Z) (max : nat) : ChannelBuffer :=
  {| b_writer := writer_new id max; b_reader := reader_new id; b_stream_id := id |}.

Definition with_writer (b : ChannelBuffer) (w : StreamWriter) : ChannelBuffer :=
  {| b_writer := w; b_reader := b_reader b; b_stream_id := b_stream_id b |}.
Definition with_reader (b : ChannelBuffer) (r : StreamReader) : ChannelBuffer :=
  {| b_writer := b_writer b; b_reader := r; b_stream_id := b_stream_id b |}.

Definition buffer_write `{Bzip2} (b : ChannelBuffer) (d : bytes) := write (b_writer b) d.
Definition close_writer (b : ChannelBuffer) : ChannelBuffer * StreamDataMessage :=
  let '(w, m) := close_simple (b_writer b) in (with_writer b w, m).
Definition drain_and_close_writer (b : ChannelBuffer) : ChannelBuffer * DrainClose :=
  let '(w, m) := close (b_writer b) in (with_writer b w, m).
Definition feed_reader (b : ChannelBuffer) (m : StreamDataMessage) : ChannelBuffer * bool :=
  let '(r, ok) := feed (b_reader b) m in (with_reader b r, ok).
Definition buffer_read (b : ChannelBuffer) (size : nat) : ChannelBuffer * option bytes :=
  let '(r, o) := read (b_reader b) size in (with_reader b r, o).
Definition buffer_read_all (b : ChannelBuffer) : ChannelBuffer * option bytes :=
  let '(r, o) := read_all (b_reader b) in (with_reader b r, o).

(** ** Frame headers *)

Lemma land_stream_id id : Z.land id STREAM_ID_MAX = id mod 16384.
Proof. exact (land_ones_mod id 14 ltac:(lia)). Qed.

Lemma header_value_parse m :
  0 ≤ header_value m < 65536 ∧
  parse_header (header_value m) = (Z.land (stream_id m) STREAM_ID_MAX, eof m, compressed m).
Proof.
  unfold parse_header, header_value. cbv zeta.
  change 32768 with (2 ^ 15). change 16384 with (2 ^ 14). change 65536 with (2 ^ 16).
  rewrite !land_pow2_test by lia.
  assert (Hi : 0 ≤ Z.land (stream_id m) STREAM_ID_MAX < 2 ^ 14)
    by (rewrite land_stream_id; apply Z.mod_pos_bound; lia).
  pose proof (testbit_above _ 14 14 Hi ltac:(lia)) as H14.
  pose proof (testbit_above _ 14 15 Hi ltac:(lia)) as H15.
  assert (Hl : Z.land (Z.land (stream_id m) STREAM_ID_MAX) STREAM_ID_MAX = Z.land (stream_id m) STREAM_ID_MAX)
    by (rewrite !land_stream_id; apply Z.mod_mod; lia).
  split.
  - repeat case_match; repeat (apply lor_bound; [|lia]); lia.
  - destruct (eof m), (compressed m); rewrite ?Z.land_lor_distr_l, ?Z.lor_spec, ?Hl, ?H14, ?H15;
      rewrite ?Z.pow2_bits_eqb by lia; do 2 f_equal; apply Z.lor_0_r || (rewrite Z.lor_0_r; apply Z.lor_0_r).
Qed.

Section stream_proofs.
Context `{LB : Bzip2Laws}.

Lemma decompress_loop_ok d data0 : decodes d data0 → ∀ fuel out max,
  (length data0 < fuel)%nat → (length out + length data0 ≤ max)%nat →
  decompress_loop fuel d out max = Ok (out ++ data0).
Proof.
  induction 1 as [d d' Hr|d d' chunk rest Hr Hne Hle Hd IH]; intros fuel out max Hf Hm;
    (destruct fuel as [|fuel]; [lia|]); cbn [decompress_loop]; rewrite Hr; cbn [ok_or res_bind].
  - by rewrite decide_True, app_nil_r.
  - assert (Hc : (1 ≤ length chunk)%nat) by (destruct chunk; [done|simpl; lia]).
    rewrite decide_False by done. rewrite length_app in *. rewrite decide_False by lia.
    rewrite IH by (rewrite ?length_app; lia). by rewrite app_assoc.
Qed.

Lemma bz2_roundtrip d c max :
  bz2_compress d = Ok c → (length d ≤ max)%nat → bz2_decompress c max = Ok d.
Proof.
  unfold bz2_compress. destruct (bz_encode d) as [c'|] eqn:He; [|done]. intros [= <-] Hl.
  unfold bz2_decompress. rewrite (decompress_loop_ok _ d) by (try apply bz_roundtrip; simpl; done || lia). done.
Qed.

(** A frame and the payload its receiver decodes. *)
Definition frame_carries (m : StreamDataMessage) (p : bytes) : Prop :=
  ∀ self, stream_unpack self (stream_pack m) =
    Ok ({| stream_id := Z.land (stream_id m) STREAM_ID_MAX; eof := eof m; compressed := compressed m; data := p |}, None).

Lemma unpack_pack_stream m self :
  stream_unpack self (stream_pack m) =
    if compressed m && negb (bool_decide (data m = [])) then
      match bz2_decompress (data m) MAX_CHUNK_LEN with
      | Ok d => Ok ({| stream_id := Z.land (stream_id m) STREAM_ID_MAX; eof := eof m; compressed := compressed m; data := d |}, None)
      | Err _ => Ok ({| stream_id := Z.land (stream_id m) STREAM_ID_MAX; eof := eof m; compressed := compressed m; data := data self |}, Some UnpackFailed)
      | Panic => Panic
      end
    else Ok ({| stream_id := Z.land (stream_id m) STREAM_ID_MAX; eof := eof m; compressed := compressed m; data := data m |}, None).
Proof.
  destruct (header_value_parse m) as [Hv Hp].
  assert (Hb : be_value (be_bytes 2 (header_value m)) = header_value m) by (apply be_value_two; done).
  unfold stream_unpack, stream_pack.
  change (be_bytes 2 (header_value m)) with [header_value m / 256 mod 256; header_value m mod 256] in *.
  cbn [app]. rewrite decide_False by (simpl; lia).
  do 2 (erewrite idx_ok by done; cbn [res_bind]). rewrite Hb, Hp.
  rewrite slice_from_ok by (simpl; lia). done.
Qed.

Lemma raw_frame_carries m : compressed m = false → frame_carries m (data m).
Proof. intros Hc self. by rewrite unpack_pack_stream, Hc. Qed.

Lemma compressed_frame_carries m d :
  compressed m = true → bz2_compress d = Ok (data m) → (length d ≤ MAX_CHUNK_LEN)%nat → frame_carries m d.
Proof.
  intros Hc Hd Hl self. rewrite unpack_pack_stream, Hc. cbn [andb].
  rewrite bool_decide_false; [cbn [negb]; by rewrite (bz2_roundtrip d) by done|].
  unfold bz2_compress in Hd. destruct (bz_encode d) eqn:He; [|done]. injection Hd as <-.
  by eapply bz_nonempty.
Qed.

(** ** Splitting a write into frames *)

Lemma compress_tries_ok tries : ∀ k max chunk, (1 ≤ k)%nat →
  compress_tries tries k max chunk = Ok None ∨
  ∃ c n, compress_tries tries k max chunk = Ok (Some (c, n)) ∧ (32 < n ≤ length chunk)%nat ∧
    (length c < max)%nat ∧ bz2_compress (take n chunk) = Ok c.
Proof.
  induction tries as [|tries IH]; intros k max chunk Hk; cbn [compress_tries]; [by left|].
  case_decide as H32; [by left|].
  assert (Hle : (length chunk / k ≤ length chunk)%nat) by (apply Nat.Div0.div_le_upper_bound; nia).
  rewrite slice_to_ok by done. cbn [res_bind].
  destruct (bz2_compress _) as [c|e|] eqn:Hc; try (apply IH; lia).
  case_decide as Hd; [|apply IH; lia]. right. exists c, (length chunk / k)%nat. split_and!; done || lia.
Qed.

Lemma try_compress_chunk_ok w chunk :
  (1 ≤ max_data_len w)%nat → (1 ≤ length chunk ≤ MAX_CHUNK_LEN)%nat →
  ∃ d n c, try_compress_chunk w chunk = Ok (d, n, c) ∧ (1 ≤ n ≤ length chunk)%nat ∧
    (length d ≤ max_data_len w)%nat ∧
    ∀ id e, frame_carries {| stream_id := id; eof := e; compressed := c; data := d |} (take n chunk).
Proof.
  intros Hw Hc.
  assert (Hraw : ∃ d n c, (let* d := slice_to (E:=BufferError) chunk (Nat.min (length chunk) (max_data_len w)) in
      Ok (d, Nat.min (length chunk) (max_data_len w), false)) = Ok (d, n, c) ∧ (1 ≤ n ≤ length chunk)%nat ∧
    (length d ≤ max_data_len w)%nat ∧
    ∀ id e, frame_carries {| stream_id := id; eof := e; compressed := c; data := d |} (take n chunk)).
  { rewrite slice_to_ok by lia. cbn [res_bind]. eexists _, _, _. split_and!; [done|lia|lia| |].
    - rewrite length_take. lia.
    - intros id e. by apply (raw_frame_carries {| stream_id := id; eof := e; compressed := false; data := _ |}). }
  unfold try_compress_chunk. case_decide; [exact Hraw|].
  destruct (compress_tries_ok (COMPRESSION_TRIES - 1) 1 (max_data_len w) chunk) as [-> | (c & n & -> & Hn & Hl & Hz)];
    [lia|exact Hraw|]. cbn [res_bind]. exists c, n, true. split_and!; [done|lia|lia|lia|].
  intros id e. apply compressed_frame_carries; [done|exact Hz|]. rewrite length_take. lia.
Qed.

Lemma max_chunk_pos : (1 ≤ MAX_CHUNK_LEN)%nat.
Proof. apply Nat.leb_le. vm_compute. reflexivity. Qed.

Lemma write_loop_ok w d fuel : ∀ offset,
  (1 ≤ max_data_len w)%nat → (length d - offset ≤ fuel)%nat →
  ∃ msgs ps, write_loop fuel w d offset = Ok (Some msgs) ∧ concat ps = drop offset d ∧
    Forall2 frame_carries msgs ps ∧
    Forall (λ m, stream_id m = Z.land (w_stream_id w) STREAM_ID_MAX ∧ eof m = false ∧
                 (length (data m) ≤ max_data_len w)%nat) msgs.
Proof.
  induction fuel as [|fuel IH]; intros offset Hw Hf; cbn [write_loop].
  - rewrite decide_False by lia. exists [], []. rewrite drop_ge by lia. split_and!; done || constructor.
  - case_decide as Hlt.
    2:{ exists [], []. rewrite drop_ge by lia. split_and!; done || constructor. }
    rewrite slice_from_ok by lia. cbn [res_bind]. cbv zeta. rewrite slice_to_ok by lia. cbn [res_bind].
    pose proof max_chunk_pos.
    destruct (try_compress_chunk_ok w (take (Nat.min (length (drop offset d)) MAX_CHUNK_LEN) (drop offset d)))
      as (dd & n & c & -> & Hn & Hl & Hcar); [done|rewrite length_take, length_drop; lia|]. cbn [res_bind].
    rewrite length_take, length_drop in Hn.
    destruct (IH (offset + n)%nat Hw) as (msgs & ps & -> & Hps & Hall & Hid); [lia|]. cbn [res_bind fmap option_fmap option_map].
    eexists _, (take n (drop offset d) :: ps). split_and!; [done| | |].
    + cbn [concat]. rewrite Hps, <- drop_drop. apply take_drop.
    + constructor; [|done]. specialize (Hcar (stream_id (stream_new (w_stream_id w) dd false)) false).
      rewrite take_take in Hcar. by replace (Nat.min n _) with n in Hcar by (rewrite length_drop; lia).
    + constructor; [|done]. done.
Qed.

(** The receiving side: every frame is decoded and fed to the reader. *)
Fixpoint feed_frames (r : StreamReader) (frames : list bytes) : res Empty_set StreamReader :=
  match frames with
  | [] => Ok r
  | f :: fs =>
      let* '(m, err) := stream_unpack (stream_new 0 [] false) f in
      match err with
      | None => feed_frames (feed r m).1 fs
      | Some _ => feed_frames r fs
      end
  end.

Lemma feed_frames_app r fs gs : feed_frames r (fs ++ gs) = let* r' := feed_frames r fs in feed_frames r' gs.
Proof.
  revert r. induction fs as [|f fs IH]; intros r; [done|]. cbn [app feed_frames].
  destruct (stream_unpack _ f) as [[m [e|]]|e|]; cbn [res_bind]; done || apply IH.
Qed.

Lemma feed_append r m : stream_id m = r_stream_id r → eof m = false →
  feed r m = (with_buffer r (r_buffer r ++ data m), true).
Proof.
  intros Hid He. unfold feed, with_buffer. rewrite Hid, Z.eqb_refl, He. cbn [negb].
  case_bool_decide as Hd; [|done]. by rewrite Hd, app_nil_r.
Qed.

Lemma feed_frames_ok msgs ps : Forall2 frame_carries msgs ps → ∀ r,
  Forall (λ m, Z.land (stream_id m) STREAM_ID_MAX = r_stream_id r ∧ eof m = false) msgs →
  feed_frames r (stream_pack <$> msgs) = Ok (with_buffer r (r_buffer r ++ concat ps)).
Proof.
  induction 1 as [|m p msgs ps Hc Hall IH]; intros r Hm; cbn [fmap list_fmap feed_frames concat].
  - rewrite app_nil_r. by destruct r.
  - inversion Hm as [|? ? [Hid He] Hm']; subst. rewrite Hc. cbn [res_bind].
    rewrite feed_append by done. cbn [fst data]. rewrite IH by done. cbn. by rewrite app_assoc.
Qed.

(** C37.  A stream arrives intact: with a positive frame budget, writing any
    data terminates, in frames that respect the budget, and a reader of the
    same stream that decodes those frames in order (compressed or not) holds
    exactly the written bytes after what it had; with the closing frame it
    then reports them, an end of stream, and completion once they are read.  A
    closed writer refuses to write. *)
Theorem stream_transfer w r d :
  closed w = false → (1 ≤ max_data_len w)%nat →
  r_stream_id r = Z.land (w_stream_id w) STREAM_ID_MAX →
  ∃ msgs r', write w d = Ok (Some msgs) ∧
    Forall (λ m, (length (stream_pack m) ≤ 2 + max_data_len w)%nat) msgs ∧
    feed_frames r (stream_pack <$> msgs) = Ok (with_buffer r (r_buffer r ++ d)) ∧
    feed_frames r (stream_pack <$> (msgs ++ [(close_simple w).2])) = Ok r' ∧
    r_buffer r' = r_buffer r ++ d ∧ is_eof r' = true ∧
    (read_all r').2 = Some (r_buffer r ++ d) ∧ is_done (read_all r').1 = true ∧
    write (close_simple w).1 d = Err WriterClosed.
Proof.
  intros Hc Hw Hid.
  assert (H : ∃ msgs ps, write w d = Ok (Some msgs) ∧ concat ps = d ∧ Forall2 frame_carries msgs ps ∧
    Forall (λ m, stream_id m = Z.land (w_stream_id w) STREAM_ID_MAX ∧ eof m = false ∧
                 (length (data m) ≤ max_data_len w)%nat) msgs).
  { unfold write. rewrite Hc. case_bool_decide as Hd.
    - exists [], []. subst d. split_and!; done || constructor.
    - apply write_loop_ok; [done|lia]. }
  destruct H as (msgs & ps & Hwr & Hps & Hcar & Hall).
  assert (Hfeed : feed_frames r (stream_pack <$> msgs) = Ok (with_buffer r (r_buffer r ++ d))).
  { rewrite <- Hps. apply feed_frames_ok; [done|]. eapply Forall_impl; [exact Hall|].
    intros m (-> & He & _). split; [|done]. rewrite Hid, !land_stream_id. by rewrite Z.mod_mod by lia. }
  exists msgs, {| r_stream_id := r_stream_id r; r_buffer := r_buffer r ++ d; r_eof := true |}.
  split_and!; try done.
  - eapply Forall_impl; [exact Hall|]. intros m (_ & _ & Hl). unfold stream_pack.
    rewrite length_app, length_be_bytes. lia.
  - rewrite fmap_app, feed_frames_app, Hfeed. cbn [res_bind fmap list_fmap feed_frames].
    rewrite (raw_frame_carries (close_simple w).2) by done. cbn [res_bind].
    unfold feed. cbn [stream_id close_simple snd stream_new with_buffer r_stream_id]. rewrite Hid.
    rewrite !land_stream_id, Z.mod_mod, Z.eqb_refl by lia. done.
  - unfold read_all. simpl. by case_bool_decide as Hb; [rewrite Hb|].
  - unfold read_all, is_done. simpl. case_bool_decide as Hb; simpl; [by rewrite Hb|done].
Qed.
End stream_proofs.

(** ** A concrete compressor *)

(** Runs of one byte are stored as a marker, the byte and a length. *)
#[export] Instance toy_bzip2 : Bzip2 := {|
  bz_encode l :=
    match l with
    | b :: _ => if decide (l = replicate (length l) b) then Some [1; b; len l] else Some (0 :: l)
    | [] => Some [0]
    end;
  BzDecoder := bytes;
  bz_decoder_new c :=
    match c with
    | [1; b; n] => replicate (Z.to_nat n) b
    | _ :: l => l
    | [] => []
    end;
  bz_read l n := Some (take n l, drop n l);
|}.

Lemma read_size_pos : (1 ≤ READ_SIZE)%nat.
Proof. apply Nat.leb_le. vm_compute. reflexivity. Qed.

Lemma toy_decodes l : decodes (H:=toy_bzip2) l l.
Proof.
  pose proof read_size_pos as Hpos. remember (length l) as n eqn:Hn. revert l Hn.
  induction (lt_wf n) as [n _ IH]. intros l ->. destruct l as [|b l].
  { eapply decodes_end. cbn [bz_read toy_bzip2]. by rewrite take_nil. }
  rewrite <- (take_drop READ_SIZE (b :: l)) at 2. eapply decodes_more; [done| |rewrite length_take; lia|].
  - intros Ht. apply (f_equal length) in Ht. rewrite length_take in Ht. simpl in Ht. lia.
  - eapply IH; [|reflexivity]. rewrite length_drop. simpl. lia.
Qed.

#[export] Instance toy_bzip2_laws : Bzip2Laws toy_bzip2.
Proof.
  split; intros [|b l] c; simpl; try case_decide as Hl; intros [= <-]; try done.
  - apply toy_decodes.
  - replace (Z.to_nat (len (b :: l))) with (length (b :: l)) by (unfold len; lia).
    change (decodes (replicate (length (b :: l)) b) (b :: l)). rewrite Hl at 2. apply toy_decodes.
  - apply toy_decodes.
Qed.

Lemma stream_transfer_witness :
  ∃ msgs r', write (writer_new 7 10) (replicate 40 65 ++ [1; 2; 3]) = Ok (Some msgs) ∧
    feed_frames (reader_new 7) (stream_pack <$> (msgs ++ [(close_simple (writer_new 7 10)).2])) = Ok r' ∧
    (read_all r').2 = Some (replicate 40 65 ++ [1; 2; 3]).
Proof.
  destruct (stream_transfer (writer_new 7 10) (reader_new 7) (replicate 40 65 ++ [1; 2; 3]))
    as (msgs & r' & H1 & _ & _ & H2 & _ & _ & H3 & _).
  - reflexivity.
  - simpl. lia.
  - reflexivity.
  - exists msgs, r'. split; [exact H1|]. split; [exact H2|exact H3].
Defined.
