(* ===== verification/LinkChannel.v ===== *)
(** * Channels over encrypted links

    Models [rns-link/src/key_derivation.rs], [rns-link/src/encryption.rs] and
    the [LinkChannel] of [rns-protocol/src/channel.rs].  X25519 is third-party
    code: the class [X25519] is its interface.  The IV of each encryption is an
    argument. *)

From S2P Require Import Prelude Wire F64 Token Ifac Channel.
From stdpp Require Import prelude list gmap.

Open Scope Z_scope.

(** ** Session keys (key_derivation.rs) *)

Class X25519 := {
  x_private : Type;
  x_public : Type;
  x_public_of : x_private → x_public;
  x_exchange : x_private → x_public → bytes;
}.

(** Diffie-Hellman: both ends compute the same shared secret. *)
Class X25519Laws (X : X25519) : Prop := {
  x_agree : ∀ a b, x_exchange a (x_public_of b) = x_exchange b (x_public_of a);
}.

Definition MODE_AES128_CBC : Z := 0.
Definition MODE_AES256_CBC : Z := 1.
Definition AES256_DERIVED_KEY_LENGTH : nat := 64.
Definition AES128_DERIVED_KEY_LENGTH : nat := 32.

Record LinkKeys := { signing_key : bytes; encryption_key : bytes }.

Inductive LinkKeyError := UnsupportedMode (m : Z) | HkdfFailed.

Definition derive `{X25519} `{Hkdf} (my_prv : x_private) (peer_pub : x_public) (link_id : bytes) (mode : Z)
  : res LinkKeyError LinkKeys :=
  let* derived_key_length :=
    if mode =? MODE_AES128_CBC then Ok AES128_DERIVED_KEY_LENGTH
    else if mode =? MODE_AES256_CBC then Ok AES256_DERIVED_KEY_LENGTH
    else Err (UnsupportedMode mode) in
  let shared_key := x_exchange my_prv peer_pub in
  let* derived := map_err (λ _, HkdfFailed) (hkdf_sha256 derived_key_length shared_key (Some link_id) None) in
  let half := (derived_key_length / 2)%nat in
  let* a := slice_to derived half in
  let* b := slice_from derived half in
  Ok {| signing_key := a; encryption_key := b |}.

(** ** Link encryption (encryption.rs) *)

Inductive LinkCryptoError := LinkEncryptionFailed | LinkDecryptionFailed.

Definition link_encrypt `{AesCbc} `{Hmac} (keys : LinkKeys) (plaintext iv : bytes) : res LinkCryptoError bytes :=
  let combined_key := signing_key keys ++ encryption_key keys in
  map_err (λ _, LinkEncryptionFailed) (token_encrypt plaintext combined_key iv).

Definition link_decrypt `{AesCbc} `{Hmac} (keys : LinkKeys) (ciphertext : bytes) : res LinkCryptoError bytes :=
  let combined_key := signing_key keys ++ encryption_key keys in
  map_err (λ _, LinkDecryptionFailed) (token_decrypt ciphertext combined_key).

(** ** LinkChannel (channel.rs) *)

Record LinkChannel := {
  channel : Channel;
  link_id : bytes;
  link_mdu : Z;
  session_keys : option LinkKeys;
  outbound_packet_hashes : gmap bytes Z;
}.

Record PreparedChannelData := { prep_sequence : Z; prep_data : bytes }.

Definition new_with_mdu (id : bytes) (rtt : f64) (mdu : Z) : LinkChannel :=
  {| channel := channel_new rtt; link_id := id; link_mdu := mdu; session_keys := None;
     outbound_packet_hashes := ∅ |}.

Definition link_channel_new (id : bytes) (rtt : f64) : LinkChannel :=
  new_with_mdu id rtt (Z.of_nat LINK_MDU).

Definition new_encrypted_with_mdu (id : bytes) (rtt : f64) (mdu : Z) (keys : LinkKeys) : LinkChannel :=
  {| channel := channel_new rtt; link_id := id; link_mdu := mdu; session_keys := Some keys;
     outbound_packet_hashes := ∅ |}.

Definition new_encrypted (id : bytes) (rtt : f64) (keys : LinkKeys) : LinkChannel :=
  new_encrypted_with_mdu id rtt (Z.of_nat LINK_MDU) keys.

Definition with_channel (l : LinkChannel) (c : Channel) : LinkChannel :=
  {| channel := c; link_id := link_id l; link_mdu := link_mdu l; session_keys := session_keys l;
     outbound_packet_hashes := outbound_packet_hashes l |}.
Definition with_hashes (l : LinkChannel) (m : gmap bytes Z) : LinkChannel :=
  {| channel := channel l; link_id := link_id l; link_mdu := link_mdu l; session_keys := session_keys l;
     outbound_packet_hashes := m |}.

Section link_channel.
Context `{AesCbc} `{Hmac}.

(** The encryption of an already queued envelope. *)
Definition seal (l : LinkChannel) (data iv : bytes) : res ChannelError bytes :=
  match session_keys l with
  | Some keys => map_err (λ _, ChannelClosed) (link_encrypt keys data iv)
  | None => Ok data
  end.

(** An encryption failure leaves the envelope queued. *)
Definition prepare_send_tracked (l : LinkChannel) (msg : MessageBase) (now : Z) (iv : bytes)
  : LinkChannel * res ChannelError PreparedChannelData :=
  let '(c, r) := send_tracked_with_max_envelope (channel l) msg (Some (link_mdu l)) now in
  (with_channel l c,
   let* '(seq, data) := r in
   let* d := seal l data iv in
   Ok {| prep_sequence := seq; prep_data := d |}).

Definition prepare_send (l : LinkChannel) (msg : MessageBase) (now : Z) (iv : bytes)
  : LinkChannel * res ChannelError bytes :=
  let '(l', r) := prepare_send_tracked l msg now iv in
  (l', let* p := r in Ok (prep_data p)).

Definition receive_data (l : LinkChannel) (data : bytes) : res ChannelError (LinkChannel * deliveries) :=
  let* plaintext :=
    match session_keys l with
    | Some keys => map_err (λ _, ChannelClosed) (link_decrypt keys data)
    | None => Ok data
    end in
  let* '(c, out) := receive (channel l) plaintext in
  Ok (with_channel l c, out).

Definition link_delivered (l : LinkChannel) (seq : Z) (rtt : f64) : LinkChannel :=
  with_channel l (delivered (update_rtt (channel l) rtt) seq rtt).

Definition track_outbound_packet_hash (l : LinkChannel) (h : bytes) (seq : Z) : LinkChannel :=
  with_hashes l (<[h := seq]> (outbound_packet_hashes l)).

Definition delivered_by_packet_hash (l : LinkChannel) (h : bytes) (rtt : f64) : LinkChannel * option Z :=
  match outbound_packet_hashes l !! h with
  | None => (l, None)
  | Some seq =>
      let m := delete h (outbound_packet_hashes l) in
      let m := filter (λ kv, kv.2 ≠ seq) m in
      (link_delivered (with_hashes l m) seq rtt, Some seq)
  end.

Definition link_is_ready_to_send (l : LinkChannel) : bool := is_ready_to_send (channel l).
Definition mdu (l : LinkChannel) : Z := channel_mdu (link_mdu l).

Definition link_shutdown (l : LinkChannel) : LinkChannel :=
  with_hashes (with_channel l (shutdown (channel l))) ∅.

Definition link_timeout (l : LinkChannel) (seq now : Z) (iv : bytes) : LinkChannel * res ChannelError (option bytes) :=
  let '(c, r) := timeout (channel l) seq now in
  (with_channel l c,
   let* o := r in
   match o with
   | None => Ok None
   | Some data => let* d := seal l data iv in Ok (Some d)
   end).

(** ** Both ends of a link *)

Context `{LA : !AesCbcLaws _} `{LH : !HmacLaws _}.

Definition keys_ok (k : LinkKeys) : Prop := key_len_ok (signing_key k ++ encryption_key k).

Lemma link_roundtrip k data iv :
  keys_ok k → length iv = 16%nat → bytes_ok data →
  ∃ ct, link_encrypt k data iv = Ok ct ∧ link_decrypt k ct = Ok data.
Proof.
  intros Hk Hiv Hd. destruct (encrypt_decrypt data _ iv Hk Hiv Hd) as (ct & He & _ & _ & Hdec).
  exists ct. unfold link_encrypt, link_decrypt. cbv zeta. by rewrite He, Hdec.
Qed.

Lemma send_raw_ok c msg max now :
  bytes_ok (m_pack msg) →
  match (send_tracked_with_max_envelope c msg max now).2 with
  | Ok (s, data) => bytes_ok data
  | _ => True
  end.
Proof.
  intros Hm. pose proof (send_cases c msg max now) as Hs.
  destruct (send_tracked_with_max_envelope c msg max now) as [c' [[s data]|e|]]; simpl; try done.
  destruct Hs as (_ & _ & _ & _ & -> & _). cbn [envelope_pack raw].
  rewrite !bytes_ok_app. split_and!; done || apply be_bytes_ok.
Qed.

Context `{LX : X25519Laws} `{LK : HkdfLaws}.

(** Both ends of a key exchange derive the same keys, of a usable length. *)
Lemma derive_agree a b id mode :
  derive a (x_public_of b) id mode = derive b (x_public_of a) id mode ∧
  match derive a (x_public_of b) id mode with
  | Ok k => keys_ok k ∧ length (signing_key k) = length (encryption_key k)
  | Err e => e = UnsupportedMode mode ∧ mode ≠ MODE_AES128_CBC ∧ mode ≠ MODE_AES256_CBC
  | Panic => False
  end.
Proof.
  unfold derive. rewrite (x_agree a b). split; [done|].
  assert (Hgen : ∀ n, (n = 32%nat ∨ n = 64%nat) →
    match (let* derived := map_err (λ _, HkdfFailed) (hkdf_sha256 n (x_exchange b (x_public_of a)) (Some id) None) in
           let* s := slice_to derived (n / 2) in let* e := slice_from derived (n / 2) in
           Ok {| signing_key := s; encryption_key := e |}) with
    | Ok k => keys_ok k ∧ length (signing_key k) = length (encryption_key k)
    | _ => False
    end).
  { intros n Hn. unfold hkdf_sha256.
    rewrite decide_False by (unfold MAX_OUTPUT_LENGTH; destruct Hn as [-> | ->]; simpl; lia). cbv zeta.
    destruct (hkdf_expand_ok (hkdf_new (Some id) (x_exchange b (x_public_of a))) (default [] None) n)
      as (okm & -> & Hl & _); [unfold MAX_OUTPUT_LENGTH; destruct Hn as [-> | ->]; simpl; lia|].
    cbn [ok_or map_err res_bind].
    assert (Hh : (n / 2 ≤ length okm)%nat) by (destruct Hn as [-> | ->]; rewrite Hl; cbn; lia).
    rewrite slice_to_ok, slice_from_ok by done. cbn [res_bind signing_key encryption_key].
    unfold keys_ok. cbn [signing_key encryption_key]. rewrite take_drop, length_take, length_drop, Hl. split.
    - unfold key_len_ok, KEY_LENGTH, LEGACY_KEY_LENGTH. rewrite Hl. tauto.
    - destruct Hn as [-> | ->]; done. }
  destruct (Z.eqb_spec mode MODE_AES128_CBC) as [->|Hm1]; cbn [res_bind].
  { specialize (Hgen 32%nat (or_introl eq_refl)).
    unfold AES128_DERIVED_KEY_LENGTH. by destruct (let* derived := _ in _). }
  destruct (Z.eqb_spec mode MODE_AES256_CBC) as [->|Hm2]; cbn [res_bind].
  { specialize (Hgen 64%nat (or_intror eq_refl)).
    unfold AES256_DERIVED_KEY_LENGTH. by destruct (let* derived := _ in _). }
  done.
Qed.

(** C38.  An encrypted link channel is transparent: when the two ends run the
    key exchange they hold the same keys, and whatever the sender's channel
    queues for a message, the peer's [receive_data] hands to its channel
    exactly the queued envelope; a retransmission carries the same envelope.
    Messages over the link's payload budget are refused without being
    queued. *)
Theorem link_channel_transparent (pa pb : x_private) id mode ka kb la lb msg now iv seq :
  derive pa (x_public_of pb) id mode = Ok ka → derive pb (x_public_of pa) id mode = Ok kb →
  session_keys la = Some ka → session_keys lb = Some kb →
  length iv = 16%nat → bytes_ok (m_pack msg) →
  Forall (λ e, bytes_ok (raw e)) (tx_ring (channel la)) →
  (let '(c', r) := send_tracked_with_max_envelope (channel la) msg (Some (link_mdu la)) now in
   let '(la', p) := prepare_send_tracked la msg now iv in
   la' = with_channel la c' ∧
   match r with
   | Ok (s, env) => len env ≤ link_mdu la ∧ ∃ d, p = Ok {| prep_sequence := s; prep_data := d |} ∧
       receive_data lb d = let* '(c, out) := receive (channel lb) env in Ok (with_channel lb c, out)
   | Err e => p = Err e ∧ la' = la
   | Panic => False
   end) ∧
  (let '(c', r) := timeout (channel la) seq now in
   let '(la', p) := link_timeout la seq now iv in
   la' = with_channel la c' ∧
   match r with
   | Ok (Some env) => ∃ d, p = Ok (Some d) ∧
       receive_data lb d = let* '(c, out) := receive (channel lb) env in Ok (with_channel lb c, out)
   | Ok None => p = Ok None
   | Err e => p = Err e
   | Panic => False
   end).
Proof.
  intros Ha Hb Hla Hlb Hiv Hm Hring. destruct (derive_agree pa pb id mode) as [Heq Hok].
  rewrite Ha in Hok. destruct Hok as [Hka _]. assert (kb = ka) as -> by congruence.
  assert (Hseal : ∀ env, bytes_ok env → ∃ d, seal la env iv = Ok d ∧
    receive_data lb d = let* '(c, out) := receive (channel lb) env in Ok (with_channel lb c, out)).
  { intros env He. destruct (link_roundtrip ka env iv Hka Hiv He) as (d & Hd & Hdec).
    exists d. unfold seal, receive_data. rewrite Hla, Hlb, Hd, Hdec. done. }
  split.
  - pose proof (send_cases (channel la) msg (Some (link_mdu la)) now) as Hs.
    pose proof (send_raw_ok (channel la) msg (Some (link_mdu la)) now Hm) as Hro.
    unfold prepare_send_tracked.
    destruct (send_tracked_with_max_envelope _ _ _ _) as [c' [[s env]|e|]]; simpl in *; (split; [done|]).
    + destruct Hs as (_ & _ & Hmax & _). split; [by apply Hmax|].
      destruct (Hseal env Hro) as (d & -> & Hrec). by exists d.
    + split; [done|]. destruct e; try done; destruct Hs as [-> _]; by destruct la.
    + done.
  - pose proof (timeout_cases (channel la) seq now) as Ht. unfold link_timeout.
    destruct (timeout _ _ _) as [c' [[env|]|e|]]; simpl in *; (split; [done|]); try done.
    destruct Ht as (i & e & Hi & _ & -> & _). rewrite Forall_lookup in Hring.
    destruct (Hseal (raw e) (Hring i e Hi)) as (d & -> & Hrec). by exists d.
Qed.

(** A delivery proof counts once: acknowledging by packet hash reports
    the tracked sequence number and forgets every packet hash of that
    sequence number (retransmissions included) and no other, so no later
    proof reports it again unless it is tracked anew; an unknown hash
    changes nothing. *)
Theorem packet_hash_delivery_once l h rtt :
  let '(l', r) := delivered_by_packet_hash l h rtt in
  match outbound_packet_hashes l !! h with
  | None => l' = l ∧ r = None
  | Some seq => r = Some seq ∧ channel l' = delivered (update_rtt (channel l) rtt) seq rtt ∧
      ∀ h' s, outbound_packet_hashes l' !! h' = Some s ↔ outbound_packet_hashes l !! h' = Some s ∧ s ≠ seq
  end.
Proof.
  unfold delivered_by_packet_hash. destruct (outbound_packet_hashes l !! h) as [seq|] eqn:Hh; [|done].
  split_and!; [done|done|]. intros h' s. simpl. rewrite map_lookup_filter_Some, lookup_delete_Some. simpl.
  split; [naive_solver|]. intros [Hl Hs]. split_and!; try done. intros ->. congruence.
Qed.
End link_channel.

(** ** A concrete key exchange *)

#[export] Instance toy_x25519 : X25519 := {|
  x_private := Z; x_public := Z; x_public_of := λ a, a; x_exchange := λ a b, [(a * b) mod 256];
|}.
#[export] Instance toy_x25519_laws : X25519Laws toy_x25519.
Proof. split. intros a b. simpl. by rewrite Z.mul_comm. Qed.

Definition demo_keys : LinkKeys :=
  {| signing_key := replicate 32 15; encryption_key := replicate 32 15 |}.

Definition demo_link : LinkChannel := new_encrypted (replicate 16 1) f_zero demo_keys.

Lemma link_channel_transparent_witness :
  ∃ d, (prepare_send_tracked demo_link {| m_msg_type := 5; m_pack := [1; 2] |} 0 (replicate 16 9)).2 =
      Ok {| prep_sequence := 0; prep_data := d |} ∧
    receive_data demo_link d =
      let* '(c, out) := receive (channel demo_link) [0; 5; 0; 0; 0; 2; 1; 2] in Ok (with_channel demo_link c, out).
Proof.
  destruct (link_channel_transparent (3 : @x_private toy_x25519) (5 : @x_private toy_x25519) (replicate 16 1) MODE_AES256_CBC demo_keys demo_keys demo_link demo_link
    {| m_msg_type := 5; m_pack := [1; 2] |} 0 (replicate 16 9) 0) as [(_ & _ & d & Hp & Hd) _].
  - vm_compute. reflexivity.
  - vm_compute. reflexivity.
  - reflexivity.
  - reflexivity.
  - reflexivity.
  - apply (bool_decide_eq_true_1 _). vm_compute. reflexivity.
  - constructor.
  - exists d. split; [exact Hp|exact Hd].
Defined.
