(* ===== verification/Table.v ===== *)
(** * Keyed tables with expiry

    The transport tables are [HashMap]s keyed by a hash, with the same
    operations over different entries: [retain], and removal of at most
    [limit] expired entries found by iterating the map.  The iteration order
    of a [HashMap] is unspecified, so it is an argument, constrained only to
    enumerate the map.  The class [Expiring] is what the shared maintenance
    loops need of an entry; the tables instantiate it. *)

From S2P Require Import Prelude.
From stdpp Require Import prelude list gmap fin_maps.

Open Scope Z_scope.

Section table.
Context {V : Type}.
Implicit Types m : gmap bytes V.

(** [retain(|k, v| p(k, v))] *)
Definition retain (p : bytes → V → bool) m : gmap bytes V := filter (λ kv, p kv.1 kv.2 = true) m.

(** [for k in ks { remove(k) }] *)
Definition remove_all (ks : list bytes) m : gmap bytes V := foldl (λ m k, delete k m) m ks.

(** [iter().filter(p).take(limit).map(key)] *)
Definition batch_keys (p : bytes → V → bool) (limit : nat) (order : list (bytes * V)) : list bytes :=
  fst <$> take limit (filter (λ kv, p kv.1 kv.2 = true) order).

Lemma retain_Some p m k v : retain p m !! k = Some v ↔ m !! k = Some v ∧ p k v = true.
Proof. unfold retain. by rewrite map_lookup_filter_Some. Qed.

Lemma retain_size p m : (size m = size (retain p m) + size (retain (λ k v, negb (p k v)) m))%nat.
Proof.
  rewrite <- map_size_disj_union.
  - f_equal. rewrite <- (map_filter_union_complement (λ kv, p kv.1 kv.2 = true) m) at 1.
    unfold retain. f_equal. apply map_filter_ext. intros k v _. simpl. by rewrite negb_true_iff, not_true_iff_false.
  - apply map_disjoint_spec. intros k x y. rewrite !retain_Some. intros [Hx H1] [Hy H2].
    simplify_eq. by rewrite H1 in H2.
Qed.

Lemma remove_all_lookup ks m k : remove_all ks m !! k = if decide (k ∈ ks) then None else m !! k.
Proof.
  revert m. induction ks as [|k' ks IH]; intros m; simpl; [done|]. unfold remove_all in *. simpl. rewrite IH.
  destruct (decide (k ∈ ks)) as [H1|H1]; destruct (decide (k ∈ k' :: ks)) as [H2|H2]; try done.
  - exfalso. apply H2. set_solver.
  - apply elem_of_cons in H2 as [->|]; [|done]. by rewrite lookup_delete_eq.
  - rewrite lookup_delete_ne; [done|]. set_solver.
Qed.
(** What a batch does, for any enumeration of the map. *)
Lemma batch_keys_spec p limit order m k :
  order ≡ₚ map_to_list m → k ∈ batch_keys p limit order → ∃ v, m !! k = Some v ∧ p k v = true.
Proof.
  intros Ho Hk. apply list_elem_of_fmap in Hk as ([k' v] & -> & Hin).
  apply subseteq_take, list_elem_of_filter in Hin as [Hp Hin].
  exists v. split; [|done]. apply elem_of_map_to_list. by rewrite <- Ho.
Qed.

Lemma batch_keys_NoDup p limit order m : order ≡ₚ map_to_list m → NoDup (batch_keys p limit order).
Proof.
  intros Ho. unfold batch_keys. rewrite fmap_take. apply (sublist_NoDup _ (fst <$> filter (λ kv, p kv.1 kv.2 = true) order));
    [|apply sublist_take].
  apply (NoDup_fmap_2_strong fst).
  - intros [k v] [k' v'] H1 H2 Heq. simpl in Heq. subst k'.
    apply list_elem_of_filter in H1 as [_ H1]. apply list_elem_of_filter in H2 as [_ H2].
    rewrite Ho, elem_of_map_to_list in H1, H2. by simplify_eq.
  - apply NoDup_filter. rewrite Ho. apply NoDup_map_to_list.
Qed.

Lemma filter_map_to_list p m :
  filter (λ kv, p kv.1 kv.2 = true) (map_to_list m) ≡ₚ map_to_list (retain p m).
Proof.
  apply NoDup_Permutation; [apply NoDup_filter, NoDup_map_to_list|apply NoDup_map_to_list|].
  intros [k v]. rewrite list_elem_of_filter, !elem_of_map_to_list, retain_Some. naive_solver.
Qed.

Lemma batch_keys_length p limit order m :
  order ≡ₚ map_to_list m → length (batch_keys p limit order) = Nat.min limit (size (retain p m)).
Proof.
  intros Ho. unfold batch_keys. rewrite length_fmap, length_take. f_equal.
  by rewrite Ho, filter_map_to_list, length_map_to_list.
Qed.

(** Removing at most [limit] entries that satisfy [p]. *)
Definition remove_batch (p : bytes → V → bool) (limit : nat) (order : list (bytes * V)) m : gmap bytes V :=
  remove_all (batch_keys p limit order) m.

(** A batch keeps every entry that does not satisfy [p] and removes
    [min limit n] of the [n] that do. *)
Lemma remove_batch_live p limit order m :
  order ≡ₚ map_to_list m →
  retain (λ k v, negb (p k v)) (remove_batch p limit order m) = retain (λ k v, negb (p k v)) m.
Proof.
  intros Ho. apply map_eq. intros k. apply option_eq. intros v. rewrite !retain_Some.
  unfold remove_batch. rewrite remove_all_lookup. case_decide as Hk; [|done].
  destruct (batch_keys_spec _ _ _ _ _ Ho Hk) as (v' & Hv & Hp). split; [naive_solver|].
  intros [H1 H2]. simplify_eq. by rewrite Hp in H2.
Qed.

Lemma remove_all_size ks m :
  NoDup ks → Forall (λ k, is_Some (m !! k)) ks → (size (remove_all ks m) + length ks = size m)%nat.
Proof.
  intros Hnd. revert m. induction Hnd as [|k ks Hk Hnd IH]; intros m Hall; [simpl; unfold remove_all; simpl; lia|].
  inversion Hall as [|? ? [v Hv] Hall']; subst. unfold remove_all in *. simpl. specialize (IH (delete k m)).
  rewrite map_size_delete, Hv in IH.
  assert (0 < size m)%nat by (apply Nat.neq_0_lt_0; intros H0%map_size_empty_inv; subst; by rewrite lookup_empty in Hv).
  enough (Hall2 : Forall (λ k0, is_Some (delete k m !! k0)) ks) by (specialize (IH Hall2); simpl in *; lia).
  apply Forall_forall. intros k' Hk'. rewrite Forall_forall in Hall'. rewrite lookup_delete_ne by set_solver. by apply Hall'.
Qed.

Lemma remove_batch_left p limit order m :
  order ≡ₚ map_to_list m →
  (size (retain p (remove_batch p limit order m)) = size (retain p m) - limit)%nat.
Proof.
  intros Ho. pose proof (retain_size p m) as H1. pose proof (retain_size p (remove_batch p limit order m)) as H2.
  rewrite remove_batch_live in H2 by done.
  pose proof (remove_all_size (batch_keys p limit order) m (batch_keys_NoDup _ _ _ _ Ho)) as H3.
  rewrite (batch_keys_length p limit order m Ho) in H3. unfold remove_batch in *.
  assert (H4 : Forall (λ k, is_Some (m !! k)) (batch_keys p limit order)).
  { apply Forall_forall. intros k Hk. destruct (batch_keys_spec _ _ _ _ _ Ho Hk) as (v & -> & _). done. }
  specialize (H3 H4). lia.
Qed.

Lemma retain_none p m : size (retain p m) = 0%nat → retain (λ k v, negb (p k v)) m = m.
Proof.
  intros H0%map_size_empty_inv. apply map_eq. intros k. apply option_eq. intros v. rewrite retain_Some.
  split; [by intros [? _]|]. intros Hv. split; [done|]. destruct (p k v) eqn:Hp; [|done].
  assert (retain p m !! k = Some v) by (by apply retain_Some). by rewrite H0, lookup_empty in *.
Qed.

(** Runs of batches, each over some enumeration of the current map. *)
Inductive batches (p : bytes → V → bool) (limit : nat) : nat → gmap bytes V → gmap bytes V → Prop :=
| batches_0 m : batches p limit 0 m m
| batches_S n order m m' :
    order ≡ₚ map_to_list m → batches p limit n (remove_batch p limit order m) m' → batches p limit (S n) m m'.

Lemma batches_drain p limit n m m' :
  batches p limit n m m' →
  retain (λ k v, negb (p k v)) m' = retain (λ k v, negb (p k v)) m ∧
  ((size (retain p m) ≤ n * limit)%nat → m' = retain (λ k v, negb (p k v)) m).
Proof.
  induction 1 as [m|n order m m' Ho Hb [IH1 IH2]].
  - split; [done|]. intros Hs. simpl in Hs. by rewrite retain_none by lia.
  - rewrite remove_batch_live in IH1, IH2 by done. split; [done|]. intros Hs. apply IH2.
    rewrite remove_batch_left by done. simpl in Hs. lia.
Qed.
End table.
