(* ===== verification/Hashlist.v ===== *)
(** * Packet deduplication

    Models [rns-transport/src/hashlist.rs]: the two-generation set of packet
    hashes.  Hashes are byte lists, generations finite sets. *)

From S2P Require Import Prelude.
From stdpp Require Import prelude list gmap.

Open Scope Z_scope.

Definition HASHLIST_MAXSIZE : Z := 2000000.

Record PacketHashlist := {
  current : gset bytes;
  previous : gset bytes;
  max_size : Z;
}.

Definition new_with_capacity (max : Z) : PacketHashlist :=
  {| current := ∅; previous := ∅; max_size := max |}.

Definition hashlist_new : PacketHashlist := new_with_capacity HASHLIST_MAXSIZE.

Definition contains (l : PacketHashlist) (h : bytes) : bool :=
  bool_decide (h ∈ current l) || bool_decide (h ∈ previous l).

Definition force_rotate (l : PacketHashlist) : PacketHashlist :=
  {| current := ∅; previous := current l; max_size := max_size l |}.

Definition insert (l : PacketHashlist) (h : bytes) : PacketHashlist * bool :=
  if contains l h then (l, false) else
  let l := if max_size l / 2 <=? Z.of_nat (size (current l)) then force_rotate l else l in
  ({| current := {[h]} ∪ current l; previous := previous l; max_size := max_size l |}, true).

Definition hashlist_len (l : PacketHashlist) : Z := Z.of_nat (size (current l)) + Z.of_nat (size (previous l)).

Definition is_empty (l : PacketHashlist) : bool :=
  bool_decide (current l = ∅) && bool_decide (previous l = ∅).

Definition clear (l : PacketHashlist) : PacketHashlist :=
  {| current := ∅; previous := ∅; max_size := max_size l |}.

(** The snapshots' order is unspecified; these are one enumeration. *)
Definition current_hashes (l : PacketHashlist) : list bytes := elements (current l).
Definition all_hashes (l : PacketHashlist) : list bytes := elements (current l) ++ elements (previous l).

Definition load_from (l : PacketHashlist) (hashes : list bytes) : PacketHashlist :=
  {| current := list_to_set hashes; previous := ∅; max_size := max_size l |}.

(** ** Properties *)

(** Inserting a sequence, counting the acceptances. *)
Fixpoint insert_all (l : PacketHashlist) (hs : list bytes) : PacketHashlist * Z :=
  match hs with
  | [] => (l, 0)
  | h :: hs' =>
      let '(l1, b) := insert l h in
      let '(l2, n) := insert_all l1 hs' in
      (l2, (if b then 1 else 0) + n)
  end.

Definition half (l : PacketHashlist) : Z := max_size l / 2.

(** Both generations within half of the capacity, and disjoint. *)
Definition hashlist_ok (l : PacketHashlist) : Prop :=
  2 ≤ max_size l ∧ Z.of_nat (size (current l)) ≤ half l ∧ Z.of_nat (size (previous l)) ≤ half l ∧
  current l ## previous l.

Lemma contains_spec l h : contains l h = true ↔ h ∈ current l ∪ previous l.
Proof. unfold contains. rewrite orb_true_iff, !bool_decide_eq_true. set_solver. Qed.

Lemma insert_cases l h :
  hashlist_ok l →
  (contains l h = true ∧ insert l h = (l, false)) ∨
  (contains l h = false ∧ ∃ l', insert l h = (l', true) ∧ hashlist_ok l' ∧ max_size l' = max_size l ∧
     h ∈ current l' ∧
     ((current l' = {[h]} ∪ current l ∧ previous l' = previous l ∧
       Z.of_nat (size (current l')) = Z.of_nat (size (current l)) + 1) ∨
      (current l' = {[h]} ∧ previous l' = current l ∧ half l ≤ Z.of_nat (size (current l))))).
Proof.
  intros (H2 & Hc & Hp & Hd). unfold insert. destruct (contains l h) eqn:Hcon; [by left|right].
  split; [done|]. assert (Hn : h ∉ current l ∧ h ∉ previous l).
  { split; intros Hin; assert (contains l h = true) by (apply contains_spec; set_solver); congruence. }
  destruct Hn as [Hn1 Hn2]. assert (1 ≤ max_size l / 2) by (apply Z.div_le_lower_bound; lia).
  destruct (Z.leb_spec (max_size l / 2) (Z.of_nat (size (current l)))).
  - eexists. split; [done|]. unfold half in *. simpl. rewrite union_empty_r_L. split_and!; try done; [|set_solver|].
    + split_and!; cbn [current previous max_size]; [done| |done|set_solver]. rewrite ?union_empty_r_L, size_singleton. unfold half. simpl. lia.
    + by right.
  - assert (Hs : Z.of_nat (size ({[h]} ∪ current l)) = Z.of_nat (size (current l)) + 1).
    { rewrite size_union by set_solver. rewrite size_singleton. lia. }
    eexists. split; [done|]. unfold half in *. simpl. split_and!; try done; [|set_solver|].
    + split_and!; unfold half; simpl; [done|lia|done|set_solver].
    + left. done.
Qed.

Lemma insert_all_ok hs : ∀ l, hashlist_ok l → hashlist_ok (insert_all l hs).1 ∧
  max_size (insert_all l hs).1 = max_size l ∧ 0 ≤ (insert_all l hs).2.
Proof.
  induction hs as [|h hs IH]; intros l Hl; [done|]. cbn [insert_all].
  destruct (insert_cases l h Hl) as [[_ ->]|(_ & l' & -> & Hl' & Hm & _)].
  - specialize (IH l Hl). destruct (insert_all l hs). simpl in *. naive_solver lia.
  - specialize (IH l' Hl'). destruct (insert_all l' hs). simpl in *. split_and!; naive_solver lia.
Qed.

(** A hash is in the current generation, or in the previous one while the
    current one holds at most as many hashes as were accepted since. *)
Lemma survives hs : ∀ l h k,
  hashlist_ok l → 0 ≤ k →
  (h ∈ current l ∨ (h ∈ previous l ∧ Z.of_nat (size (current l)) ≤ k)) →
  k + (insert_all l hs).2 ≤ half l →
  contains (insert_all l hs).1 h = true.
Proof.
  induction hs as [|g hs IH]; intros l h k Hl Hk Hh Hn; cbn [insert_all] in *.
  { simpl. apply contains_spec. set_solver. }
  destruct (insert_cases l g Hl) as [[_ E]|(_ & l' & E & Hl' & Hm & _ & Hcase)]; rewrite E in *.
  - specialize (IH l h k Hl Hk Hh). destruct (insert_all l hs). simpl in *. by apply IH.
  - pose proof (insert_all_ok hs l' Hl') as (_ & _ & Hpos).
    specialize (IH l' h (k + 1) Hl' ltac:(lia)). destruct (insert_all l' hs) as [l2 n]. simpl in *.
    unfold half in *. rewrite Hm in IH. apply IH; [|lia].
    destruct Hcase as [(Hc & Hp & Hs)|(Hc & Hp & Hs)].
    + rewrite Hc, Hp. destruct Hh as [?|[? ?]]; [left; set_solver|]. right. split; [done|]. rewrite <- Hc. lia.
    + rewrite Hc, Hp. rewrite size_singleton. destruct Hh as [?|[? ?]]; [right; split; [done|lia]|]. lia.
Qed.

(** C33.  Deduplication holds over a window: in a list of capacity at least
    two, however packets are inserted, at most [2 * (max/2)] hashes are kept,
    an insertion is accepted exactly when the hash is not present, and a
    hash that was accepted stays recognised (every repetition is refused)
    until more than [max/2] further hashes have been accepted. *)
Theorem hashlist_window max pre h post :
  2 ≤ max →
  let '(l0, _) := insert_all (new_with_capacity max) pre in
  let '(l1, accepted) := insert l0 h in
  let '(l2, n) := insert_all l1 post in
  hashlist_len l2 ≤ 2 * (max / 2) ∧ 2 * (max / 2) ≤ max ∧
  accepted = negb (contains l0 h) ∧ contains l1 h = true ∧
  (accepted = true → n ≤ max / 2 → contains l2 h = true ∧ insert l2 h = (l2, false)).
Proof.
  intros Hmax.
  assert (H0 : hashlist_ok (new_with_capacity max)).
  { split_and!; unfold half; cbn [current previous max_size new_with_capacity]; try (rewrite size_empty; apply Z.div_pos; lia); [done|apply disjoint_empty_l]. }
  destruct (insert_all_ok pre _ H0) as (Hl0 & Hm0 & _). destruct (insert_all _ pre) as [l0 n0]. simpl in *.
  assert (Hbound : ∀ l, hashlist_ok l → max_size l = max → hashlist_len l ≤ 2 * (max / 2)).
  { intros l (_ & Hc & Hp & _) Hm. unfold half, hashlist_len in *. rewrite Hm in *. lia. }
  pose proof (Z.mul_div_le max 2 ltac:(lia)).
  destruct (insert_cases l0 h Hl0) as [[Hcon ->]|(Hcon & l1 & -> & Hl1 & Hm1 & Hin & _)]; rewrite Hcon.
  - destruct (insert_all_ok post l0 Hl0) as (Hl2 & Hm2 & _). destruct (insert_all l0 post) as [l2 n]. simpl in *.
    split_and!; try done. apply Hbound; [done|congruence].
  - destruct (insert_all_ok post l1 Hl1) as (Hl2 & Hm2 & _).
    pose proof (survives post l1 h 0 Hl1 ltac:(lia) (or_introl Hin)) as Hs.
    unfold half in Hs. rewrite Hm1, Hm0 in Hs. destruct (insert_all l1 post) as [l2 n]. simpl in *.
    split_and!; try done; [apply Hbound; [done|congruence]|apply contains_spec; set_solver|].
    intros _ Hn. specialize (Hs ltac:(lia)). split; [done|]. unfold insert. by rewrite Hs.
Qed.

Lemma hashlist_window_witness :
  2 ≤ 4 ∧ contains (insert_all (new_with_capacity 4) [[1]; [2]; [3]]).1 [1] = true.
Proof.
  split; [lia|].
  pose proof (hashlist_window 4 [] [1] [[2]; [3]] ltac:(lia)) as H.
  vm_compute in H. exact (proj1 (proj2 (proj2 (proj2 (proj2 H))) eq_refl ltac:(discriminate))).
Defined.
