(* ===== verification/PathTable.v ===== *)
(** * Path table

    Models [rns-transport/src/path_table.rs].  Destination and transport
    hashes are byte lists, interface identifiers integers, times [f64] Unix
    seconds.  [is_expired] reads the clock at every call, so an operation over
    the whole table takes the reading for each key. *)

From S2P Require Import Prelude F64 Table.
From stdpp Require Import prelude list gmap.

Open Scope Z_scope.

Definition DESTINATION_TIMEOUT : Z := 604800.
Definition AP_PATH_TIME : Z := 86400.
Definition ROAMING_PATH_TIME : Z := 21600.
Definition MAX_RANDOM_BLOBS : nat := 64.
Definition PERSIST_RANDOM_BLOBS : nat := 32.

Inductive InterfaceMode := Full | PointToPoint | Gateway | AccessPoint | Roaming | Boundary | Internal.
Inductive PathState := Unknown | Unresponsive | Responsive.
#[export] Instance PathState_eq_dec : EqDecision PathState.
Proof. solve_decision. Defined.

Definition path_expiry (mode : InterfaceMode) : Z :=
  match mode with
  | AccessPoint => AP_PATH_TIME
  | Roaming => ROAMING_PATH_TIME
  | _ => DESTINATION_TIMEOUT
  end.

Record PathEntry := {
  timestamp : f64;
  next_hop : option bytes;
  hops : Z;
  expires : f64;
  random_blobs : list bytes;
  interface_id : Z;
  packet_hash : option bytes;
}.

Definition path_entry_new (hop : option bytes) (h : Z) (iface : Z) (mode : InterfaceMode) (now : f64) : PathEntry :=
  {| timestamp := now; next_hop := hop; hops := h; expires := f_add now (f_of_Z (path_expiry mode));
     random_blobs := []; interface_id := iface; packet_hash := None |}.

Definition with_blobs (e : PathEntry) (b : list bytes) : PathEntry :=
  {| timestamp := timestamp e; next_hop := next_hop e; hops := hops e; expires := expires e;
     random_blobs := b; interface_id := interface_id e; packet_hash := packet_hash e |}.
Definition with_times (e : PathEntry) (t x : f64) : PathEntry :=
  {| timestamp := t; next_hop := next_hop e; hops := hops e; expires := x;
     random_blobs := random_blobs e; interface_id := interface_id e; packet_hash := packet_hash e |}.

(** [pop_front] then [push_back]. *)
Definition add_random_blob (e : PathEntry) (blob : bytes) : PathEntry :=
  let b := if decide (MAX_RANDOM_BLOBS ≤ length (random_blobs e))%nat
           then tail (random_blobs e) else random_blobs e in
  with_blobs e (b ++ [blob]).

Definition has_random_blob (e : PathEntry) (blob : bytes) : bool := bool_decide (blob ∈ random_blobs e).

Definition is_expired (e : PathEntry) (now : f64) : bool := f_gt now (expires e).

Definition touch (e : PathEntry) (now : f64) : PathEntry :=
  let lifetime := if f_gt (expires e) (timestamp e) then f_sub (expires e) (timestamp e)
                  else f_of_Z (path_expiry Full) in
  with_times e now (f_add now lifetime).

Definition blobs_for_persist (e : PathEntry) : list bytes :=
  drop (length (random_blobs e) - PERSIST_RANDOM_BLOBS) (random_blobs e).

(** ** The table *)

Record PathTable := { entries : gmap bytes PathEntry; states : gmap bytes PathState }.

Definition path_table_new : PathTable := {| entries := ∅; states := ∅ |}.

Definition insert (t : PathTable) (h : bytes) (e : PathEntry) : PathTable :=
  {| states := delete h (states t); entries := <[h := e]> (entries t) |}.

Definition get (t : PathTable) (h : bytes) : option PathEntry := entries t !! h.

(** What a caller does through [get_mut]. *)
Definition get_mut (t : PathTable) (h : bytes) (f : PathEntry → PathEntry) : PathTable :=
  {| entries := alter f h (entries t); states := states t |}.

Definition get_live (t : PathTable) (h : bytes) (now : f64) : option PathEntry :=
  match entries t !! h with
  | Some e => if negb (is_expired e now) then Some e else None
  | None => None
  end.

Definition get_live_mut (t : PathTable) (h : bytes) (now : f64) (f : PathEntry → PathEntry) : PathTable :=
  match get_live t h now with Some _ => get_mut t h f | None => t end.

Definition has_path (t : PathTable) (h : bytes) (now : f64) : bool :=
  match get_live t h now with Some _ => true | None => false end.

Definition hops_to (t : PathTable) (h : bytes) (now : f64) : option Z := hops <$> get_live t h now.

Definition remove (t : PathTable) (h : bytes) : PathTable * option PathEntry :=
  ({| states := delete h (states t); entries := delete h (entries t) |}, entries t !! h).

Definition with_entries (t : PathTable) (m : gmap bytes PathEntry) : PathTable :=
  {| entries := m; states := states t |}.

Definition removed (before after : gmap bytes PathEntry) : nat := (size before - size after)%nat.

Definition drop_all_via (t : PathTable) (iface : Z) : PathTable * nat :=
  let m := retain (λ _ e, negb (interface_id e =? iface)) (entries t) in
  (with_entries t m, removed (entries t) m).

Definition drop_all_via_next_hop (t : PathTable) (hop : bytes) : PathTable * nat :=
  let m := retain (λ _ e, negb (bool_decide (next_hop e = Some hop))) (entries t) in
  (with_entries t m, removed (entries t) m).

(** Labels without a route are dropped. *)
Definition retain_states (s : gmap bytes PathState) (m : gmap bytes PathEntry) : gmap bytes PathState :=
  retain (λ h _, bool_decide (is_Some (m !! h))) s.

Definition cull_expired (t : PathTable) (clock : bytes → f64) : PathTable * nat :=
  let m := retain (λ h e, negb (is_expired e (clock h))) (entries t) in
  ({| entries := m; states := retain_states (states t) m |}, removed (entries t) m).

Definition expire (t : PathTable) (h : bytes) (clock : bytes → f64) : PathTable * bool :=
  match entries t !! h with
  | Some e =>
      let t := with_entries t (<[h := with_times e (timestamp e) f_zero]> (entries t)) in
      ((cull_expired t clock).1, true)
  | None => (t, false)
  end.

Definition set_state (t : PathTable) (h : bytes) (s : PathState) : PathTable :=
  {| entries := entries t; states := <[h := s]> (states t) |}.

Definition get_state (t : PathTable) (h : bytes) : PathState := default Unknown (states t !! h).

Definition cull_expired_batch (t : PathTable) (limit : nat) (order : list (bytes * PathEntry)) (clock : bytes → f64)
  : PathTable * nat :=
  let to_remove := batch_keys (λ h e, is_expired e (clock h)) limit order in
  ({| entries := remove_all to_remove (entries t); states := remove_all to_remove (states t) |},
   length to_remove).

Definition cull_dead_interfaces (t : PathTable) (alive : gset Z) : PathTable * nat :=
  let m := retain (λ _ e, bool_decide (interface_id e ∈ alive)) (entries t) in
  ({| entries := m; states := retain_states (states t) m |}, removed (entries t) m).

Definition path_table_len (t : PathTable) : nat := size (entries t).
Definition path_table_is_empty (t : PathTable) : bool := bool_decide (entries t = ∅).

Definition iter_live (order : list (bytes * PathEntry)) (clock : bytes → f64) : list (bytes * PathEntry) :=
  filter (λ kv, is_expired kv.2 (clock kv.1) = false) order.

(** ** Properties *)

(** Culling is defined by what remains. *)
Lemma cull_expired_entries t clock h e :
  entries (cull_expired t clock).1 !! h = Some e ↔ entries t !! h = Some e ∧ is_expired e (clock h) = false.
Proof. unfold cull_expired. simpl. by rewrite retain_Some, negb_true_iff. Qed.

Lemma retain_states_lookup s m h st :
  retain_states s m !! h = Some st ↔ s !! h = Some st ∧ is_Some (m !! h).
Proof. unfold retain_states. by rewrite retain_Some, bool_decide_eq_true. Qed.

Lemma removed_retain p m : removed m (retain p m) = size (retain (λ k v, negb (p k v)) m).
Proof. unfold removed. pose proof (retain_size p m). lia. Qed.

(** C34.  Expiry is consistent throughout the path table: a full cull keeps
    exactly the routes that are not expired, reports how many it removed, and
    leaves no state label without a route; live lookups return precisely the
    routes a cull at the same readings would keep.  The batched cull, for any
    iteration order, removes only expired routes together with their labels,
    at most [limit] of them, exactly [limit] while that many are expired, and
    batches repeated until the count is used up reach the full cull's
    routes. *)
Theorem path_table_expiry t clock limit order h :
  order ≡ₚ map_to_list (entries t) →
  let '(t1, n1) := cull_expired t clock in
  let '(t2, n2) := cull_expired_batch t limit order clock in
  (∀ e, get t1 h = Some e ↔ get_live t h (clock h) = Some e) ∧
  has_path t h (clock h) = bool_decide (is_Some (get t1 h)) ∧
  (size (entries t) = size (entries t1) + n1)%nat ∧
  (∀ st, states t1 !! h = Some st → is_Some (get t1 h)) ∧
  n2 = Nat.min limit n1 ∧ (size (entries t) = size (entries t2) + n2)%nat ∧
  (∀ e, get t h = Some e → is_expired e (clock h) = false → get t2 h = Some e ∧ states t2 !! h = states t !! h) ∧
  (∀ e, get t2 h = Some e → get t h = Some e) ∧
  (get t2 h = None → get t h ≠ None → states t2 !! h = None) ∧
  (∀ k m', batches (λ h e, is_expired e (clock h)) limit k (entries t) m' → (n1 ≤ k * limit)%nat → m' = entries t1).
Proof.
  intros Ho. unfold cull_expired_batch, cull_expired, get. cbn [entries states].
  set (p := λ (h : bytes) (e : PathEntry), is_expired e (clock h)).
  change (retain (λ h e, negb (is_expired e (clock h))) (entries t)) with (retain (λ h e, negb (p h e)) (entries t)).
  set (m1 := retain (λ h e, negb (p h e)) (entries t)).
  assert (Hn1 : removed (entries t) m1 = size (retain p (entries t))).
  { unfold removed, m1. pose proof (retain_size p (entries t)). lia. }
  pose proof (retain_size p (entries t)) as Hsz. fold m1 in Hsz.
  pose proof (batch_keys_length p limit order _ Ho) as Hbl.
  assert (Hlive : ∀ e, m1 !! h = Some e ↔ get_live t h (clock h) = Some e).
  { intros e. unfold m1, get_live. rewrite retain_Some, negb_true_iff. unfold p.
    destruct (entries t !! h) as [e'|]; [|by split; [intros [? _]|]].
    destruct (is_expired e' (clock h)) eqn:He; cbn [negb]; (split; [intros [? ?]|intros ?]; simplify_eq; try done; congruence). }
  split_and!.
  - exact Hlive.
  - unfold has_path. destruct (get_live t h (clock h)) as [e|].
    + rewrite bool_decide_true; [done|]. exists e. by apply Hlive.
    + rewrite bool_decide_false; [done|]. intros [e He%Hlive]. done.
  - lia.
  - intros st Hs%retain_states_lookup. tauto.
  - by rewrite Hn1.
  - pose proof (remove_all_size (batch_keys p limit order) (entries t) (batch_keys_NoDup _ _ _ _ Ho)) as H3.
    rewrite <- H3; [done|]. apply Forall_forall. intros k Hk.
    destruct (batch_keys_spec _ _ _ _ _ Ho Hk) as (v & -> & _). done.
  - intros e He Hx. rewrite !remove_all_lookup. case_decide as Hk; [|done].
    destruct (batch_keys_spec _ _ _ _ _ Ho Hk) as (v & Hv & Hp). unfold p in Hp.
    simplify_eq. congruence.
  - intros e. rewrite remove_all_lookup. by case_decide.
  - rewrite !remove_all_lookup. case_decide; [done|]. done.
  - intros k m' Hb Hle. destruct (batches_drain _ _ _ _ _ Hb) as [_ Hd]. apply Hd. rewrite <- Hn1. exact Hle.
Qed.

Definition demo_entry (x : f64) : PathEntry :=
  {| timestamp := f_zero; next_hop := None; hops := 1; expires := x; random_blobs := []; interface_id := 0;
     packet_hash := None |}.
Definition demo_table : PathTable :=
  insert (insert path_table_new [1] (demo_entry (f_of_Z 5))) [2] (demo_entry (f_of_Z 50)).

Lemma path_table_expiry_witness :
  map_to_list (entries demo_table) ≡ₚ map_to_list (entries demo_table) ∧
  has_path demo_table [2] (f_of_Z 10) = bool_decide (is_Some (get (cull_expired demo_table (λ _, f_of_Z 10)).1 [2])).
Proof.
  split; [reflexivity|].
  apply (path_table_expiry demo_table (λ _, f_of_Z 10) 1 (map_to_list (entries demo_table)) [2] (reflexivity _)).
Defined.

(** ** Replay protection by announce blobs *)

Lemma add_blob_suffix e b :
  (length (random_blobs e) ≤ MAX_RANDOM_BLOBS)%nat →
  random_blobs (add_random_blob e b) =
    drop (length (random_blobs e ++ [b]) - MAX_RANDOM_BLOBS) (random_blobs e ++ [b]).
Proof.
  unfold add_random_blob, MAX_RANDOM_BLOBS. intros H. simpl. rewrite length_app. simpl.
  case_decide as Hl.
  - replace (length (random_blobs e) + 1 - 64)%nat with 1%nat by lia. destruct (random_blobs e); simpl in *; [lia|done].
  - by replace (length (random_blobs e) + 1 - 64)%nat with 0%nat by lia.
Qed.

(** The last [n] elements. *)
Definition last_n {A} (n : nat) (l : list A) : list A := drop (length l - n) l.

Lemma last_n_app {A} n (l k : list A) : last_n n (last_n n l ++ k) = last_n n (l ++ k).
Proof.
  unfold last_n. rewrite !length_app, length_drop.
  destruct (decide (length l ≤ n)%nat).
  - replace (length l - n)%nat with 0%nat by lia. rewrite drop_0. f_equal. lia.
  - replace (drop (length l + length k - n) (l ++ k))
      with (drop (length l + length k - n) (take (length l - n) l ++ (drop (length l - n) l ++ k)))
      by (by rewrite app_assoc, take_drop).
    rewrite (drop_app_ge (take _ _)) by (rewrite length_take; lia). f_equal. rewrite length_take. lia.
Qed.

(** A path remembers its most recent announces: from a new entry, after
    any sequence of announces, exactly the last 64 random blobs are
    recognised, in order, and the last 32 are persisted; adding one changes
    no routing field. *)
Theorem path_blob_window hop h iface mode now blobs blob :
  let e := foldl add_random_blob (path_entry_new hop h iface mode now) blobs in
  random_blobs e = last_n MAX_RANDOM_BLOBS blobs ∧
  has_random_blob e blob = bool_decide (blob ∈ last_n MAX_RANDOM_BLOBS blobs) ∧
  blobs_for_persist e = last_n PERSIST_RANDOM_BLOBS blobs ∧
  with_blobs e [] = path_entry_new hop h iface mode now.
Proof.
  assert (H : ∀ bs e, (length (random_blobs e) ≤ MAX_RANDOM_BLOBS)%nat →
    random_blobs (foldl add_random_blob e bs) = last_n MAX_RANDOM_BLOBS (random_blobs e ++ bs) ∧
    with_blobs (foldl add_random_blob e bs) [] = with_blobs e []).
  { induction bs as [|b bs IH]; intros e He; simpl.
    - rewrite app_nil_r. unfold last_n. by replace (length (random_blobs e) - MAX_RANDOM_BLOBS)%nat with 0%nat by lia.
    - pose proof (add_blob_suffix e b He) as Hb. fold (last_n MAX_RANDOM_BLOBS (random_blobs e ++ [b])) in Hb.
      destruct (IH (add_random_blob e b)) as [-> ->].
      { rewrite Hb. unfold last_n. rewrite length_drop. lia. }
      split; [|done]. rewrite Hb, last_n_app. by rewrite <- app_assoc. }
  intros e. destruct (H blobs (path_entry_new hop h iface mode now)) as [Hb Hw]; [simpl; lia|].
  simpl in Hb. fold e in Hb, Hw. split_and!; [done|by unfold has_random_blob; rewrite Hb| |done].
  unfold blobs_for_persist. rewrite Hb. unfold last_n, MAX_RANDOM_BLOBS, PERSIST_RANDOM_BLOBS.
  rewrite drop_drop, length_drop. f_equal. lia.
Qed.
