(* ===== verification/ReverseTable.v ===== *)
(** * Reverse table

    Models [rns-transport/src/reverse_table.rs]: the routes along which proofs
    of forwarded packets travel back. *)

From S2P Require Import Prelude F64 Table.
From stdpp Require Import prelude list gmap.

Open Scope Z_scope.

Definition REVERSE_TIMEOUT : Z := 480.

Record ReverseEntry := {
  timestamp : f64;
  receiving_interface : Z;
  remaining_hops : Z;
  outbound_interface : option Z;
}.

Record ReverseTable := { entries : gmap bytes ReverseEntry }.

Definition reverse_new : ReverseTable := {| entries := ∅ |}.

Definition insert_with_outbound (t : ReverseTable) (h : bytes) (iface hops : Z) (out : option Z) (now : f64) : ReverseTable :=
  {| entries := <[h := {| timestamp := now; receiving_interface := iface; remaining_hops := hops;
                          outbound_interface := out |}]> (entries t) |}.

Definition insert (t : ReverseTable) (h : bytes) (iface hops : Z) (now : f64) : ReverseTable :=
  insert_with_outbound t h iface hops None now.

Definition get (t : ReverseTable) (h : bytes) : option ReverseEntry := entries t !! h.

Definition remove (t : ReverseTable) (h : bytes) : ReverseTable * option ReverseEntry :=
  ({| entries := delete h (entries t) |}, entries t !! h).

Definition cutoff (now : f64) : f64 := f_sub now (f_of_Z REVERSE_TIMEOUT).

Definition cull_expired (t : ReverseTable) (now : f64) : ReverseTable * nat :=
  let m := retain (λ _ e, f_gt (timestamp e) (cutoff now)) (entries t) in
  ({| entries := m |}, (size (entries t) - size m)%nat).

Definition cull_expired_batch (t : ReverseTable) (limit : nat) (order : list (bytes * ReverseEntry)) (now : f64)
  : ReverseTable * nat :=
  let to_remove := batch_keys (λ _ e, f_le (timestamp e) (cutoff now)) limit order in
  ({| entries := remove_all to_remove (entries t) |}, length to_remove).

Definition cull_dead_interfaces (t : ReverseTable) (alive : gset Z) : ReverseTable * nat :=
  let m := retain (λ _ e, bool_decide (receiving_interface e ∈ alive) &&
                          match outbound_interface e with
                          | Some id => bool_decide (id ∈ alive)
                          | None => true
                          end) (entries t) in
  ({| entries := m |}, (size (entries t) - size m)%nat).

Definition reverse_len (t : ReverseTable) : nat := size (entries t).

(** ** Properties *)

(** Every timestamp is a number. *)
Definition times_ok (t : ReverseTable) : Prop :=
  map_Forall (λ _ e, f_is_nan (timestamp e) = false) (entries t).

(** The reverse table's two culls agree: for numeric timestamps the
    batched cull removes, for any iteration order, only what the full cull
    would remove, [limit] entries at a time, and batches repeated until the
    expired entries are used up leave exactly the full cull's table, the
    entries younger than 480 seconds.  A route through a dead interface is
    dropped exactly when its receiving or recorded outbound interface is
    dead. *)
Theorem reverse_culls_agree t now limit order k m' alive h e :
  times_ok t → f_is_nan (cutoff now) = false → order ≡ₚ map_to_list (entries t) →
  let '(t1, n1) := cull_expired t now in
  let '(t2, n2) := cull_expired_batch t limit order now in
  (get t1 h = Some e ↔ get t h = Some e ∧ f_gt (timestamp e) (cutoff now) = true) ∧
  n2 = Nat.min limit n1 ∧
  (get t1 h = Some e → get t2 h = Some e) ∧ (get t2 h = Some e → get t h = Some e) ∧
  (batches (λ _ e, f_le (timestamp e) (cutoff now)) limit k (entries t) m' → (n1 ≤ k * limit)%nat →
   m' = entries t1) ∧
  (get (cull_dead_interfaces t alive).1 h = Some e ↔
   get t h = Some e ∧ receiving_interface e ∈ alive ∧ ∀ id, outbound_interface e = Some id → id ∈ alive).
Proof.
  intros Ht Hc Ho. unfold cull_expired, cull_expired_batch, get. cbn [entries].
  set (p := λ (_ : bytes) (e : ReverseEntry), f_le (timestamp e) (cutoff now)).
  assert (Hret : retain (λ _ e, f_gt (timestamp e) (cutoff now)) (entries t) = retain (λ k e, negb (p k e)) (entries t)).
  { unfold retain. apply map_filter_ext. intros k0 e0 H0. simpl. unfold p.
    rewrite f_le_gt, negb_involutive by (done || by eapply (Ht k0 e0)). done. }
  rewrite Hret. pose proof (retain_size p (entries t)) as Hsz.
  pose proof (batch_keys_length p limit order _ Ho) as Hbl.
  split_and!.
  - rewrite retain_Some. split; intros [H1 H2]; (split; [done|]); unfold p in *;
      rewrite f_le_gt, negb_involutive in * by (done || by eapply (Ht h e)); done.
  - rewrite Hbl. f_equal. lia.
  - rewrite retain_Some, remove_all_lookup. intros [H1 H2]. case_decide as Hk; [|done].
    destruct (batch_keys_spec _ _ _ _ _ Ho Hk) as (v & Hv & Hp). simplify_eq. by rewrite Hp in H2.
  - rewrite remove_all_lookup. by case_decide.
  - intros Hb Hle. destruct (batches_drain _ _ _ _ _ Hb) as [_ Hd]. apply Hd. fold p. lia.
  - unfold cull_dead_interfaces. cbn [fst entries]. rewrite retain_Some, andb_true_iff, bool_decide_eq_true.
    destruct (outbound_interface e) as [id|]; [rewrite bool_decide_eq_true|]; split; intros (? & ? & H3); split_and!; try done.
    + by intros ? [= <-].
    + by apply H3.
Qed.

Definition demo_reverse : ReverseTable :=
  insert (insert_with_outbound reverse_new [1] 1 3 (Some 2) (f_of_Z 1000)) [2] 1 3 (f_of_Z 100).

Lemma reverse_culls_agree_witness :
  times_ok demo_reverse ∧ f_is_nan (cutoff (f_of_Z 1100)) = false ∧
  (batches (λ _ e, f_le (timestamp e) (cutoff (f_of_Z 1100))) 1 1 (entries demo_reverse)
     (remove_batch (λ _ e, f_le (timestamp e) (cutoff (f_of_Z 1100))) 1 (map_to_list (entries demo_reverse)) (entries demo_reverse)) →
   (1 ≤ 1 * 1)%nat →
   remove_batch (λ _ e, f_le (timestamp e) (cutoff (f_of_Z 1100))) 1 (map_to_list (entries demo_reverse)) (entries demo_reverse)
   = entries (cull_expired demo_reverse (f_of_Z 1100)).1).
Proof.
  assert (Ht : times_ok demo_reverse).
  { apply (bool_decide_eq_true_1 (map_Forall (λ _ e, f_is_nan (timestamp e) = false) (entries demo_reverse))).
    vm_compute. reflexivity. }
  assert (Hn : f_is_nan (cutoff (f_of_Z 1100)) = false) by (vm_compute; reflexivity).
  split; [exact Ht|]. split; [exact Hn|].
  apply (reverse_culls_agree demo_reverse (f_of_Z 1100) 1 (map_to_list (entries demo_reverse)) 1
    (remove_batch (λ _ e, f_le (timestamp e) (cutoff (f_of_Z 1100))) 1 (map_to_list (entries demo_reverse)) (entries demo_reverse))
    ∅ [] {| timestamp := f_zero; receiving_interface := 0; remaining_hops := 0; outbound_interface := None |}
    Ht Hn (reflexivity _)).
Defined.
