(* ===== verification/LinkTable.v ===== *)
(** * Link table

    Models [rns-transport/src/link_table.rs]: the records of forwarded links.
    An interface owner is its registration identity (epoch and revision). *)

From S2P Require Import Prelude F64 Wire Table.
From stdpp Require Import prelude list gmap.

Open Scope Z_scope.

Definition DEFAULT_PER_HOP_TIMEOUT : f64 := f_of_Z 6.
Definition MAX_TRANSIT_LINK_TABLE_ENTRIES : Z := 4096.

Record InterfaceOwnerId := { epoch : Z; revision : Z }.

Record LinkEntry := {
  timestamp : f64;
  next_hop : option bytes;
  interface_id : Z;
  remaining_hops : Z;
  destination_hash : bytes;
  established : bool;
  validated : bool;
  proof_timeout : f64;
  receiving_interface : Z;
  taken_hops : Z;
  interface_owner : option InterfaceOwnerId;
  receiving_owner : option InterfaceOwnerId;
  requested_mode : Z;
  accepted_mtu_ceiling : Z;
}.

Record ExpiredLink := {
  x_next_hop : option bytes;
  x_interface_id : Z;
  x_remaining_hops : Z;
  x_destination_hash : bytes;
  x_receiving_interface : Z;
  x_taken_hops : Z;
}.

Definition expired_link (e : LinkEntry) : ExpiredLink :=
  {| x_next_hop := next_hop e; x_interface_id := interface_id e; x_remaining_hops := remaining_hops e;
     x_destination_hash := destination_hash e; x_receiving_interface := receiving_interface e;
     x_taken_hops := taken_hops e |}.

Definition pending_link_proof_deadline (now : f64) (hops : Z) : f64 :=
  f_add now (f_mul DEFAULT_PER_HOP_TIMEOUT (f_of_Z (Z.max hops 1))).

Definition interface_round_trip_allowance (bitrate : option Z) : f64 :=
  match bitrate with
  | Some rate =>
      if 0 <? rate then f_div (f_mul (f_of_Z 2) (f_of_Z (Z.of_nat MTU * 8))) (f_of_Z (Z.max rate 5)) else f_zero
  | None => f_zero
  end.

Definition transit_link_proof_deadline (now : f64) (hops : Z) (bitrate : option Z) : f64 :=
  f_add (pending_link_proof_deadline now hops) (interface_round_trip_allowance bitrate).

Record LinkTable := { entries : gmap bytes LinkEntry }.

Definition link_table_new : LinkTable := {| entries := ∅ |}.
Definition insert (t : LinkTable) (id : bytes) (e : LinkEntry) : LinkTable := {| entries := <[id := e]> (entries t) |}.
Definition get (t : LinkTable) (id : bytes) : option LinkEntry := entries t !! id.
Definition get_mut (t : LinkTable) (id : bytes) (f : LinkEntry → LinkEntry) : LinkTable :=
  {| entries := alter f id (entries t) |}.
Definition remove (t : LinkTable) (id : bytes) : LinkTable * option LinkEntry :=
  ({| entries := delete id (entries t) |}, entries t !! id).
Definition contains (t : LinkTable) (id : bytes) : bool := bool_decide (is_Some (entries t !! id)).

Definition remove_interface (t : LinkTable) (iface : Z) : LinkTable :=
  {| entries := retain (λ _ e, negb (interface_id e =? iface) && negb (receiving_interface e =? iface)) (entries t) |}.

(** The closure of [retain]: whether the entry stays, and what it reports. *)
Definition stale_check (now cutoff : f64) (e : LinkEntry) : bool * list ExpiredLink :=
  if validated e then (f_gt (timestamp e) cutoff, [])
  else if f_ge now (proof_timeout e) || negb (f_is_finite (proof_timeout e)) then (false, [expired_link e])
  else (true, []).

(** [retain] visits the entries in the map's iteration order. *)
Definition cull_stale (t : LinkTable) (timeout now : f64) (order : list (bytes * LinkEntry))
  : LinkTable * (nat * list ExpiredLink) :=
  let cutoff := f_sub now timeout in
  let m := retain (λ _ e, (stale_check now cutoff e).1) (entries t) in
  let unvalidated_expired := order ≫= λ kv, (stale_check now cutoff kv.2).2 in
  ({| entries := m |}, ((size (entries t) - size m)%nat, unvalidated_expired)).

Definition cull_dead_interfaces (t : LinkTable) (alive : gset Z) : LinkTable * nat :=
  let m := retain (λ _ e, bool_decide (interface_id e ∈ alive) && bool_decide (receiving_interface e ∈ alive)) (entries t) in
  ({| entries := m |}, (size (entries t) - size m)%nat).

(** ** Properties *)

(** A pending entry that lost its chance to be proved. *)
Definition proof_lapsed (now : f64) (e : LinkEntry) : Prop :=
  validated e = false ∧ (f_ge now (proof_timeout e) = true ∨ f_is_finite (proof_timeout e) = false).

Lemma stale_check_lapsed now cut e :
  (stale_check now cut e).2 = if decide (proof_lapsed now e) then [expired_link e] else [].
Proof.
  unfold stale_check, proof_lapsed. destruct (validated e); [rewrite decide_False; [done|by intros [? _]]|].
  destruct (f_ge now (proof_timeout e)), (f_is_finite (proof_timeout e)); cbn [orb negb];
    first [rewrite decide_True; [done|by auto] | rewrite decide_False; [done|intros [_ [?|?]]; done]].
Qed.

Lemma stale_check_keep now cut e :
  (stale_check now cut e).1 = true ↔
    if validated e then f_gt (timestamp e) cut = true
    else f_ge now (proof_timeout e) = false ∧ f_is_finite (proof_timeout e) = true.
Proof.
  unfold stale_check. destruct (validated e); [done|].
  destruct (f_ge now (proof_timeout e)), (f_is_finite (proof_timeout e)); cbn [orb negb fst]; intuition congruence.
Qed.

Lemma collect_lapsed now cut (order : list (bytes * LinkEntry)) :
  (order ≫= λ kv, (stale_check now cut kv.2).2) =
  (λ kv, expired_link kv.2) <$> filter (λ kv, proof_lapsed now kv.2) order.
Proof.
  induction order as [|kv order IH]; [done|]. cbn [mbind list_bind]. rewrite stale_check_lapsed.
  rewrite filter_cons. destruct (decide (proof_lapsed now kv.2)); cbn; [f_equal|]; exact IH.
Qed.

(** Culling the link table is exact: a validated link stays exactly while
    its last traffic is younger than the timeout; an unvalidated one stays
    exactly while its finite proof deadline lies ahead, so no entry waits
    forever; the reported links are, up to order and with multiplicity, the
    route metadata of the unvalidated entries that were dropped, and the
    count is the number of dropped entries. *)
Theorem link_cull_exact t timeout now order id e :
  order ≡ₚ map_to_list (entries t) →
  let '(t', (n, expired)) := cull_stale t timeout now order in
  (get t' id = Some e ↔ get t id = Some e ∧
     if validated e then f_gt (timestamp e) (f_sub now timeout) = true
     else f_ge now (proof_timeout e) = false ∧ f_is_finite (proof_timeout e) = true) ∧
  (size (entries t) = size (entries t') + n)%nat ∧
  expired ≡ₚ (λ kv, expired_link kv.2) <$> filter (λ kv, proof_lapsed now kv.2) (map_to_list (entries t)) ∧
  (get t id = Some e → get t' id = None → validated e = false → expired_link e ∈ expired).
Proof.
  intros Ho. unfold cull_stale, get. cbn [entries].
  pose proof (retain_size (λ (_ : bytes) e, (stale_check now (f_sub now timeout) e).1) (entries t)) as Hsz.
  assert (Hexp : (order ≫= λ kv, (stale_check now (f_sub now timeout) kv.2).2) ≡ₚ
    (λ kv, expired_link kv.2) <$> filter (λ kv, proof_lapsed now kv.2) (map_to_list (entries t))).
  { rewrite collect_lapsed. by rewrite Ho. }
  split_and!; [by rewrite retain_Some, stale_check_keep|cbv beta in Hsz; simpl; lia|done|].
  intros Hg Hn Hv. rewrite Hexp. apply list_elem_of_fmap. exists (id, e). split; [done|].
  apply list_elem_of_filter. split; [|by apply elem_of_map_to_list]. simpl.
  destruct (decide (proof_lapsed now e)) as [|Hl]; [done|exfalso].
  assert (Hk : retain (λ _ e, (stale_check now (f_sub now timeout) e).1) (entries t) !! id = Some e); [|congruence].
  apply retain_Some. split; [done|]. apply stale_check_keep. rewrite Hv. unfold proof_lapsed in Hl.
  destruct (f_ge now (proof_timeout e)), (f_is_finite (proof_timeout e)); tauto.
Qed.

Definition demo_link_entry (v : bool) (x : f64) : LinkEntry :=
  {| timestamp := f_of_Z 100; next_hop := None; interface_id := 1; remaining_hops := 2; destination_hash := [9];
     established := false; validated := v; proof_timeout := x; receiving_interface := 2; taken_hops := 1;
     interface_owner := None; receiving_owner := None; requested_mode := 1; accepted_mtu_ceiling := 500 |}.
Definition demo_links : LinkTable :=
  insert (insert link_table_new [1] (demo_link_entry false (f_of_Z 50))) [2] (demo_link_entry true f_zero).

Lemma link_cull_exact_witness :
  map_to_list (entries demo_links) ≡ₚ map_to_list (entries demo_links) ∧
  expired_link (demo_link_entry false (f_of_Z 50)) ∈
    (cull_stale demo_links (f_of_Z 900) (f_of_Z 120) (map_to_list (entries demo_links))).2.2.
Proof.
  split; [reflexivity|].
  apply (link_cull_exact demo_links (f_of_Z 900) (f_of_Z 120) (map_to_list (entries demo_links)) [1]
    (demo_link_entry false (f_of_Z 50)) (reflexivity _)); vm_compute; reflexivity.
Defined.
