(* ===== verification/Ownership.v ===== *)
(** * Interface ownership: registration revisions shared between threads

    Models [InterfaceOwner] of [rns-transport/src/interface_ownership.rs].  The
    clones of an owner share one [RegistrationState] of atomics, and any number
    of threads call its methods concurrently.  A method is a program over the
    atomic operations ([prog], a free monad), each executed in one indivisible
    step ([exec]); a configuration is the shared state, the threads and the log
    of completed calls, and [step] interleaves the threads in every order.  The
    interleaving is sequentially consistent: reorderings that the
    acquire/release orderings would allow are outside the model.

    [tokio::sync::Notify] is the counter of [notify_waiters] calls: as its
    documentation says, a [Notified] future receives every [notify_waiters] that
    comes after the future's creation, so the future is the counter's value at
    creation and it completes when the counter has moved. *)

From S2P Require Import Prelude.
From stdpp Require Import prelude list.

Open Scope Z_scope.

(** ** The shared state and its atomic operations *)

Record RegistrationState := mkReg {
  retired : bool;
  revision : Z;
  registered_revision : Z;
  changed : nat;
}.

Inductive prog (A : Type) : Type :=
| Ret (a : A)
| LoadRetired (k : bool → prog A)
| StoreRetired (b : bool) (k : prog A)
| LoadRevision (k : Z → prog A)
| CasRevision (old new : Z) (k : bool → prog A)
| LoadRegistered (k : Z → prog A)
| UpdateRegistered (f : Z → option Z) (k : prog A)
| NotifyWaiters (k : prog A)
| Notified (k : nat → prog A)
| Await (g : nat) (k : prog A).
Arguments Ret {A} a.
Arguments LoadRetired {A} k.
Arguments StoreRetired {A} b k.
Arguments LoadRevision {A} k.
Arguments CasRevision {A} old new k.
Arguments LoadRegistered {A} k.
Arguments UpdateRegistered {A} f k.
Arguments NotifyWaiters {A} k.
Arguments Notified {A} k.
Arguments Await {A} g k.

#[export] Instance prog_ret : MRet prog := λ A a, Ret a.
#[export] Instance prog_bind : MBind prog := λ A B f,
  fix go p :=
    match p with
    | Ret a => f a
    | LoadRetired k => LoadRetired (λ b, go (k b))
    | StoreRetired b k => StoreRetired b (go k)
    | LoadRevision k => LoadRevision (λ v, go (k v))
    | CasRevision old new k => CasRevision old new (λ b, go (k b))
    | LoadRegistered k => LoadRegistered (λ v, go (k v))
    | UpdateRegistered g k => UpdateRegistered g (go k)
    | NotifyWaiters k => NotifyWaiters (go k)
    | Notified k => Notified (λ n, go (k n))
    | Await g k => Await g (go k)
    end.

(** One atomic operation; [None] when the program has returned or is parked on
    a notification that has not come. *)
Definition exec {A} (p : prog A) (m : RegistrationState) : option (prog A * RegistrationState) :=
  let '(mkReg t r g n) := m in
  match p with
  | Ret _ => None
  | LoadRetired k => Some (k t, m)
  | StoreRetired b k => Some (k, mkReg b r g n)
  | LoadRevision k => Some (k r, m)
  | CasRevision old new k =>
      if r =? old then Some (k true, mkReg t new g n) else Some (k false, m)
  | LoadRegistered k => Some (k g, m)
  | UpdateRegistered f k =>
      match f g with Some g' => Some (k, mkReg t r g' n) | None => Some (k, m) end
  | NotifyWaiters k => Some (k, mkReg t r g (S n))
  | Notified k => Some (k n, m)
  | Await g0 k => if decide (n = g0) then None else Some (k, m)
  end.

(** ** The methods.  [self] is the owner's own revision. *)

Definition checked_add_u64 (a b : Z) : option Z := if a + b <=? U64_MAX then Some (a + b) else None.

Definition is_current (self : Z) : prog bool :=
  t ← LoadRetired Ret;
  if t : bool then mret false else
  v ← LoadRevision Ret;
  mret (v =? self).

Definition is_registered (self : Z) : prog bool :=
  c ← is_current self;
  if c : bool then g ← LoadRegistered Ret; mret (g =? self) else mret false.

(** The closure [mark_registered] passes to [fetch_update]. *)
Definition ack (self registered : Z) : option Z :=
  if (registered =? U64_MAX) || (registered <? self) then Some self else None.

Definition mark_registered (self : Z) : prog bool :=
  c ← is_current self;
  if negb c then mret false else
  _ ← UpdateRegistered (ack self) (Ret ());
  _ ← NotifyWaiters (Ret ());
  is_registered self.

(** The revision of the owner returned by [next_revision]. *)
Definition next_revision (self : Z) : prog (option Z) :=
  c ← is_current self;
  if negb c then mret None else
  match checked_add_u64 self 1 with
  | None => mret None
  | Some next =>
      won ← CasRevision self next Ret;
      if negb won then mret None else
      _ ← NotifyWaiters (Ret ());
      mret (Some next)
  end.

Definition retire : prog () :=
  _ ← StoreRetired true (Ret ());
  NotifyWaiters (Ret ()).

(** One turn of the loop of [wait_registered]; [None] goes round again. *)
Definition wait_registered (self : Z) : prog (option bool) :=
  notified ← Notified Ret;
  c ← is_current self;
  if negb c then mret (Some false) else
  g ← is_registered self;
  if g : bool then mret (Some true) else
  _ ← Await notified (Ret ());
  mret None.

(** [InterfaceOwner::new]: the epoch counter and a fresh registration. *)
Definition owner_new (NEXT : Z) : res Empty_set (Z * RegistrationState * Z) :=
  match checked_add_u64 NEXT 1 with
  | Some next => Ok (NEXT, mkReg false 0 U64_MAX 0, next)
  | None => Panic
  end.

(** ** Threads *)

Inductive call :=
| CIsCurrent (self : Z)
| CIsRegistered (self : Z)
| CMarkRegistered (self : Z)
| CNextRevision (self : Z)
| CRetire (self : Z)
| CWaitRegistered (self : Z).

Inductive answer :=
| ABool (b : bool)
| ANext (o : option Z)
| AUnit.

Definition call_self (c : call) : Z :=
  match c with
  | CIsCurrent r | CIsRegistered r | CMarkRegistered r | CNextRevision r
  | CRetire r | CWaitRegistered r => r
  end.

(** A call's program; the answer [None] re-enters the loop of the method. *)
Definition code (c : call) : prog (option answer) :=
  match c with
  | CIsCurrent r => b ← is_current r; mret (Some (ABool b))
  | CIsRegistered r => b ← is_registered r; mret (Some (ABool b))
  | CMarkRegistered r => b ← mark_registered r; mret (Some (ABool b))
  | CNextRevision r => o ← next_revision r; mret (Some (ANext o))
  | CRetire r => _ ← retire; mret (Some AUnit)
  | CWaitRegistered r => o ← wait_registered r; mret (option_map ABool o)
  end.

Definition thread : Type := option (call * prog (option answer)).

Record config := mkCfg {
  shared : RegistrationState;
  threads : list thread;
  log : list (call * answer);
}.

(** The owners in circulation: the first one, and those [next_revision] returned. *)
Definition held (r : Z) (l : list (call * answer)) : Prop :=
  r = 0 ∨ ∃ c, (c, ANext (Some r)) ∈ l.

Inductive step : config → config → Prop :=
| step_call c l1 l2 m l :
    held (call_self c) l →
    step (mkCfg m (l1 ++ None :: l2) l) (mkCfg m (l1 ++ Some (c, code c) :: l2) l)
| step_atomic c p p' l1 l2 m m' l :
    exec p m = Some (p', m') →
    step (mkCfg m (l1 ++ Some (c, p) :: l2) l) (mkCfg m' (l1 ++ Some (c, p') :: l2) l)
| step_loop c l1 l2 m l :
    step (mkCfg m (l1 ++ Some (c, Ret None) :: l2) l) (mkCfg m (l1 ++ Some (c, code c) :: l2) l)
| step_return c a l1 l2 m l :
    step (mkCfg m (l1 ++ Some (c, Ret (Some a)) :: l2) l) (mkCfg m (l1 ++ None :: l2) ((c, a) :: l)).

(** [n] idle threads over a fresh owner. *)
Definition start (n : nat) : config := mkCfg (mkReg false 0 U64_MAX 0) (replicate n None) [].
Definition reachable (c : config) : Prop := ∃ n, rtc step (start n) c.

(** ** Winners of the revision race

    [win p] is the revision a program that has already won it will return. *)

Fixpoint win (p : prog (option answer)) : option Z :=
  match p with
  | Ret (Some (ANext o)) => o
  | NotifyWaiters k => win k
  | _ => None
  end.

Definition notifying {A} (p : prog A) : bool :=
  match p with NotifyWaiters _ => true | _ => false end.

(** What every residual program of an owner of revision [r] does: state changes
    are those the methods make, and each is followed by a notification. *)
Fixpoint shape (r : Z) (p : prog (option answer)) : Prop :=
  match p with
  | Ret _ => True
  | LoadRetired k => ∀ b, win (k b) = None ∧ shape r (k b)
  | StoreRetired b k => b = true ∧ notifying k = true ∧ win k = None ∧ shape r k
  | LoadRevision k | LoadRegistered k => ∀ v, win (k v) = None ∧ shape r (k v)
  | CasRevision old new k =>
      old = r ∧ new = r + 1 ∧ new ≤ U64_MAX ∧
      notifying (k true) = true ∧ win (k true) = Some new ∧ shape r (k true) ∧
      win (k false) = None ∧ shape r (k false)
  | UpdateRegistered f k =>
      f = ack r ∧ notifying k = true ∧ win k = None ∧ shape r k
  | NotifyWaiters k => shape r k
  | Notified k => ∀ n, win (k n) = None ∧ shape r (k n)
  | Await _ k => win k = None ∧ shape r k
  end.

Lemma code_shape c : win (code c) = None ∧ shape (call_self c) (code c).
Proof.
  destruct c as [r|r|r|r|r|r];
    unfold code, wait_registered, mark_registered, next_revision, is_registered, is_current, retire,
      checked_add_u64; cbn; try done;
    repeat first [done | progress intros | split | case_match | progress cbn ];
    simplify_eq; lia.
Qed.

(** The winners of a configuration: completed calls first, then calls that
    have won and not yet returned. *)
Definition win_thread (t : thread) : option Z := t ≫= λ cp, win cp.2.
Definition win_log (e : call * answer) : option Z :=
  match e.2 with ANext o => o | _ => None end.
Definition winners (c : config) : list Z := omap win_log c.(log) ++ omap win_thread c.(threads).

Definition thread_ok (m : RegistrationState) (t : thread) : Prop :=
  ∀ c p, t = Some (c, p) → 0 ≤ call_self c ≤ m.(revision) ∧ shape (call_self c) p.

Record Inv1 (c : config) : Prop := mkInv1 {
  inv_winners : winners c ≡ₚ seqZ 1 c.(shared).(revision);
  inv_bound : 0 ≤ c.(shared).(revision) ≤ U64_MAX;
  inv_threads : Forall (thread_ok c.(shared)) c.(threads);
}.

Lemma winners_mid m l1 t l2 l :
  winners (mkCfg m (l1 ++ t :: l2) l) ≡ₚ
    option_list (win_thread t) ++ winners (mkCfg m (l1 ++ l2) l).
Proof.
  unfold winners; simpl log; simpl threads. rewrite !omap_app.
  change (t :: l2) with ([t] ++ l2). rewrite omap_app. simpl.
  destruct (win_thread t); simpl; [|done].
  rewrite !(Permutation_app_comm (omap win_log l)), <-!app_assoc. simpl.
  by rewrite <-Permutation_middle.
Qed.

Lemma thread_ok_mono m m' t :
  m.(revision) ≤ m'.(revision) → thread_ok m t → thread_ok m' t.
Proof. intros Hle Ht c p ->. destruct (Ht c p eq_refl). split; [lia|done]. Qed.

(** How one atomic operation changes the shared state, for a residual of [r]. *)
Lemma exec_cases r p m p' m' :
  shape r p → exec p m = Some (p', m') →
  shape r p' ∧
  ((win p' = win p ∧ m' = m ∧ notifying p = false)
   ∨ (win p' = win p ∧ notifying p = true ∧
      m' = mkReg m.(retired) m.(revision) m.(registered_revision) (S m.(changed)))
   ∨ (notifying p' = true ∧ notifying p = false ∧ m'.(changed) = m.(changed) ∧
      ((win p' = None ∧ win p = None ∧ m' = mkReg true m.(revision) m.(registered_revision) m.(changed))
       ∨ (win p' = None ∧ win p = None ∧ ack r m.(registered_revision) = Some r ∧
          m' = mkReg m.(retired) m.(revision) r m.(changed))
       ∨ (win p = None ∧ win p' = Some (r + 1) ∧ m.(revision) = r ∧ r + 1 ≤ U64_MAX ∧
          m' = mkReg m.(retired) (r + 1) m.(registered_revision) m.(changed))))).
Proof.
  destruct m as [t v g n].
  destruct p as [a|k|b k|k|old new k|k|f k|k|k|g0 k]; simpl; intros Hs He; try done.
  - simplify_eq. destruct (Hs t) as [Hw ?]. split; [done|]. left. done.
  - simplify_eq. destruct Hs as (-> & ? & ? & ?). split; [done|]. right; right. split_and!; try done. left. done.
  - simplify_eq. destruct (Hs v) as [Hw ?]. split; [done|]. left. done.
  - destruct Hs as (-> & -> & ? & ? & ? & ? & ? & ?).
    case_match eqn:Hv; injection He as <- <-; [apply Z.eqb_eq in Hv; subst v|split; [done|left; done]].
    split; [done|]. right; right. split_and!; try done. right; right. done.
  - simplify_eq. destruct (Hs g) as [Hw ?]. split; [done|]. left. done.
  - destruct Hs as (-> & ? & ? & ?). destruct (ack r g) eqn:Ha; injection He as <- <-; [|split; [done|left; done]].
    assert (z = r) as -> by (unfold ack in Ha; case_match; congruence).
    split; [done|]. right; right. split_and!; try done. right; left. done.
  - simplify_eq. split; [done|]. right; left. done.
  - simplify_eq. destruct (Hs n) as [Hw ?]. split; [done|]. left. done.
  - destruct Hs as [Hw ?]. case_decide; simplify_eq. split; [done|]. left. done.
Qed.

Lemma seqZ_snoc m n : 0 ≤ n → seqZ m (n + 1) = seqZ m n ++ [m + n].
Proof. intros. rewrite seqZ_app by lia. done. Qed.

Lemma held_bound r m l ts :
  0 ≤ m.(revision) → winners (mkCfg m ts l) ≡ₚ seqZ 1 m.(revision) → held r l → 0 ≤ r ≤ m.(revision).
Proof.
  intros Hm Hp [->|[c Hc]]; [lia|].
  assert (Hr : r ∈ winners (mkCfg m ts l)).
  { unfold winners. apply elem_of_app. left. apply list_elem_of_omap. by eexists. }
  rewrite Hp, elem_of_seqZ in Hr. lia.
Qed.

Lemma step_inv1 c c' : Inv1 c → step c c' → Inv1 c'.
Proof.
  intros [Hw Hb Ht] Hs. destruct Hs as [c l1 l2 m l Hh|c p p' l1 l2 m m' l He|c l1 l2 m l|c a l1 l2 m l];
    simpl in *; rewrite winners_mid in Hw; apply Forall_app in Ht as [Ht1 [Ht Ht2]%Forall_cons].
  - destruct (code_shape c) as [Hc Hsh]. split; simpl; [|done|].
    + rewrite winners_mid. simpl. by rewrite Hc.
    + apply Forall_app; split; [done|]. constructor; [|done]. intros ?? [= <- <-].
      split; [|done]. eapply (held_bound _ _ l (l1 ++ l2)); eauto. lia.
  - destruct (Ht c p eq_refl) as [Hr Hsh]. destruct (exec_cases _ _ _ _ _ Hsh He) as [Hsh' Hc].
    assert (Hle : revision m ≤ revision m' ≤ U64_MAX).
    { destruct Hc as [(_ & -> & _)|[(_ & _ & ->)|(_ & _ & _ & [(_ & _ & ->)|[(_ & _ & _ & ->)|(_ & _ & ? & ? & ->)]])]]; simpl; lia. }
    split; simpl; [|lia|].
    + rewrite winners_mid. change (winners (mkCfg m' (l1 ++ l2) l)) with (winners (mkCfg m (l1 ++ l2) l)).
      simpl in *. destruct Hc as [(-> & -> & _)|[(-> & _ & ->)|(_ & _ & _ & [(E1 & E2 & ->)|[(E1 & E2 & _ & ->)|(E1 & E2 & E3 & _ & ->)]])]];
        try done; rewrite ?E1, ?E2 in *; simpl in *; try done.
      rewrite seqZ_snoc by lia. rewrite <-E3, <-Hw, <-Permutation_cons_append.
      by rewrite (Z.add_comm 1).
    + apply Forall_app; split; [|constructor].
      1,3: eapply Forall_impl; [eassumption|]; intros; eapply thread_ok_mono; [|done]; lia.
      intros ?? [= <- <-]. split; [lia|done].
  - destruct (code_shape c) as [Hc Hsh]. destruct (Ht _ _ eq_refl). split; simpl; [|done|].
    + rewrite winners_mid. simpl. by rewrite Hc.
    + apply Forall_app; split; [done|]. constructor; [|done]. by intros ?? [= <- <-].
  - split; simpl; [|done|].
    + rewrite winners_mid. simpl. rewrite <-Hw. unfold winners; simpl.
      destruct a; simpl; try done. unfold win_log at 1. simpl. by destruct o.
    + apply Forall_app; split; [done|]. by constructor.
Qed.

Lemma start_inv1 n : Inv1 (start n).
Proof.
  split; simpl; [|unfold U64_MAX; lia|].
  - unfold winners; simpl. induction n; simpl in *; done.
  - apply Forall_replicate. by intros ???.
Qed.

Lemma reachable_inv1 c : reachable c → Inv1 c.
Proof.
  intros [n Hr]. revert c Hr. apply rtc_ind_r; eauto using start_inv1, step_inv1.
Qed.

(** ** Rely/guarantee

    A view is the shared state together with whether some thread is about to
    notify.  [rely] is what every step of every thread guarantees to all the
    others while the revision counter is not exhausted: nothing is undone, and
    until the next notification a change of the state leaves a thread about to
    notify. *)

Definition view : Type := RegistrationState * bool.

Definition stale (r : Z) (m : RegistrationState) : Prop := m.(retired) = true ∨ r < m.(revision).
Definition acked (r : Z) (m : RegistrationState) : Prop :=
  m.(registered_revision) ≠ U64_MAX ∧ r ≤ m.(registered_revision).
Definition good (m : RegistrationState) : Prop :=
  0 ≤ m.(revision) < U64_MAX ∧
  (m.(registered_revision) = U64_MAX ∨ 0 ≤ m.(registered_revision) ≤ m.(revision)).

Record rely (v v' : view) : Prop := mkRely {
  rely_retired : v.1.(retired) = true → v'.1.(retired) = true;
  rely_revision : v.1.(revision) ≤ v'.1.(revision);
  rely_registered : ∀ r, acked r v.1 → acked r v'.1;
  rely_changed : (v.1.(changed) ≤ v'.1.(changed))%nat;
  rely_same : v'.1.(changed) = v.1.(changed) → v'.2 = true ∨ (v.2 = false ∧ v'.1 = v.1);
  rely_good : good v'.1;
}.

Lemma rely_refl v : good v.1 → rely v v.
Proof. intros. split; auto with lia. destruct v.2; auto. Qed.

Lemma rely_trans v1 v2 v3 : rely v1 v2 → rely v2 v3 → rely v1 v3.
Proof.
  intros [] []. split; auto; [lia|lia|]. intros He.
  destruct (rely_same1 ltac:(lia)) as [?|[Hf E]]; [auto|].
  destruct (rely_same0 ltac:(lia)) as [?|[? E']]; [congruence|]. right. split; congruence.
Qed.

Lemma stale_rely r v v' : rely v v' → stale r v.1 → stale r v'.1.
Proof. intros [] [?|?]; [left; auto|right; lia]. Qed.

(** A fact about the state that holds unless a notification later than
    generation [g] was sent or is about to be. *)
Definition settled (g : nat) (P : RegistrationState → Prop) (v : view) : Prop :=
  (g ≤ v.1.(changed))%nat ∧ (v.1.(changed) = g → v.2 = true ∨ P v.1).

Lemma settled_rely g P v v' : rely v v' → settled g P v → settled g P v'.
Proof.
  intros [] [Hg Hs]. split; [lia|]. intros He.
  destruct (rely_same0 ltac:(lia)) as [?|[Hf E]]; [auto|].
  destruct (Hs ltac:(lia)) as [?|?]; [congruence|]. right. by rewrite E.
Qed.

(** A waiter of revision [r] parked on generation [g] has nothing to wake for,
    or will be woken. *)
Definition parked (r : Z) (g : nat) (v : view) : Prop :=
  settled g (λ m, m.(retired) = false ∧ m.(revision) = r ∧ m.(registered_revision) ≠ r) v.

(** The condition under which a program's answer satisfies [Q], whatever the
    other threads do between its operations. *)
Fixpoint wp {A} (r : Z) (p : prog A) (Q : A → view → Prop) (v : view) : Prop :=
  ∀ v', rely v v' →
  match p with
  | Ret a => Q a v'
  | LoadRetired k => wp r (k v'.1.(retired)) Q v'
  | LoadRevision k => wp r (k v'.1.(revision)) Q v'
  | LoadRegistered k => wp r (k v'.1.(registered_revision)) Q v'
  | Notified k => wp r (k v'.1.(changed)) Q v'
  | Await g k => parked r g v' ∧ wp r k Q v'
  | StoreRetired b k => ∀ v'', rely v' v'' → v''.1.(retired) = b → wp r k Q v''
  | CasRevision old new k =>
      if v'.1.(revision) =? old
      then ∀ v'', rely v' v'' → v''.1.(revision) = new → wp r (k true) Q v''
      else wp r (k false) Q v'
  | UpdateRegistered f k =>
      ∀ v'', rely v' v'' →
        v''.1.(registered_revision) = default v'.1.(registered_revision) (f v'.1.(registered_revision)) →
        wp r k Q v''
  | NotifyWaiters k => wp r k Q v'
  end.

Lemma wp_rely {A} r (p : prog A) Q v v' : rely v v' → wp r p Q v → wp r p Q v'.
Proof. intros Hv Hw. destruct p; intros v2 Hv2; apply (Hw v2); eapply rely_trans; eauto. Qed.

Lemma wp_mono {A} r (p : prog A) (Q Q' : A → view → Prop) v :
  (∀ a v', rely v v' → Q a v' → Q' a v') → wp r p Q v → wp r p Q' v.
Proof.
  revert v. induction p as [a|k IH|b k IH|k IH|o n k IH|k IH|f k IH|k IH|k IH|g k IH];
    intros v HQ Hw v' Hv; specialize (Hw v' Hv); cbn in Hw |- *; intros;
    try (case_match; intros); try (destruct Hw as [? Hw]; split; [done|]);
    try (eapply IH; [intros; eapply HQ; [|done]|first [exact Hw | apply Hw; assumption]]);
    eauto using rely_trans.
Qed.

Lemma wp_bind {A B} r (p : prog A) (f : A → prog B) Q v :
  wp r p (λ a v', wp r (f a) Q v') v → wp r (p ≫= f) Q v.
Proof.
  revert v. induction p as [a|k IH|b k IH|k IH|o n k IH|k IH|g k IH|k IH|k IH|g k IH]; intros v Hw.
  { change (wp r (f a) Q v). assert (Hk : ∀ v', rely v v' → wp r (f a) Q v') by exact Hw.
    destruct (f a); intros v' Hv; apply (Hk v' Hv v'); apply rely_refl, Hv. }
  all: intros v' Hv; specialize (Hw v' Hv); cbn in Hw |- *;
    try (case_match); try (destruct Hw as [? Hw]; split; [done|]); intros; apply IH; first [exact Hw | apply Hw; assumption].
Qed.

(** ** Specifications of the methods *)

Lemma is_current_wp r self g v :
  (g ≤ v.1.(changed))%nat → self ≤ v.1.(revision) →
  wp r (is_current self)
    (λ b v', if b then settled g (λ m, m.(retired) = false ∧ m.(revision) = self) v'
             else stale self v'.1) v.
Proof.
  intros Hg Hs v1 Hv1. pose proof (rely_changed _ _ Hv1). pose proof (rely_revision _ _ Hv1).
  destruct (retired v1.1) eqn:Ht.
  { intros v2 Hv2. left. by apply Hv2. }
  intros v2 Hv2 v3 Hv3. pose proof (rely_changed _ _ Hv2). pose proof (rely_revision _ _ Hv2).
  assert (S1 : settled g (λ m, retired m = false) v2).
  { apply (settled_rely _ _ v1); [done|]. split; [lia|auto]. }
  destruct (Z.eqb_spec (revision v2.1) self) as [E|E].
  - apply (settled_rely _ _ v2); [done|]. destruct S1 as [? S1]. split; [done|].
    intros He. destruct (S1 He); auto.
  - apply (stale_rely _ v2); [done|]. right. lia.
Qed.

Lemma is_registered_wp r self g v :
  (g ≤ v.1.(changed))%nat → 0 ≤ self ≤ v.1.(revision) →
  wp r (is_registered self)
    (λ b v', (g ≤ v'.1.(changed))%nat ∧
       if b then acked self v'.1
       else settled g (λ m, stale self m ∨ m.(registered_revision) ≠ self) v' ∧
            (acked self v.1 → stale self v'.1)) v.
Proof.
  intros Hg Hs. apply wp_bind. eapply wp_mono; [|apply (is_current_wp r self g v); lia].
  intros [|] v1 Hv1 H1.
  - intros v2 Hv2 v3 Hv3. pose proof (rely_revision _ _ Hv1). pose proof (rely_revision _ _ Hv2).
    pose proof (rely_changed _ _ Hv1). pose proof (rely_changed _ _ Hv2).
    pose proof (rely_changed _ _ Hv3). split; [lia|].
    destruct (rely_good _ _ Hv2) as [Hg1 Hg2].
    destruct (Z.eqb_spec (registered_revision v2.1) self) as [E|E].
    + apply Hv3. split; lia.
    + split; [apply (settled_rely _ _ v2); [done|]; split; [lia|auto]|].
      intros Ha. apply (stale_rely _ v2); [done|]. right.
      destruct (rely_registered _ _ Hv2 _ (rely_registered _ _ Hv1 _ Ha)). lia.
  - intros v2 Hv2. pose proof (rely_changed _ _ Hv1). pose proof (rely_changed _ _ Hv2).
    pose proof (stale_rely _ _ _ Hv2 H1). split; [lia|]. split; [split; [lia|auto]|done].
Qed.

Lemma mark_registered_wp r self v :
  0 ≤ self ≤ v.1.(revision) →
  wp r (mark_registered self) (λ b v', if b then acked self v'.1 else stale self v'.1) v.
Proof.
  intros Hs. apply wp_bind. eapply wp_mono; [|apply (is_current_wp r self (v.1.(changed)) v); lia].
  intros [|] v1 Hv1 H1; simpl; [|intros v2 Hv2; by apply (stale_rely _ v1)].
  intros v2 Hv2 v3 Hv3 E3 v4 Hv4.
  pose proof (rely_revision _ _ Hv1). pose proof (rely_revision _ _ Hv2).
  pose proof (rely_revision _ _ Hv3). pose proof (rely_revision _ _ Hv4).
  assert (Ha : acked self v4.1).
  { apply Hv4. destruct (rely_good _ _ Hv3). unfold acked. rewrite E3.
    unfold ack. destruct (_ || _) eqn:Ho; simpl; [lia|]. apply orb_false_iff in Ho. lia. }
  refine (wp_mono r (is_registered self) _ _ v4 _ (is_registered_wp r self 0%nat v4 _ _)); [|lia|lia].
  intros [|] v5 Hv5 [_ H5]; [done|]. by apply H5.
Qed.

Lemma next_revision_wp r self v :
  0 ≤ self ≤ v.1.(revision) →
  wp r (next_revision self)
    (λ o v', stale self v'.1 ∧ ∀ n, o = Some n → n = self + 1 ∧ n ≤ v'.1.(revision)) v.
Proof.
  intros Hs. apply wp_bind. eapply wp_mono; [|apply (is_current_wp r self (v.1.(changed)) v); lia].
  intros [|] v1 Hv1 H1; simpl.
  2: { intros v2 Hv2. split; [by apply (stale_rely _ v1)|done]. }
  pose proof (rely_revision _ _ Hv1). pose proof (rely_good _ _ Hv1) as [Hg1 _].
  unfold checked_add_u64. rewrite (proj2 (Z.leb_le _ _)) by lia.
  intros v2 Hv2. pose proof (rely_revision _ _ Hv2).
  destruct (Z.eqb_spec (revision v2.1) self) as [E|E].
  - intros v3 Hv3 E3 v4 Hv4 v5 Hv5. pose proof (rely_revision _ _ Hv4). pose proof (rely_revision _ _ Hv5).
    split; [right; lia|]. intros n [= <-]. lia.
  - intros v3 Hv3. pose proof (rely_revision _ _ Hv3). split; [right; lia|done].
Qed.

Lemma wait_registered_wp self v :
  0 ≤ self ≤ v.1.(revision) →
  wp self (wait_registered self)
    (λ o v', match o with Some true => acked self v'.1 | Some false => stale self v'.1 | None => True end) v.
Proof.
  intros Hs v0 Hv0. pose proof (rely_revision _ _ Hv0). set (g := changed v0.1).
  refine (wp_bind self (is_current self) _ _ v0 _). eapply wp_mono; [|apply (is_current_wp self self g v0); unfold g; lia].
  intros [|] v1 Hv1 H1; simpl; [|intros v2 Hv2; by apply (stale_rely _ v1)].
  pose proof (rely_revision _ _ Hv1). pose proof (rely_changed _ _ Hv1).
  refine (wp_bind self (is_registered self) _ _ v1 _).
  eapply wp_mono; [|apply (is_registered_wp self self g v1); unfold g; lia].
  intros [|] v2 Hv2 [Hg Hn]; simpl; [intros v3 Hv3; by apply Hv3|].
  destruct Hn as [Hn _]. intros v3 Hv3. split; [|done].
  apply (settled_rely _ _ v1 v3) in H1; [|by eapply rely_trans].
  apply (settled_rely _ _ v2 v3) in Hn; [|done].
  destruct H1 as [? H1], Hn as [_ Hn]. split; [done|]. intros He.
  destruct (H1 He) as [|[Ht Hr]]; [auto|]. destruct (Hn He) as [|[[?|?]|?]]; auto; [congruence|lia].
Qed.

(** What a completed call of each method tells about the state from then on. *)
Definition post (c : call) (o : option answer) (v : view) : Prop :=
  match c, o with
  | _, None => True
  | CIsCurrent r, Some a => a = ABool false → stale r v.1
  | CIsRegistered r, Some a => a = ABool true → acked r v.1
  | CMarkRegistered r, Some a | CWaitRegistered r, Some a =>
      ∃ b, a = ABool b ∧ if b : bool then acked r v.1 else stale r v.1
  | CNextRevision r, Some a =>
      ∃ o, a = ANext o ∧ stale r v.1 ∧ ∀ n, o = Some n → n = r + 1 ∧ n ≤ v.1.(revision)
  | CRetire r, Some a => stale r v.1
  end.

Lemma post_rely c o v v' : rely v v' → post c o v → post c o v'.
Proof.
  intros Hv. pose proof (rely_revision _ _ Hv). pose proof (λ r, stale_rely r _ _ Hv) as Hst.
  pose proof (rely_registered _ _ Hv) as Hreg.
  destruct o as [a|]; [|by destruct c]. destruct c as [r|r|r|r|r|r]; simpl; auto.
  - intros (b & -> & ?). exists b. split; [done|]. destruct b; auto.
  - intros (o & -> & ? & Ho). exists o. split; [done|]. split; [auto|].
    intros n Hn. destruct (Ho n Hn). lia.
  - intros (b & -> & ?). exists b. split; [done|]. destruct b; auto.
Qed.

Lemma code_wp c v : 0 ≤ call_self c ≤ v.1.(revision) → wp (call_self c) (code c) (post c) v.
Proof.
  destruct c as [r|r|r|r|r|r]; cbn [call_self code]; intros Hr.
  - apply wp_bind. eapply wp_mono; [|apply (is_current_wp r r 0); lia].
    intros [] v1 _ H v2 Hv2; simpl; [done|]. eauto using stale_rely.
  - apply wp_bind. eapply wp_mono; [|apply (is_registered_wp r r 0); lia].
    intros [] v1 _ [_ H] v2 Hv2; simpl; [|done]. eauto using rely_registered.
  - apply wp_bind. eapply wp_mono; [|by apply mark_registered_wp].
    intros b v1 _ H v2 Hv2; exists b. split; [done|]. destruct b; eauto using rely_registered, stale_rely.
  - apply wp_bind. eapply wp_mono; [|by apply next_revision_wp].
    intros o v1 _ H v2 Hv2. apply (post_rely _ _ v1); [done|]. by exists o.
  - intros v1 Hv1 v2 Hv2 E v3 Hv3 v4 Hv4. left. by apply Hv4, Hv3.
  - apply wp_bind. eapply wp_mono; [|by apply wait_registered_wp].
    intros [b|] v1 _ H v2 Hv2; [|done]. exists b. split; [done|].
    destruct b; eauto using rely_registered, stale_rely.
Qed.

(** ** Every step of every thread respects [rely] *)

Definition thread_notifying (t : thread) : bool :=
  match t with Some (_, p) => notifying p | None => false end.
Definition view_of (c : config) : view := (c.(shared), existsb thread_notifying c.(threads)).

Lemma notifying_mid l1 t l2 :
  existsb thread_notifying (l1 ++ t :: l2) =
    thread_notifying t || existsb thread_notifying (l1 ++ l2).
Proof. rewrite !existsb_app. simpl. destruct (thread_notifying t); [by rewrite orb_true_r|done]. Qed.

(** A step that leaves the state alone and does not stop a thread from notifying. *)
Lemma rely_quiet m l1 t t' l2 l l' :
  good m → thread_notifying t = false →
  rely (view_of (mkCfg m (l1 ++ t :: l2) l)) (view_of (mkCfg m (l1 ++ t' :: l2) l')).
Proof.
  intros Hg Ht. split; simpl; auto with lia. intros _. rewrite !notifying_mid, Ht. simpl.
  destruct (thread_notifying t'); simpl; [auto|]. destruct (existsb _ _); auto.
Qed.

Lemma ack_acked r g self m :
  ack self g = Some self → m.(registered_revision) = g → 0 ≤ self < U64_MAX →
  acked r m → r ≤ self.
Proof.
  unfold ack, acked. destruct (_ || _) eqn:E; [|done]. apply orb_true_iff in E. lia.
Qed.

Lemma step_rely c c' :
  Inv1 c → good c.(shared) → step c c' → c'.(shared).(revision) < U64_MAX →
  rely (view_of c) (view_of c').
Proof.
  intros [_ _ Ht] Hg Hs Hb. destruct Hs as [c l1 l2 m l Hh|c p p' l1 l2 m m' l He|c l1 l2 m l|c a l1 l2 m l];
    simpl in Hg, Ht, Hb; try by apply rely_quiet.
  apply Forall_app in Ht as [_ [Ht _]%Forall_cons]. destruct (Ht c p eq_refl) as [Hr Hsh].
  destruct (exec_cases _ _ _ _ _ Hsh He)
    as [_ [(_ & -> & Hn)|[(_ & Hn & ->)|(Hn & Hn0 & _ & Hc)]]]; [by apply rely_quiet| |].
  { split; simpl; auto with lia; intros; lia. }
  assert (Hy : thread_notifying (Some (c, p')) = true) by done.
  destruct Hg as [Hg1 Hg2].
  destruct Hc as [(_ & _ & ->)|[(_ & _ & Ha & ->)|(_ & _ & Hv & _ & ->)]];
    split; cbn [view_of shared fst snd retired revision registered_revision changed threads] in *;
    try (intros; left; rewrite notifying_mid, Hy; done); auto with lia.
  - split; simpl; auto.
  - intros r Hac. pose proof (ack_acked _ _ _ m Ha eq_refl ltac:(lia) Hac). split; simpl; lia.
  - split; simpl; lia.
  - split; simpl; lia.
Qed.

(** The invariant of the whole system below counter exhaustion. *)
Record Inv2 (c : config) : Prop := mkInv2 {
  inv_good : good c.(shared);
  inv_wp : ∀ k p, Some (k, p) ∈ c.(threads) → wp (call_self k) p (post k) (view_of c);
  inv_log : ∀ k a, (k, a) ∈ c.(log) → post k (Some a) (view_of c);
}.

Lemma exec_wp {A} r (p p' : prog A) Q m m' b v' :
  good m → wp r p Q (m, b) → exec p m = Some (p', m') → rely (m, b) v' → v'.1 = m' → wp r p' Q v'.
Proof.
  intros Hg Hw He Hv Hm. pose proof (rely_refl (m, b) Hg) as Hrf.
  destruct v' as [? b'], m as [t v g n]. cbn in Hm. subst.
  destruct p as [a|k|b0 k|k|old new k|k|f k|k|k|g0 k]; simpl in He; try done;
    specialize (Hw _ Hrf); cbn [fst retired revision registered_revision changed] in Hw.
  1,3,5,8: simplify_eq; by eapply wp_rely.
  - simplify_eq. by apply Hw.
  - destruct (v =? old); simplify_eq; [|by eapply wp_rely]. by apply Hw.
  - destruct (f g) as [g'|] eqn:Hf; simplify_eq; apply Hw; try done; simpl; by rewrite ?Hf.
  - simplify_eq. by eapply wp_rely.
  - case_decide; simplify_eq. destruct Hw as [_ Hw]. by eapply wp_rely.
Qed.

Lemma elem_of_mid {A} (x t : A) l1 l2 : x ∈ l1 ++ t :: l2 ↔ x = t ∨ x ∈ l1 ++ l2.
Proof. rewrite !elem_of_app, elem_of_cons. tauto. Qed.

Lemma step_inv2 c c' :
  Inv1 c → Inv2 c → step c c' → c'.(shared).(revision) < U64_MAX → Inv2 c'.
Proof.
  intros H1 [Hg Hw Hl] Hs Hb. pose proof (step_rely _ _ H1 Hg Hs Hb) as Hv.
  pose proof (step_inv1 _ _ H1 Hs) as [_ _ Ht'].
  split; [by apply (rely_good _ _ Hv)| |].
  - assert (Hold : ∀ k p, Some (k, p) ∈ threads c → wp (call_self k) p (post k) (view_of c'))
      by (intros; eapply wp_rely; eauto).
    assert (Hnew : ∀ k, Some (k, code k) ∈ threads c' → wp (call_self k) (code k) (post k) (view_of c')).
    { intros k Hk. apply code_wp. rewrite Forall_forall in Ht'. by destruct (Ht' _ Hk _ _ eq_refl). }
    destruct Hs as [c l1 l2 m l Hh|c p p' l1 l2 m m' l He|c l1 l2 m l|c a l1 l2 m l]; simpl in *;
      intros k q [Hq|Hq]%elem_of_mid; try (apply Hold, elem_of_mid; by right); simplify_eq.
    1,3: apply Hnew, elem_of_mid; by left.
    eapply exec_wp; [exact Hg| |exact He|exact Hv|done]. apply Hw, elem_of_mid. by left.
  - assert (Hold : ∀ k a, (k, a) ∈ log c → post k (Some a) (view_of c')) by (intros; eapply post_rely; eauto).
    destruct Hs as [c l1 l2 m l Hh|c p p' l1 l2 m m' l He|c l1 l2 m l|c a l1 l2 m l]; simpl in *; auto.
    intros k a' [Hq|Hq]%elem_of_cons; [|auto]. simplify_eq.
    assert (Hp : wp (call_self c) (Ret (Some a)) (post c) (view_of (mkCfg m (l1 ++ Some (c, Ret (Some a)) :: l2) l))).
    { apply Hw, elem_of_mid. by left. }
    by apply Hp.
Qed.

Lemma reachable_inv2 c : reachable c → c.(shared).(revision) < U64_MAX → Inv2 c.
Proof.
  intros [n Hr]. revert c Hr. refine (rtc_ind_r (λ c, revision (shared c) < U64_MAX → Inv2 c) _ _ _).
  - intros _. split.
    + split; simpl; [unfold U64_MAX; lia|auto].
    + intros k p Hk. apply elem_of_replicate in Hk as [? _]. done.
    + intros k a Hk. by apply elem_of_nil in Hk.
  - intros c c' Hr Hs IH Hb. assert (H1 : Inv1 c) by (apply reachable_inv1; by exists n).
    assert (Hle : revision (shared c) ≤ revision (shared c')).
    { destruct (step_inv1 _ _ H1 Hs) as [_ _ _]. destruct H1 as [_ _ Ht].
      destruct Hs as [| c p p' l1 l2 m m' l He| |]; simpl in *; try lia.
      apply Forall_app in Ht as [_ [Ht _]%Forall_cons]. destruct (Ht c p eq_refl) as [Hr' Hsh].
      destruct (exec_cases _ _ _ _ _ Hsh He) as [_ [(_ & -> & _)|[(_ & _ & ->)|(_ & _ & _ & [(_ & _ & ->)|[(_ & _ & _ & ->)|(_ & _ & ? & _ & ->)]])]]]; simpl; lia. }
    eapply step_inv2; [done|apply IH; lia|done|done].
Qed.

(** ** Schedules: an executable run of the threads *)

Inductive action := Begin (i : nat) (k : call) | Go (i : nat).

Definition heldb (r : Z) (l : list (call * answer)) : bool :=
  (r =? 0) || existsb (λ e, match e.2 with ANext (Some n) => n =? r | _ => false end) l.

Definition put (c : config) (i : nat) (m : RegistrationState) (t : thread) (l : list (call * answer)) : config :=
  mkCfg m (take i c.(threads) ++ t :: drop (S i) c.(threads)) l.

Definition act (c : config) (a : action) : option config :=
  match a with
  | Begin i k =>
      match c.(threads) !! i with
      | Some None => if heldb (call_self k) c.(log) then Some (put c i c.(shared) (Some (k, code k)) c.(log)) else None
      | _ => None
      end
  | Go i =>
      match c.(threads) !! i with
      | Some (Some (k, Ret None)) => Some (put c i c.(shared) (Some (k, code k)) c.(log))
      | Some (Some (k, Ret (Some a))) => Some (put c i c.(shared) None ((k, a) :: c.(log)))
      | Some (Some (k, p)) => '(p', m') ← exec p c.(shared); Some (put c i m' (Some (k, p')) c.(log))
      | _ => None
      end
  end.

Fixpoint run (c : config) (l : list action) : option config :=
  match l with [] => Some c | a :: l => c' ← act c a; run c' l end.

Lemma heldb_held r l : heldb r l = true → held r l.
Proof.
  unfold heldb, held. intros [?%Z.eqb_eq|He]%orb_true_iff; [by left|]. right.
  apply existsb_exists in He as ([k a] & Hi & He). simpl in He.
  destruct a as [|[n|]|]; try done. apply Z.eqb_eq in He as ->.
  exists k. by apply list_elem_of_In.
Qed.

Lemma act_step c a c' : act c a = Some c' → step c c'.
Proof.
  destruct c as [m ts l]. unfold act, put; simpl. destruct a as [i k|i].
  - destruct (ts !! i) as [[|]|] eqn:Hi; try done. destruct (heldb _ _) eqn:Hh; [|done]. intros [= <-].
    rewrite <-(take_drop_middle _ _ _ Hi) at 1. by apply step_call, heldb_held.
  - destruct (ts !! i) as [[[k p]|]|] eqn:Hi; try done.
    assert (Hat : (∃ pm, exec p m = Some pm ∧
              Some (mkCfg pm.2 (take i ts ++ Some (k, pm.1) :: drop (S i) ts) l) = Some c') → step (mkCfg m ts l) c').
    { intros ([p' m'] & He & [= <-]). rewrite <-(take_drop_middle _ _ _ Hi) at 1. by apply step_atomic. }
    destruct p as [[a|]| | | | | | | | |];
      try (destruct (exec _ m) as [[p' m']|] eqn:He; [intros E; apply Hat; eexists; split; [reflexivity|exact E]|done]);
      intros [= <-]; rewrite <-(take_drop_middle _ _ _ Hi) at 1;
      [apply step_return|apply step_loop].
Qed.

Lemma run_rtc c l c' : run c l = Some c' → rtc step c c'.
Proof.
  revert c. induction l as [|a l IH]; simpl; intros c; [intros [= <-]; constructor|].
  destruct (act c a) as [c1|] eqn:Ha; [|done]. simpl. intros Hr.
  eapply rtc_l; [by eapply act_step|by apply IH].
Qed.

Lemma run_reachable n l c : run (start n) l = Some c → reachable c.
Proof. intros. exists n. by eapply run_rtc. Qed.

(** ** Properties *)

(** C21.  Every revision of an owner is handed to exactly one caller.  In every
    interleaving of any number of threads, the revisions that completed calls
    of [next_revision] returned, together with those of the calls that have won
    the compare-and-swap and not returned yet, are exactly 1, 2, ..., the
    current revision, each once; in particular no two calls return the same
    revision and none is skipped. *)
Theorem owner_revision_race c :
  reachable c →
  winners c ≡ₚ seqZ 1 c.(shared).(revision) ∧ NoDup (omap win_log c.(log)).
Proof.
  intros Hr. destruct (reachable_inv1 _ Hr) as [Hw Hb _]. split; [done|].
  assert (Hn : NoDup (winners c)) by (rewrite Hw; apply NoDup_seqZ).
  unfold winners in Hn. by apply NoDup_app in Hn as (? & _).
Qed.

(** What a completed call of an owner's method tells stays true in every
    later state, under every interleaving (the log only grows, and this holds
    of every reachable state below exhaustion of the 64-bit counter): a
    [false] of [is_current] means the owner is retired or superseded for good;
    [mark_registered] either left an acknowledgement at or above the owner's
    revision or found it stale; [next_revision] leaves its own revision stale,
    and a returned owner is the next one; [retire] makes the owner stale for
    good. *)
Theorem owner_calls_stable c k a :
  reachable c → c.(shared).(revision) < U64_MAX → (k, a) ∈ c.(log) →
  let m := c.(shared) in
  match k with
  | CIsCurrent r => a = ABool false → stale r m
  | CIsRegistered r => a = ABool true → acked r m
  | CMarkRegistered r | CWaitRegistered r =>
      ∃ b, a = ABool b ∧ if b : bool then acked r m else stale r m
  | CNextRevision r =>
      ∃ o, a = ANext o ∧ stale r m ∧ ∀ n, o = Some n → n = r + 1 ∧ n ≤ m.(revision)
  | CRetire r => stale r m
  end.
Proof. intros Hr Hb Hin. pose proof (inv_log _ (reachable_inv2 _ Hr Hb) _ _ Hin) as H. by destruct k. Qed.

(** C36.  No lost wakeups.  Whenever a waiter is parked in [wait_registered]
    on a notification that has not come, then either its owner is current and
    not registered, so there is nothing to wake it for, or some thread is just
    about to notify; and that thread's next step lets the waiter run. *)
Theorem owner_no_lost_wakeup c r g k :
  reachable c → c.(shared).(revision) < U64_MAX →
  Some (CWaitRegistered r, Await g k) ∈ c.(threads) →
  exec (Await g k) c.(shared) = None →
  (c.(shared).(retired) = false ∧ c.(shared).(revision) = r ∧ c.(shared).(registered_revision) ≠ r) ∨
  (∃ k' p, Some (k', NotifyWaiters p) ∈ c.(threads) ∧
     ∀ p' m', exec (NotifyWaiters p) c.(shared) = Some (p', m') → exec (Await g k) m' = Some (k, m')).
Proof.
  intros Hr Hb Hin He. pose proof (reachable_inv2 _ Hr Hb) as [Hg Hw _].
  destruct (Hw _ _ Hin _ (rely_refl (view_of c) Hg)) as [[Hge Hp] _].
  assert (Hc : changed (shared c) = g).
  { destruct (shared c); simpl in *. by case_decide. }
  destruct (Hp Hc) as [Hn|?]; [|by left]. right.
  unfold view_of in Hn; simpl in Hn. apply existsb_exists in Hn as ([[k' p]|] & Hi & Hn); [|done].
  destruct p as [| | | | | | |p| |]; try done. exists k', p. split; [by apply list_elem_of_In|].
  intros p' m'. rewrite <-Hc. destruct (shared c). intros [= <- <-]. cbn. case_decide; [lia|done].
Qed.

(** Two threads race for revision 1 from the same owner; the second thread then
    observes that its owner is superseded. *)
Definition race_schedule : list action :=
  [Begin 0 (CNextRevision 0); Begin 1 (CNextRevision 0)] ++
  [Go 0; Go 1; Go 0; Go 1; Go 1; Go 0; Go 1; Go 0; Go 1]%nat.
Definition race_config : config := default (start 0) (run (start 2) race_schedule).

Lemma race_reachable : reachable race_config.
Proof. apply (run_reachable 2 race_schedule). vm_compute. reflexivity. Qed.

Lemma owner_revision_race_witness :
  winners race_config ≡ₚ [1] ∧ NoDup (omap win_log (log race_config)).
Proof. exact (owner_revision_race race_config race_reachable). Defined.

Lemma owner_calls_stable_witness : stale 0 (shared race_config) ∧ revision (shared race_config) = 1.
Proof.
  split; [|reflexivity].
  destruct (owner_calls_stable race_config (CNextRevision 0) (ANext None)) as (o & _ & H & _).
  - exact race_reachable.
  - reflexivity.
  - vm_compute. right. left.
  - exact H.
Defined.

(** A waiter parked while another thread has retired the owner and not yet notified. *)
Definition wait_schedule : list action :=
  [Begin 0 (CWaitRegistered 0)] ++ repeat (Go 0) 6 ++ [Begin 1 (CRetire 0); Go 1]%nat.
Definition wait_config : config := default (start 0) (run (start 2) wait_schedule).

Lemma wait_reachable : reachable wait_config.
Proof. apply (run_reachable 2 wait_schedule). vm_compute. reflexivity. Qed.

Lemma owner_no_lost_wakeup_witness :
  ∃ k' p, Some (k', NotifyWaiters p) ∈ threads wait_config.
Proof.
  destruct (owner_no_lost_wakeup wait_config 0 0 (Ret None)) as [[H _]|(k' & p & H & _)].
  - exact wait_reachable.
  - reflexivity.
  - left.
  - reflexivity.
  - discriminate H.
  - exists k', p. exact H.
Defined.
