(* ===== verification/LinkTransit.v ===== *)
(** * Interface packet budgets and transit of link requests

    Models [InterfacePacketCapacity] of [rns-transport/src/interface_ownership.rs],
    the capacity checks of [InterfaceEntry] in [rns-transport/src/messages.rs]
    and [rns-transport/src/link_transit.rs].  An interface entry carries the
    fields these functions read; its owner is seen through the registration
    state at the time of the call. *)

From S2P Require Import Prelude Wire LinkSignalling Ownership.
From stdpp Require Import prelude list.

Open Scope Z_scope.

(** ** Packet budgets *)

Record InterfacePacketCapacity := mkCap {
  max_clear_packet_bytes : Z;
  max_wire_packet_bytes : Z;
  link_mtu_upgrade : bool;
}.

Inductive InterfaceCapacityError :=
| Empty
| InvalidIfac
| IfacExceedsWire (ifac_bytes wire_bytes : Z)
| LinkCapacityUnavailable (interface_id clear_mtu required : Z).

Definition cap_new (clear wire : Z) (upgrade : bool) : InterfacePacketCapacity := mkCap clear wire upgrade.
Definition cap_base (mtu : Z) : InterfacePacketCapacity := cap_new mtu mtu false.

Definition MAX_IFAC_WIRE : Z := 255 * 32.

Definition effective_clear_mtu (c : InterfacePacketCapacity) (active_ifac_bytes : Z)
    : res InterfaceCapacityError Z :=
  if (c.(max_clear_packet_bytes) =? 0) || (c.(max_wire_packet_bytes) =? 0) then Err Empty else
  if 64 <? active_ifac_bytes then Err InvalidIfac else
  let wire_limit :=
    if 0 <? active_ifac_bytes then Z.min c.(max_wire_packet_bytes) MAX_IFAC_WIRE
    else c.(max_wire_packet_bytes) in
  let* wire := (if wire_limit <=? USIZE_MAX then Ok wire_limit else Err Empty) in
  let* remaining :=
    ok_or (checked_sub wire active_ifac_bytes)
      (IfacExceedsWire active_ifac_bytes c.(max_wire_packet_bytes)) in
  let effective := Z.min c.(max_clear_packet_bytes) (remaining mod 2 ^ 32) in
  if effective =? 0 then Err Empty else Ok effective.

Definition link_ceiling (c : InterfacePacketCapacity) (interface_id active_ifac_bytes : Z)
    : res InterfaceCapacityError Z :=
  let* clear_mtu := effective_clear_mtu c active_ifac_bytes in
  if clear_mtu <? 500 then Err (LinkCapacityUnavailable interface_id clear_mtu 500) else
  Ok (if c.(link_mtu_upgrade) then Z.min clear_mtu MAX_SIGNALLED_LINK_MTU else 500).

(** ** Interface entries *)

Record InterfaceOwner := mkOwner { owner_epoch : Z; owner_revision : Z; validity : RegistrationState }.

(** [is_current] when no other thread interferes: see [current_runs]. *)
Definition owner_current (o : InterfaceOwner) : bool :=
  negb o.(validity).(retired) && (o.(validity).(revision) =? o.(owner_revision)).

Record InterfaceEntry := mkEntry {
  owner : InterfaceOwner;
  packet_capacity : InterfacePacketCapacity;
  ifac_key : option bytes;
  ifac_size : Z;
}.

Definition active_ifac_bytes (e : InterfaceEntry) : Z :=
  match e.(ifac_key) with Some _ => e.(ifac_size) | None => 0 end.

Definition entry_clear_mtu (e : InterfaceEntry) : res InterfaceCapacityError Z :=
  if match e.(ifac_key) with
     | Some _ => negb ((1 <=? e.(ifac_size)) && (e.(ifac_size) <=? 64))
     | None => false
     end
  then Err InvalidIfac
  else effective_clear_mtu e.(packet_capacity) (active_ifac_bytes e).

Definition accepts_clear_packet (e : InterfaceEntry) (len : Z) : bool :=
  owner_current e.(owner)
  && match entry_clear_mtu e with Ok mtu => len <=? mtu | _ => false end
  && match checked_add len (active_ifac_bytes e) with
     | Some wire => wire <=? e.(packet_capacity).(max_wire_packet_bytes)
     | None => false
     end.

(** ** Transit of link requests *)

Inductive LinkTransitError :=
| InvalidSignalling (e : LinkSignallingError)
| Capacity (e : InterfaceCapacityError)
| UnsupportedTransitModeTransform
| StaleInterface.

Definition attenuate_request (payload : bytes) (ingress_id : Z) (ingress : InterfaceEntry)
    (egress_id : Z) (egress : InterfaceEntry) : res LinkTransitError (bytes * Z * Z) :=
  let* signal := map_err InvalidSignalling (parse_request_signalling payload) in
  if negb (owner_current ingress.(owner)) || negb (owner_current egress.(owner))
  then Err StaleInterface else
  let* incoming := map_err Capacity
    (link_ceiling ingress.(packet_capacity) ingress_id (active_ifac_bytes ingress)) in
  let* outgoing := map_err Capacity
    (link_ceiling egress.(packet_capacity) egress_id (active_ifac_bytes egress)) in
  let ceiling := Z.min (Z.min signal.(ls_mtu).(mtu_get) incoming) outgoing in
  if negb (signal.(ls_mode) =? DEFAULT_LINK_MODE) then
    let* tail := slice_from payload 64 in
    let* ro := sd_unpack tail in
    let* raw := expect ro in
    if negb (raw.(sd_mtu) =? ceiling) then Err UnsupportedTransitModeTransform
    else Ok (payload, signal.(ls_mode), ceiling)
  else
    let* forwarded := slice_to payload 64 in
    if signal.(signalling_present) && egress.(packet_capacity).(link_mtu_upgrade) then
      let* d := map_err InvalidSignalling (sd_try_new signal.(ls_mode) ceiling) in
      let* p := sd_pack d in
      Ok (forwarded ++ p, signal.(ls_mode), ceiling)
    else Ok (forwarded, signal.(ls_mode), ceiling).

(** ** Lemmas *)

Definition cap_ok (c : InterfacePacketCapacity) : Prop :=
  0 ≤ c.(max_clear_packet_bytes) ≤ U32_MAX ∧ 0 ≤ c.(max_wire_packet_bytes) ≤ U32_MAX.

(** Run alone, the atomic program of [is_current] answers [owner_current]. *)
Lemma current_runs o p1 m1 p2 m2 :
  exec (is_current o.(owner_revision)) o.(validity) = Some (p1, m1) →
  (p1 = Ret false ∧ owner_current o = false) ∨
  (exec p1 m1 = Some (p2, m2) → p2 = Ret (owner_current o)).
Proof.
  destruct o as [e r [t v g n]]. unfold owner_current; simpl. intros [= <- <-].
  destruct t; [by left|]. right. by intros [= <- <-].
Qed.

Lemma effective_clear_mtu_ok c n v :
  cap_ok c → 0 ≤ n → effective_clear_mtu c n = Ok v →
  0 < v ≤ U32_MAX ∧ n ≤ 64 ∧
  ∀ k, 0 ≤ k → (k ≤ v ↔ k ≤ c.(max_clear_packet_bytes) ∧ k + n ≤ c.(max_wire_packet_bytes) ∧
                  (0 < n → k + n ≤ MAX_IFAC_WIRE)).
Proof.
  unfold cap_ok, U32_MAX, effective_clear_mtu, MAX_IFAC_WIRE. intros Hc Hn.
  destruct (_ || _) eqn:E0; [done|]. apply orb_false_iff in E0.
  destruct (Z.ltb_spec 64 n); [done|].
  set (w := if 0 <? n then _ else _).
  assert (Hw : 0 ≤ w ≤ U32_MAX ∧ ∀ k, k ≤ w ↔ k ≤ max_wire_packet_bytes c ∧ (0 < n → k ≤ 255 * 32)).
  { unfold w, U32_MAX. destruct (Z.ltb_spec 0 n); split; try lia; intros; lia. }
  clearbody w. unfold U32_MAX in Hw. destruct Hw as [Hw0 Hw].
  rewrite (proj2 (Z.leb_le _ _)) by (unfold USIZE_MAX, U64_MAX; lia). cbn [res_bind].
  unfold checked_sub. destruct (Z.leb_spec n w); [|done]. cbn [ok_or res_bind].
  rewrite Z.mod_small by lia. destruct (Z.eqb_spec (Z.min (max_clear_packet_bytes c) (w - n)) 0); [done|].
  intros [= <-]. split; [lia|]. split; [lia|]. intros k Hk. specialize (Hw (k + n)). lia.
Qed.

Lemma effective_clear_mtu_no_panic c n : effective_clear_mtu c n ≠ Panic.
Proof.
  unfold effective_clear_mtu. case_match; [done|]. case_match; [done|]. cbv zeta.
  destruct (_ <=? USIZE_MAX); cbn [res_bind]; [|done].
  destruct (checked_sub _ _); cbn [ok_or res_bind]; [|done]. by case_match.
Qed.

Lemma link_ceiling_ok c id n v :
  link_ceiling c id n = Ok v → 500 ≤ v ≤ MAX_SIGNALLED_LINK_MTU ∧ (link_mtu_upgrade c = false → v = 500).
Proof.
  unfold link_ceiling. intros (m & _ & H)%res_bind_Ok_inv.
  destruct (Z.ltb_spec m 500); [done|]. injection H as <-. unfold MAX_SIGNALLED_LINK_MTU.
  destruct (link_mtu_upgrade c); split; try done; lia.
Qed.

Lemma link_ceiling_no_panic c id n : link_ceiling c id n ≠ Panic.
Proof.
  unfold link_ceiling. pose proof (effective_clear_mtu_no_panic c n).
  destruct (effective_clear_mtu c n); cbn [res_bind]; [by case_match|done|done].
Qed.

Lemma parse_request_cases payload s :
  bytes_ok payload → parse_request_signalling payload = Ok s →
  (signalling_present s = false ∧ length payload = 64%nat ∧ s = mkLinkSig DEFAULT_LINK_MODE LinkMtu_BASE false) ∨
  (signalling_present s = true ∧ length payload = 67%nat ∧
   ∃ d, (∀ E, sd_unpack (drop 64 payload) = @Ok E _ (Some d)) ∧ s.(ls_mode) = d.(sd_mode) ∧
        0 ≤ d.(sd_mode) ≤ 7 ∧ try_from_signal (Some d.(sd_mtu)) = Ok s.(ls_mtu)).
Proof.
  intros Hb. unfold parse_request_signalling, ls_parse. case_decide as Hl; [intros [= <-]; by left|].
  case_decide as Hl2; [done|]. assert (Hlen : length payload = 67%nat) by lia.
  rewrite slice_from_ok by lia. cbn [res_bind].
  pose proof (bytes_ok_drop 64 payload Hb) as Hd.
  assert (Hdl : length (drop 64 payload) = 3%nat) by (rewrite length_drop; lia).
  destruct (drop 64 payload) as [|b0 [|b1 [|b2 [|]]]]; try done.
  pose proof (be_value_range _ Hd) as Hv. change (256 ^ Z.of_nat (length [b0; b1; b2])) with (2 ^ 24) in Hv.
  rewrite !bytes_ok_cons in Hd. destruct Hd as (? & ? & ? & _).
  rewrite sd_unpack_value by done. cbn [res_bind expect sd_mtu sd_mode].
  intros (m & Hm & [= <-])%res_bind_Ok_inv. right. simpl. split; [done|]. split; [done|].
  eexists. split; [intros E; by rewrite sd_unpack_value|]. simpl. split; [done|]. split; [|done].
  split; [apply Z.div_pos; lia|]. apply Zlt_succ_le, Z.div_lt_upper_bound; lia.
Qed.

Lemma parse_request_no_panic payload : bytes_ok payload → parse_request_signalling payload ≠ Panic.
Proof.
  intros Hb. unfold parse_request_signalling, ls_parse. repeat case_decide; try done.
  rewrite slice_from_ok by lia. cbn [res_bind].
  pose proof (bytes_ok_drop 64 payload Hb) as Hd.
  assert (Hdl : length (drop 64 payload) = 3%nat) by (rewrite length_drop; lia).
  destruct (drop 64 payload) as [|b0 [|b1 [|b2 [|]]]]; try done.
  rewrite !bytes_ok_cons in Hd. destruct Hd as (? & ? & ? & _).
  rewrite sd_unpack_value by done. cbn [res_bind expect sd_mtu].
  unfold try_from_signal. repeat case_match; done.
Qed.

(** Appending a packed signalling field to a 64-byte body parses back. *)
Lemma parse_request_pack body d :
  length body = 64%nat → sd_ok d → BASE_LINK_MTU ≤ d.(sd_mtu) →
  ∃ b, (∀ E, sd_pack d = @Ok E _ b) ∧
    parse_request_signalling (body ++ b) = Ok (mkLinkSig d.(sd_mode) (mkLinkMtu d.(sd_mtu)) true).
Proof.
  intros Hb Hd Hm. destruct (sd_unpack_pack d [] Hd) as (b & Hp & Hl & Hu). rewrite app_nil_r in Hu.
  exists b. split; [done|]. unfold parse_request_signalling, ls_parse.
  rewrite decide_False, decide_False, slice_from_ok by (rewrite length_app; lia). cbn [res_bind].
  rewrite drop_app_length' by done. rewrite Hu. cbn [res_bind expect]. unfold try_from_signal.
  destruct Hd as [_ Hd]. unfold BASE_LINK_MTU in *.
  destruct (Z.eqb_spec (sd_mtu d) 0); [lia|].
  rewrite (proj2 (Z.leb_le 500 _)), (proj2 (Z.leb_le _ MAX_SIGNALLED_LINK_MTU)) by lia. done.
Qed.

Lemma try_from_signal_value v m :
  try_from_signal (Some v) = Ok m → v = mtu_get m ∨ (v = 0 ∧ m = LinkMtu_BASE).
Proof. unfold try_from_signal. repeat case_match; intros [= <-]; simpl; auto. right. split; [lia|done]. Qed.

(** ** Properties *)

(** Admission of clear packets is exact.  For an entry whose IFAC size is
    valid when a key is set, a packet of [len] bytes is accepted exactly when
    the owner is current and the packet fits the clear budget, the wire budget
    together with the active tag, and, with a tag, the 8160-byte mask bound;
    an entry with a zero budget accepts nothing. *)
Theorem accepts_clear_packet_exact e len :
  cap_ok e.(packet_capacity) → (∀ k, e.(ifac_key) = Some k → 1 ≤ e.(ifac_size) ≤ 64) → 0 < len ≤ U32_MAX →
  accepts_clear_packet e len = true ↔
    owner_current e.(owner) = true ∧
    len ≤ e.(packet_capacity).(max_clear_packet_bytes) ∧
    len + active_ifac_bytes e ≤ e.(packet_capacity).(max_wire_packet_bytes) ∧
    (0 < active_ifac_bytes e → len + active_ifac_bytes e ≤ 8160).
Proof.
  intros Hc Hk Hl. unfold accepts_clear_packet, entry_clear_mtu.
  assert (Hn : 0 ≤ active_ifac_bytes e ≤ 64).
  { unfold active_ifac_bytes. destruct (ifac_key e) eqn:E; [pose proof (Hk _ eq_refl)|]; lia. }
  replace (match ifac_key e with Some _ => _ | None => false end) with false.
  2: { destruct (ifac_key e) eqn:E; [|done]. pose proof (Hk _ eq_refl).
       rewrite (proj2 (Z.leb_le 1 _)), (proj2 (Z.leb_le _ 64)) by lia. done. }
  unfold checked_add. unfold U32_MAX in Hl.
  rewrite (proj2 (Z.leb_le _ USIZE_MAX)) by (unfold USIZE_MAX, U64_MAX; lia).
  rewrite !andb_true_iff. set (n := active_ifac_bytes e) in *.
  destruct (effective_clear_mtu (packet_capacity e) n) as [v|er|] eqn:He.
  - destruct (effective_clear_mtu_ok _ n v Hc ltac:(lia) He) as (Hv & _ & Hiff).
    specialize (Hiff len ltac:(lia)). unfold MAX_IFAC_WIRE in Hiff. rewrite !Z.leb_le. tauto.
  - split; [by intros [[? ?] ?]|]. intros (Ho & H1 & H2 & H3). exfalso.
    unfold effective_clear_mtu, cap_ok, U32_MAX, MAX_IFAC_WIRE in *.
    destruct (Z.eqb_spec (max_clear_packet_bytes (packet_capacity e)) 0); [lia|].
    destruct (Z.eqb_spec (max_wire_packet_bytes (packet_capacity e)) 0); [lia|]. simpl orb in He. cbv iota in He.
    destruct (Z.ltb_spec 64 n); [lia|].
    revert He. set (w := if 0 <? n then _ else _).
    assert (n < w ≤ 4294967295) by (unfold w; destruct (Z.ltb_spec 0 n); lia). clearbody w. cbv zeta.
    rewrite (proj2 (Z.leb_le _ USIZE_MAX)) by (unfold USIZE_MAX, U64_MAX; lia). cbn [res_bind].
    unfold checked_sub. rewrite (proj2 (Z.leb_le n w)) by lia. cbn [ok_or res_bind].
    rewrite Z.mod_small by lia. destruct (Z.eqb_spec (Z.min (max_clear_packet_bytes (packet_capacity e)) (w - n)) 0); [lia|done].
  - by apply effective_clear_mtu_no_panic in He.
Qed.

Lemma accepts_clear_packet_exact_witness :
  let e := mkEntry (mkOwner 1 0 (mkReg false 0 0 0)) (mkCap 500 508 false) (Some []) 16 in
  accepts_clear_packet e 492 = true ∧ accepts_clear_packet e 493 = false.
Proof.
  split; [|vm_compute; reflexivity].
  apply accepts_clear_packet_exact;
    [unfold cap_ok, U32_MAX; simpl; lia|intros; simpl; lia|unfold U32_MAX; lia|vm_compute; repeat split; intros; discriminate].
Defined.

(** Transit of a link request is exact.  For every payload the outcome is
    one of: the signalling does not parse; an interface is no longer current;
    an interface cannot carry links; the request has an opaque mode whose
    signalled MTU would have to change; or the request is forwarded with its
    64-byte body unchanged, the offered MTU lowered to the smallest of the
    offer and the two interface ceilings (never below 500), and a trailer that
    the next hop parses to the same mode and exactly that MTU.  No panic. *)
Theorem attenuate_request_exact payload ii ing ei eg :
  bytes_ok payload →
  let inc := link_ceiling ing.(packet_capacity) ii (active_ifac_bytes ing) in
  let out := link_ceiling eg.(packet_capacity) ei (active_ifac_bytes eg) in
  match attenuate_request payload ii ing ei eg with
  | Ok (fwd, mode, ceiling) =>
      ∃ s s' i o, parse_request_signalling payload = Ok s ∧ inc = Ok i ∧ out = Ok o ∧
        owner_current ing.(owner) = true ∧ owner_current eg.(owner) = true ∧
        mode = s.(ls_mode) ∧ ceiling = Z.min (Z.min s.(ls_mtu).(mtu_get) i) o ∧ BASE_LINK_MTU ≤ ceiling ∧
        take 64 fwd = take 64 payload ∧
        parse_request_signalling fwd = Ok s' ∧ s'.(ls_mode) = mode ∧ s'.(ls_mtu) = mkLinkMtu ceiling
  | Err (InvalidSignalling e) => parse_request_signalling payload = Err e
  | Err StaleInterface => owner_current ing.(owner) = false ∨ owner_current eg.(owner) = false
  | Err (Capacity e) => inc = Err e ∨ out = Err e
  | Err UnsupportedTransitModeTransform =>
      ∃ s d i o, parse_request_signalling payload = Ok s ∧ s.(ls_mode) ≠ DEFAULT_LINK_MODE ∧
        sd_unpack (drop 64 payload) = @Ok Empty_set _ (Some d) ∧ inc = Ok i ∧ out = Ok o ∧
        d.(sd_mtu) ≠ Z.min (Z.min s.(ls_mtu).(mtu_get) i) o
  | Panic => False
  end.
Proof.
  intros Hb inc out. unfold attenuate_request. fold inc out.
  destruct (parse_request_signalling payload) as [s|e|] eqn:Hp; cbn [map_err res_bind]; [|done|].
  2: { by apply parse_request_no_panic in Hp. }
  destruct (owner_current (owner ing)) eqn:Ho1; [|by left].
  destruct (owner_current (owner eg)) eqn:Ho2; [|by right]. cbn [negb orb].
  destruct inc as [i|e|] eqn:Hi; cbn [map_err res_bind]; [|by left|by apply link_ceiling_no_panic in Hi].
  destruct out as [o|e|] eqn:Ho; cbn [map_err res_bind]; [|by right|by apply link_ceiling_no_panic in Ho].
  destruct (link_ceiling_ok _ _ _ _ Hi) as [Hi' _]. destruct (link_ceiling_ok _ _ _ _ Ho) as [Ho' Hno].
  set (ceil := Z.min (Z.min (mtu_get (ls_mtu s)) i) o).
  assert (Hs : BASE_LINK_MTU ≤ mtu_get (ls_mtu s) ≤ MAX_SIGNALLED_LINK_MTU).
  { destruct (parse_request_cases _ _ Hb Hp) as [(_ & _ & ->)|(_ & _ & d & _ & _ & _ & Ht)];
      [by unfold MAX_SIGNALLED_LINK_MTU|by eapply try_from_signal_ok]. }
  assert (Hce : BASE_LINK_MTU ≤ ceil ≤ MAX_SIGNALLED_LINK_MTU) by (unfold ceil, BASE_LINK_MTU in *; lia).
  destruct (parse_request_cases _ _ Hb Hp) as [(Hpr & Hlen & ->)|(Hpr & Hlen & d & Hu & Hmd & Hr & Ht)].
  - cbn [ls_mode ls_mtu signalling_present]. change (negb (DEFAULT_LINK_MODE =? DEFAULT_LINK_MODE)) with false.
    cbv iota. rewrite slice_to_ok by lia. cbn [res_bind andb]. rewrite !(take_ge payload 64) by lia.
    eexists _, _, i, o. split_and!; try done; try lia. simpl. unfold ceil in *; simpl in *. f_equal.
    unfold BASE_LINK_MTU in *. lia.
  - destruct (Z.eqb_spec (ls_mode s) DEFAULT_LINK_MODE) as [Hm|Hm]; cbn [negb].
    + rewrite slice_to_ok by lia. cbn [res_bind].
      assert (Hl64 : length (take 64 payload) = 64%nat) by (rewrite length_take; lia).
      rewrite Hpr. destruct (link_mtu_upgrade (packet_capacity eg)) eqn:Hup; cbn [andb].
      * unfold sd_try_new. rewrite (proj2 (Z.ltb_ge 7 _)) by lia. unfold try_from_signal.
        unfold BASE_LINK_MTU in *. destruct (Z.eqb_spec ceil 0); [lia|].
        rewrite (proj2 (Z.leb_le 500 _)), (proj2 (Z.leb_le _ MAX_SIGNALLED_LINK_MTU)) by lia.
        cbn [andb map_err res_bind mtu_get].
        destruct (parse_request_pack (take 64 payload) (mkSig (ls_mode s) ceil)) as (b & Hpk & Hpp);
          [done|unfold sd_ok; simpl; lia|unfold BASE_LINK_MTU; simpl; lia|].
        rewrite Hpk. cbn [res_bind]. eexists _, _, i, o. split_and!; try done; try lia.
        rewrite take_app_le by lia. by rewrite take_take.
      * assert (Hc5 : ceil = 500) by (specialize (Hno eq_refl); unfold ceil, BASE_LINK_MTU in *; lia).
        eexists _, (mkLinkSig DEFAULT_LINK_MODE LinkMtu_BASE false), i, o. split_and!; try done; try lia.
        -- by rewrite take_take.
        -- unfold parse_request_signalling, ls_parse. by rewrite decide_True by done.
        -- simpl. by rewrite Hc5.
    + rewrite slice_from_ok by lia. cbn [res_bind]. rewrite Hu. cbn [res_bind expect].
      destruct (Z.eqb_spec (sd_mtu d) ceil) as [Hd|Hd]; cbn [negb].
      * eexists _, s, i, o. split_and!; try done; try lia.
        destruct (try_from_signal_value _ _ Ht) as [E|[E _]]; [|unfold BASE_LINK_MTU in *; lia].
        destruct (ls_mtu s); simpl in *. congruence.
      * eexists s, d, i, o. split_and!; try done.
Qed.

Lemma attenuate_request_exact_witness :
  let e b := mkEntry (mkOwner 1 0 (mkReg false 0 0 0)) (mkCap b b true) None 0 in
  let fwd := replicate 64 7 ++ [0x20; 0x04; 0x28] in
  attenuate_request (replicate 64 7 ++ [0x20; 0x20; 0x00]) 1 (e 1500) 2 (e 1064) = Ok (fwd, 1, 1064) ∧
  ∃ s', parse_request_signalling fwd = Ok s' ∧ s'.(ls_mtu) = mkLinkMtu 1064.
Proof.
  intros e fwd. assert (Hb : bytes_ok (replicate 64 7 ++ [0x20; 0x20; 0x00]))
    by (apply (bool_decide_eq_true_1 _); vm_compute; reflexivity).
  assert (Ha : attenuate_request (replicate 64 7 ++ [0x20; 0x20; 0x00]) 1 (e 1500) 2 (e 1064) = Ok (fwd, 1, 1064))
    by (vm_compute; reflexivity).
  split; [exact Ha|].
  pose proof (attenuate_request_exact _ 1 (e 1500) 2 (e 1064) Hb) as H. cbv zeta in H. rewrite Ha in H.
  destruct H as (s & s' & i & o & _ & _ & _ & _ & _ & _ & _ & _ & _ & Hp & _ & Hm).
  exists s'. split; [exact Hp|exact Hm].
Defined.
