(* ===== verification/Tunnel.v ===== *)
(** * Tunnels

    Models [rns-transport/src/tunnel.rs] except the construction of the
    synthesis packet, and [Identity::from_public_key] and [verify] of
    [rns-identity/src/identity.rs] as far as the signature check uses them. *)

From S2P Require Import Prelude F64 Wire Packet Receipt Table.
From stdpp Require Import prelude list gmap.

Open Scope Z_scope.

Definition TUNNEL_TIMEOUT : Z := 28800.

Record TunnelPath := {
  tp_timestamp : f64;
  tp_next_hop : option bytes;
  tp_hops : Z;
  tp_expires : f64;
  tp_random_blobs : list bytes;
  tp_packet_hash : option bytes;
}.

Record TunnelEntry := {
  tunnel_id : bytes;
  interface_id : option Z;
  tunnel_paths : gmap bytes TunnelPath;
  expires : f64;
}.

Record TunnelTable := { entries : gmap bytes TunnelEntry; by_interface : gmap Z bytes }.

Definition tunnel_table_new : TunnelTable := {| entries := ∅; by_interface := ∅ |}.

Definition insert (t : TunnelTable) (e : TunnelEntry) : TunnelTable :=
  {| by_interface := match interface_id e with
                     | Some i => <[i := tunnel_id e]> (by_interface t)
                     | None => by_interface t
                     end;
     entries := <[tunnel_id e := e]> (entries t) |}.

Definition get (t : TunnelTable) (id : bytes) : option TunnelEntry := entries t !! id.

Definition remove (t : TunnelTable) (id : bytes) : TunnelTable * option TunnelEntry :=
  ({| entries := delete id (entries t); by_interface := by_interface t |}, entries t !! id).

Definition get_by_interface (t : TunnelTable) (i : Z) : option TunnelEntry :=
  id ← by_interface t !! i; entries t !! id.

Definition unbind (e : TunnelEntry) : TunnelEntry :=
  {| tunnel_id := tunnel_id e; interface_id := None; tunnel_paths := tunnel_paths e; expires := expires e |}.

Definition void_interface (t : TunnelTable) (i : Z) : TunnelTable * nat :=
  ({| by_interface := delete i (by_interface t);
      entries := (λ e, if decide (interface_id e = Some i) then unbind e else e) <$> entries t |},
   size (filter (λ kv, interface_id kv.2 = Some i) (entries t))).

Definition is_stale (e : TunnelEntry) (now : f64) : bool :=
  f_le (expires e) now || f_gt (expires e) (f_add now (f_mul (f_of_Z 2) (f_of_Z TUNNEL_TIMEOUT))).

Definition cull_expired (t : TunnelTable) (now : f64) : TunnelTable * nat :=
  let m := retain (λ _ e, negb (is_stale e now)) (entries t) in
  ({| entries := m; by_interface := by_interface t |}, (size (entries t) - size m)%nat).

Definition cull_expired_batch (t : TunnelTable) (limit : nat) (order : list (bytes * TunnelEntry)) (now : f64)
  : TunnelTable * nat :=
  let to_remove := batch_keys (λ _ e, is_stale e now) limit order in
  ({| entries := remove_all to_remove (entries t); by_interface := by_interface t |}, length to_remove).

Definition handle_tunnel (t : TunnelTable) (id : bytes) (i : Z) (now : f64) : TunnelTable :=
  let x := f_add now (f_of_Z TUNNEL_TIMEOUT) in
  match entries t !! id with
  | Some e =>
      {| entries := <[id := {| tunnel_id := tunnel_id e; interface_id := Some i;
                               tunnel_paths := tunnel_paths e; expires := x |}]> (entries t);
         by_interface := <[i := id]> (by_interface t) |}
  | None =>
      insert t {| tunnel_id := id; interface_id := Some i; tunnel_paths := ∅; expires := x |}
  end.

(** ** Synthesis payloads *)

Record TunnelSynthesisData := {
  public_key : bytes;
  interface_hash : bytes;
  random_hash : bytes;
  signature : bytes;
}.

Definition synth_pack (d : TunnelSynthesisData) : bytes :=
  public_key d ++ interface_hash d ++ random_hash d ++ signature d.

Definition synth_unpack {E} (data : bytes) : res E (option TunnelSynthesisData) :=
  if negb (Nat.eqb (length data) 176) then Ok None else
  let* a := slice data 0 64 in let* pk := copy_array 64 a in
  let* b := slice data 64 96 in let* ih := copy_array 32 b in
  let* c := slice data 96 112 in let* rh := copy_array 16 c in
  let* d := slice data 112 176 in let* sg := copy_array 64 d in
  Ok (Some {| public_key := pk; interface_hash := ih; random_hash := rh; signature := sg |}).

(** The verifying half of [Identity::from_public_key]: 64 bytes whose second
    half is a valid Ed25519 key. *)
Definition identity_from_public_key `{Ed25519} {E} (key : bytes) : res E (option verifying_key) :=
  if negb (Nat.eqb (length key) 64) then Ok None else
  let* ed := slice_from key 32 in
  let* ed_bytes := copy_array 32 ed in
  Ok (public_key_from_bytes ed_bytes).

Section synth.
Context `{Digest} `{Ed25519}.

Definition synth_tunnel_id (d : TunnelSynthesisData) : bytes := sha256 (public_key d ++ interface_hash d).

Definition is_signed {E} (d : TunnelSynthesisData) : res E bool :=
  let* signer := identity_from_public_key (public_key d) in
  match signer with
  | None => Ok false
  | Some k => Ok (ed_verify k (public_key d ++ interface_hash d ++ random_hash d) (signature d))
  end.

Definition synth_ok (d : TunnelSynthesisData) : Prop :=
  length (public_key d) = 64%nat ∧ length (interface_hash d) = 32%nat ∧
  length (random_hash d) = 16%nat ∧ length (signature d) = 64%nat.

Lemma synth_unpack_eq {E} data :
  length data = 176%nat →
  @synth_unpack E data =
    Ok (Some {| public_key := take 64 data; interface_hash := take 32 (drop 64 data);
                random_hash := take 16 (drop 96 data); signature := drop 112 data |}).
Proof.
  intros Hl. unfold synth_unpack. rewrite Hl. cbn [Nat.eqb negb].
  rewrite !slice_ok by lia. cbn [res_bind]. rewrite !copy_array_ok by (rewrite length_take, length_drop; lia).
  cbn [res_bind]. rewrite drop_0. do 3 f_equal. apply take_ge. rewrite length_drop. lia.
Qed.

(** Tunnel synthesis payloads round-trip: packing yields 176 bytes that
    unpack to the same fields; unpacking never panics, accepts exactly the
    176-byte inputs and packs back to them; and the signature check covers
    everything before the signature under the Ed25519 half of the embedded
    key, rejecting keys that do not parse. *)
Theorem synthesis_roundtrip d data :
  synth_ok d →
  length (synth_pack d) = 176%nat ∧
  @synth_unpack Empty_set (synth_pack d) = Ok (Some d) ∧
  match @synth_unpack Empty_set data with
  | Ok (Some d') => length data = 176%nat ∧ synth_ok d' ∧ synth_pack d' = data
  | Ok None => length data ≠ 176%nat
  | _ => False
  end ∧
  @is_signed Empty_set d = Ok (match public_key_from_bytes (drop 32 (public_key d)) with
                              | Some k => ed_verify k (take 112 (synth_pack d)) (signature d)
                              | None => false
                              end).
Proof.
  intros (H1 & H2 & H3 & H4).
  assert (Hl : length (synth_pack d) = 176%nat) by (unfold synth_pack; rewrite !length_app; lia).
  split_and!; [done| | |].
  - rewrite synth_unpack_eq by done. unfold synth_pack. do 2 f_equal. destruct d as [pk ih rh sg]; simpl in *. f_equal.
    + by rewrite take_app_length'.
    + by rewrite drop_app_length', take_app_length'.
    + rewrite (app_assoc pk), drop_app_length' by (rewrite length_app; lia). by rewrite take_app_length'.
    + rewrite (app_assoc ih), (app_assoc pk), drop_app_length'; [done|rewrite !length_app; lia].
  - destruct (decide (length data = 176%nat)) as [Hd|Hd].
    + rewrite synth_unpack_eq by done. split_and!; [done| |].
      * split_and!; simpl; rewrite ?length_take, ?length_drop; lia.
      * unfold synth_pack. cbn [public_key interface_hash random_hash signature].
        replace (drop 112 data) with (drop 16 (drop 96 data)) by (by rewrite drop_drop).
        rewrite (take_drop 16). replace (drop 96 data) with (drop 32 (drop 64 data)) by (by rewrite drop_drop).
        rewrite (take_drop 32). apply take_drop.
    + unfold synth_unpack. by rewrite (proj2 (Nat.eqb_neq _ _)).
  - unfold is_signed, identity_from_public_key. rewrite H1. cbn [Nat.eqb negb].
    rewrite slice_from_ok by lia. cbn [res_bind]. rewrite copy_array_ok by (rewrite length_drop; lia). cbn [res_bind].
    assert (Htk : take 112 (synth_pack d) = public_key d ++ interface_hash d ++ random_hash d).
    { unfold synth_pack. rewrite (app_assoc (interface_hash d)), (app_assoc (public_key d)).
      apply take_app_length'. rewrite !length_app. lia. }
    rewrite Htk. by destruct (public_key_from_bytes _).
Qed.
End synth.

#[export] Instance toy_ed25519 : Ed25519 := {|
  verifying_key := bytes; public_key_from_bytes := λ b, Some b;
  ed_verify := λ k m s, bool_decide (s = replicate 64 (foldr Z.add 0 m mod 256));
|}.

Definition demo_synth : TunnelSynthesisData :=
  {| public_key := replicate 64 1; interface_hash := replicate 32 2; random_hash := replicate 16 0;
     signature := replicate 64 128 |}.

Lemma synthesis_roundtrip_witness :
  synth_ok demo_synth ∧ @is_signed toy_ed25519 Empty_set demo_synth = Ok true.
Proof.
  assert (Hs : synth_ok demo_synth) by (repeat split).
  split; [exact Hs|].
  rewrite (proj2 (proj2 (proj2 (synthesis_roundtrip demo_synth [] Hs)))). vm_compute. reflexivity.
Defined.

(** ** Bindings *)

(** Records are filed under their own identifier. *)
Definition tunnels_ok (t : TunnelTable) : Prop := map_Forall (λ id e, tunnel_id e = id) (entries t).

(** Tunnel bindings: establishing a tunnel on an interface makes the
    interface resolve to that tunnel, bound to it, with the paths the tunnel
    already had and a fresh eight-hour expiry, and touches no other tunnel;
    forgetting the interface unbinds exactly the tunnels bound to it without
    dropping any record or path, and the interface then resolves to none.
    Records stay filed under their identifiers. *)
Theorem tunnel_binding t id i now :
  tunnels_ok t →
  (let t' := handle_tunnel t id i now in
   tunnels_ok t' ∧
   (∃ e, get_by_interface t' i = Some e ∧ get t' id = Some e ∧ tunnel_id e = id ∧ interface_id e = Some i ∧
         expires e = f_add now (f_of_Z TUNNEL_TIMEOUT) ∧
         tunnel_paths e = match get t id with Some old => tunnel_paths old | None => ∅ end) ∧
   ∀ id', id' ≠ id → get t' id' = get t id') ∧
  (let '(t', n) := void_interface t i in
   tunnels_ok t' ∧ get_by_interface t' i = None ∧
   n = size (filter (λ kv, interface_id kv.2 = Some i) (entries t)) ∧
   ∀ id', match get t id', get t' id' with
          | None, None => True
          | Some e, Some e' => tunnel_id e' = tunnel_id e ∧ tunnel_paths e' = tunnel_paths e ∧ expires e' = expires e ∧
              interface_id e' = (if decide (interface_id e = Some i) then None else interface_id e)
          | _, _ => False
          end).
Proof.
  intros Hok. split.
  - unfold handle_tunnel, get, get_by_interface. cbv zeta. destruct (entries t !! id) as [e|] eqn:He; cbn.
    + split_and!.
      * apply map_Forall_insert_2; [|done]. simpl. by apply Hok in He.
      * eexists. rewrite !lookup_insert_eq. cbn. rewrite lookup_insert_eq. split_and!; try done. by apply Hok in He.
      * intros id' Hne. by rewrite lookup_insert_ne.
    + split_and!.
      * by apply map_Forall_insert_2.
      * eexists. rewrite !lookup_insert_eq. cbn. rewrite lookup_insert_eq. by split_and!.
      * intros id' Hne. by rewrite lookup_insert_ne.
  - unfold void_interface, get, get_by_interface. cbn [entries by_interface]. split_and!; [| |done|].
    + intros id' e'. cbn [entries]. rewrite lookup_fmap. destruct (entries t !! id') as [e|] eqn:He; [|done]. cbn.
      intros [= <-]. apply Hok in He. by case_decide.
    + by rewrite lookup_delete_eq.
    + intros id'. rewrite lookup_fmap. destruct (entries t !! id') as [e|]; [|done]. cbn. by case_decide.
Qed.

Definition demo_tunnels : TunnelTable := handle_tunnel tunnel_table_new [1] 7 f_zero.

Lemma tunnel_binding_witness :
  tunnels_ok demo_tunnels ∧ get_by_interface (void_interface demo_tunnels 7).1 7 = None.
Proof.
  assert (Hok : tunnels_ok demo_tunnels).
  { apply (bool_decide_eq_true_1 (map_Forall (λ id e, tunnel_id e = id) (entries demo_tunnels))).
    vm_compute. reflexivity. }
  split; [exact Hok|]. apply (tunnel_binding demo_tunnels [1] 7 f_zero Hok).
Defined.
