(* ===== verification/Identity.v ===== *)
(** * Identities: key pairs, signatures, and ECIES with ratchets

    Models [rns-identity/src/identity.rs], [name_hash.rs] and [derive_key_64] of
    [rns-crypto/src/hkdf.rs].  A private or public X25519 key is its 32-byte
    encoding (the wrappers of [rns-crypto/src/x25519.rs] store the bytes
    unchanged); ephemeral keys and IVs, drawn at random by the code, are
    arguments.  Files, key generation and zeroisation are not modelled. *)

From S2P Require Import Prelude Wire Packet Receipt Token Ifac.
From stdpp Require Import prelude list.

Open Scope Z_scope.

(** ** Third-party curves *)

(** [x25519-dalek] on encoded keys. *)
Class Curve25519 := {
  x_pub : bytes → bytes;
  x_dh : bytes → bytes → bytes;
}.
Class Curve25519Laws (C : Curve25519) : Prop := {
  x_pub_length : ∀ a, length (x_pub a) = 32%nat;
  x_dh_agree : ∀ a b, x_dh a (x_pub b) = x_dh b (x_pub a);
}.

(** [SigningKey::verifying_key] and [VerifyingKey::to_bytes] of [ed25519-dalek]. *)
Class Ed25519Keys `{Ed25519} := {
  ed_public : bytes → verifying_key;
  vk_bytes : verifying_key → bytes;
}.
Class Ed25519KeysLaws `(K : Ed25519Keys) (S : Ed25519Signer) : Prop := {
  vk_length : ∀ k, length (vk_bytes k) = 32%nat;
  vk_parse : ∀ k, public_key_from_bytes (vk_bytes k) = Some k;
  vk_print : ∀ b k, public_key_from_bytes b = Some k → vk_bytes k = b;
  ed_sign_verify : ∀ seed m, ed_verify (ed_public seed) m (ed_sign seed m) = true;
}.

(** [LocalKeyBackend]: private operations served outside the process. *)
Record LocalKeyBackend := mkBackend {
  sign_ed25519 : bytes → option bytes;
  backend_ecdh : bytes → option bytes;
}.

Inductive IdentityError :=
| InvalidPrivateKeyLength (n : nat)
| InvalidPublicKeyLength (n : nat)
| IdentityDecryptionFailed
| IdentityInvalidPublicKey.

Definition derive_key_64 `{Hkdf} (shared_secret salt : bytes) : res HkdfError bytes :=
  ok_or (hkdf_expand (hkdf_new (Some salt) shared_secret) [] 64) ExpansionFailed.

Section identity.
Context `{Digest} `{Ed25519} `{!Ed25519Keys} `{Ed25519Signer} `{Curve25519} `{Hkdf} `{AesCbc} `{Hmac}.

Record Identity := mkIdentity {
  prv : option bytes;
  sig_prv : option bytes;
  pub_key : bytes;
  sig_pub : verifying_key;
  id_hash : bytes;
  backend : option LocalKeyBackend;
}.

Record DecryptionResult := mkDec { dec_plaintext : bytes; dec_ratchet_id : option bytes }.

Definition name_hash {E} (app_name : bytes) : res E bytes :=
  let full := sha256 app_name in
  let* s := slice_to full 10 in
  copy_array 10 s.

Definition compute_hash {E} (pk : bytes) (sk : verifying_key) : res E bytes :=
  truncated_hash (pk ++ vk_bytes sk).

Definition from_private_key (key : bytes) : res IdentityError Identity :=
  if negb (Nat.eqb (length key) 64) then Err (InvalidPrivateKeyLength (length key)) else
  let* x := slice_to key 32 in let* x_bytes := copy_array 32 x in
  let* e := slice_from key 32 in let* ed_bytes := copy_array 32 e in
  let pk := x_pub x_bytes in
  let sk := ed_public ed_bytes in
  let* h := compute_hash pk sk in
  Ok (mkIdentity (Some x_bytes) (Some ed_bytes) pk sk h None).

Definition from_public_key (key : bytes) : res IdentityError Identity :=
  if negb (Nat.eqb (length key) 64) then Err (InvalidPublicKeyLength (length key)) else
  let* x := slice_to key 32 in let* x_bytes := copy_array 32 x in
  let* e := slice_from key 32 in let* ed_bytes := copy_array 32 e in
  let* sk := ok_or (public_key_from_bytes ed_bytes) IdentityInvalidPublicKey in
  let* h := compute_hash x_bytes sk in
  Ok (mkIdentity None None x_bytes sk h None).

Definition from_backend (key : bytes) (b : LocalKeyBackend) : res IdentityError Identity :=
  let* id := from_public_key key in
  Ok (mkIdentity id.(prv) id.(sig_prv) id.(pub_key) id.(sig_pub) id.(id_hash) (Some b)).

Definition get_private_key (id : Identity) : option bytes :=
  p ← id.(prv); s ← id.(sig_prv); Some (p ++ s).

Definition get_public_key (id : Identity) : bytes := id.(pub_key) ++ vk_bytes id.(sig_pub).

Definition has_private_key (id : Identity) : bool :=
  match id.(prv), id.(sig_prv) with Some _, Some _ => true | _, _ => false end.

Definition id_sign (id : Identity) (message : bytes) : option bytes :=
  match id.(sig_prv) with
  | Some seed => Some (ed_sign seed message)
  | None => b ← id.(backend); sign_ed25519 b message
  end.

Definition id_verify (id : Identity) (message signature : bytes) : bool :=
  ed_verify id.(sig_pub) message signature.

Definition id_encrypt (id : Identity) (plaintext : bytes) (ratchet : option bytes) (ephemeral iv : bytes)
    : res IdentityError bytes :=
  let ephemeral_pub := x_pub ephemeral in
  let target := match ratchet with Some r => r | None => id.(pub_key) end in
  let shared := x_dh ephemeral target in
  let* derived := map_err (λ _, IdentityDecryptionFailed) (derive_key_64 shared id.(id_hash)) in
  let* ciphertext := map_err (λ _, IdentityDecryptionFailed) (token_encrypt plaintext derived iv) in
  Ok (ephemeral_pub ++ ciphertext).

Definition ratchet_id {E} (ratchet_public_key : bytes) : res E bytes :=
  let full := sha256 ratchet_public_key in
  let* s := slice_to full 10 in
  copy_array 10 s.

(** One private key tried against the ciphertext; [None] moves on to the next. *)
Definition try_key (hash ct peer_pub key : bytes) : res IdentityError (option bytes) :=
  match derive_key_64 (x_dh key peer_pub) hash with
  | Ok derived =>
      match token_decrypt ct derived with
      | Ok plaintext => Ok (Some plaintext)
      | Err _ => Ok None
      | Panic => Panic
      end
  | Err _ => Ok None
  | Panic => Panic
  end.

(** The loop over the ratchet private keys. *)
Fixpoint try_ratchets (hash ct peer_pub : bytes) (ratchets : list bytes)
    : res IdentityError (option DecryptionResult) :=
  match ratchets with
  | [] => Ok None
  | r :: rest =>
      let* o := try_key hash ct peer_pub r in
      match o with
      | Some plaintext =>
          let* rid := ratchet_id (x_pub r) in
          Ok (Some (mkDec plaintext (Some rid)))
      | None => try_ratchets hash ct peer_pub rest
      end
  end.

Definition decrypt_with_ratchet_id (id : Identity) (ciphertext : bytes) (ratchets : option (list bytes))
    (enforce_ratchets : bool) : res IdentityError DecryptionResult :=
  if decide (length ciphertext < 32)%nat then Err IdentityDecryptionFailed else
  let* p := slice_to ciphertext 32 in
  let* peer_pub := copy_array 32 p in
  let* ct := slice_from ciphertext 32 in
  let* found :=
    match ratchets with
    | Some rs => try_ratchets id.(id_hash) ct peer_pub rs
    | None => Ok None
    end in
  match found with
  | Some r => Ok r
  | None =>
      if enforce_ratchets then Err IdentityDecryptionFailed else
      let* shared :=
        match id.(prv) with
        | Some key => Ok (x_dh key peer_pub)
        | None =>
            match id.(backend) with
            | Some b => ok_or (backend_ecdh b peer_pub) IdentityDecryptionFailed
            | None => Err IdentityDecryptionFailed
            end
        end in
      let* derived := map_err (λ _, IdentityDecryptionFailed) (derive_key_64 shared id.(id_hash)) in
      let* plaintext := map_err (λ _, IdentityDecryptionFailed) (token_decrypt ct derived) in
      Ok (mkDec plaintext None)
  end.

Definition id_decrypt (id : Identity) (ciphertext : bytes) (ratchets : option (list bytes))
    (enforce_ratchets : bool) : res IdentityError bytes :=
  let* r := decrypt_with_ratchet_id id ciphertext ratchets enforce_ratchets in
  Ok r.(dec_plaintext).

Definition prove (id : Identity) (packet_hash : bytes) (implicit_proof : bool) : res IdentityError bytes :=
  let* signature := ok_or (id_sign id packet_hash) IdentityDecryptionFailed in
  if implicit_proof then Ok signature else Ok (packet_hash ++ signature).

End identity.

(** ** Proofs *)

Section identity_proofs.
Context `{D : Digest} `{!DigestLaws D} `{Ed : Ed25519} `{K : !Ed25519Keys} `{S : Ed25519Signer}
  `{!Ed25519KeysLaws K S} `{C : Curve25519} `{!Curve25519Laws C} `{HK : Hkdf} `{!HkdfLaws HK}
  `{A : AesCbc} `{!AesCbcLaws A} `{M : Hmac} `{!HmacLaws M}.

Lemma name_hash_ok {E} n : name_hash n = @Ok E _ (take 10 (sha256 n)).
Proof.
  unfold name_hash. rewrite slice_to_ok by (rewrite sha256_length; lia). cbn [res_bind].
  apply copy_array_ok. rewrite length_take, sha256_length. lia.
Qed.

Lemma ratchet_id_ok {E} n : ratchet_id n = @Ok E _ (take 10 (sha256 n)).
Proof. apply name_hash_ok. Qed.

Lemma derive_key_64_ok sh salt :
  ∃ k, derive_key_64 sh salt = Ok k ∧ length k = 64%nat.
Proof.
  unfold derive_key_64. destruct (hkdf_expand_ok (hkdf_new (Some salt) sh) [] 64) as (k & Hk & Hl & _);
    [unfold MAX_OUTPUT_LENGTH; lia|]. rewrite Hk. eauto.
Qed.

Lemma from_private_key_ok key :
  length key = 64%nat →
  from_private_key key = Ok (mkIdentity (Some (take 32 key)) (Some (drop 32 key)) (x_pub (take 32 key))
    (ed_public (drop 32 key)) (take 16 (sha256 (x_pub (take 32 key) ++ vk_bytes (ed_public (drop 32 key))))) None).
Proof.
  intros Hl. unfold from_private_key. rewrite Hl. cbn [Nat.eqb negb].
  rewrite slice_to_ok by lia. cbn [res_bind]. rewrite copy_array_ok by (rewrite length_take; lia). cbn [res_bind].
  rewrite slice_from_ok by lia. cbn [res_bind]. rewrite copy_array_ok by (rewrite length_drop; lia). cbn [res_bind].
  unfold compute_hash. by rewrite truncated_hash_ok.
Qed.

Lemma from_public_key_ok x k :
  length x = 32%nat →
  from_public_key (x ++ vk_bytes k) = Ok (mkIdentity None None x k (take 16 (sha256 (x ++ vk_bytes k))) None).
Proof.
  intros Hx. pose proof (vk_length k) as Hk. unfold from_public_key.
  rewrite length_app, Hx, Hk. cbn [Nat.add Nat.eqb negb].
  rewrite slice_to_ok by (rewrite length_app; lia). cbn [res_bind]. rewrite take_app_length' by done.
  rewrite copy_array_ok by done. cbn [res_bind].
  rewrite slice_from_ok by (rewrite length_app; lia). cbn [res_bind]. rewrite drop_app_length' by done.
  rewrite copy_array_ok by done. cbn [res_bind]. rewrite vk_parse. cbn [ok_or res_bind].
  unfold compute_hash. by rewrite truncated_hash_ok.
Qed.

(** Every accepted public key is of that form. *)
Lemma from_public_key_inv key id :
  from_public_key key = Ok id →
  length key = 64%nat ∧ get_public_key id = key ∧ id_hash id = take 16 (sha256 key) ∧
  prv id = None ∧ sig_prv id = None ∧ backend id = None ∧
  public_key_from_bytes (drop 32 key) = Some (sig_pub id).
Proof.
  unfold from_public_key. destruct (Nat.eqb_spec (length key) 64) as [Hl|]; [|done]. cbn [negb].
  rewrite slice_to_ok by lia. cbn [res_bind]. rewrite copy_array_ok by (rewrite length_take; lia). cbn [res_bind].
  rewrite slice_from_ok by lia. cbn [res_bind]. rewrite copy_array_ok by (rewrite length_drop; lia). cbn [res_bind].
  destruct (public_key_from_bytes (drop 32 key)) as [k|] eqn:Hk; [|done]. cbn [ok_or res_bind].
  unfold compute_hash. rewrite truncated_hash_ok. cbn [res_bind]. intros [= <-].
  unfold get_public_key; simpl. rewrite (vk_print _ _ Hk), take_drop. done.
Qed.

Lemma try_key_no_panic hash ct peer k : try_key hash ct peer k = Ok None ∨ ∃ p, try_key hash ct peer k = Ok (Some p).
Proof.
  unfold try_key. destruct (derive_key_64_ok (x_dh k peer) hash) as (d & -> & _).
  pose proof (token_decrypt_cases ct d) as Ht. destruct (token_decrypt ct d) as [p|e|]; eauto. done.
Qed.

(** The loop finds the first ratchet that authenticates the ciphertext. *)
Lemma try_ratchets_first hash ct peer rs :
  match try_ratchets hash ct peer rs with
  | Ok (Some r) => ∃ pre k post, rs = pre ++ k :: post ∧
      Forall (λ k', try_key hash ct peer k' = Ok None) pre ∧
      try_key hash ct peer k = Ok (Some (dec_plaintext r)) ∧
      dec_ratchet_id r = Some (take 10 (sha256 (x_pub k)))
  | Ok None => Forall (λ k', try_key hash ct peer k' = Ok None) rs
  | _ => False
  end.
Proof.
  induction rs as [|k rs IH]; cbn [try_ratchets]; [constructor|].
  destruct (try_key_no_panic hash ct peer k) as [Hk|[p Hk]]; rewrite Hk; cbn [res_bind].
  - destruct (try_ratchets hash ct peer rs) as [[r|]|e|]; try done.
    + destruct IH as (pre & k' & post & -> & Hp & ?). exists (k :: pre), k', post. split; [done|].
      split; [by constructor|done].
    + by constructor.
  - rewrite ratchet_id_ok. cbn [res_bind]. exists [], k, rs. simpl. auto.
Qed.

Lemma try_ratchets_found hash ct peer pre k post p :
  Forall (λ k', try_key hash ct peer k' = Ok None) pre → try_key hash ct peer k = Ok (Some p) →
  try_ratchets hash ct peer (pre ++ k :: post) = Ok (Some (mkDec p (Some (take 10 (sha256 (x_pub k)))))).
Proof.
  intros Hp Hk. induction Hp as [|k' pre Hk' _ IH]; cbn [try_ratchets app].
  - rewrite Hk. cbn [res_bind]. by rewrite ratchet_id_ok.
  - rewrite Hk'. exact IH.
Qed.

Lemma try_ratchets_none hash ct peer rs :
  Forall (λ k', try_key hash ct peer k' = Ok None) rs → try_ratchets hash ct peer rs = Ok None.
Proof. induction 1 as [|k rs Hk _ IH]; cbn [try_ratchets]; [done|]. by rewrite Hk. Qed.

(** Encrypting to the public half of a key that [try_key] holds. *)
Lemma encrypt_try_key id plaintext ratchet eph iv k :
  x_pub k = match ratchet with Some r => r | None => pub_key id end →
  length iv = 16%nat → bytes_ok plaintext →
  ∃ ct, id_encrypt id plaintext ratchet eph iv = Ok (x_pub eph ++ ct) ∧
    length ct = (48 + 16 * (length plaintext / 16 + 1))%nat ∧
    try_key (id_hash id) ct (x_pub eph) k = Ok (Some plaintext).
Proof.
  intros Hk Hiv Hp. unfold id_encrypt, try_key. cbv zeta. rewrite <-Hk, x_dh_agree.
  destruct (derive_key_64_ok (x_dh k (x_pub eph)) (id_hash id)) as (d & Hd & Hdl). rewrite Hd.
  destruct (encrypt_decrypt plaintext d iv) as (ct & He & Hl & _ & Hdec); [by left|done|done|].
  cbn [map_err res_bind]. rewrite He. cbn [map_err res_bind]. exists ct. rewrite Hdec. auto.
Qed.

Lemma decrypt_split id x ct rs enf :
  length x = 32%nat →
  decrypt_with_ratchet_id id (x ++ ct) rs enf =
  let* found := match rs with Some l => try_ratchets (id_hash id) ct x l | None => Ok None end in
  match found with
  | Some r => Ok r
  | None =>
      if enf then Err IdentityDecryptionFailed else
      let* shared := match prv id with
        | Some key => Ok (x_dh key x)
        | None => match backend id with
                  | Some b => ok_or (backend_ecdh b x) IdentityDecryptionFailed
                  | None => Err IdentityDecryptionFailed end end in
      let* derived := map_err (λ _, IdentityDecryptionFailed) (derive_key_64 shared (id_hash id)) in
      let* plaintext := map_err (λ _, IdentityDecryptionFailed) (token_decrypt ct derived) in
      Ok (mkDec plaintext None)
  end.
Proof.
  intros Hx. unfold decrypt_with_ratchet_id. rewrite decide_False by (rewrite length_app; lia).
  rewrite slice_to_ok by (rewrite length_app; lia). cbn [res_bind]. rewrite take_app_length' by done.
  rewrite copy_array_ok by done. cbn [res_bind].
  rewrite slice_from_ok by (rewrite length_app; lia). cbn [res_bind]. by rewrite drop_app_length' by done.
Qed.

(** ** Properties *)

(** Key import and export round-trip.  A 64-byte private key gives an
    identity whose private key is those bytes; importing its public key
    elsewhere gives the same identity hash and public key without private
    operations; and what the holder signs the importer verifies. *)
Theorem identity_key_roundtrip key m :
  length key = 64%nat →
  ∃ id pub sg, from_private_key key = Ok id ∧ get_private_key id = Some key ∧ has_private_key id = true ∧
    from_public_key (get_public_key id) = Ok pub ∧
    id_hash pub = id_hash id ∧ id_hash id = take 16 (sha256 (get_public_key id)) ∧
    get_public_key pub = get_public_key id ∧ has_private_key pub = false ∧ id_sign pub m = None ∧
    id_sign id m = Some sg ∧ id_verify pub m sg = true.
Proof.
  intros Hl. rewrite from_private_key_ok by done. eexists _, _, (ed_sign (drop 32 key) m). split; [done|].
  unfold get_private_key, get_public_key at 1 2 3; cbn [prv sig_prv pub_key sig_pub id_hash mbind option_bind].
  rewrite take_drop. split; [done|]. split; [done|]. split; [apply from_public_key_ok, x_pub_length|].
  split_and!; try done. apply ed_sign_verify.
Qed.

(** C26.  Encryption to an identity is readable by its holder, with and without
    ratchets.  Whatever the ephemeral key and IV: a message encrypted to the
    public key decrypts with the base key unless ratchets are enforced, which
    refuses it, provided no held ratchet authenticates it; a message encrypted
    to a held ratchet decrypts under that ratchet and reports its identifier,
    enforced or not, provided no ratchet tried before it authenticates it. *)
Theorem identity_ecies_roundtrip key id pub plaintext eph iv pre r post :
  from_private_key key = Ok id → from_public_key (get_public_key id) = Ok pub →
  length iv = 16%nat → bytes_ok plaintext →
  (∃ ct, id_encrypt pub plaintext None eph iv = Ok (x_pub eph ++ ct) ∧
     length ct = (48 + 16 * (length plaintext / 16 + 1))%nat ∧
     ∀ rs, Forall (λ k, try_key (id_hash id) ct (x_pub eph) k = Ok None) rs →
       decrypt_with_ratchet_id id (x_pub eph ++ ct) (Some rs) false = Ok (mkDec plaintext None) ∧
       decrypt_with_ratchet_id id (x_pub eph ++ ct) (Some rs) true = Err IdentityDecryptionFailed) ∧
  (∃ ct, id_encrypt pub plaintext (Some (x_pub r)) eph iv = Ok (x_pub eph ++ ct) ∧
     (Forall (λ k, try_key (id_hash id) ct (x_pub eph) k = Ok None) pre →
      ∀ enf, decrypt_with_ratchet_id id (x_pub eph ++ ct) (Some (pre ++ r :: post)) enf =
        Ok (mkDec plaintext (Some (take 10 (sha256 (x_pub r))))))).
Proof.
  intros Hpr Hpu Hiv Hp.
  assert (Hl : length key = 64%nat).
  { unfold from_private_key in Hpr. by destruct (Nat.eqb_spec (length key) 64). }
  rewrite from_private_key_ok in Hpr by done. injection Hpr as <-.
  unfold get_public_key in Hpu; cbn [pub_key sig_pub] in Hpu.
  rewrite from_public_key_ok in Hpu by apply x_pub_length. injection Hpu as <-.
  split.
  - destruct (encrypt_try_key (mkIdentity None None (x_pub (take 32 key)) (ed_public (drop 32 key))
       (take 16 (sha256 (x_pub (take 32 key) ++ vk_bytes (ed_public (drop 32 key))))) None)
       plaintext None eph iv (take 32 key)) as (ct & He & Hlen & Hk); [done|done|done|].
    exists ct. split; [done|]. split; [done|]. intros rs Hrs. rewrite !decrypt_split by apply x_pub_length.
    cbn [id_hash prv backend] in *. rewrite try_ratchets_none by done. cbn [res_bind]. split; [|done].
    unfold try_key in Hk. destruct (derive_key_64 _ _) as [d|e|]; cbn [map_err res_bind] in *; try done.
    destruct (token_decrypt ct d); cbn [map_err res_bind]; by simplify_eq.
  - destruct (encrypt_try_key (mkIdentity None None (x_pub (take 32 key)) (ed_public (drop 32 key))
       (take 16 (sha256 (x_pub (take 32 key) ++ vk_bytes (ed_public (drop 32 key))))) None)
       plaintext (Some (x_pub r)) eph iv r) as (ct & He & Hlen & Hk); [done|done|done|].
    exists ct. split; [done|]. intros Hpre enf. rewrite decrypt_split by apply x_pub_length.
    cbn [id_hash] in *. by rewrite (try_ratchets_found _ _ _ _ _ _ plaintext).
Qed.

(** Decryption is total and takes the first key that authenticates.  No
    panic and one error; a result with a ratchet identifier comes from the
    first held ratchet that authenticates the ciphertext; a result without one
    comes from the base key or backend, only when ratchets are not enforced and
    no ratchet authenticates. *)
Theorem identity_decrypt_first id ciphertext rs enf :
  let peer := take 32 ciphertext in
  let ct := drop 32 ciphertext in
  let fails k := try_key (id_hash id) ct peer k = Ok None in
  match decrypt_with_ratchet_id id ciphertext rs enf with
  | Ok (mkDec p (Some rid)) =>
      ∃ pre k post, rs = Some (pre ++ k :: post) ∧ Forall fails pre ∧
        try_key (id_hash id) ct peer k = Ok (Some p) ∧ rid = take 10 (sha256 (x_pub k))
  | Ok (mkDec p None) =>
      enf = false ∧ Forall fails (default [] rs) ∧
      ∃ shared d, match prv id with
                  | Some k => shared = x_dh k peer
                  | None => ∃ b, backend id = Some b ∧ backend_ecdh b peer = Some shared
                  end ∧
        derive_key_64 shared (id_hash id) = Ok d ∧ token_decrypt ct d = Ok p
  | Err e => e = IdentityDecryptionFailed
  | Panic => False
  end.
Proof.
  intros peer ct fails. destruct (decide (length ciphertext < 32)%nat) as [Hl|Hl].
  { unfold decrypt_with_ratchet_id. by rewrite decide_True. }
  assert (Hpl : length peer = 32%nat) by (unfold peer; rewrite length_take; lia).
  rewrite <-(take_drop 32 ciphertext). rewrite decrypt_split by done. fold peer ct.
  assert (Hf : match (match rs with Some l => try_ratchets (id_hash id) ct peer l | None => Ok None end) with
    | Ok (Some r) => ∃ pre k post, rs = Some (pre ++ k :: post) ∧ Forall fails pre ∧
        try_key (id_hash id) ct peer k = Ok (Some (dec_plaintext r)) ∧
        dec_ratchet_id r = Some (take 10 (sha256 (x_pub k)))
    | Ok None => Forall fails (default [] rs) | _ => False end).
  { destruct rs as [rs|]; [|constructor]. pose proof (try_ratchets_first (id_hash id) ct peer rs) as Ht.
    destruct (try_ratchets _ _ _ rs) as [[r|]|e|]; try done.
    destruct Ht as (pre & k & post & -> & ?). eauto 10. }
  destruct (match rs with Some _ => _ | None => _ end) as [[[p rid]|]|e|]; try done; cbn [res_bind].
  - destruct Hf as (pre & k & post & -> & Hp & Hk & Hr). simpl in Hr. subst rid. eauto 10.
  - destruct enf; [done|].
    destruct (prv id) as [k|] eqn:Hk; cbn [res_bind].
    + destruct (derive_key_64_ok (x_dh k peer) (id_hash id)) as (d & Hd & _). rewrite Hd. cbn [map_err res_bind].
      pose proof (token_decrypt_cases ct d) as Ht.
      destruct (token_decrypt ct d) as [p|e|] eqn:Hdec; cbn [map_err res_bind]; [|done|done].
      split; [done|]. split; [done|]. by exists (x_dh k peer), d.
    + destruct (backend id) as [b|]; [|done]. destruct (backend_ecdh b peer) as [sh|] eqn:Hb; [|done].
      cbn [ok_or res_bind].
      destruct (derive_key_64_ok sh (id_hash id)) as (d & Hd & _). rewrite Hd. cbn [map_err res_bind].
      pose proof (token_decrypt_cases ct d) as Ht.
      destruct (token_decrypt ct d) as [p|e|] eqn:Hdec; cbn [map_err res_bind]; [|done|done].
      split; [done|]. split; [done|]. exists sh, d. split; [by exists b|done].
Qed.
End identity_proofs.

(** ** A concrete instance *)

#[export] Instance toy_curve : Curve25519 := {|
  x_pub := λ a, hd 0 a :: replicate 31 0;
  x_dh := λ a p, [(hd 0 a * hd 0 p) mod 256];
|}.
#[export] Instance toy_curve_laws : Curve25519Laws toy_curve.
Proof. split; [done|]. intros a b. simpl. by rewrite Z.mul_comm. Qed.

Definition toy_ed : Ed25519 := {|
  verifying_key := Z;
  public_key_from_bytes := λ b, if bool_decide (b = replicate 32 (hd 0 b)) then Some (hd 0 b) else None;
  ed_verify := λ k m s, bool_decide (s = ed_sign [k] m);
|}.
#[local] Existing Instance toy_digest.
#[local] Existing Instance toy_ed.
#[export] Instance toy_keys : @Ed25519Keys toy_ed := {|
  ed_public := λ seed : bytes, hd 0 seed : @verifying_key toy_ed;
  vk_bytes := λ k : @verifying_key toy_ed, replicate 32 (k : Z);
|}.
#[export] Instance toy_keys_laws : Ed25519KeysLaws toy_keys toy_signer.
Proof.
  split.
  - intros k. apply length_replicate.
  - intros k. cbn -[replicate bool_decide]. by rewrite bool_decide_eq_true_2.
  - intros b k. cbn -[replicate bool_decide]. case_bool_decide as E; [|done]. by intros [= <-].
  - intros seed m. cbn -[replicate bool_decide]. by apply bool_decide_eq_true_2.
Qed.

Lemma identity_key_roundtrip_witness :
  ∃ id pub sg, from_private_key (replicate 64 3) = Ok id ∧
    get_private_key id = Some (replicate 64 3) ∧
    from_public_key (get_public_key id) = Ok pub ∧ id_verify pub [1; 2] sg = true.
Proof.
  destruct (identity_key_roundtrip (replicate 64 3) [1; 2] eq_refl)
    as (id & pub & sg & H1 & H2 & _ & H3 & _ & _ & _ & _ & _ & _ & H4).
  exists id, pub, sg. exact (conj H1 (conj H2 (conj H3 H4))).
Defined.

Definition demo_identity : Identity :=
  mkIdentity (Some (replicate 32 3)) (Some (replicate 32 3)) (3 :: replicate 31 0) 3
    (3 :: replicate 15 0) None.

Lemma demo_identity_ok :
  from_private_key (replicate 64 3) = Ok demo_identity.
Proof.
  rewrite (from_private_key_ok (replicate 64 3) eq_refl). unfold demo_identity. f_equal.
Qed.

(** A message to the ratchet 5, decrypted with the ratchets 7 and 5 held. *)
Lemma identity_ecies_roundtrip_witness :
  ∃ ct, id_encrypt demo_identity [1; 2; 3]
      (Some (x_pub [5])) [2] (replicate 16 9) = Ok (x_pub [2] ++ ct) ∧
    decrypt_with_ratchet_id demo_identity (x_pub [2] ++ ct) (Some [[7]; [5]]) true =
      Ok (mkDec [1; 2; 3] (Some (5 :: replicate 9 0))).
Proof.
  pose (pub := mkIdentity None None (3 :: replicate 31 0) 3 (3 :: replicate 15 0) None).
  assert (Hpub : from_public_key (get_public_key demo_identity) = Ok pub).
  { change (get_public_key demo_identity) with ((3 :: replicate 31 0) ++ vk_bytes (3 : @verifying_key toy_ed)).
    rewrite from_public_key_ok by reflexivity. unfold pub. by do 2 f_equal. }
  destruct (identity_ecies_roundtrip (replicate 64 3) demo_identity pub [1; 2; 3] [2] (replicate 16 9) [[7]] [5] []
    demo_identity_ok Hpub eq_refl ltac:(apply (bool_decide_eq_true_1 _); vm_compute; reflexivity)) as [_ (ct & He & Hd)].
  exists ct. split; [exact He|]. apply Hd.
  pose (enc := id_encrypt pub [1; 2; 3] (Some (x_pub [5])) [2] (replicate 16 9)).
  assert (Hct : ct = drop 32 (match enc with Ok c => c | _ => [] end)).
  { unfold enc. rewrite He. reflexivity. }
  constructor; [|constructor]. rewrite Hct. vm_compute. reflexivity.
Defined.

(** A message to the ratchet 5: the held ratchet 7 fails first, then 5 decrypts. *)
Definition demo_ciphertext : bytes :=
  match id_encrypt demo_identity [1; 2; 3] (Some (x_pub [5])) [2] (replicate 16 9) with Ok c => c | _ => [] end.

Lemma identity_decrypt_first_witness :
  ∃ pre k post, [[7]; [5]; [6]] = pre ++ k :: post ∧
    try_key (id_hash demo_identity) (drop 32 demo_ciphertext) (take 32 demo_ciphertext) k = Ok (Some [1; 2; 3]).
Proof.
  assert (Hv : decrypt_with_ratchet_id demo_identity demo_ciphertext (Some [[7]; [5]; [6]]) true =
    Ok (mkDec [1; 2; 3] (Some (5 :: replicate 9 0)))) by (vm_compute; reflexivity).
  pose proof (identity_decrypt_first demo_identity demo_ciphertext (Some [[7]; [5]; [6]]) true) as H.
  cbv zeta in H. rewrite Hv in H. destruct H as (pre & k & post & He & _ & Hk & _).
  exists pre, k, post. injection He as He. exact (conj He Hk).
Defined.
