(* ===== verification/Announce.v ===== *)
(** * Announces: creation, wire form, validation and ordering state

    Models [rns-identity/src/announce.rs], the hash functions of
    [destination.rs] that announces use, and the state of [announce_state.rs]
    without its files.  Random bytes and clock readings are arguments. *)

From S2P Require Import Prelude Wire Packet Receipt Token Ifac Identity.
From stdpp Require Import prelude list.
From Stdlib Require Import Sorting.Sorted.

Open Scope Z_scope.

Definition PUBKEY_SIZE : nat := 64.
Definition NAME_HASH_SIZE : nat := 10.
Definition RANDOM_HASH_SIZE : nat := 10.
Definition SIGNATURE_SIZE : nat := 64.
Definition RATCHET_SIZE : nat := 32.
Definition ANNOUNCE_TIME_MAX : Z := Z.shiftl 1 40 - 1.
Definition MIN_ANNOUNCE_SIZE : nat := PUBKEY_SIZE + NAME_HASH_SIZE + RANDOM_HASH_SIZE + SIGNATURE_SIZE.

Inductive AnnounceError :=
| TooShort (n : nat)
| SignatureInvalid
| HashMismatch
| NoPrivateKey
| AnnInvalidPublicKey
| HashCollision
| InvalidWireTime (t : Z).

Record AnnounceData := mkAnn {
  ann_public_key : bytes;
  ann_name_hash : bytes;
  ann_random_hash : bytes;
  ann_ratchet : option bytes;
  ann_signature : bytes;
  ann_app_data : option bytes;
}.

(** [if let Some(x) = o { v.extend_from_slice(x) }] *)
Definition opt_bytes (o : option bytes) : bytes := default [] o.

Definition ann_pack (a : AnnounceData) : bytes :=
  ann_public_key a ++ ann_name_hash a ++ ann_random_hash a ++ opt_bytes (ann_ratchet a) ++
  ann_signature a ++ opt_bytes (ann_app_data a).

Definition ann_unpack (data : bytes) (has_ratchet : bool) : res AnnounceError AnnounceData :=
  let min_size := (if has_ratchet then MIN_ANNOUNCE_SIZE + RATCHET_SIZE else MIN_ANNOUNCE_SIZE)%nat in
  if decide (length data < min_size)%nat then Err (TooShort (length data)) else
  let* s1 := slice data 0 64 in let* public_key := copy_array 64 s1 in
  let* s2 := slice data 64 74 in let* nh := copy_array 10 s2 in
  let* s3 := slice data 74 84 in let* random_hash := copy_array 10 s3 in
  let* '(ratchet, pos) :=
    (if has_ratchet then
       let* s4 := slice data 84 116 in let* r := copy_array 32 s4 in Ok (Some r, 116%nat)
     else Ok (None, 84%nat)) in
  let* s5 := slice data pos (pos + 64) in let* signature := copy_array 64 s5 in
  let pos := (pos + 64)%nat in
  let* app_data := (if decide (pos < length data)%nat then let* t := slice_from data pos in Ok (Some t) else Ok None) in
  Ok (mkAnn public_key nh random_hash ratchet signature app_data).

Section announce.
Context `{Digest} `{Ed25519} `{!Ed25519Keys} `{Ed25519Signer}.

(** [Destination::compute_hash]; the 26-byte material is a fixed array. *)
Definition dest_compute_hash {E} (nh : bytes) (identity_hash : option bytes) : res E bytes :=
  match identity_hash with
  | Some ih =>
      let* a := copy_array 10 nh in
      let* b := copy_array 16 ih in
      truncated_hash (a ++ b)
  | None => truncated_hash nh
  end.

Definition hash_from_name_and_identity {E} (app_name : bytes) (identity_hash : option bytes) : res E bytes :=
  let* nh := name_hash app_name in
  dest_compute_hash nh identity_hash.

Definition create_at (identity : Identity) (app_name : bytes) (app_data ratchet_pub : option bytes)
    (wire_time : Z) (random_bytes : bytes) : res AnnounceError AnnounceData :=
  if ANNOUNCE_TIME_MAX <? wire_time then Err (InvalidWireTime wire_time) else
  let public_key := get_public_key identity in
  let* nh := name_hash app_name in
  let ts_bytes := be_bytes 8 wire_time in
  let* r1 := copy_array 5 random_bytes in
  let* ts := slice ts_bytes 3 8 in
  let* r2 := copy_array 5 ts in
  let random_hash := r1 ++ r2 in
  let* dest_hash := hash_from_name_and_identity app_name (Some (id_hash identity)) in
  let signed_data :=
    dest_hash ++ public_key ++ nh ++ random_hash ++ opt_bytes ratchet_pub ++ opt_bytes app_data in
  let* signature := ok_or (id_sign identity signed_data) NoPrivateKey in
  Ok (mkAnn public_key nh random_hash ratchet_pub signature app_data).

(** [create]: the wire time is the Unix clock, zero before the epoch. *)
Definition create (identity : Identity) (app_name : bytes) (app_data ratchet_pub : option bytes)
    (unix_now : Z) (random_bytes : bytes) : res AnnounceError AnnounceData :=
  create_at identity app_name app_data ratchet_pub (Z.max 0 unix_now) random_bytes.

Definition signed_data (a : AnnounceData) (packet_dest_hash : bytes) : bytes :=
  packet_dest_hash ++ ann_public_key a ++ ann_name_hash a ++ ann_random_hash a ++
  opt_bytes (ann_ratchet a) ++ opt_bytes (ann_app_data a).

Definition verify_signature (a : AnnounceData) (packet_dest_hash : bytes) : res AnnounceError Identity :=
  let* identity := map_err (λ _, AnnInvalidPublicKey) (from_public_key (ann_public_key a)) in
  if negb (id_verify identity (signed_data a packet_dest_hash) (ann_signature a)) then Err SignatureInvalid
  else Ok identity.

Definition validate_destination_binding (a : AnnounceData) (packet_dest_hash : bytes) (identity : Identity)
    (known_public_key : option bytes) : res AnnounceError () :=
  let* expected_hash := truncated_hash (ann_name_hash a ++ id_hash identity) in
  if negb (bool_decide (expected_hash = packet_dest_hash)) then Err HashMismatch else
  match known_public_key with
  | Some known_key => if negb (bool_decide (known_key = ann_public_key a)) then Err HashCollision else Ok ()
  | None => Ok ()
  end.

Definition validate_with_known_key (a : AnnounceData) (packet_dest_hash : bytes) (known_public_key : option bytes)
    : res AnnounceError Identity :=
  let* identity := verify_signature a packet_dest_hash in
  let* _ := validate_destination_binding a packet_dest_hash identity known_public_key in
  Ok identity.

Definition validate (a : AnnounceData) (packet_dest_hash : bytes) : res AnnounceError Identity :=
  validate_with_known_key a packet_dest_hash None.

End announce.

(** ** Ordering and rotation state (announce_state.rs) *)

Record RatchetControlState := mkCtl {
  ctl_identity_hash : bytes;
  ctl_destination_hash : bytes;
  last_rotation_wall : option Z;
  last_announce_wire : option Z;
}.

Definition ctl_new (ih dh : bytes) : RatchetControlState := mkCtl ih dh None None.

Definition anchor_rotation_if_unknown (s : RatchetControlState) (wall_now : Z) : RatchetControlState :=
  match last_rotation_wall s with
  | None => mkCtl (ctl_identity_hash s) (ctl_destination_hash s) (Some wall_now) (last_announce_wire s)
  | Some _ => s
  end.

Definition rotation_due (s : RatchetControlState) (wall_now interval_secs : Z) : bool :=
  match last_rotation_wall s with
  | Some last => (last <=? wall_now) && (interval_secs <=? Z.max 0 (wall_now - last))
  | None => false
  end.

Definition with_rotation_at (s : RatchetControlState) (wall_now : Z) : RatchetControlState :=
  mkCtl (ctl_identity_hash s) (ctl_destination_hash s) (Some wall_now) (last_announce_wire s).

(** The error carries the refused wall time. *)
Definition prepare_announce (s : RatchetControlState) (wall_now : Z) : res Z (option RatchetControlState) :=
  if ANNOUNCE_TIME_MAX <? wall_now then Err wall_now else
  if match last_announce_wire s with Some last => wall_now <=? last | None => false end then Ok None else
  Ok (Some (mkCtl (ctl_identity_hash s) (ctl_destination_hash s) (last_rotation_wall s) (Some wall_now))).

Definition ctl_validate (s : RatchetControlState) : bool :=
  match last_announce_wire s with Some v => negb (ANNOUNCE_TIME_MAX <? v) | None => true end.

(** ** Wire form *)

(** The field lengths the Rust array types enforce. *)
Definition ann_ok (a : AnnounceData) : Prop :=
  length (ann_public_key a) = 64%nat ∧ length (ann_name_hash a) = 10%nat ∧
  length (ann_random_hash a) = 10%nat ∧ length (ann_signature a) = 64%nat ∧
  (∀ r, ann_ratchet a = Some r → length r = 32%nat).

Definition has_ratchet (a : AnnounceData) : bool := bool_decide (is_Some (ann_ratchet a)).

(** Application data as the parser sees it: empty data is absent. *)
Definition norm_app (o : option bytes) : option bytes :=
  match o with Some [] => None | _ => o end.
Definition norm_ann (a : AnnounceData) : AnnounceData :=
  mkAnn (ann_public_key a) (ann_name_hash a) (ann_random_hash a) (ann_ratchet a) (ann_signature a)
    (norm_app (ann_app_data a)).

Lemma ann_unpack_pack a : ann_ok a → ann_unpack (ann_pack a) (has_ratchet a) = Ok (norm_ann a).
Proof.
  destruct a as [pk nh rh rt sg ad]. unfold ann_ok, ann_pack, has_ratchet, norm_ann; simpl.
  intros (Hpk & Hnh & Hrh & Hsg & Hrt).
  set (tail := opt_bytes ad).
  assert (Htail : norm_app ad = if decide (0 < length tail)%nat then Some tail else None).
  { unfold tail, norm_app, opt_bytes. by destruct ad as [[|x l]|]. }
  assert (Hr : ∀ hr pos, pos = (148 + length (opt_bytes rt))%nat → length (opt_bytes rt) = (if hr : bool then 32 else 0)%nat →
    (if decide (pos < length (pk ++ nh ++ rh ++ opt_bytes rt ++ sg ++ tail))%nat
     then let* t := slice_from (pk ++ nh ++ rh ++ opt_bytes rt ++ sg ++ tail) pos in Ok (Some t) else Ok None)
    = @Ok AnnounceError _ (norm_app ad)).
  { intros hr pos -> Hhr. rewrite Htail, !length_app, Hpk, Hnh, Hrh, Hsg. case_decide; case_decide; try lia; [|done].
    rewrite slice_from_ok by (rewrite !length_app; lia). cbn [res_bind].
    rewrite !app_assoc, drop_app_length'; [done|]. rewrite !length_app. lia. }
  unfold ann_unpack, MIN_ANNOUNCE_SIZE, PUBKEY_SIZE, NAME_HASH_SIZE, RANDOM_HASH_SIZE, SIGNATURE_SIZE, RATCHET_SIZE.
  assert (Hrl : length (opt_bytes rt) = (if bool_decide (is_Some rt) then 32 else 0)%nat).
  { destruct rt as [r|]; simpl; [|done]. by rewrite (Hrt r eq_refl). }
  rewrite decide_False by (rewrite !length_app; destruct (bool_decide _); lia).
  rewrite (slice_at [] pk (nh ++ rh ++ opt_bytes rt ++ sg ++ tail)) by (done || simpl; lia). cbn [res_bind].
  rewrite copy_array_ok by done. cbn [res_bind].
  rewrite (slice_at pk nh (rh ++ opt_bytes rt ++ sg ++ tail)) by (done || lia). cbn [res_bind].
  rewrite copy_array_ok by done. cbn [res_bind].
  rewrite (slice_at (pk ++ nh) rh (opt_bytes rt ++ sg ++ tail)) by (rewrite <-?app_assoc, ?length_app; done || lia). cbn [res_bind].
  rewrite copy_array_ok by done. cbn [res_bind].
  destruct rt as [r|]; simpl in Hrl.
  - rewrite bool_decide_eq_true_2 in * by eauto.
    rewrite (slice_at (pk ++ nh ++ rh) r (sg ++ tail)) by (rewrite <-?app_assoc, ?length_app; done || lia). cbn [res_bind].
    rewrite copy_array_ok by done. cbn [res_bind].
    rewrite (slice_at (pk ++ nh ++ rh ++ r) sg tail) by (rewrite <-?app_assoc, ?length_app; done || lia). cbn [res_bind].
    rewrite copy_array_ok by done. cbn [res_bind]. cbv zeta. rewrite (Hr true) by (simpl; lia). done.
  - rewrite bool_decide_eq_false_2 in * by (by intros [? ?]). cbn [res_bind].
    rewrite (slice_at (pk ++ nh ++ rh) sg tail) by (rewrite <-?app_assoc, ?length_app; done || lia). cbn [res_bind].
    rewrite copy_array_ok by done. cbn [res_bind]. cbv zeta. rewrite (Hr false) by (simpl; lia). done.
Qed.

Lemma take_drop_next n m k (l : bytes) : k = (m + n)%nat → take n (drop m l) ++ drop k l = drop m l.
Proof. intros ->. by rewrite <-drop_drop, take_drop. Qed.

(** Any payload long enough is the wire form of some announce. *)
Lemma ann_split data hr :
  ((if hr : bool then MIN_ANNOUNCE_SIZE + RATCHET_SIZE else MIN_ANNOUNCE_SIZE) ≤ length data)%nat →
  ∃ a, ann_ok a ∧ has_ratchet a = hr ∧ ann_pack a = data ∧ norm_ann a = a.
Proof.
  unfold MIN_ANNOUNCE_SIZE, PUBKEY_SIZE, NAME_HASH_SIZE, RANDOM_HASH_SIZE, SIGNATURE_SIZE, RATCHET_SIZE.
  intros Hl. set (rn := (if hr then 32 else 0)%nat).
  pose (rest := drop (148 + rn) data).
  exists (mkAnn (take 64 data) (take 10 (drop 64 data)) (take 10 (drop 74 data))
    (if hr then Some (take 32 (drop 84 data)) else None) (take 64 (drop (84 + rn) data))
    (match rest with [] => None | _ => Some rest end)).
  split_and!.
  - unfold ann_ok; simpl. rewrite !length_take, !length_drop. unfold rn in *.
    destruct hr; split_and!; try lia; [|done]. intros r [= <-]. rewrite length_take, length_drop. lia.
  - unfold has_ratchet; simpl. destruct hr; [by apply bool_decide_eq_true_2|].
    apply bool_decide_eq_false_2. by intros [? ?].
  - unfold ann_pack; simpl.
    assert (Hro : opt_bytes (match rest with [] => None | _ => Some rest end) = rest) by by destruct rest.
    rewrite Hro. unfold rest.
    replace (opt_bytes (if hr then Some (take 32 (drop 84 data)) else None)) with (take rn (drop 84 data))
      by (unfold rn; destruct hr; [done|]; by rewrite take_0).
    rewrite (take_drop_next 64 (84 + rn)), (take_drop_next rn 84), (take_drop_next 10 74),
      (take_drop_next 10 64) by lia.
    apply take_drop.
  - unfold norm_ann, norm_app; simpl. by destruct rest.
Qed.

(** ** Validation *)

Section announce_proofs.
Context `{D : Digest} `{!DigestLaws D} `{Ed : Ed25519} `{K : !Ed25519Keys} `{S : Ed25519Signer}
  `{!Ed25519KeysLaws K S}.

Lemma dest_hash_ok {E} nh ih :
  length nh = 10%nat → length ih = 16%nat →
  dest_compute_hash nh (Some ih) = @Ok E _ (take 16 (sha256 (nh ++ ih))).
Proof. intros. unfold dest_compute_hash. rewrite !copy_array_ok by done. apply truncated_hash_ok. Qed.

Lemma length_sha_take n x : (n ≤ 32)%nat → length (take n (sha256 x)) = n.
Proof. intros. rewrite length_take, sha256_length. lia. Qed.

(** The announce wire format round-trips and its parser is total.  An
    announce whose fields have their fixed sizes parses back to itself (empty
    application data parses as absent); a payload parses exactly when it has
    the minimum length for the ratchet flag, and then serialising the result
    gives the payload back; nothing panics. *)
Theorem announce_wire_roundtrip a data hr :
  ann_ok a →
  ann_unpack (ann_pack a) (has_ratchet a) = Ok (norm_ann a) ∧
  match ann_unpack data hr with
  | Ok a' => ann_pack a' = data ∧ ann_ok a' ∧ has_ratchet a' = hr
  | Err (TooShort n) =>
      n = length data ∧ (n < if hr then MIN_ANNOUNCE_SIZE + RATCHET_SIZE else MIN_ANNOUNCE_SIZE)%nat
  | _ => False
  end.
Proof.
  intros Ha. split; [by apply ann_unpack_pack|].
  destruct (decide (length data < if hr then MIN_ANNOUNCE_SIZE + RATCHET_SIZE else MIN_ANNOUNCE_SIZE)%nat) as [Hl|Hl].
  - unfold ann_unpack. by rewrite decide_True.
  - destruct (ann_split data hr) as (a' & Hok & Hr & Hp & Hn); [lia|].
    rewrite <-Hp, <-Hr, ann_unpack_pack, Hn by done. done.
Qed.

(** C35.  Validation accepts an announce exactly when the public key is valid,
    the signature verifies over the destination hash and every announced field,
    the destination hash is the hash of the name and the announced identity,
    and the public key is the one already known for that destination, if any.
    The errors are told apart in that order, and nothing panics. *)
Theorem announce_validate_exact a dh known :
  let key_ok := from_public_key (ann_public_key a) in
  let bound := dh = take 16 (sha256 (ann_name_hash a ++ take 16 (sha256 (ann_public_key a)))) in
  let pinned := ∀ k, known = Some k → k = ann_public_key a in
  let signed id := id_verify id (signed_data a dh) (ann_signature a) = true in
  match validate_with_known_key a dh known with
  | Ok id => key_ok = Ok id ∧ signed id ∧ bound ∧ pinned ∧ id_hash id = take 16 (sha256 (ann_public_key a))
  | Err AnnInvalidPublicKey => ∃ e, key_ok = Err e
  | Err SignatureInvalid => ∃ id, key_ok = Ok id ∧ ¬ signed id
  | Err HashMismatch => ∃ id, key_ok = Ok id ∧ signed id ∧ ¬ bound
  | Err HashCollision => ∃ id, key_ok = Ok id ∧ signed id ∧ bound ∧ ¬ pinned
  | _ => False
  end.
Proof.
  intros key_ok bound pinned signed. unfold validate_with_known_key, verify_signature. fold key_ok.
  destruct key_ok as [id|e|] eqn:Hk; cbn [map_err res_bind]; [|by eexists|].
  2: { unfold key_ok, from_public_key in Hk. destruct (Nat.eqb_spec (length (ann_public_key a)) 64) as [Hl|]; [|done].
       cbn [negb] in Hk. rewrite slice_to_ok in Hk by lia. cbn [res_bind] in Hk.
       rewrite copy_array_ok in Hk by (rewrite length_take; lia). cbn [res_bind] in Hk.
       rewrite slice_from_ok in Hk by lia. cbn [res_bind] in Hk.
       rewrite copy_array_ok in Hk by (rewrite length_drop; lia). cbn [res_bind] in Hk.
       destruct (public_key_from_bytes _); [|done]. cbn [ok_or res_bind] in Hk.
       unfold compute_hash in Hk. by rewrite truncated_hash_ok in Hk. }
  destruct (from_public_key_inv _ _ Hk) as (_ & _ & Hh & _).
  destruct (id_verify id (signed_data a dh) (ann_signature a)) eqn:Hv; cbn [negb res_bind].
  2: { exists id. split; [done|]. unfold signed. by rewrite Hv. }
  unfold validate_destination_binding. rewrite truncated_hash_ok, Hh. cbn [res_bind].
  case_bool_decide as Hb; cbn [negb].
  2: { exists id. split; [done|]. split; [done|]. intros E. by apply Hb. }
  destruct known as [k|].
  - case_bool_decide as Hkk; cbn [negb res_bind].
    + split_and!; try done. intros ? [= <-]. done.
    + exists id. split_and!; try done. intros Hp. by apply Hkk, Hp.
  - cbn [res_bind]. split_and!; done.
Qed.

Context `{!Ed25519SignerLaws S} `{C : Curve25519} `{!Curve25519Laws C}.

Lemma opt_bytes_norm o : opt_bytes (norm_app o) = opt_bytes o.
Proof. by destruct o as [[|]|]. Qed.

Lemma signed_data_norm a dh : signed_data (norm_ann a) dh = signed_data a dh.
Proof. unfold signed_data, norm_ann; simpl. by rewrite opt_bytes_norm. Qed.

Lemma validate_ok a dh pub :
  from_public_key (ann_public_key a) = Ok pub →
  id_verify pub (signed_data a dh) (ann_signature a) = true →
  dh = take 16 (sha256 (ann_name_hash a ++ id_hash pub)) → validate a dh = Ok pub.
Proof.
  intros Hk Hv Hb. unfold validate, validate_with_known_key, verify_signature.
  rewrite Hk. cbn [map_err res_bind]. rewrite Hv. cbn [negb res_bind].
  unfold validate_destination_binding. rewrite truncated_hash_ok. cbn [res_bind].
  by rewrite bool_decide_eq_true_2 by done.
Qed.

Lemma create_at_ok key id app ad rt t rnd :
  from_private_key key = Ok id → 0 ≤ t ≤ ANNOUNCE_TIME_MAX → length rnd = 5%nat →
  let nh := take 10 (sha256 app) in
  let dh := take 16 (sha256 (nh ++ id_hash id)) in
  let a := mkAnn (get_public_key id) nh (rnd ++ be_bytes 5 t) rt
    (ed_sign (drop 32 key) (dh ++ get_public_key id ++ nh ++ (rnd ++ be_bytes 5 t) ++ opt_bytes rt ++ opt_bytes ad)) ad in
  create_at id app ad rt t rnd = Ok a ∧
  hash_from_name_and_identity app (Some (id_hash id)) = @Ok Empty_set _ dh ∧
  (∃ pub, from_public_key (get_public_key id) = Ok pub ∧ id_hash pub = id_hash id ∧
          get_public_key pub = get_public_key id ∧ sig_pub pub = ed_public (drop 32 key)) ∧
  length (get_public_key id) = 64%nat.
Proof.
  intros Hid Ht Hr nh dh a.
  assert (Hl : length key = 64%nat).
  { unfold from_private_key in Hid. by destruct (Nat.eqb_spec (length key) 64). }
  rewrite from_private_key_ok in Hid by done.
  assert (Hdest : ∀ E, hash_from_name_and_identity app (Some (id_hash id)) = @Ok E _ dh).
  { intros E. unfold hash_from_name_and_identity. rewrite name_hash_ok. cbn [res_bind].
    apply dest_hash_ok; [by apply length_sha_take; lia|]. injection Hid as <-. cbn [id_hash].
    apply length_sha_take. lia. }
  split_and!; [|by apply Hdest| |].
  - unfold create_at. rewrite (proj2 (Z.ltb_ge _ _)) by lia. cbv zeta. rewrite name_hash_ok. cbn [res_bind].
    rewrite copy_array_ok by done. cbn [res_bind].
    change (slice (be_bytes 8 t) 3 8) with (@Ok AnnounceError _ (be_bytes 5 t)). cbn [res_bind].
    rewrite copy_array_ok by done. cbn [res_bind]. rewrite Hdest. cbn [res_bind].
    unfold id_sign. injection Hid as <-. done.
  - injection Hid as <-. eexists. split; [apply from_public_key_ok, x_pub_length|]. done.
  - injection Hid as <-. unfold get_public_key; cbn [pub_key sig_pub].
    rewrite length_app, x_pub_length, vk_length. done.
Qed.

(** C19.  Announces work end to end.  For every identity holder, name,
    application data, ratchet and wire time of 40 bits: creation succeeds; the
    serialised announce parses with the matching ratchet flag and validates
    against the destination hash of that name and identity; the receiver
    recovers the announcer's public key, the ratchet, the application data and
    the wire time.  A larger wire time is refused. *)
Theorem announce_end_to_end key id app ad rt t rnd :
  from_private_key key = Ok id → 0 ≤ t → length rnd = 5%nat → (∀ r, rt = Some r → length r = 32%nat) →
  if ANNOUNCE_TIME_MAX <? t then create_at id app ad rt t rnd = Err (InvalidWireTime t) else
  ∃ a dh a' pub, create_at id app ad rt t rnd = Ok a ∧
    hash_from_name_and_identity app (Some (id_hash id)) = @Ok Empty_set _ dh ∧
    ann_unpack (ann_pack a) (has_ratchet a) = Ok a' ∧ validate a' dh = Ok pub ∧
    get_public_key pub = get_public_key id ∧ id_hash pub = id_hash id ∧
    ann_ratchet a' = rt ∧ ann_app_data a' = norm_app ad ∧ be_value (drop 5 (ann_random_hash a')) = t.
Proof.
  intros Hid Ht Hr Hrt. destruct (Z.ltb_spec ANNOUNCE_TIME_MAX t) as [Hm|Hm].
  { unfold create_at. by rewrite (proj2 (Z.ltb_lt _ _)). }
  destruct (create_at_ok key id app ad rt t rnd Hid ltac:(lia) Hr) as (Hc & Hd & (pub & Hp & Hh & Hg & Hs) & Hl).
  eexists _, _, _, pub. split; [exact Hc|]. split; [exact Hd|].
  split; [apply ann_unpack_pack|].
  { unfold ann_ok; cbn [ann_public_key ann_name_hash ann_random_hash ann_signature ann_ratchet].
    rewrite length_app, Hr, length_be_bytes, ed_sign_length, length_sha_take by lia. split_and!; done. }
  split_and!; [|done..|].
  - apply validate_ok; [exact Hp| |by rewrite Hh]. rewrite signed_data_norm.
    unfold id_verify. rewrite Hs. apply ed_sign_verify.
  - cbn [ann_random_hash norm_ann]. rewrite drop_app_length' by done. apply be_value_bytes.
    unfold ANNOUNCE_TIME_MAX in Hm. change (Z.shiftl 1 40) with (256 ^ Z.of_nat 5) in Hm. lia.
Qed.
End announce_proofs.

(** ** Ordering of announces *)

(** Planning announces at successive clock readings, each candidate adopted once
    persisted: the wire times sent. *)
Fixpoint announce_run (s : RatchetControlState) (walls : list Z) : RatchetControlState * list Z :=
  match walls with
  | [] => (s, [])
  | w :: rest =>
      match prepare_announce s w with
      | Ok (Some s') => let '(s'', sent) := announce_run s' rest in (s'', w :: sent)
      | _ => announce_run s rest
      end
  end.

Lemma prepare_announce_ok s w s' :
  prepare_announce s w = Ok (Some s') →
  w ≤ ANNOUNCE_TIME_MAX ∧ last_announce_wire s' = Some w ∧ last_rotation_wall s' = last_rotation_wall s ∧
  (∀ l, last_announce_wire s = Some l → l < w).
Proof.
  unfold prepare_announce. destruct (Z.ltb_spec ANNOUNCE_TIME_MAX w); [done|].
  destruct (last_announce_wire s) as [l|]; [destruct (Z.leb_spec w l); [done|]|]; intros [= <-];
    split_and!; try done; intros ? [= <-]; lia.
Qed.

(** Wire times of announces strictly increase whatever the wall clock
    does, rollbacks and repeats included: of any sequence of clock readings,
    the announces sent carry strictly increasing 40-bit times above the last
    durable one, the stored state is the last time sent and stays loadable, and
    the rotation anchor is untouched. *)
Theorem announce_times_increase s walls :
  ctl_validate s = true →
  let '(s', sent) := announce_run s walls in
  Sorted Z.lt sent ∧ Forall (λ w, w ≤ ANNOUNCE_TIME_MAX) sent ∧
  (∀ l, last_announce_wire s = Some l → Forall (Z.lt l) sent) ∧
  last_announce_wire s' = from_option Some (last_announce_wire s) (last sent) ∧
  ctl_validate s' = true ∧ last_rotation_wall s' = last_rotation_wall s.
Proof.
  revert s. induction walls as [|w walls IH]; intros s Hs; simpl.
  { split_and!; try done; constructor. }
  destruct (prepare_announce s w) as [[s1|]|e|] eqn:Hp; [|by apply IH..].
  destruct (prepare_announce_ok _ _ _ Hp) as (Hm & Hl & Hr & Hlt).
  assert (Hv : ctl_validate s1 = true).
  { unfold ctl_validate. rewrite Hl. apply negb_true_iff, Z.ltb_ge. done. }
  specialize (IH s1 Hv). destruct (announce_run s1 walls) as [s2 sent].
  destruct IH as (Hso & Hf & Hgt & Hla & Hvv & Hro). specialize (Hgt w Hl). split_and!; try done.
  - constructor; [done|]. destruct sent; constructor. by inversion Hgt.
  - by constructor.
  - intros l Hll. specialize (Hlt l Hll). constructor; [done|]. eapply Forall_impl; [exact Hgt|]. simpl. lia.
  - rewrite Hla, Hl. rewrite last_cons. by destruct (last sent).
  - by rewrite Hro.
Qed.

(** ** Witnesses *)

#[local] Existing Instance toy_digest.
#[local] Existing Instance toy_ed.

Definition demo_announce : AnnounceData :=
  mkAnn (replicate 64 1) (replicate 10 2) (replicate 10 3) (Some (replicate 32 4)) (replicate 64 5) (Some [6; 7]).

Lemma announce_wire_roundtrip_witness :
  ann_ok demo_announce ∧ ann_unpack (ann_pack demo_announce) true = Ok demo_announce.
Proof.
  assert (Hok : ann_ok demo_announce) by (repeat split; intros r [= <-]; reflexivity).
  split; [exact Hok|]. exact (proj1 (announce_wire_roundtrip demo_announce [] false Hok)).
Defined.

(** An announce for the name bytes 1, 2, 3 at wire time 1000, with a ratchet. *)
Lemma announce_end_to_end_witness :
  ∃ a dh a' pub, create_at demo_identity [1; 2; 3] (Some [9]) (Some (replicate 32 4)) 1000 [0; 1; 2; 3; 4] = Ok a ∧
    hash_from_name_and_identity [1; 2; 3] (Some (id_hash demo_identity)) = @Ok Empty_set _ dh ∧
    ann_unpack (ann_pack a) (has_ratchet a) = Ok a' ∧ validate a' dh = Ok pub ∧
    be_value (drop 5 (ann_random_hash a')) = 1000.
Proof.
  assert (Hr : ∀ r : bytes, Some (replicate 32 4) = Some r → length r = 32%nat) by (intros r [= <-]; reflexivity).
  pose proof (announce_end_to_end (replicate 64 3) demo_identity [1; 2; 3] (Some [9]) (Some (replicate 32 4)) 1000
    [0; 1; 2; 3; 4] demo_identity_ok ltac:(lia) eq_refl Hr) as H.
  change (ANNOUNCE_TIME_MAX <? 1000) with false in H. cbv iota in H.
  destruct H as (a & dh & a' & pub & H1 & H2 & H3 & H4 & _ & _ & _ & _ & H5).
  exists a, dh, a', pub. exact (conj H1 (conj H2 (conj H3 (conj H4 H5)))).
Defined.

Lemma announce_times_increase_witness :
  let '(s', sent) := announce_run (ctl_new [] []) [5; 3; 5; 8; 8; 6; 9] in
  sent = [5; 8; 9] ∧ Sorted Z.lt sent ∧ last_announce_wire s' = Some 9.
Proof.
  split; [reflexivity|].
  destruct (announce_times_increase (ctl_new [] []) [5; 3; 5; 8; 8; 6; 9] eq_refl) as (H1 & _ & _ & H2 & _).
  exact (conj H1 H2).
Defined.

(** A flipped signature byte is reported as such. *)
Lemma announce_validate_exact_witness :
  validate_with_known_key demo_announce (replicate 16 0) None = Err SignatureInvalid ∧
  ∃ id, from_public_key (ann_public_key demo_announce) = Ok id ∧
    id_verify id (signed_data demo_announce (replicate 16 0)) (ann_signature demo_announce) ≠ true.
Proof.
  assert (Hb : match validate_with_known_key demo_announce (replicate 16 0) None with
               | Err SignatureInvalid => true | _ => false end = true) by (vm_compute; reflexivity).
  assert (Hv : validate_with_known_key demo_announce (replicate 16 0) None = Err SignatureInvalid).
  { revert Hb. destruct (validate_with_known_key _ _ _) as [?|[]|]; congruence. }
  split; [exact Hv|].
  pose proof (announce_validate_exact demo_announce (replicate 16 0) None) as H. cbv zeta in H. rewrite Hv in H.
  exact H.
Defined.
