(* ===== verification/Ingress.v ===== *)
(** * Announce rebroadcast records and ingress control

    Models [rns-transport/src/announce.rs] and [rns-transport/src/ingress.rs].
    An [Instant] is a count of nanoseconds bounded by the platform's range, a
    [Duration] a count of nanoseconds; every [Instant::now()] is an argument.
    The settings of an [IngressController] are grouped in [IngressConfig].  The
    order in which the hold buffer is iterated is an argument. *)

From S2P Require Import Prelude F64 Table.
From stdpp Require Import prelude list gmap.
From Stdlib Require Import SpecFloat Sorting.Sorted.

Open Scope Z_scope.

(** ** Announce table *)

Record AnnounceEntry := {
  ae_timestamp : f64;
  retransmit_timeout : f64;
  ae_retries : Z;
  received_from : bytes;
  ae_hops : Z;
  packet_raw : bytes;
  local_rebroadcasts : Z;
  block_rebroadcast : bool;
  attached_interface : option Z;
  source_interface : option Z;
}.

Record AnnounceTable := { ann_entries : gmap bytes AnnounceEntry }.

Definition at_new : AnnounceTable := {| ann_entries := ∅ |}.
Definition at_insert (t : AnnounceTable) (d : bytes) (e : AnnounceEntry) : AnnounceTable :=
  {| ann_entries := <[d := e]> (ann_entries t) |}.
Definition at_get (t : AnnounceTable) (d : bytes) : option AnnounceEntry := ann_entries t !! d.
Definition at_remove (t : AnnounceTable) (d : bytes) : AnnounceTable * option AnnounceEntry :=
  ({| ann_entries := delete d (ann_entries t) |}, ann_entries t !! d).

Definition is_due (now : f64) (e : AnnounceEntry) : bool :=
  (negb (block_rebroadcast e) || bool_decide (is_Some (attached_interface e))) && f_ge now (retransmit_timeout e).

(** [order] enumerates the map. *)
Definition due_for_retransmit (order : list (bytes * AnnounceEntry)) (now : f64) : list bytes :=
  fst <$> filter (λ kv, is_due now kv.2 = true) order.

Definition cull_exhausted (t : AnnounceTable) (max_retries : Z) : AnnounceTable * nat :=
  let before := size (ann_entries t) in
  let m := retain (λ _ e, ae_retries e <=? max_retries) (ann_entries t) in
  ({| ann_entries := m |}, (before - size m)%nat).

(** ** Clocks *)

(** [duration_since], saturating at zero. *)
Definition duration_since (later earlier : Z) : Z := Z.max 0 (later - earlier).

(** [Duration::from_secs_f64] panics where [try_from_secs_f64] fails. *)
Definition from_secs_f64 {E} (x : f64) : res E Z := expect (try_from_secs_f64 x).

(** ** Settings *)

Definition PATHFINDER_M : Z := 128.
Definition MAX_HELD_ANNOUNCES : nat := 256.
Definition IC_HELD_RELEASE_INTERVAL : f64 := f_of_Z 5.
Definition IA_FREQ_SAMPLES : nat := 48.
Definition OA_FREQ_SAMPLES : nat := 48.
Definition IP_FREQ_SAMPLES : nat := 48.
Definition OP_FREQ_SAMPLES : nat := 48.
Definition AR_FREQ_DECAY : f64 := f_div (f_of_Z 1) (f_lit 1 10).
Definition PR_FREQ_DECAY : f64 := f_div (f_of_Z 1) (f_lit 1 10).
Definition IC_DEQUE_MIN_SAMPLE : nat := 2.
Definition IC_BURST_MIN_SAMPLES : nat := 6.
Definition IC_NEW_TIME : f64 := f_of_Z 7200.
Definition IC_BURST_FREQ_NEW : f64 := f_of_Z 3.
Definition IC_BURST_FREQ : f64 := f_of_Z 10.
Definition IC_PR_BURST_FREQ_NEW : f64 := f_of_Z 3.
Definition IC_PR_BURST_FREQ : f64 := f_of_Z 8.
Definition IC_BURST_HOLD : f64 := f_of_Z 15.
Definition IC_BURST_PENALTY : f64 := f_of_Z 15.
Definition EC_PR_FREQ : f64 := f_of_Z 5.
Definition EGRESS_CONTROL : bool := false.

Record IngressOverrides := {
  o_enabled : option bool;
  o_burst_freq_new : option f64;
  o_burst_freq : option f64;
  o_pr_burst_freq_new : option f64;
  o_pr_burst_freq : option f64;
  o_new_time : option f64;
  o_burst_hold : option f64;
  o_burst_penalty : option f64;
  o_max_held : option nat;
  o_held_release_interval : option f64;
  o_ec_pr_freq : option f64;
  o_egress_control : option bool;
}.

(** The field named in an [IngressOverrideError]. *)
Inductive IngressField :=
| F_burst_freq_new | F_burst_freq | F_pr_burst_freq_new | F_pr_burst_freq | F_ec_pr_freq
| F_new_time | F_burst_hold | F_burst_penalty | F_held_release_interval.

Definition valid_frequency (v : f64) : bool := f_is_finite v && f_ge v f_zero.
Definition valid_time (now : Z) (v : f64) : bool :=
  match try_from_secs_f64 v with
  | Some d => bool_decide (is_Some (instant_add now d))
  | None => false
  end.

(** The two loops of [validate]; the first bad field is reported. *)
Fixpoint check_fields (ok : f64 → bool) (l : list (IngressField * option f64)) : res IngressField () :=
  match l with
  | [] => Ok ()
  | (field, value) :: rest =>
      if match value with Some v => negb (ok v) | None => false end then Err field else check_fields ok rest
  end.

Definition overrides_validate (o : IngressOverrides) (now : Z) : res IngressField () :=
  let* _ := check_fields valid_frequency
    [(F_burst_freq_new, o_burst_freq_new o); (F_burst_freq, o_burst_freq o);
     (F_pr_burst_freq_new, o_pr_burst_freq_new o); (F_pr_burst_freq, o_pr_burst_freq o);
     (F_ec_pr_freq, o_ec_pr_freq o)] in
  check_fields (valid_time now)
    [(F_new_time, o_new_time o); (F_burst_hold, o_burst_hold o);
     (F_burst_penalty, o_burst_penalty o); (F_held_release_interval, o_held_release_interval o)].

Record IngressConfig := {
  enabled : bool;
  burst_freq_new : f64;
  burst_freq : f64;
  pr_burst_freq_new : f64;
  pr_burst_freq : f64;
  new_time : f64;
  burst_hold : f64;
  burst_penalty : f64;
  max_held : nat;
  held_release_interval : f64;
  ec_pr_freq : f64;
  egress_control : bool;
}.

Record HeldAnnounce := {
  ha_raw : bytes;
  destination_hash : bytes;
  ha_hops : Z;
  receiving_interface_id : Z;
}.

Record IngressController := mkCtrl {
  created : Z;
  cfg : IngressConfig;
  ia_freq_deque : list Z;
  oa_freq_deque : list Z;
  ip_freq_deque : list Z;
  op_freq_deque : list Z;
  burst_active : bool;
  burst_activated : Z;
  pr_burst_active : bool;
  pr_burst_activated : Z;
  held_release : Z;
  held_announces : gmap bytes HeldAnnounce;
  announces_received : Z;
  announces_sent : Z;
  path_requests_received : Z;
  path_requests_sent : Z;
}.

Definition default_config : IngressConfig := {|
  enabled := true; burst_freq_new := IC_BURST_FREQ_NEW; burst_freq := IC_BURST_FREQ;
  pr_burst_freq_new := IC_PR_BURST_FREQ_NEW; pr_burst_freq := IC_PR_BURST_FREQ; new_time := IC_NEW_TIME;
  burst_hold := IC_BURST_HOLD; burst_penalty := IC_BURST_PENALTY; max_held := MAX_HELD_ANNOUNCES;
  held_release_interval := IC_HELD_RELEASE_INTERVAL; ec_pr_freq := EC_PR_FREQ; egress_control := EGRESS_CONTROL |}.

Definition ctrl_with (c : IngressConfig) (now : Z) : IngressController :=
  mkCtrl now c [] [] [] [] false now false now now ∅ 0 0 0 0.

Definition ctrl_new (now : Z) : IngressController := ctrl_with default_config now.

Definition ctrl_disabled (now : Z) : IngressController :=
  ctrl_with {| enabled := false; burst_freq_new := IC_BURST_FREQ_NEW; burst_freq := IC_BURST_FREQ;
    pr_burst_freq_new := IC_PR_BURST_FREQ_NEW; pr_burst_freq := IC_PR_BURST_FREQ; new_time := IC_NEW_TIME;
    burst_hold := IC_BURST_HOLD; burst_penalty := IC_BURST_PENALTY; max_held := MAX_HELD_ANNOUNCES;
    held_release_interval := IC_HELD_RELEASE_INTERVAL; ec_pr_freq := EC_PR_FREQ;
    egress_control := EGRESS_CONTROL |} now.

Definition apply_overrides (o : IngressOverrides) (now : Z) : IngressController :=
  let d := default_config in
  ctrl_with {| enabled := default (enabled d) (o_enabled o);
    burst_freq_new := default (burst_freq_new d) (o_burst_freq_new o);
    burst_freq := default (burst_freq d) (o_burst_freq o);
    pr_burst_freq_new := default (pr_burst_freq_new d) (o_pr_burst_freq_new o);
    pr_burst_freq := default (pr_burst_freq d) (o_pr_burst_freq o);
    new_time := default (new_time d) (o_new_time o);
    burst_hold := default (burst_hold d) (o_burst_hold o);
    burst_penalty := default (burst_penalty d) (o_burst_penalty o);
    max_held := default (max_held d) (o_max_held o);
    held_release_interval := default (held_release_interval d) (o_held_release_interval o);
    ec_pr_freq := default (ec_pr_freq d) (o_ec_pr_freq o);
    egress_control := default (egress_control d) (o_egress_control o) |} now.

Definition try_with_overrides (o : IngressOverrides) (now_v now : Z) : res IngressField IngressController :=
  let* _ := overrides_validate o now_v in
  Ok (apply_overrides o now).

(** [Option::filter] *)
Definition opt_filter {A} (p : A → bool) (o : option A) : option A :=
  match o with Some v => if p v then Some v else None | None => None end.

(** [with_overrides]: invalid settings fall back to their defaults. *)
Definition with_overrides (o : IngressOverrides) (now_v now : Z) : IngressController :=
  apply_overrides {| o_enabled := o_enabled o;
    o_burst_freq_new := opt_filter valid_frequency (o_burst_freq_new o);
    o_burst_freq := opt_filter valid_frequency (o_burst_freq o);
    o_pr_burst_freq_new := opt_filter valid_frequency (o_pr_burst_freq_new o);
    o_pr_burst_freq := opt_filter valid_frequency (o_pr_burst_freq o);
    o_new_time := opt_filter (valid_time now_v) (o_new_time o);
    o_burst_hold := opt_filter (valid_time now_v) (o_burst_hold o);
    o_burst_penalty := opt_filter (valid_time now_v) (o_burst_penalty o);
    o_max_held := o_max_held o;
    o_held_release_interval := opt_filter (valid_time now_v) (o_held_release_interval o);
    o_ec_pr_freq := opt_filter valid_frequency (o_ec_pr_freq o);
    o_egress_control := o_egress_control o |} now.

(** ** Sampling *)

Definition sample_age (now sample : Z) : Z := duration_since now sample.

Definition push_sample (deque : list Z) (cap : nat) (now : Z) : list Z :=
  (if decide (cap ≤ length deque)%nat then drop 1 deque else deque) ++ [now].

Definition frequency_from_parts (n : nat) (now oldest : Z) (min_samples : nat) : f64 :=
  if decide (n ≤ min_samples)%nat then f_zero else
  let span := as_secs_f64 (sample_age now oldest) in
  if f_le span f_zero then f_zero else f_div (f_of_Z (Z.of_nat n)) span.

Definition frequency_from_deque (deque : list Z) (min_samples : nat) (decay now : Z) : f64 :=
  match filter (λ s, sample_age now s ≤ decay) deque with
  | [] => f_zero
  | oldest :: _ as fresh => frequency_from_parts (length fresh) now oldest min_samples
  end.

Definition frequency_from_deque_mut (deque : list Z) (min_samples : nat) (decay now : Z) : list Z * f64 :=
  let n := length deque in
  if decide (n ≤ min_samples)%nat then (deque, f_zero) else
  match deque with
  | [] => (deque, f_zero)
  | oldest :: rest =>
      let deque' := if decide (decay < sample_age now oldest) then rest else deque in
      (deque', frequency_from_parts n now oldest min_samples)
  end.

Definition with_ia c d n := mkCtrl (created c) (cfg c) d (oa_freq_deque c) (ip_freq_deque c) (op_freq_deque c)
  (burst_active c) (burst_activated c) (pr_burst_active c) (pr_burst_activated c) (held_release c)
  (held_announces c) n (announces_sent c) (path_requests_received c) (path_requests_sent c).
Definition with_oa c d n := mkCtrl (created c) (cfg c) (ia_freq_deque c) d (ip_freq_deque c) (op_freq_deque c)
  (burst_active c) (burst_activated c) (pr_burst_active c) (pr_burst_activated c) (held_release c)
  (held_announces c) (announces_received c) n (path_requests_received c) (path_requests_sent c).
Definition with_ip c d n := mkCtrl (created c) (cfg c) (ia_freq_deque c) (oa_freq_deque c) d (op_freq_deque c)
  (burst_active c) (burst_activated c) (pr_burst_active c) (pr_burst_activated c) (held_release c)
  (held_announces c) (announces_received c) (announces_sent c) n (path_requests_sent c).
Definition with_op c d n := mkCtrl (created c) (cfg c) (ia_freq_deque c) (oa_freq_deque c) (ip_freq_deque c) d
  (burst_active c) (burst_activated c) (pr_burst_active c) (pr_burst_activated c) (held_release c)
  (held_announces c) (announces_received c) (announces_sent c) (path_requests_received c) n.
Definition with_burst c a t r := mkCtrl (created c) (cfg c) (ia_freq_deque c) (oa_freq_deque c) (ip_freq_deque c)
  (op_freq_deque c) a t (pr_burst_active c) (pr_burst_activated c) r
  (held_announces c) (announces_received c) (announces_sent c) (path_requests_received c) (path_requests_sent c).
Definition with_pr_burst c a t := mkCtrl (created c) (cfg c) (ia_freq_deque c) (oa_freq_deque c) (ip_freq_deque c)
  (op_freq_deque c) (burst_active c) (burst_activated c) a t (held_release c)
  (held_announces c) (announces_received c) (announces_sent c) (path_requests_received c) (path_requests_sent c).
Definition with_held c h r := mkCtrl (created c) (cfg c) (ia_freq_deque c) (oa_freq_deque c) (ip_freq_deque c)
  (op_freq_deque c) (burst_active c) (burst_activated c) (pr_burst_active c) (pr_burst_activated c) r
  h (announces_received c) (announces_sent c) (path_requests_received c) (path_requests_sent c).

Definition received_announce (c : IngressController) (now : Z) : IngressController :=
  with_ia c (push_sample (ia_freq_deque c) IA_FREQ_SAMPLES now) (sat_add64 (announces_received c) 1).
Definition sent_announce (c : IngressController) (now : Z) : IngressController :=
  with_oa c (push_sample (oa_freq_deque c) OA_FREQ_SAMPLES now) (sat_add64 (announces_sent c) 1).
Definition received_path_request (c : IngressController) (now : Z) : IngressController :=
  with_ip c (push_sample (ip_freq_deque c) IP_FREQ_SAMPLES now) (sat_add64 (path_requests_received c) 1).
Definition sent_path_request (c : IngressController) (now : Z) : IngressController :=
  with_op c (push_sample (op_freq_deque c) OP_FREQ_SAMPLES now) (sat_add64 (path_requests_sent c) 1).

Definition incoming_announce_frequency {E} (c : IngressController) (now : Z) : res E f64 :=
  let* decay := from_secs_f64 AR_FREQ_DECAY in
  Ok (frequency_from_deque (ia_freq_deque c) IC_DEQUE_MIN_SAMPLE decay now).
Definition outgoing_announce_frequency {E} (c : IngressController) (now : Z) : res E f64 :=
  let* decay := from_secs_f64 AR_FREQ_DECAY in
  Ok (frequency_from_deque (oa_freq_deque c) 1 decay now).
Definition incoming_pr_frequency {E} (c : IngressController) (now : Z) : res E f64 :=
  let* decay := from_secs_f64 PR_FREQ_DECAY in
  Ok (frequency_from_deque (ip_freq_deque c) IC_DEQUE_MIN_SAMPLE decay now).
Definition outgoing_pr_frequency {E} (c : IngressController) (now : Z) : res E f64 :=
  let* decay := from_secs_f64 PR_FREQ_DECAY in
  Ok (frequency_from_deque (op_freq_deque c) 1 decay now).

(** ** Limiting *)

Definition age (c : IngressController) (now : Z) : f64 := as_secs_f64 (duration_since now (created c)).

(** The clock readings of one limiter call: the age, the frequency, and [now]. *)
Record Clock := mkClock { t_age : Z; t_freq : Z; t_now : Z }.

Definition freq_threshold (c : IngressController) (k : Clock) : f64 :=
  if f_lt (age c (t_age k)) (new_time (cfg c)) then burst_freq_new (cfg c) else burst_freq (cfg c).
Definition pr_freq_threshold (c : IngressController) (k : Clock) : f64 :=
  if f_lt (age c (t_age k)) (new_time (cfg c)) then pr_burst_freq_new (cfg c) else pr_burst_freq (cfg c).

Definition should_ingress_limit {E} (c : IngressController) (k : Clock) : res E (IngressController * bool) :=
  if negb (enabled (cfg c)) then Ok (c, false) else
  let threshold := freq_threshold c k in
  let* decay := from_secs_f64 AR_FREQ_DECAY in
  let '(dq, ia_freq) := frequency_from_deque_mut (ia_freq_deque c) IC_DEQUE_MIN_SAMPLE decay (t_freq k) in
  let c := with_ia c dq (announces_received c) in
  let now := t_now k in
  if burst_active c then
    if f_lt ia_freq threshold then
      let* hold := from_secs_f64 (burst_hold (cfg c)) in
      if (hold <? duration_since now (burst_activated c)) && bool_decide (IC_BURST_MIN_SAMPLES ≤ length dq)%nat
      then Ok (with_burst c false (burst_activated c) (held_release c), true)
      else Ok (c, true)
    else Ok (c, true)
  else if f_gt ia_freq threshold then
    let* penalty := from_secs_f64 (burst_penalty (cfg c)) in
    Ok (with_burst c true now (default now (instant_add now penalty)), true)
  else Ok (c, false).

Definition should_ingress_limit_pr {E} (c : IngressController) (k : Clock) : res E (IngressController * bool) :=
  if negb (enabled (cfg c)) then Ok (c, false) else
  let threshold := pr_freq_threshold c k in
  let* decay := from_secs_f64 PR_FREQ_DECAY in
  let '(dq, ip_freq) := frequency_from_deque_mut (ip_freq_deque c) IC_DEQUE_MIN_SAMPLE decay (t_freq k) in
  let c := with_ip c dq (path_requests_received c) in
  let now := t_now k in
  if pr_burst_active c then
    if f_lt ip_freq threshold then
      let* hold := from_secs_f64 (burst_hold (cfg c)) in
      if hold <? duration_since now (pr_burst_activated c)
      then Ok (with_pr_burst c false (pr_burst_activated c), true)
      else Ok (c, true)
    else Ok (c, true)
  else if f_gt ip_freq threshold then Ok (with_pr_burst c true now, true)
  else Ok (c, false).

Definition should_egress_limit_pr {E} (c : IngressController) (now : Z) : res E (IngressController * bool) :=
  if negb (egress_control (cfg c)) then Ok (c, false) else
  let* decay := from_secs_f64 PR_FREQ_DECAY in
  let '(dq, op_freq) := frequency_from_deque_mut (op_freq_deque c) 1 decay now in
  let c := with_op c dq (path_requests_sent c) in
  Ok (c, f_gt op_freq (ec_pr_freq (cfg c)) && bool_decide (IC_BURST_MIN_SAMPLES ≤ length dq)%nat).

(** ** The hold buffer *)

Definition hold_announce (c : IngressController) (a : HeldAnnounce) : IngressController :=
  if PATHFINDER_M - 1 <=? ha_hops a then c else
  if bool_decide (is_Some (held_announces c !! destination_hash a))
     || bool_decide (size (held_announces c) < max_held (cfg c))%nat
  then with_held c (<[destination_hash a := a]> (held_announces c)) (held_release c)
  else c.

(** [iter().min_by_key(|(_, a)| a.hops)]: the first entry of least hops. *)
Fixpoint min_by_hops (order : list (bytes * HeldAnnounce)) : option (bytes * HeldAnnounce) :=
  match order with
  | [] => None
  | kv :: rest =>
      match min_by_hops rest with
      | Some kv' => if ha_hops kv'.2 <? ha_hops kv.2 then Some kv' else Some kv
      | None => Some kv
      end
  end.

Definition try_release_held {E} (c : IngressController) (order : list (bytes * HeldAnnounce)) (k : Clock)
    : res E (IngressController * option HeldAnnounce) :=
  if bool_decide (held_announces c = ∅) then Ok (c, None) else
  let now := t_now k in
  if now <? held_release c then Ok (c, None) else
  let threshold := freq_threshold c k in
  let* decay := from_secs_f64 AR_FREQ_DECAY in
  let '(dq, ia_freq) := frequency_from_deque_mut (ia_freq_deque c) IC_DEQUE_MIN_SAMPLE decay (t_freq k) in
  let c := with_ia c dq (announces_received c) in
  if f_ge ia_freq threshold then Ok (c, None) else
  match min_by_hops order with
  | None => Ok (c, None)
  | Some (best_hash, _) =>
      match held_announces c !! best_hash with
      | None => Ok (c, None)
      | Some announce =>
          let c := with_held c (delete best_hash (held_announces c)) (held_release c) in
          let* interval := from_secs_f64 (held_release_interval (cfg c)) in
          Ok (with_held c (held_announces c) (default now (instant_add now interval)), Some announce)
      end
  end.

Definition held_count (c : IngressController) : nat := size (held_announces c).

(** ** Invariant *)

Definition time_ok (x : f64) : Prop := is_Some (try_from_secs_f64 x).
Definition cfg_ok (g : IngressConfig) : Prop :=
  time_ok (burst_hold g) ∧ time_ok (burst_penalty g) ∧ time_ok (held_release_interval g).

Record ctrl_ok (c : IngressController) : Prop := mkCtrlOk {
  ok_cfg : cfg_ok (cfg c);
  ok_ia : (length (ia_freq_deque c) ≤ 48)%nat;
  ok_oa : (length (oa_freq_deque c) ≤ 48)%nat;
  ok_ip : (length (ip_freq_deque c) ≤ 48)%nat;
  ok_op : (length (op_freq_deque c) ≤ 48)%nat;
  ok_held : (size (held_announces c) ≤ max_held (cfg c))%nat;
  ok_keys : map_Forall (λ d a, destination_hash a = d ∧ ha_hops a < 127) (held_announces c);
  ok_counts : 0 ≤ announces_received c ≤ U64_MAX ∧ 0 ≤ announces_sent c ≤ U64_MAX ∧
              0 ≤ path_requests_received c ≤ U64_MAX ∧ 0 ≤ path_requests_sent c ≤ U64_MAX;
}.

Inductive ingress_op :=
| OpReceivedAnnounce (now : Z) | OpSentAnnounce (now : Z)
| OpReceivedPathRequest (now : Z) | OpSentPathRequest (now : Z)
| OpLimit (k : Clock) | OpLimitPr (k : Clock) | OpEgress (now : Z)
| OpHold (a : HeldAnnounce) | OpRelease (order : list (bytes * HeldAnnounce)) (k : Clock).

Definition ingress_step (c : IngressController) (o : ingress_op) : res Empty_set IngressController :=
  match o with
  | OpReceivedAnnounce now => Ok (received_announce c now)
  | OpSentAnnounce now => Ok (sent_announce c now)
  | OpReceivedPathRequest now => Ok (received_path_request c now)
  | OpSentPathRequest now => Ok (sent_path_request c now)
  | OpLimit k => let* r := should_ingress_limit c k in Ok r.1
  | OpLimitPr k => let* r := should_ingress_limit_pr c k in Ok r.1
  | OpEgress now => let* r := should_egress_limit_pr c now in Ok r.1
  | OpHold a => Ok (hold_announce c a)
  | OpRelease order k => let* r := try_release_held c order k in Ok r.1
  end.

Fixpoint ingress_run (c : IngressController) (l : list ingress_op) : res Empty_set IngressController :=
  match l with
  | [] => Ok c
  | o :: l => let* c := ingress_step c o in ingress_run c l
  end.

Lemma from_secs_f64_ok {E} x : time_ok x → ∃ d, from_secs_f64 x = @Ok E _ d ∧ try_from_secs_f64 x = Some d.
Proof. intros [d Hd]. exists d. unfold from_secs_f64. by rewrite Hd. Qed.

Lemma ar_decay {E} : from_secs_f64 AR_FREQ_DECAY = @Ok E _ (10 * NANOS).
Proof. vm_compute. reflexivity. Qed.
Lemma pr_decay {E} : from_secs_f64 PR_FREQ_DECAY = @Ok E _ (10 * NANOS).
Proof. exact ar_decay. Qed.

Lemma length_push_sample d cap now :
  (0 < cap)%nat → (length d ≤ cap)%nat → (length (push_sample d cap now) ≤ cap)%nat.
Proof. intros. unfold push_sample. rewrite length_app. case_decide; rewrite ?length_drop; simpl; lia. Qed.

Lemma freq_mut_deque d ms dc now :
  (frequency_from_deque_mut d ms dc now).1 = d ∨ (∃ x, d = x :: (frequency_from_deque_mut d ms dc now).1).
Proof.
  unfold frequency_from_deque_mut. case_decide; [by left|]. destruct d as [|x d]; [by left|].
  case_decide; simpl; eauto.
Qed.

Lemma freq_mut_length d ms dc now :
  (length (frequency_from_deque_mut d ms dc now).1 ≤ length d)%nat.
Proof. destruct (freq_mut_deque d ms dc now) as [->|[x E]]; [done|]. rewrite E at 2. simpl. lia. Qed.

Lemma sat_add64_ok n : 0 ≤ n ≤ U64_MAX → 0 ≤ sat_add64 n 1 ≤ U64_MAX.
Proof. unfold sat_add64. lia. Qed.

#[local] Hint Resolve length_push_sample sat_add64_ok : rns.

Ltac ctrl_split := constructor;
  cbn [cfg ia_freq_deque oa_freq_deque ip_freq_deque op_freq_deque held_announces max_held announces_received
       announces_sent path_requests_received path_requests_sent with_ia with_oa with_ip with_op with_burst
       with_pr_burst with_held] in *; try done.

Lemma with_ia_ok c d n :
  ctrl_ok c → (length d ≤ 48)%nat → 0 ≤ n ≤ U64_MAX → ctrl_ok (with_ia c d n).
Proof. intros [] ? ?. ctrl_split. tauto. Qed.
Lemma with_ip_ok c d n :
  ctrl_ok c → (length d ≤ 48)%nat → 0 ≤ n ≤ U64_MAX → ctrl_ok (with_ip c d n).
Proof. intros [] ? ?. ctrl_split. tauto. Qed.
Lemma with_op_ok c d n :
  ctrl_ok c → (length d ≤ 48)%nat → 0 ≤ n ≤ U64_MAX → ctrl_ok (with_op c d n).
Proof. intros [] ? ?. ctrl_split. tauto. Qed.
Lemma with_burst_ok c a t r : ctrl_ok c → ctrl_ok (with_burst c a t r).
Proof. intros []. ctrl_split. Qed.
Lemma with_pr_burst_ok c a t : ctrl_ok c → ctrl_ok (with_pr_burst c a t).
Proof. intros []. ctrl_split. Qed.

Lemma hold_announce_ok c a : ctrl_ok c → ctrl_ok (hold_announce c a) ∧ cfg (hold_announce c a) = cfg c.
Proof.
  intros Hc. unfold hold_announce, PATHFINDER_M. destruct (Z.leb_spec (128 - 1) (ha_hops a)) as [|Hh]; [done|].
  destruct (_ || _) eqn:Ho; [|done]. split; [|done]. destruct Hc. ctrl_split.
  - apply orb_true_iff in Ho as [Ho|Ho]; apply bool_decide_eq_true in Ho.
    + rewrite map_size_insert. destruct Ho as [? ->]. done.
    + rewrite map_size_insert. destruct (held_announces c !! destination_hash a); simpl; lia.
  - apply map_Forall_insert_2; [|done]. split; [done|lia].
Qed.

Lemma limit_ok {E} c k : ctrl_ok c → ∃ c' b, should_ingress_limit c k = @Ok E _ (c', b) ∧ ctrl_ok c' ∧ cfg c' = cfg c.
Proof.
  intros Hc. unfold should_ingress_limit. destruct (enabled (cfg c)); cbn [negb]; [|by eexists _, _].
  cbv zeta. rewrite ar_decay. cbn [res_bind].
  pose proof (freq_mut_length (ia_freq_deque c) IC_DEQUE_MIN_SAMPLE (10 * NANOS) (t_freq k)) as Hl.
  destruct (frequency_from_deque_mut _ _ _ _) as [dq fr]. simpl fst in Hl.
  assert (Hok : ctrl_ok (with_ia c dq (announces_received c))).
  { apply with_ia_ok; [done|destruct Hc; lia|apply Hc]. }
  pose proof (ok_cfg _ Hc) as (H1 & H2 & H3).
  destruct (from_secs_f64_ok (E := E) _ H1) as (hold & Hh & _). destruct (from_secs_f64_ok (E := E) _ H2) as (pen & Hp & _).
  cbn [burst_active with_ia cfg]. rewrite Hh, Hp. cbn [res_bind].
  repeat case_match; eexists _, _; (split; [done|]); split; eauto using with_burst_ok.
Qed.

Lemma limit_pr_ok {E} c k : ctrl_ok c → ∃ c' b, should_ingress_limit_pr c k = @Ok E _ (c', b) ∧ ctrl_ok c' ∧ cfg c' = cfg c.
Proof.
  intros Hc. unfold should_ingress_limit_pr. destruct (enabled (cfg c)); cbn [negb]; [|by eexists _, _].
  cbv zeta. rewrite pr_decay. cbn [res_bind].
  pose proof (freq_mut_length (ip_freq_deque c) IC_DEQUE_MIN_SAMPLE (10 * NANOS) (t_freq k)) as Hl.
  destruct (frequency_from_deque_mut _ _ _ _) as [dq fr]. simpl fst in Hl.
  assert (Hok : ctrl_ok (with_ip c dq (path_requests_received c))).
  { apply with_ip_ok; [done|destruct Hc; lia|apply Hc]. }
  pose proof (ok_cfg _ Hc) as (H1 & H2 & H3). destruct (from_secs_f64_ok (E := E) _ H1) as (hold & Hh & _).
  cbn [pr_burst_active with_ip cfg]. rewrite Hh. cbn [res_bind].
  repeat case_match; eexists _, _; (split; [done|]); split; eauto using with_pr_burst_ok.
Qed.

Lemma egress_ok {E} c now : ctrl_ok c → ∃ c' b, should_egress_limit_pr c now = @Ok E _ (c', b) ∧ ctrl_ok c' ∧ cfg c' = cfg c.
Proof.
  intros Hc. unfold should_egress_limit_pr. destruct (egress_control (cfg c)); cbn [negb]; [|by eexists _, _].
  cbv zeta. rewrite pr_decay. cbn [res_bind].
  pose proof (freq_mut_length (op_freq_deque c) 1 (10 * NANOS) now) as Hl.
  destruct (frequency_from_deque_mut _ _ _ _) as [dq fr]. simpl fst in Hl.
  eexists _, _. split; [done|]. split; [|done]. apply with_op_ok; [done|destruct Hc; lia|apply Hc].
Qed.

Lemma release_ok {E} c order k :
  ctrl_ok c → ∃ c' o, try_release_held c order k = @Ok E _ (c', o) ∧ ctrl_ok c' ∧ cfg c' = cfg c.
Proof.
  intros Hc. unfold try_release_held. case_bool_decide; [by eexists _, _|]. cbv zeta.
  destruct (_ <? _); [by eexists _, _|]. rewrite ar_decay. cbn [res_bind].
  pose proof (freq_mut_length (ia_freq_deque c) IC_DEQUE_MIN_SAMPLE (10 * NANOS) (t_freq k)) as Hl.
  destruct (frequency_from_deque_mut _ _ _ _) as [dq fr]. simpl fst in Hl.
  assert (Hok : ctrl_ok (with_ia c dq (announces_received c))).
  { apply with_ia_ok; [done|destruct Hc; lia|apply Hc]. }
  destruct (f_ge _ _); [by eexists _, _|]. destruct (min_by_hops order) as [[h a]|]; [|by eexists _, _].
  destruct (held_announces _ !! h) as [an|]; [|by eexists _, _].
  pose proof (ok_cfg _ Hc) as (_ & _ & H3). destruct (from_secs_f64_ok (E := E) _ H3) as (iv & Hi & _).
  cbn [cfg with_held with_ia held_announces held_release]. rewrite Hi. cbn [res_bind].
  eexists _, _. split; [done|]. split; [|done]. destruct Hok. ctrl_split.
  - rewrite map_size_delete. destruct (_ !! _); simpl; lia.
  - by apply map_Forall_delete.
Qed.

Lemma ingress_step_ok c o : ctrl_ok c → ∃ c', ingress_step c o = Ok c' ∧ ctrl_ok c' ∧ cfg c' = cfg c.
Proof.
  intros Hc. destruct o as [t|t|t|t|k|k|t|a|order k]; cbn [ingress_step].
  - eexists; split; [done|]. split; [|done]. apply with_ia_ok; [done| |apply sat_add64_ok, Hc].
    apply length_push_sample; [unfold IA_FREQ_SAMPLES; lia|apply Hc].
  - eexists; split; [done|]. split; [|done]. destruct Hc. ctrl_split.
    + apply length_push_sample; [unfold OA_FREQ_SAMPLES; lia|done].
    + pose proof (sat_add64_ok (announces_sent c)). tauto.
  - eexists; split; [done|]. split; [|done]. apply with_ip_ok; [done| |apply sat_add64_ok, Hc].
    apply length_push_sample; [unfold IP_FREQ_SAMPLES; lia|apply Hc].
  - eexists; split; [done|]. split; [|done]. apply with_op_ok; [done| |apply sat_add64_ok, Hc].
    apply length_push_sample; [unfold OP_FREQ_SAMPLES; lia|apply Hc].
  - destruct (limit_ok (E := Empty_set) c k Hc) as (c' & b & -> & ? & ?). eauto.
  - destruct (limit_pr_ok (E := Empty_set) c k Hc) as (c' & b & -> & ? & ?). eauto.
  - destruct (egress_ok (E := Empty_set) c t Hc) as (c' & b & -> & ? & ?). eauto.
  - eexists; split; [done|]. by apply hold_announce_ok.
  - destruct (release_ok (E := Empty_set) c order k Hc) as (c' & b & -> & ? & ?). eauto.
Qed.

Lemma ingress_run_ok l c : ctrl_ok c → ∃ c', ingress_run c l = Ok c' ∧ ctrl_ok c' ∧ cfg c' = cfg c.
Proof.
  revert c. induction l as [|o l IH]; intros c Hc; cbn [ingress_run]; [eauto|].
  destruct (ingress_step_ok c o Hc) as (c1 & -> & Hc1 & E1). cbn [res_bind].
  destruct (IH c1 Hc1) as (c2 & -> & ? & E2). exists c2. split_and!; [done..|congruence].
Qed.

(** A controller made by one of the constructors. *)
Definition constructed (c : IngressController) : Prop :=
  ∃ now, c = ctrl_new now ∨ c = ctrl_disabled now ∨
    ∃ o v, try_with_overrides o v now = Ok c ∨ c = with_overrides o v now.

Lemma ctrl_with_ok g now : cfg_ok g → ctrl_ok (ctrl_with g now).
Proof.
  intros Hg. constructor; cbn; try done; try lia; rewrite ?map_size_empty; unfold U64_MAX; lia.
Qed.

Lemma default_times : time_ok IC_BURST_HOLD ∧ time_ok IC_BURST_PENALTY ∧ time_ok IC_HELD_RELEASE_INTERVAL.
Proof. split_and!; eexists; vm_compute; reflexivity. Qed.

Lemma valid_time_ok now v : valid_time now v = true → time_ok v.
Proof. unfold valid_time, time_ok. destruct (try_from_secs_f64 v); [by eexists|done]. Qed.

Lemma apply_overrides_ok o now :
  (∀ v, o_burst_hold o = Some v ∨ o_burst_penalty o = Some v ∨ o_held_release_interval o = Some v → time_ok v) →
  ctrl_ok (apply_overrides o now).
Proof.
  intros Ho. apply ctrl_with_ok. destruct default_times as (H1 & H2 & H3). unfold cfg_ok; cbn.
  split_and!; [destruct (o_burst_hold o) eqn:E|destruct (o_burst_penalty o) eqn:E|destruct (o_held_release_interval o) eqn:E];
    try done; apply Ho; eauto.
Qed.

Lemma check_fields_ok ok l f v : check_fields ok l = Ok () → (f, Some v) ∈ l → ok v = true.
Proof.
  induction l as [|[f' v'] l IH]; simpl; intros Hc Hin; [by apply elem_of_nil in Hin|].
  apply elem_of_cons in Hin as [[= -> <-]|Hin].
  - destruct (ok v); done.
  - apply IH; [|done]. by destruct (match v' with Some v0 => _ | None => _ end).
Qed.

Lemma constructed_ok c : constructed c → ctrl_ok c.
Proof.
  intros (now & [->|[->|(o & v & [Hc| ->])]]).
  - apply ctrl_with_ok, default_times.
  - apply ctrl_with_ok, default_times.
  - unfold try_with_overrides in Hc. apply res_bind_Ok_inv in Hc as ([] & Hv & [= <-]).
    unfold overrides_validate in Hv. apply res_bind_Ok_inv in Hv as ([] & _ & Hv).
    apply apply_overrides_ok. intros x [Hx|[Hx|Hx]]; apply (valid_time_ok v);
      [apply (check_fields_ok _ _ F_burst_hold x Hv)|apply (check_fields_ok _ _ F_burst_penalty x Hv)
      |apply (check_fields_ok _ _ F_held_release_interval x Hv)]; rewrite Hx; set_solver.
  - apply apply_overrides_ok. intros x Hx. cbn in Hx. apply (valid_time_ok v).
    destruct Hx as [Hx|[Hx|Hx]];
      [destruct (o_burst_hold o) as [y|]|destruct (o_burst_penalty o) as [y|]|destruct (o_held_release_interval o) as [y|]];
      try done; simpl in Hx; destruct (valid_time v y) eqn:E; by simplify_eq.
Qed.

(** ** Burst holding *)

Definition limit_by (t : Z) (o : ingress_op) : Prop :=
  match o with OpLimit k => t_now k ≤ t | _ => True end.

Lemma limit_holds {E} c k d :
  ctrl_ok c → enabled (cfg c) = true → burst_active c = true → try_from_secs_f64 (burst_hold (cfg c)) = Some d →
  0 ≤ d → t_now k ≤ burst_activated c + d →
  ∃ c', should_ingress_limit c k = @Ok E _ (c', true) ∧ burst_active c' = true ∧
    burst_activated c' = burst_activated c ∧ held_release c' = held_release c.
Proof.
  intros Hc He Hb Hd Hd0 Ht. unfold should_ingress_limit. rewrite He. cbn [negb]. cbv zeta.
  rewrite ar_decay. cbn [res_bind]. destruct (frequency_from_deque_mut _ _ _ _) as [dq fr].
  cbn [burst_active burst_activated held_release with_ia cfg]. rewrite Hb. unfold from_secs_f64. rewrite Hd. cbn [expect res_bind].
  rewrite (proj2 (Z.ltb_ge _ _)) by (unfold duration_since; lia). cbn [andb].
  destruct (f_lt _ _); by eexists.
Qed.

Lemma step_burst c o c' d :
  ctrl_ok c → enabled (cfg c) = true → burst_active c = true → try_from_secs_f64 (burst_hold (cfg c)) = Some d →
  0 ≤ d → limit_by (burst_activated c + d) o → ingress_step c o = Ok c' →
  burst_active c' = true ∧ burst_activated c' = burst_activated c.
Proof.
  intros Hc He Hb Hd Hd0 Ht Hs.
  destruct o as [t|t|t|t|k|k|t|a|order k]; cbn [ingress_step] in Hs; try (by injection Hs as <-).
  - destruct (limit_holds (E := Empty_set) c k d) as (c1 & E1 & ? & ? & _); try done.
    rewrite E1 in Hs. by injection Hs as <-.
  - unfold should_ingress_limit_pr in Hs. rewrite He, pr_decay in Hs. cbn [negb res_bind] in Hs.
    destruct (frequency_from_deque_mut _ _ _ _) as [dq fr]. cbn [pr_burst_active with_ip cfg] in Hs.
    destruct (from_secs_f64 (burst_hold (cfg c))); cbn [res_bind] in Hs; repeat case_match; cbn [res_bind fst] in Hs; by simplify_eq.
  - unfold should_egress_limit_pr in Hs. rewrite pr_decay in Hs. cbn [res_bind] in Hs.
    destruct (frequency_from_deque_mut _ _ _ _) as [dq fr]. repeat case_match; cbn [res_bind fst] in Hs; by simplify_eq.
  - injection Hs as <-. unfold hold_announce. repeat case_match; done.
  - unfold try_release_held in Hs. rewrite ar_decay in Hs. cbn [res_bind] in Hs.
    destruct (frequency_from_deque_mut _ _ _ _) as [dq fr].
    unfold from_secs_f64, expect in Hs; repeat (case_match; cbn [res_bind fst] in Hs); by simplify_eq.
Qed.

Lemma try_from_secs_nonneg x d : try_from_secs_f64 x = Some d → 0 ≤ d.
Proof.
  unfold try_from_secs_f64. destruct x as [s|s| |[|] m e]; try done; [by intros [= <-]|].
  cbv zeta. destruct (Z.leb_spec 0 e) as [He|He]; case_match; intros [= <-].
  - assert (0 ≤ 2 ^ e) by (apply Z.pow_nonneg; lia). unfold NANOS. nia.
  - unfold round_half_even. cbv zeta. assert (Hp : 0 < 2 ^ (- e)) by (apply Z.pow_pos_nonneg; lia).
    assert (0 ≤ Z.pos m * NANOS / 2 ^ (- e)) by (apply Z.div_pos; unfold NANOS; lia).
    repeat case_match; lia.
Qed.

(** ** Release order *)

Definition least (a : HeldAnnounce) (m : gmap bytes HeldAnnounce) : Prop :=
  map_Forall (λ _ b, ha_hops a ≤ ha_hops b) m.

Lemma min_by_hops_spec l :
  match min_by_hops l with
  | None => l = []
  | Some kv => kv ∈ l ∧ Forall (λ kv', ha_hops kv.2 ≤ ha_hops kv'.2) l
  end.
Proof.
  induction l as [|kv l IH]; simpl; [done|]. destruct (min_by_hops l) as [kv'|].
  - destruct IH as [Hin Hf]. destruct (Z.ltb_spec (ha_hops kv'.2) (ha_hops kv.2)).
    + split; [by right|]. constructor; [lia|done].
    + split; [by left|]. constructor; [lia|]. eapply Forall_impl; [exact Hf|]. simpl. lia.
  - subst l. split; [by left|]. by repeat constructor.
Qed.

(** The gate is open and the measured frequency is below the threshold. *)
Definition can_release (c : IngressController) (k : Clock) : bool :=
  (held_release c <=? t_now k) &&
  negb (f_ge (frequency_from_deque_mut (ia_freq_deque c) IC_DEQUE_MIN_SAMPLE (10 * NANOS) (t_freq k)).2 (freq_threshold c k)).

Lemma release_cases {E} c order k :
  ctrl_ok c → order ≡ₚ map_to_list (held_announces c) →
  if can_release c k && negb (bool_decide (held_announces c = ∅)) then
    ∃ a c' d, try_release_held c order k = @Ok E _ (c', Some a) ∧
      held_announces c !! destination_hash a = Some a ∧ least a (held_announces c) ∧
      held_announces c' = delete (destination_hash a) (held_announces c) ∧
      try_from_secs_f64 (held_release_interval (cfg c)) = Some d ∧
      held_release c' = default (t_now k) (instant_add (t_now k) d)
  else ∃ c', try_release_held c order k = @Ok E _ (c', None) ∧ held_announces c' = held_announces c ∧
         held_release c' = held_release c.
Proof.
  intros Hc Ho. unfold can_release, try_release_held. case_bool_decide as He.
  { rewrite andb_false_r. by eexists. }
  rewrite andb_true_r. destruct (Z.ltb_spec (t_now k) (held_release c)) as [Hg|Hg].
  { rewrite (proj2 (Z.leb_gt _ _)) by lia. by eexists. }
  rewrite (proj2 (Z.leb_le _ _)) by lia. cbn [andb]. cbv zeta. rewrite ar_decay. cbn [res_bind].
  destruct (frequency_from_deque_mut _ _ _ _) as [dq fr]. simpl snd.
  destruct (f_ge fr _); cbn [negb]; [by eexists|].
  pose proof (min_by_hops_spec order) as Hm. destruct (min_by_hops order) as [[h a]|].
  2: { subst order. exfalso. apply He, map_to_list_empty_iff. by apply Permutation_nil. }
  destruct Hm as [Hin Hf]. rewrite Ho, elem_of_map_to_list in Hin.
  cbn [held_announces with_ia cfg]. rewrite Hin. cbv zeta.
  pose proof (ok_cfg _ Hc) as (_ & _ & H3). destruct (from_secs_f64_ok (E := E) _ H3) as (iv & Hi & Hi').
  cbn [cfg with_held with_ia held_announces]. rewrite Hi. cbn [res_bind].
  destruct (ok_keys _ Hc _ _ Hin) as [Hk _]. exists a. eexists _, iv. split; [done|].
  rewrite Hk. split_and!; try done. intros h' b Hb. rewrite Ho, Forall_forall in Hf.
  apply (Hf (h', b)). by apply elem_of_map_to_list.
Qed.

(** Successive releases, with other operations left out. *)
Inductive drains : IngressController → list HeldAnnounce → IngressController → Prop :=
| drains_nil c : drains c [] c
| drains_cons c order k c1 a l c2 :
    order ≡ₚ map_to_list (held_announces c) →
    try_release_held c order k = @Ok Empty_set _ (c1, Some a) →
    drains c1 l c2 → drains c (a :: l) c2.

(** ** Properties *)

(** C32.  Ingress control is safe for every configuration and every run.  A
    controller from any constructor, whatever the overrides, never panics under
    any sequence of operations and clock readings, never holds more announces
    than [max_held], never keeps more than 48 samples per deque, files every
    held announce under its destination with fewer than 127 hops, keeps its
    four counters (announces and path requests, received and sent) within 64
    bits and its settings unchanged. *)
Theorem ingress_invariant c l :
  constructed c →
  ∃ c', ingress_run c l = Ok c' ∧ cfg c' = cfg c ∧
    (held_count c' ≤ max_held (cfg c))%nat ∧
    (length (ia_freq_deque c') ≤ 48)%nat ∧ (length (oa_freq_deque c') ≤ 48)%nat ∧
    (length (ip_freq_deque c') ≤ 48)%nat ∧ (length (op_freq_deque c') ≤ 48)%nat ∧
    map_Forall (λ d a, destination_hash a = d ∧ ha_hops a < 127) (held_announces c') ∧
    0 ≤ announces_received c' ≤ U64_MAX ∧ 0 ≤ announces_sent c' ≤ U64_MAX ∧
    0 ≤ path_requests_received c' ≤ U64_MAX ∧ 0 ≤ path_requests_sent c' ≤ U64_MAX.
Proof.
  intros Hc%constructed_ok. destruct (ingress_run_ok l c Hc) as (c' & Hr & [] & Hcfg).
  exists c'. rewrite <-Hcfg. split_and!; try done; tauto.
Qed.

(** A burst, once detected, holds.  From a state with an active announce
    burst, any sequence of operations whose limiter calls come within the
    configured hold time leaves the burst active, and every further limiter call
    within that time reports that announces are to be held. *)
Theorem ingress_burst_holds c l d k :
  ctrl_ok c → enabled (cfg c) = true → burst_active c = true →
  try_from_secs_f64 (burst_hold (cfg c)) = Some d →
  Forall (limit_by (burst_activated c + d)) l → t_now k ≤ burst_activated c + d →
  ∃ c' c'', ingress_run c l = Ok c' ∧ burst_active c' = true ∧ burst_activated c' = burst_activated c ∧
    should_ingress_limit c' k = @Ok Empty_set _ (c'', true) ∧ burst_active c'' = true.
Proof.
  intros Hc He Hb Hd Hl Hk. pose proof (try_from_secs_nonneg _ _ Hd) as Hd0.
  assert (Hr : ∃ c', ingress_run c l = Ok c' ∧ ctrl_ok c' ∧ cfg c' = cfg c ∧ burst_active c' = true ∧
                burst_activated c' = burst_activated c).
  { clear Hk. revert c Hc He Hb Hd Hl. induction l as [|o l IH]; intros c Hc He Hb Hd Hl; cbn [ingress_run]; [eauto 10|].
    inversion Hl as [|? ? Ho Hl']; subst. destruct (ingress_step_ok c o Hc) as (c1 & Hs & Hc1 & E1).
    destruct (step_burst c o c1 d Hc He Hb Hd Hd0 Ho Hs) as [Hb1 Ha1]. rewrite Hs. cbn [res_bind].
    rewrite <-Ha1 in *. rewrite <-E1 in *. apply IH; try done; congruence. }
  destruct Hr as (c' & Hr & Hc' & Ecf & Hb' & Ha').
  destruct (limit_holds (E := Empty_set) c' k d) as (c'' & ? & ? & _); try done; rewrite ?Ecf, ?Ha'; try done.
  exists c', c''. done.
Qed.

(** Held announces come out in order of hops, one per call, and none is
    lost.  Whatever the iteration order of the buffer: a call releases an
    announce exactly when the buffer is not empty, the time gate is open and
    the frequency is below the threshold, and then one of least hops, after
    which the gate closes for the release interval; the announces of any series
    of releases are in non-decreasing order of hops, and together with what is
    still held they are exactly what was held before. *)
Theorem held_release_priority c order k l c' :
  ctrl_ok c → order ≡ₚ map_to_list (held_announces c) → drains c l c' →
  (match @try_release_held Empty_set c order k with
   | Ok (c1, Some a) =>
       can_release c k = true ∧ least a (held_announces c) ∧
       held_announces c !! destination_hash a = Some a ∧
       held_announces c1 = delete (destination_hash a) (held_announces c) ∧
       ∃ d, try_from_secs_f64 (held_release_interval (cfg c)) = Some d ∧
         held_release c1 = default (t_now k) (instant_add (t_now k) d)
   | Ok (c1, None) => (can_release c k = false ∨ held_announces c = ∅) ∧ held_announces c1 = held_announces c
   | _ => False
   end) ∧
  Sorted (λ a b, ha_hops a ≤ ha_hops b) l ∧
  map_to_list (held_announces c) ≡ₚ ((λ a, (destination_hash a, a)) <$> l) ++ map_to_list (held_announces c').
Proof.
  intros Hc Ho Hdr. split.
  - pose proof (release_cases (E := Empty_set) c order k Hc Ho) as Hr.
    destruct (can_release c k); cbn [andb] in Hr.
    + case_bool_decide; cbn [negb] in Hr.
      * destruct Hr as (c1 & -> & ? & _). auto.
      * destruct Hr as (a & c1 & d & -> & ? & ? & ? & ? & ?). eauto 10.
    + destruct Hr as (c1 & -> & ? & _). auto.
  - clear order k Ho. induction Hdr as [c|c order k c1 a l c2 Ho Hr _ IH]; [split; [constructor|done]|].
    pose proof (release_cases (E := Empty_set) c order k Hc Ho) as Hrc.
    destruct (release_ok (E := Empty_set) c order k Hc) as (c1' & o & Hr' & Hc1 & _).
    rewrite Hr in Hr'. injection Hr' as <- <-. specialize (IH Hc1) as [IHs IHp].
    destruct (_ && _).
    + destruct Hrc as (a' & c1' & d & Hr' & Hin & Hle & Hdel & _). rewrite Hr in Hr'. injection Hr' as <- <-.
      split.
      * constructor; [done|]. destruct l as [|b l]; constructor.
        apply (Hle (destination_hash b)). assert (Hb : (destination_hash b, b) ∈ map_to_list (held_announces c1)).
        { rewrite IHp. apply elem_of_app. left. left. }
        apply elem_of_map_to_list in Hb. rewrite Hdel in Hb. by apply lookup_delete_Some in Hb as [_ ?].
      * rewrite <-(insert_delete_id (held_announces c) _ _ Hin), map_to_list_insert by apply lookup_delete_eq.
        rewrite <-Hdel. simpl. by rewrite IHp.
    + destruct Hrc as (c1' & Hr' & _). rewrite Hr in Hr'. done.
Qed.

(** The retransmission scan lists each due destination once, whatever the
    iteration order, and culling keeps exactly the entries within the retry
    limit and counts the others. *)
Lemma announce_table_scan t order now max_retries d :
  order ≡ₚ map_to_list (ann_entries t) →
  NoDup (due_for_retransmit order now) ∧
  (d ∈ due_for_retransmit order now ↔ ∃ e, at_get t d = Some e ∧ is_due now e = true) ∧
  (∀ e, at_get (cull_exhausted t max_retries).1 d = Some e ↔ at_get t d = Some e ∧ ae_retries e ≤ max_retries) ∧
  (size (ann_entries (cull_exhausted t max_retries).1) + (cull_exhausted t max_retries).2 = size (ann_entries t))%nat.
Proof.
  intros Ho. unfold due_for_retransmit, at_get. split_and!.
  - pose proof (batch_keys_NoDup (λ _ e, is_due now e) (length order) order _ Ho) as Hn.
    unfold batch_keys in Hn. rewrite take_ge in Hn; [done|]. apply length_filter.
  - rewrite list_elem_of_fmap. split.
    + intros ([k e] & -> & [Hd Hin]%list_elem_of_filter). rewrite Ho, elem_of_map_to_list in Hin. eauto.
    + intros (e & He & Hd). exists (d, e). split; [done|]. apply list_elem_of_filter. split; [done|].
      rewrite Ho. by apply elem_of_map_to_list.
  - intros e. unfold cull_exhausted; simpl. rewrite retain_Some, Z.leb_le. done.
  - unfold cull_exhausted. cbv zeta. cbn [fst snd ann_entries].
    set (p := λ (_ : bytes) e, ae_retries e <=? max_retries). pose proof (retain_size p (ann_entries t)).
    clearbody p. lia.
Qed.

(** ** Witnesses *)

Definition demo_held (d h : Z) : HeldAnnounce :=
  {| ha_raw := [d]; destination_hash := replicate 16 d; ha_hops := h; receiving_interface_id := 1 |}.

Lemma ingress_invariant_witness :
  ∃ c', ingress_run (ctrl_new 0) [OpReceivedAnnounce 5; OpHold (demo_held 1 3); OpLimit (mkClock 6 6 6)] = Ok c' ∧
    (held_count c' ≤ 256)%nat.
Proof.
  assert (Hc : constructed (ctrl_new 0)) by (exists 0; left; reflexivity).
  destruct (ingress_invariant (ctrl_new 0) [OpReceivedAnnounce 5; OpHold (demo_held 1 3); OpLimit (mkClock 6 6 6)] Hc)
    as (c' & H1 & _ & H2 & _).
  exists c'. split; [exact H1|exact H2].
Defined.

(** Four announces within a second start a burst on a new interface. *)
Definition burst_ops : list ingress_op :=
  [OpReceivedAnnounce 1; OpReceivedAnnounce 100000000; OpReceivedAnnounce 200000000; OpReceivedAnnounce 300000000;
   OpLimit (mkClock 400000000 400000000 400000000)].
Definition burst_state : IngressController :=
  match ingress_run (ctrl_new 0) burst_ops with Ok c => c | _ => ctrl_new 0 end.

Lemma burst_state_ok : ctrl_ok burst_state.
Proof.
  destruct (ingress_run_ok burst_ops (ctrl_new 0)) as (c & Hr & Hc & _).
  - apply ctrl_with_ok, default_times.
  - unfold burst_state. rewrite Hr. exact Hc.
Qed.

Lemma ingress_burst_holds_witness :
  burst_active burst_state = true ∧
  ∃ c' c'', ingress_run burst_state [OpLimit (mkClock 5000000000 5000000000 5000000000)] = Ok c' ∧
    should_ingress_limit c' (mkClock 9000000000 9000000000 9000000000) = @Ok Empty_set _ (c'', true).
Proof.
  assert (Hb : burst_active burst_state = true) by (vm_compute; reflexivity).
  split; [exact Hb|].
  destruct (ingress_burst_holds burst_state [OpLimit (mkClock 5000000000 5000000000 5000000000)] (15 * NANOS)
    (mkClock 9000000000 9000000000 9000000000)) as (c' & c'' & H1 & _ & _ & H2 & _).
  - exact burst_state_ok.
  - vm_compute. reflexivity.
  - exact Hb.
  - vm_compute. reflexivity.
  - constructor; [vm_compute; discriminate|constructor].
  - vm_compute. discriminate.
  - exists c', c''. split; [exact H1|exact H2].
Defined.

(** Two held announces, three and one hops away: the nearer one is released. *)
Definition held_state : IngressController :=
  hold_announce (hold_announce (ctrl_new 0) (demo_held 1 3)) (demo_held 2 1).

Lemma held_release_priority_witness :
  ∃ c1, try_release_held held_state (map_to_list (held_announces held_state)) (mkClock 1 1 1) =
      @Ok Empty_set _ (c1, Some (demo_held 2 1)) ∧
    held_announces c1 = delete (replicate 16 2) (held_announces held_state).
Proof.
  assert (Hok : ctrl_ok held_state) by (do 2 apply hold_announce_ok; apply ctrl_with_ok, default_times).
  pose proof (held_release_priority held_state (map_to_list (held_announces held_state)) (mkClock 1 1 1) []
    held_state Hok (Permutation_refl _) (drains_nil _)) as [H _].
  assert (Hc : (match @try_release_held Empty_set held_state (map_to_list (held_announces held_state)) (mkClock 1 1 1) with
    | Ok r => r.2 | _ => None end) = Some (demo_held 2 1)) by (vm_compute; reflexivity).
  revert H Hc. generalize (@try_release_held Empty_set held_state (map_to_list (held_announces held_state)) (mkClock 1 1 1)).
  intros [[c1 o]|e|] H Hc; [|destruct H|destruct H]. simpl snd in Hc. subst o.
  destruct H as (_ & _ & _ & H & _). exists c1. split; [reflexivity|exact H].
Defined.
