(* ===== verification/Msgpack.v ===== *)
(** * MessagePack

    MessagePack is third-party code ([rmpv], [rmp-serde]): the class [Msgpack]
    is its interface on the values the sources use, and [MsgpackLaws] states
    the round trip and the encoded sizes of the MessagePack specification,
    integers in their shortest form.  [reference_msgpack] is the format written
    out, an instance that satisfies the laws. *)

From S2P Require Import Prelude F64.
From stdpp Require Import prelude list strings.

Open Scope Z_scope.

(** ** Values and interface *)

(** [rmpv::Value]: integers are kept as [u64] or as negative [i64], floats as
    their bits. *)
Inductive mp_value :=
| MpInt (n : Z)
| MpNeg (n : Z)
| MpBool (b : bool)
| MpF32 (bits : Z)
| MpF64 (bits : Z)
| MpBin (b : bytes)
| MpStr (s : string)
| MpExt (ty : Z) (b : bytes)
| MpNil
| MpArray (l : list mp_value)
| MpMap (l : list (mp_value * mp_value)).

Class Msgpack := {
  mp_encode : mp_value → bytes;
  (** [rmpv::decode::read_value]: the value at the front, and the bytes after it. *)
  mp_decode : bytes → option (mp_value * bytes);
}.
Definition mp_read `{Msgpack} (b : bytes) : option mp_value := fst <$> mp_decode b.

(** The shortest encoding of an unsigned integer. *)
Definition uint_size (n : Z) : Z :=
  if n <? 128 then 1 else if n <? 256 then 2 else if n <? 2 ^ 16 then 3 else if n <? 2 ^ 32 then 5 else 9.
(** Header of a byte array, a string, and an array or map, by length. *)
Definition bin_header (n : Z) : Z := if n <? 256 then 2 else if n <? 2 ^ 16 then 3 else 5.
Definition str_header (n : Z) : Z := if n <? 32 then 1 else if n <? 256 then 2 else if n <? 2 ^ 16 then 3 else 5.
Definition neg_size (n : Z) : Z :=
  if -32 <=? n then 1 else if - 2 ^ 7 <=? n then 2 else if - 2 ^ 15 <=? n then 3 else if - 2 ^ 31 <=? n then 5 else 9.
Definition ext_header (n : Z) : Z :=
  if (n =? 1) || (n =? 2) || (n =? 4) || (n =? 8) || (n =? 16) then 1 else if n <? 256 then 2 else if n <? 2 ^ 16 then 3 else 5.
Definition seq_header (n : Z) : Z := if n <? 16 then 1 else if n <? 2 ^ 16 then 3 else 5.

Definition str_len (s : string) : Z := Z.of_nat (String.length s).

Fixpoint mp_size (v : mp_value) : Z :=
  match v with
  | MpInt n => uint_size n
  | MpNeg n => neg_size n
  | MpBool _ => 1
  | MpF32 _ => 5
  | MpF64 _ => 9
  | MpBin b => bin_header (len b) + len b
  | MpStr s => str_header (str_len s) + str_len s
  | MpExt _ b => ext_header (len b) + 1 + len b
  | MpNil => 1
  | MpArray l => seq_header (len l) + foldr Z.add 0 (map mp_size l)
  | MpMap l => seq_header (len l) + foldr Z.add 0 (map (λ kv, mp_size kv.1 + mp_size kv.2) l)
  end.

(** Values in range of the format: 64-bit integers, 32-bit lengths. *)
Fixpoint mp_ok (v : mp_value) : Prop :=
  match v with
  | MpInt n => 0 ≤ n ≤ U64_MAX
  | MpNeg n => - 2 ^ 63 ≤ n < 0
  | MpBool _ => True
  | MpF32 n => 0 ≤ n < 2 ^ 32
  | MpF64 n => 0 ≤ n < 2 ^ 64
  | MpBin b => len b < 2 ^ 32 ∧ bytes_ok b
  | MpStr s => str_len s < 2 ^ 32
  | MpExt ty b => 0 ≤ ty < 256 ∧ len b < 2 ^ 32 ∧ bytes_ok b
  | MpNil => True
  | MpArray l => len l < 2 ^ 32 ∧ foldr and True (map mp_ok l)
  | MpMap l => len l < 2 ^ 32 ∧ foldr and True (map (λ kv, mp_ok kv.1 ∧ mp_ok kv.2) l)
  end.

(** Nesting depth. *)
Fixpoint depth (v : mp_value) : nat :=
  S match v with
    | MpArray l => foldr Nat.max 0%nat (map depth l)
    | MpMap l => foldr Nat.max 0%nat (map (λ kv, Nat.max (depth kv.1) (depth kv.2)) l)
    | _ => 0%nat
    end.

(** The nesting [read_value] follows. *)
Definition MP_MAX_DEPTH : nat := 1024.

Class MsgpackLaws (M : Msgpack) : Prop := {
  mp_roundtrip : ∀ v rest, mp_ok v → (depth v ≤ MP_MAX_DEPTH)%nat → mp_decode (mp_encode v ++ rest) = Some (v, rest);
  mp_length : ∀ v, mp_ok v → len (mp_encode v) = mp_size v;
  mp_bytes : ∀ v, mp_ok v → bytes_ok (mp_encode v);
}.


(** ** The format *)

Definition string_bytes (s : string) : bytes := (λ a, Z.of_N (Ascii.N_of_ascii a)) <$> String.list_ascii_of_string s.
Definition bytes_string (b : bytes) : string := String.string_of_list_ascii ((λ z, Ascii.ascii_of_N (Z.to_N z)) <$> b).

(** *** [rmpv::Value] accessors *)

(** [Value::as_u64], [Value::as_slice] (binary or string), [Value::as_str],
    [Value::as_array], [Value::as_f64] (any number). *)
Definition as_u64 (v : mp_value) : option Z :=
  match v with MpInt n => if 0 <=? n then Some n else None | _ => None end.
Definition as_slice (v : mp_value) : option bytes :=
  match v with MpBin b => Some b | MpStr s => Some (string_bytes s) | _ => None end.
Definition as_str (v : mp_value) : option string := match v with MpStr s => Some s | _ => None end.
Definition as_array (v : mp_value) : option (list mp_value) := match v with MpArray l => Some l | _ => None end.
Definition as_f64 (v : mp_value) : option f64 :=
  match v with
  | MpInt n | MpNeg n => Some (f_of_Z n)
  | MpF32 b => Some (f_of_bits32 b)
  | MpF64 b => Some (f_of_bits b)
  | _ => None
  end.

(** *** Encoding *)

Inductive head := HInt | HNeg | HBool | HF32 | HF64 | HBin | HStr | HExt | HNil | HArr | HMap.

Definition head_encode (k : head) (n : Z) : bytes :=
  match k with
  | HNil => [0xc0]
  | HInt => if n <? 128 then [n] else if n <? 256 then 0xcc :: be_bytes 1 n else if n <? 2 ^ 16 then 0xcd :: be_bytes 2 n
            else if n <? 2 ^ 32 then 0xce :: be_bytes 4 n else 0xcf :: be_bytes 8 n
  | HNeg => if -32 <=? n then [256 + n] else if - 2 ^ 7 <=? n then 0xd0 :: be_bytes 1 (n + 2 ^ 8)
            else if - 2 ^ 15 <=? n then 0xd1 :: be_bytes 2 (n + 2 ^ 16)
            else if - 2 ^ 31 <=? n then 0xd2 :: be_bytes 4 (n + 2 ^ 32) else 0xd3 :: be_bytes 8 (n + 2 ^ 64)
  | HBool => [0xc2 + n]
  | HF32 => 0xca :: be_bytes 4 n
  | HF64 => 0xcb :: be_bytes 8 n
  | HExt => if n =? 1 then [0xd4] else if n =? 2 then [0xd5] else if n =? 4 then [0xd6] else if n =? 8 then [0xd7]
            else if n =? 16 then [0xd8] else if n <? 256 then 0xc7 :: be_bytes 1 n
            else if n <? 2 ^ 16 then 0xc8 :: be_bytes 2 n else 0xc9 :: be_bytes 4 n
  | HBin => if n <? 256 then 0xc4 :: be_bytes 1 n else if n <? 2 ^ 16 then 0xc5 :: be_bytes 2 n else 0xc6 :: be_bytes 4 n
  | HStr => if n <? 32 then [0xa0 + n] else if n <? 256 then 0xd9 :: be_bytes 1 n
            else if n <? 2 ^ 16 then 0xda :: be_bytes 2 n else 0xdb :: be_bytes 4 n
  | HArr => if n <? 16 then [0x90 + n] else if n <? 2 ^ 16 then 0xdc :: be_bytes 2 n else 0xdd :: be_bytes 4 n
  | HMap => if n <? 16 then [0x80 + n] else if n <? 2 ^ 16 then 0xde :: be_bytes 2 n else 0xdf :: be_bytes 4 n
  end.

(** The tags followed by a big-endian number, with its width. *)
Definition wide_tag (t : Z) : option (head * nat) :=
  match t with
  | 0xc4 => Some (HBin, 1%nat) | 0xc5 => Some (HBin, 2%nat) | 0xc6 => Some (HBin, 4%nat)
  | 0xcc => Some (HInt, 1%nat) | 0xcd => Some (HInt, 2%nat) | 0xce => Some (HInt, 4%nat) | 0xcf => Some (HInt, 8%nat)
  | 0xca => Some (HF32, 4%nat) | 0xcb => Some (HF64, 8%nat)
  | 0xc7 => Some (HExt, 1%nat) | 0xc8 => Some (HExt, 2%nat) | 0xc9 => Some (HExt, 4%nat)
  | 0xd0 => Some (HNeg, 1%nat) | 0xd1 => Some (HNeg, 2%nat) | 0xd2 => Some (HNeg, 4%nat) | 0xd3 => Some (HNeg, 8%nat)
  | 0xd9 => Some (HStr, 1%nat) | 0xda => Some (HStr, 2%nat) | 0xdb => Some (HStr, 4%nat)
  | 0xdc => Some (HArr, 2%nat) | 0xdd => Some (HArr, 4%nat) | 0xde => Some (HMap, 2%nat) | 0xdf => Some (HMap, 4%nat)
  | _ => None
  end.

(** The tags that say everything themselves. *)
Definition short_tag (t : Z) : option (head * Z) :=
  match t with
  | 0xc0 => Some (HNil, 0) | 0xc2 => Some (HBool, 0) | 0xc3 => Some (HBool, 1)
  | 0xd4 => Some (HExt, 1) | 0xd5 => Some (HExt, 2) | 0xd6 => Some (HExt, 4) | 0xd7 => Some (HExt, 8) | 0xd8 => Some (HExt, 16)
  | _ => None
  end.

(** A signed integer of [w] bytes; a non-negative one is an unsigned value. *)
Definition signed (w : nat) (v : Z) : head * Z :=
  if v <? 2 ^ (8 * Z.of_nat w - 1) then (HInt, v) else (HNeg, v - 2 ^ (8 * Z.of_nat w)).

Definition head_decode (b : bytes) : option (head * Z * bytes) :=
  match b with
  | [] => None
  | t :: r =>
      if t <? 0x80 then Some (HInt, t, r) else if t <? 0x90 then Some (HMap, t - 0x80, r)
      else if t <? 0xa0 then Some (HArr, t - 0x90, r) else if t <? 0xc0 then Some (HStr, t - 0xa0, r)
      else if 0xe0 <=? t then Some (HNeg, t - 256, r)
      else match short_tag t with
           | Some (k, n) => Some (k, n, r)
           | None =>
               match wide_tag t with
               | Some (k, w) =>
                   if decide (length r < w)%nat then None else
                   let v := be_value (take w r) in
                   match k with
                   | HNeg => let '(k, v) := signed w v in Some (k, v, drop w r)
                   | _ => Some (k, v, drop w r)
                   end
               | None => None
               end
           end
  end.

Definition head_ok (k : head) (n : Z) : Prop :=
  match k with
  | HNil => n = 0
  | HInt => 0 ≤ n ≤ U64_MAX
  | HNeg => - 2 ^ 63 ≤ n < 0
  | HBool => n = 0 ∨ n = 1
  | HF64 => 0 ≤ n < 2 ^ 64
  | _ => 0 ≤ n < 2 ^ 32
  end.

Fixpoint encode (v : mp_value) : bytes :=
  match v with
  | MpInt n => head_encode HInt n
  | MpNeg n => head_encode HNeg n
  | MpBool b => head_encode HBool (if b then 1 else 0)
  | MpF32 n => head_encode HF32 n
  | MpF64 n => head_encode HF64 n
  | MpExt ty b => head_encode HExt (len b) ++ ty :: b
  | MpBin b => head_encode HBin (len b) ++ b
  | MpStr s => head_encode HStr (str_len s) ++ string_bytes s
  | MpNil => head_encode HNil 0
  | MpArray l => head_encode HArr (len l) ++ concat (map encode l)
  | MpMap l => head_encode HMap (len l) ++ concat (map (λ kv, encode kv.1 ++ encode kv.2) l)
  end.

(** [n] items in a row; each takes a byte, so more than are left is an error. *)
Definition items {A} (item : bytes → option (A * bytes)) (n : Z) (b : bytes) : option (list A * bytes) :=
  (fix go (n : nat) (b : bytes) :=
    match n with
    | O => Some ([], b)
    | S n => '(v, b) ← item b; '(l, b) ← go n b; Some (v :: l, b)
    end) (Z.to_nat (Z.min n (len b + 1))) b.

Definition raw (n : Z) (b : bytes) : option (bytes * bytes) :=
  if len b <? n then None else Some (take (Z.to_nat n) b, drop (Z.to_nat n) b).

(** The fuel bounds the nesting. *)
Fixpoint decode (fuel : nat) (b : bytes) : option (mp_value * bytes) :=
  match fuel with
  | O => None
  | S fuel =>
      '(k, n, r) ← head_decode b;
      match k with
      | HNil => Some (MpNil, r)
      | HInt => Some (MpInt n, r)
      | HNeg => Some (MpNeg n, r)
      | HBool => Some (MpBool (negb (n =? 0)), r)
      | HF32 => Some (MpF32 n, r)
      | HF64 => Some (MpF64 n, r)
      | HExt => match r with ty :: r => '(d, r) ← raw n r; Some (MpExt ty d, r) | [] => None end
      | HBin => '(d, r) ← raw n r; Some (MpBin d, r)
      | HStr => '(d, r) ← raw n r; Some (MpStr (bytes_string d), r)
      | HArr => '(l, r) ← items (decode fuel) n r; Some (MpArray l, r)
      | HMap =>
          '(l, r) ← items (λ b, '(k, b) ← decode fuel b; '(v, b) ← decode fuel b; Some ((k, v), b)) n r;
          Some (MpMap l, r)
      end
  end.

#[export] Instance reference_msgpack : Msgpack := {|
  mp_encode := encode;
  mp_decode b := decode (S (length b)) b;
|}.

(** ** The format satisfies the laws *)

Lemma head_roundtrip k n rest : head_ok k n → head_decode (head_encode k n ++ rest) = Some (k, n, rest).
Proof.
  assert (Hw : ∀ w m, 0 ≤ m < 256 ^ Z.of_nat w →
    take w (be_bytes w m ++ rest) = be_bytes w m ∧ drop w (be_bytes w m ++ rest) = rest ∧ be_value (be_bytes w m) = m).
  { intros w m Hm. rewrite take_app_length', drop_app_length' by (by rewrite length_be_bytes).
    by rewrite be_value_bytes. }
  assert (Hs : ∀ w m, m < 0 → - 2 ^ (8 * Z.of_nat w - 1) ≤ m → (0 < w)%nat → signed w (m + 2 ^ (8 * Z.of_nat w)) = (HNeg, m)).
  { intros w m Hm Hl Hw0. unfold signed. replace (8 * Z.of_nat w) with (Z.succ (8 * Z.of_nat w - 1)) at 1 by lia.
    rewrite Z.pow_succ_r by lia. rewrite (proj2 (Z.ltb_ge _ _)) by lia. f_equal. lia. }
  assert (Hneg : ∀ w m, m < 0 → - 2 ^ (8 * Z.of_nat w - 1) ≤ m → (0 < w)%nat →
    signed w (be_value (take w (be_bytes w (m + 2 ^ (8 * Z.of_nat w)) ++ rest))) = (HNeg, m)).
  { intros w m Hm Hl Hw0. destruct (Hw w (m + 2 ^ (8 * Z.of_nat w))) as (-> & _ & ->); [|by apply Hs].
    replace (256 ^ Z.of_nat w) with (2 ^ (8 * Z.of_nat w)) by (rewrite Z.pow_mul_r by lia; done).
    assert (2 ^ (8 * Z.of_nat w - 1) ≤ 2 ^ (8 * Z.of_nat w)) by (apply Z.pow_le_mono_r; lia). lia. }
  unfold head_ok, U64_MAX. destruct k; intros Hn; cbn [head_encode]; subst; try done;
    try (destruct Hn as [->| ->]; done); repeat case_match;
    cbn [app head_decode wide_tag short_tag Z.leb Z.ltb Z.eqb Z.compare Pos.compare Pos.compare_cont Pos.eqb];
    try (match goal with |- context [be_bytes ?w ?m] =>
      destruct (Hw w m) as (Ht & Hd & Hv); [simpl; lia|];
      rewrite decide_False by (rewrite length_app, length_be_bytes; lia); rewrite Ht, Hd, Hv; done end);
    try (match goal with |- context [signed ?w ?x] =>
      rewrite decide_False by (rewrite length_app, length_be_bytes; lia);
      assert (signed w x = (HNeg, n)) as -> by (apply (Hneg w n); simpl; lia);
      match goal with |- context [be_bytes ?w ?m] => destruct (Hw w m) as (_ & -> & _); [simpl; lia|done] end end);
    repeat case_match; try lia; simplify_eq; repeat f_equal; lia.
Qed.

Lemma head_length k n : len (head_encode k n) =
  match k with
  | HNil | HBool => 1 | HInt => uint_size n | HNeg => neg_size n | HF32 => 5 | HF64 => 9
  | HBin => bin_header n | HStr => str_header n | HExt => ext_header n | HArr | HMap => seq_header n
  end.
Proof.
  unfold len. destruct k; cbn [head_encode]; unfold uint_size, neg_size, bin_header, str_header, ext_header, seq_header;
    repeat case_match; cbn [length orb] in *; rewrite ?length_be_bytes; try done; try lia; rewrite ?orb_true_r in *; done.
Qed.

Lemma string_roundtrip s : bytes_string (string_bytes s) = s.
Proof.
  unfold bytes_string, string_bytes. rewrite <- list_fmap_compose.
  rewrite (list_fmap_ext _ id), list_fmap_id; [apply String.string_of_list_ascii_of_string|].
  intros _ a _. cbn. by rewrite N2Z.id, Ascii.ascii_N_embedding.
Qed.

Lemma len_string_bytes s : len (string_bytes s) = str_len s.
Proof. unfold len, string_bytes, str_len. rewrite length_fmap. f_equal. by induction s; simpl; f_equal. Qed.

Lemma raw_app d n rest : len d = n → raw n (d ++ rest) = Some (d, rest).
Proof.
  intros <-. unfold raw. rewrite len_app. pose proof (len_nonneg rest).
  rewrite (proj2 (Z.ltb_ge _ _)) by lia. unfold len. by rewrite Nat2Z.id, take_app_length, drop_app_length.
Qed.

Lemma items_concat {A} (item : bytes → option (A * bytes)) (enc : A → bytes) l rest :
  Forall (λ x, enc x ≠ [] ∧ ∀ r, item (enc x ++ r) = Some (x, r)) l →
  items item (len l) (concat (map enc l) ++ rest) = Some (l, rest).
Proof.
  intros Hl. unfold items.
  assert (Hc : len l ≤ len (concat (map enc l) ++ rest)).
  { rewrite len_app. pose proof (len_nonneg rest). enough (len l ≤ len (concat (map enc l))) by lia.
    clear -Hl. induction Hl as [|x l [Hx _] _ IH]; simpl; [done|]. rewrite len_app, len_cons.
    destruct (enc x); [done|]. rewrite len_cons. pose proof (len_nonneg l0). lia. }
  rewrite Z.min_l by lia. unfold len. rewrite Nat2Z.id. clear Hc.
  induction Hl as [|x l [_ Hx] _ IH]; simpl; [done|]. rewrite <- app_assoc, Hx. cbn [mbind option_bind].
  rewrite IH. done.
Qed.

Lemma encode_nonempty v : encode v ≠ [].
Proof.
  assert (Hh : ∀ k n, head_encode k n ≠ []) by (intros [] n; cbn; repeat case_match; done).
  destruct v; cbn [encode]; try apply Hh; intros He; apply app_eq_nil in He as [He _]; by apply Hh in He.
Qed.

Lemma foldr_and {A} (P : A → Prop) l : foldr and True (map P l) ↔ Forall P l.
Proof. induction l as [|x l IH]; simpl; [by split|]. rewrite IH. by rewrite Forall_cons. Qed.
Lemma foldr_max {A} (f : A → nat) l n : (foldr Nat.max 0 (map f l) ≤ n)%nat ↔ Forall (λ x, f x ≤ n)%nat l.
Proof. induction l as [|x l IH]; simpl; [split; [constructor|lia]|]. rewrite Forall_cons, <- IH. lia. Qed.

Lemma decode_encode fuel v rest : mp_ok v → (depth v ≤ fuel)%nat → decode fuel (encode v ++ rest) = Some (v, rest).
Proof.
  revert v rest. induction fuel as [|fuel IH]; intros v rest Hok Hd; [destruct v; simpl in Hd; lia|].
  destruct v as [n|n|[]|n|n|b|s|ty b| |l|l]; cbn [encode decode depth mp_ok] in *; rewrite <- ?app_assoc;
    rewrite head_roundtrip by
      (cbn [head_ok]; try done; try pose proof (len_nonneg b); try pose proof (len_nonneg l); unfold str_len in *; lia || auto || done);
    cbn [mbind option_bind app]; try done.
  - by rewrite raw_app.
  - rewrite raw_app by apply len_string_bytes. cbn [mbind option_bind]. by rewrite string_roundtrip.
  - by rewrite raw_app.
  - destruct Hok as [_ Hok%foldr_and]. apply le_S_n, foldr_max in Hd. rewrite (items_concat _ encode); [done|].
    apply Forall_forall. intros x Hx. rewrite Forall_forall in Hok, Hd. split; [apply encode_nonempty|]. eauto.
  - destruct Hok as [_ Hok%foldr_and]. apply le_S_n, foldr_max in Hd.
    rewrite (items_concat _ (λ kv, encode kv.1 ++ encode kv.2)); [done|].
    apply Forall_forall. intros [k v] Hx. rewrite Forall_forall in Hok, Hd.
    destruct (Hok _ Hx) as [Hk Hv]. specialize (Hd _ Hx). simpl in Hd, Hk, Hv. cbn [fst snd]. split.
    { intros He. apply app_eq_nil in He as [He _]. by apply encode_nonempty in He. }
    intros r. rewrite <- app_assoc, IH by (done || lia). cbn [mbind option_bind]. rewrite IH by (done || lia). done.
Qed.

Lemma encode_length v : len (encode v) = mp_size v.
Proof.
  assert (∀ f v, (depth v ≤ f)%nat → len (encode v) = mp_size v) as H; [|by eapply H].
  clear v. induction f as [|f IH]; intros v Hd; [destruct v; simpl in Hd; lia|].
  destruct v as [n|n|[]|n|n|b|s|ty b| |l|l]; cbn [encode mp_size depth] in *; rewrite ?len_app, ?head_length, ?len_string_bytes, ?len_cons;
    try done; try lia;
    f_equal; apply le_S_n, foldr_max in Hd; induction Hd as [|x l Hx _ IHl]; simpl; try done;
    rewrite ?len_app, IHl, !IH by lia; lia.
Qed.

Lemma depth_encode v : (depth v ≤ length (encode v))%nat.
Proof.
  assert (∀ f v, (depth v ≤ f)%nat → (depth v ≤ length (encode v))%nat) as H; [|by eapply H].
  clear v. induction f as [|f IH]; intros v Hd; [destruct v; simpl in Hd; lia|].
  assert (Hh : ∀ k n, (1 ≤ length (head_encode k n))%nat) by (intros [] n; cbn; repeat case_match; simpl; lia).
  destruct v as [n|n|b|n|n|b|s|ty b| |l|l]; cbn [encode depth] in *; rewrite ?length_app; try apply Hh;
    [pose proof (Hh HBin (len b))|pose proof (Hh HStr (str_len s))|pose proof (Hh HExt (len b))
    |pose proof (Hh HArr (len l))|pose proof (Hh HMap (len l))]; try lia;
    apply le_S_n in Hd; apply foldr_max in Hd;
    [enough (foldr Nat.max 0 (map depth l) ≤ length (concat (map encode l)))%nat by lia
    |enough (foldr Nat.max 0 (map (λ kv, Nat.max (depth kv.1) (depth kv.2)) l)
        ≤ length (concat (map (λ kv, encode kv.1 ++ encode kv.2) l)))%nat by lia];
    clear -Hd IH; induction Hd as [|x l Hx _ IHl]; simpl; try lia; rewrite ?length_app.
  - specialize (IH x Hx). lia.
  - pose proof (IH x.1 ltac:(lia)). pose proof (IH x.2 ltac:(lia)). lia.
Qed.

Lemma head_bytes k n : head_ok k n → bytes_ok (head_encode k n).
Proof.
  unfold head_ok, U64_MAX. destruct k; cbn [head_encode]; intros Hn; repeat case_match;
    rewrite ?bytes_ok_cons; repeat split; try apply be_bytes_ok; try apply bytes_ok_nil; unfold u8; lia.
Qed.
Lemma string_bytes_ok s : bytes_ok (string_bytes s).
Proof.
  unfold string_bytes, bytes_ok. apply Forall_fmap, Forall_forall. intros a _. pose proof (Ascii.N_ascii_bounded a). unfold u8. simpl. lia.
Qed.

Lemma encode_bytes v : mp_ok v → bytes_ok (encode v).
Proof.
  assert (∀ f v, (depth v ≤ f)%nat → mp_ok v → bytes_ok (encode v)) as H; [|by eapply H].
  clear v. induction f as [|f IH]; intros v Hd Hok; [destruct v; simpl in Hd; lia|].
  destruct v as [n|n|b|n|n|b|s|ty b| |l|l]; cbn [encode mp_ok depth] in *; rewrite ?bytes_ok_app, ?bytes_ok_cons;
    try (apply head_bytes; cbn [head_ok]; done || (destruct b; auto)).
  - pose proof (len_nonneg b). split; [apply head_bytes; cbn; lia|tauto].
  - split; [apply head_bytes; cbn; unfold str_len in *; lia|apply string_bytes_ok].
  - pose proof (len_nonneg b). split; [apply head_bytes; cbn; lia|]. unfold u8. tauto.
  - pose proof (len_nonneg l). split; [apply head_bytes; cbn; lia|]. destruct Hok as [_ Hok%foldr_and]. apply le_S_n, foldr_max in Hd.
    clear -Hd Hok IH. induction Hd; simpl; [apply bytes_ok_nil|]. apply Forall_cons in Hok as [? ?]. rewrite bytes_ok_app. split; [by apply IH|by apply IHHd].
  - pose proof (len_nonneg l). split; [apply head_bytes; cbn; lia|]. destruct Hok as [_ Hok%foldr_and]. apply le_S_n, foldr_max in Hd.
    clear -Hd Hok IH. induction Hd as [|x l Hx _ IHl]; simpl; [apply bytes_ok_nil|]. apply Forall_cons in Hok as [[? ?] ?].
    rewrite !bytes_ok_app. repeat split; [apply IH; (done || lia)..|by apply IHl].
Qed.

#[export] Instance reference_msgpack_laws : MsgpackLaws reference_msgpack.
Proof.
  split.
  - intros v rest Hv _. cbn [mp_encode mp_decode reference_msgpack]. rewrite decode_encode; [done..|].
    pose proof (depth_encode v). rewrite length_app. lia.
  - intros v _. apply encode_length.
  - apply encode_bytes.
Qed.
