(* ===== verification/Keepalive.v ===== *)
(** * Link keepalive timing

    Models [rns-link/src/keepalive.rs] and the keepalive constants of
    [rns-link/src/constants.rs].  Instants and durations are nanosecond
    counts; the clock and the random jitter are arguments. *)

From S2P Require Import Prelude F64.
From stdpp Require Import prelude list.
From Stdlib Require Import SpecFloat.

Open Scope Z_scope.

Definition KEEPALIVE_MAX_RTT : f64 := f_lit 7 4.
Definition KEEPALIVE_TIMEOUT_FACTOR : f64 := f_of_Z 4.
Definition STALE_GRACE : f64 := f_of_Z 5.
Definition KEEPALIVE_MAX : f64 := f_of_Z 360.
Definition KEEPALIVE_MIN : f64 := f_of_Z 5.
Definition KEEPALIVE_DEFAULT : f64 := f_of_Z 360.
Definition STALE_FACTOR : f64 := f_of_Z 2.
Definition STALE_TIME_DEFAULT : f64 := f_of_Z 720.

(** [Instant::saturating_duration_since] *)
Definition since (now earlier : Z) : Z := Z.max 0 (now - earlier).

Record KeepaliveState := mkKeepalive {
  keepalive_interval : Z;
  stale_time : Z;
  ka_initiator : bool;
  last_inbound : Z;
  last_keepalive_sent : option Z;
  last_data : Z;
  last_outbound : option Z;
  last_proof : option Z;
  ka_activated_at : option Z;
  jitter_offset : Z;
  jitter_negative : bool;
}.

(** [jitter_frac] is drawn from [-0.1..0.1]. *)
Definition ka_new {E} (is_initiator : bool) (jitter_frac : f64) (now : Z) : res E KeepaliveState :=
  let* interval := secs KEEPALIVE_DEFAULT in
  let* stale := secs STALE_TIME_DEFAULT in
  let* jitter := secs (f_mul (f_abs jitter_frac) KEEPALIVE_DEFAULT) in
  Ok (mkKeepalive interval stale is_initiator now None now None None None jitter (f_lt jitter_frac f_zero)).

Definition update_from_rtt {E} (k : KeepaliveState) (rtt : Z) (jitter_frac : f64) : res E KeepaliveState :=
  let rtt_secs := as_secs_f64 rtt in
  let scale_factor := f_div KEEPALIVE_MAX KEEPALIVE_MAX_RTT in
  let interval := f_clamp (f_mul rtt_secs scale_factor) KEEPALIVE_MIN KEEPALIVE_MAX in
  let* keepalive := secs interval in
  let* stale := secs (f_mul interval STALE_FACTOR) in
  let* jitter := secs (f_mul (f_abs jitter_frac) interval) in
  Ok (mkKeepalive keepalive stale (ka_initiator k) (last_inbound k) (last_keepalive_sent k) (last_data k) (last_outbound k)
        (last_proof k) (ka_activated_at k) jitter (f_lt jitter_frac f_zero)).

Definition with_inbound (k : KeepaliveState) (t : Z) : KeepaliveState :=
  mkKeepalive (keepalive_interval k) (stale_time k) (ka_initiator k) t (last_keepalive_sent k) (last_data k) (last_outbound k)
    (last_proof k) (ka_activated_at k) (jitter_offset k) (jitter_negative k).
Definition with_data (k : KeepaliveState) (t : Z) : KeepaliveState :=
  mkKeepalive (keepalive_interval k) (stale_time k) (ka_initiator k) (last_inbound k) (last_keepalive_sent k) t (last_outbound k)
    (last_proof k) (ka_activated_at k) (jitter_offset k) (jitter_negative k).
Definition with_outbound (k : KeepaliveState) (t : option Z) : KeepaliveState :=
  mkKeepalive (keepalive_interval k) (stale_time k) (ka_initiator k) (last_inbound k) (last_keepalive_sent k) (last_data k) t
    (last_proof k) (ka_activated_at k) (jitter_offset k) (jitter_negative k).
Definition with_proof (k : KeepaliveState) (t : option Z) : KeepaliveState :=
  mkKeepalive (keepalive_interval k) (stale_time k) (ka_initiator k) (last_inbound k) (last_keepalive_sent k) (last_data k)
    (last_outbound k) t (ka_activated_at k) (jitter_offset k) (jitter_negative k).

Definition ka_record_inbound (k : KeepaliveState) (now : Z) : KeepaliveState := with_inbound k now.
Definition ka_record_data (k : KeepaliveState) (now : Z) : KeepaliveState := with_inbound (with_data k now) now.
Definition ka_record_outbound (k : KeepaliveState) (now : Z) : KeepaliveState := with_outbound k (Some now).
Definition ka_record_proof (k : KeepaliveState) (now : Z) : KeepaliveState := with_inbound (with_proof k (Some now)) now.

Definition mark_activated (k : KeepaliveState) (now : Z) : KeepaliveState :=
  mkKeepalive (keepalive_interval k) (stale_time k) (ka_initiator k) (last_inbound k) (last_keepalive_sent k) (last_data k)
    (last_outbound k) (last_proof k) (Some now) (jitter_offset k) (jitter_negative k).

Definition mark_keepalive_sent_at (k : KeepaliveState) (now : Z) : KeepaliveState :=
  mkKeepalive (keepalive_interval k) (stale_time k) (ka_initiator k) (last_inbound k) (Some now) (last_data k)
    (last_outbound k) (last_proof k) (ka_activated_at k) (jitter_offset k) (jitter_negative k).
Definition mark_keepalive_sent (k : KeepaliveState) (now : Z) : KeepaliveState := mark_keepalive_sent_at k now.
Definition record_keepalive_outbound (k : KeepaliveState) (now : Z) : KeepaliveState :=
  mark_keepalive_sent_at (with_outbound k (Some now)) now.

(** [KEEPALIVE_MIN] as a duration; the constant is in range. *)
Definition keepalive_floor : Z := default 0 (try_from_secs_f64 KEEPALIVE_MIN).

(** The interval with this link's jitter. *)
Definition jittered (k : KeepaliveState) : Z :=
  if jitter_negative k then Z.max (Z.max 0 (keepalive_interval k - jitter_offset k)) keepalive_floor
  else keepalive_interval k + jitter_offset k.

Definition should_send_keepalive_at (k : KeepaliveState) (now : Z) : bool :=
  let inbound_elapsed := since now (last_inbound k) in
  let outbound_elapsed :=
    match (match last_outbound k with Some t => Some t | None => ka_activated_at k end) with
    | Some baseline => since now baseline
    | None => inbound_elapsed
    end in
  let keepalive_elapsed := match last_keepalive_sent k with Some t => since now t | None => DURATION_LIMIT end in
  ka_initiator k && ((jittered k <=? inbound_elapsed) || (jittered k <=? outbound_elapsed)) && (jittered k <=? keepalive_elapsed).
Definition should_send_keepalive (k : KeepaliveState) (now : Z) : bool := should_send_keepalive_at k now.

Definition should_respond_to_keepalive_at (k : KeepaliveState) (now : Z) : bool :=
  negb (ka_initiator k) &&
  match last_outbound k with Some t => keepalive_interval k <=? since now t | None => true end.

(** The latest evidence that the peer is alive. *)
Definition latest_evidence (k : KeepaliveState) : Z :=
  let latest := last_inbound k in
  let latest := match last_proof k with Some p => if latest <? p then p else latest | None => latest end in
  match ka_activated_at k with Some a => if latest <? a then a else latest | None => latest end.

Definition is_stale_at (k : KeepaliveState) (now : Z) : bool := stale_time k <=? since now (latest_evidence k).
Definition is_stale (k : KeepaliveState) (now : Z) : bool := is_stale_at k now.

Definition stale_grace_timeout (rtt : Z) : Z :=
  dur_add (dur_mul rtt (f_to_usize KEEPALIVE_TIMEOUT_FACTOR)) (default 0 (try_from_secs_f64 STALE_GRACE)).

Definition since_inbound (k : KeepaliveState) (now : Z) : Z := since now (last_inbound k).

(** ** Lemmas *)

(** What the generator can return: a proper float of [-0.1..0.1]. *)
Definition jitter_ok (j : f64) : Prop :=
  valid_binary 53 1024 j = true ∧ f_is_nan j = false ∧ f_gt (f_abs j) (f_lit 1 10) = false.

Lemma jitter_lim j : jitter_ok j → f_lim (-56) (f_abs j).
Proof. intros (Hv & Hn & Hg). eapply f_gt_lim; [by apply valid_mag|exact Hg]. Qed.

Lemma interval_lim rtt : 0 ≤ rtt →
  f_lim (-44) (f_clamp (f_mul (as_secs_f64 rtt) (f_div KEEPALIVE_MAX KEEPALIVE_MAX_RTT)) KEEPALIVE_MIN KEEPALIVE_MAX).
Proof.
  intros Hr. apply f_clamp_lim; [|vm_compute; done|done]. apply f_mul_mag; [by apply as_secs_mag|]. vm_compute. done.
Qed.

(** Neither constructor nor rescaling panics. *)
Lemma ka_new_ok {E} i j now : jitter_ok j → ∃ k, ka_new i j now = @Ok E _ k ∧ ka_initiator k = i ∧ last_inbound k = now ∧
  last_keepalive_sent k = None ∧ ka_activated_at k = None ∧ last_outbound k = None ∧ 0 ≤ jitter_offset k ∧
  keepalive_interval k = 360 * NANOS ∧ stale_time k = 720 * NANOS.
Proof.
  intros Hj. unfold ka_new, secs.
  destruct (f_lim_secs (f_mul (f_abs j) KEEPALIVE_DEFAULT) (-46)) as (d & Hd & H0); [|lia|].
  { eapply (f_mul_lim _ _ (-56) (-44)); [by apply jitter_lim|vm_compute; done|lia|lia]. }
  rewrite Hd. cbn [res_bind]. by eexists.
Qed.

Lemma update_from_rtt_ok {E} k rtt j : jitter_ok j → 0 ≤ rtt →
  ∃ k', update_from_rtt k rtt j = @Ok E _ k' ∧ ka_initiator k' = ka_initiator k ∧ last_inbound k' = last_inbound k ∧
    last_keepalive_sent k' = last_keepalive_sent k ∧ ka_activated_at k' = ka_activated_at k ∧
    last_outbound k' = last_outbound k ∧ last_proof k' = last_proof k ∧ last_data k' = last_data k ∧
    0 ≤ keepalive_interval k' ∧ 0 ≤ stale_time k' ∧ 0 ≤ jitter_offset k'.
Proof.
  intros Hj Hr. unfold update_from_rtt, secs. pose proof (interval_lim rtt Hr) as Hi. set (x := f_clamp _ _ _) in *.
  destruct (f_lim_secs x (-44) Hi ltac:(lia)) as (d1 & H1 & P1).
  destruct (f_lim_secs (f_mul x STALE_FACTOR) (-41)) as (d2 & H2 & P2); [|lia|].
  { eapply (f_mul_lim _ _ (-44) (-51)); [done|vm_compute; done|lia|lia]. }
  destruct (f_lim_secs (f_mul (f_abs j) x) (-46)) as (d3 & H3 & P3); [|lia|].
  { eapply (f_mul_lim _ _ (-56) (-44)); [by apply jitter_lim|done|lia|lia]. }
  rewrite H1, H2, H3. cbn [res_bind]. eexists. split; [reflexivity|]. by cbn.
Qed.
