(* ===== verification/LinkRequest.v ===== *)
(** * Link request receipts

    Models [rns-link/src/request.rs].  Callbacks are identifiers; an operation
    returns the callbacks it invoked, each with the receipt it saw.  The clock
    is an argument. *)

From S2P Require Import Prelude F64.
From stdpp Require Import prelude list.
From Stdlib Require Import SpecFloat.

Open Scope Z_scope.

Inductive RequestState := RqSent | RqSendingResource | RqReceiving | RqDelivered | RqFailed | RqResponseReceived.
#[export] Instance RequestState_eq_dec : EqDecision RequestState. Proof. solve_decision. Defined.

(** [f32] values are specification floats at precision 24. *)
Definition f32_zero : spec_float := S754_zero false.
Definition f32_one : spec_float := S754_finite false 8388608 (-23).

Abbreviation rq_callback := nat.

Record RequestReceipt := mkRq {
  rq_request_id : bytes;
  rq_link_id : bytes;
  rq_state : RequestState;
  rq_sent_at : Z;
  rq_timeout : Z;
  rq_response : option bytes;
  rq_rtt : option Z;
  rq_progress : spec_float;
  rq_cb_response : option rq_callback;
  rq_cb_failed : option rq_callback;
  rq_cb_progress : option rq_callback;
}.

(** Callbacks invoked, with the receipt each saw. *)
Abbreviation rq_fired := (list (rq_callback * RequestReceipt)).

Definition rq_new (request_id link_id : bytes) (timeout now : Z) : RequestReceipt :=
  mkRq request_id link_id RqSent now timeout None None f32_zero None None None.

Definition is_pending (r : RequestReceipt) : bool :=
  match rq_state r with RqSent | RqSendingResource | RqReceiving => true | _ => false end.

Definition with_rq_state (r : RequestReceipt) (s : RequestState) : RequestReceipt :=
  mkRq (rq_request_id r) (rq_link_id r) s (rq_sent_at r) (rq_timeout r) (rq_response r) (rq_rtt r) (rq_progress r)
    (rq_cb_response r) (rq_cb_failed r) (rq_cb_progress r).
Definition with_rq_id (r : RequestReceipt) (id : bytes) : RequestReceipt :=
  mkRq id (rq_link_id r) (rq_state r) (rq_sent_at r) (rq_timeout r) (rq_response r) (rq_rtt r) (rq_progress r)
    (rq_cb_response r) (rq_cb_failed r) (rq_cb_progress r).

(** [callbacks.response.take()] and the call. *)
Definition fire_response (r : RequestReceipt) : RequestReceipt * rq_fired :=
  let r' := mkRq (rq_request_id r) (rq_link_id r) (rq_state r) (rq_sent_at r) (rq_timeout r) (rq_response r) (rq_rtt r)
              (rq_progress r) None (rq_cb_failed r) (rq_cb_progress r) in
  match rq_cb_response r with Some cb => (r', [(cb, r')]) | None => (r, []) end.
Definition fire_failed (r : RequestReceipt) : RequestReceipt * rq_fired :=
  let r' := mkRq (rq_request_id r) (rq_link_id r) (rq_state r) (rq_sent_at r) (rq_timeout r) (rq_response r) (rq_rtt r)
              (rq_progress r) (rq_cb_response r) None (rq_cb_progress r) in
  match rq_cb_failed r with Some cb => (r', [(cb, r')]) | None => (r, []) end.

(** The response is stored and the round trip measured. *)
Definition answered_with (r : RequestReceipt) (s : RequestState) (data : bytes) (now : Z) : RequestReceipt :=
  mkRq (rq_request_id r) (rq_link_id r) s (rq_sent_at r) (rq_timeout r) (Some data) (Some (Z.max 0 (now - rq_sent_at r)))
    f32_one (rq_cb_response r) (rq_cb_failed r) (rq_cb_progress r).

Definition rq_deliver (r : RequestReceipt) (response : bytes) (now : Z) : RequestReceipt * rq_fired :=
  if is_pending r then fire_response (answered_with r RqDelivered response now) else (r, []).

Definition rq_fail (r : RequestReceipt) : RequestReceipt * rq_fired :=
  if is_pending r then fire_failed (with_rq_state r RqFailed) else (r, []).

Definition is_timed_out (r : RequestReceipt) (now : Z) : bool :=
  match rq_state r with
  | RqSent | RqReceiving => rq_timeout r <=? Z.max 0 (now - rq_sent_at r)
  | _ => false
  end.

Definition receive_response (r : RequestReceipt) (data : bytes) (now : Z) : RequestReceipt * rq_fired :=
  match rq_state r with
  | RqSent | RqSendingResource | RqReceiving | RqDelivered => fire_response (answered_with r RqResponseReceived data now)
  | _ => (r, [])
  end.

Definition mark_delivered (r : RequestReceipt) : RequestReceipt :=
  if decide (rq_state r = RqSent) then with_rq_state r RqDelivered else r.
Definition mark_failed (r : RequestReceipt) : RequestReceipt := if is_pending r then with_rq_state r RqFailed else r.
Definition mark_resource_sending (r : RequestReceipt) : RequestReceipt :=
  if decide (rq_state r = RqSent) then with_rq_state r RqSendingResource else r.
Definition mark_resource_sent (r : RequestReceipt) (now : Z) : RequestReceipt :=
  if decide (rq_state r = RqSendingResource) then
    mkRq (rq_request_id r) (rq_link_id r) RqSent now (rq_timeout r) (rq_response r) (rq_rtt r) (rq_progress r)
      (rq_cb_response r) (rq_cb_failed r) (rq_cb_progress r)
  else r.

Definition concluded (r : RequestReceipt) : bool :=
  match rq_state r with RqDelivered | RqFailed | RqResponseReceived => true | _ => false end.

Definition get_response_time (r : RequestReceipt) : option Z := rq_rtt r.
Definition get_progress (r : RequestReceipt) : spec_float := rq_progress r.

(** The progress callback with its argument. *)
Definition update_progress (r : RequestReceipt) (progress : spec_float) : RequestReceipt * list (rq_callback * spec_float) :=
  (mkRq (rq_request_id r) (rq_link_id r) (rq_state r) (rq_sent_at r) (rq_timeout r) (rq_response r) (rq_rtt r) progress
     (rq_cb_response r) (rq_cb_failed r) (rq_cb_progress r),
   match rq_cb_progress r with Some cb => [(cb, progress)] | None => [] end).

Definition set_response_callback (r : RequestReceipt) (cb : rq_callback) : RequestReceipt :=
  mkRq (rq_request_id r) (rq_link_id r) (rq_state r) (rq_sent_at r) (rq_timeout r) (rq_response r) (rq_rtt r) (rq_progress r)
    (Some cb) (rq_cb_failed r) (rq_cb_progress r).
Definition set_failed_callback (r : RequestReceipt) (cb : rq_callback) : RequestReceipt :=
  mkRq (rq_request_id r) (rq_link_id r) (rq_state r) (rq_sent_at r) (rq_timeout r) (rq_response r) (rq_rtt r) (rq_progress r)
    (rq_cb_response r) (Some cb) (rq_cb_progress r).
Definition set_progress_callback (r : RequestReceipt) (cb : rq_callback) : RequestReceipt :=
  mkRq (rq_request_id r) (rq_link_id r) (rq_state r) (rq_sent_at r) (rq_timeout r) (rq_response r) (rq_rtt r) (rq_progress r)
    (rq_cb_response r) (rq_cb_failed r) (Some cb).

Definition rq_check_timeout (r : RequestReceipt) (now : Z) : RequestReceipt * rq_fired * bool :=
  if is_timed_out r now then let '(r, f) := rq_fail r in (r, f, true) else (r, [], false).

(** ** Lemmas *)

Lemma rq_fail_state r : is_pending r = true → rq_state (rq_fail r).1 = RqFailed.
Proof. intros Hp. unfold rq_fail. rewrite Hp. unfold fire_failed. by destruct (rq_cb_failed _). Qed.
Lemma concluded_pending r : concluded r = negb (is_pending r).
Proof. unfold concluded, is_pending. by destruct (rq_state r). Qed.

(** ** Receipts conclude once *)

(** Everything that can happen to a receipt. *)
Inductive rq_event :=
| EvDeliver (b : bytes) (now : Z) | EvResponse (b : bytes) (now : Z) | EvFail | EvCheck (now : Z)
| EvAck | EvSending | EvSent (now : Z) | EvSilentFail.

Definition rq_step (r : RequestReceipt) (e : rq_event) : RequestReceipt * rq_fired :=
  match e with
  | EvDeliver b now => rq_deliver r b now
  | EvResponse b now => receive_response r b now
  | EvFail => rq_fail r
  | EvCheck now => (rq_check_timeout r now).1
  | EvAck => (mark_delivered r, [])
  | EvSending => (mark_resource_sending r, [])
  | EvSent now => (mark_resource_sent r now, [])
  | EvSilentFail => (mark_failed r, [])
  end.

Fixpoint rq_run (r : RequestReceipt) (l : list rq_event) : RequestReceipt * rq_fired :=
  match l with
  | [] => (r, [])
  | e :: l => let '(r, f) := rq_step r e in let '(r, fs) := rq_run r l in (r, f ++ fs)
  end.

(** Failure is final, a received response is final, and each was announced at
    most by the callbacks registered for it. *)
Lemma rq_final r l : rq_state r = RqFailed ∨ rq_state r = RqResponseReceived → rq_run r l = (r, []).
Proof.
  intros Hs. induction l as [|e l IH]; [done|]. cbn [rq_run].
  assert (rq_step r e = (r, [])) as ->; [|by rewrite IH].
  destruct r as [id lid st sa to rs rt pr c1 c2 c3]. cbn in Hs. destruct Hs as [-> | ->], e; done.
Qed.

Definition rq_callbacks (r : RequestReceipt) : nat :=
  (match rq_cb_response r with Some _ => 1 | None => 0 end + match rq_cb_failed r with Some _ => 1 | None => 0 end)%nat.

(** What an operation may fire: the response callback on a receipt that has
    the response, the failure callback on one that failed. *)
Definition fires (r : RequestReceipt) (out : RequestReceipt * rq_fired) : Prop :=
  (length out.2 + rq_callbacks out.1 = rq_callbacks r)%nat ∧ (is_pending out.1 = true → is_pending r = true) ∧
  Forall (λ cr, (Some cr.1 = rq_cb_response r ∧ is_Some (rq_response cr.2)) ∨ (Some cr.1 = rq_cb_failed r ∧ rq_state cr.2 = RqFailed)) out.2.

Lemma fires_none r r' : rq_callbacks r' = rq_callbacks r → (is_pending r' = true → is_pending r = true) → fires r (r', []).
Proof. intros H1 H2. split_and!; [by cbn; rewrite H1|done|constructor]. Qed.

Lemma rq_fail_fires r : fires r (rq_fail r).
Proof.
  unfold rq_fail. destruct (is_pending r) eqn:Hp; [|by apply fires_none]. unfold fire_failed. cbn [with_rq_state rq_cb_failed].
  destruct (rq_cb_failed r) as [cb|] eqn:Hc; [|by apply fires_none]. unfold fires, rq_callbacks. rewrite Hc. cbn.
  split_and!; [destruct (rq_cb_response r); lia|done|]. constructor; [by right|constructor].
Qed.

Lemma answered_fires r s b now : s = RqDelivered ∨ s = RqResponseReceived → fires r (fire_response (answered_with r s b now)).
Proof.
  intros Hs. unfold fire_response. cbn [answered_with rq_cb_response].
  assert (Hn : ∀ x, rq_state x = s → is_pending x = true → is_pending r = true) by (unfold is_pending; intros x ->; by destruct Hs as [-> | ->]).
  destruct (rq_cb_response r) as [cb|] eqn:Hc; [|apply fires_none; [by unfold rq_callbacks|by apply Hn]].
  unfold fires, rq_callbacks. rewrite Hc. split_and!; [done|by apply Hn|]. constructor; [left; split; [done|by eexists]|constructor].
Qed.

Lemma rq_step_fires r e : fires r (rq_step r e).
Proof.
  destruct e as [b now|b now| |now| | |now|]; cbn [rq_step].
  - unfold rq_deliver. destruct (is_pending r) eqn:Hp; [by apply answered_fires; left|by apply fires_none].
  - unfold receive_response. destruct (rq_state r) eqn:Hst; try (by apply answered_fires; right); by apply fires_none.
  - apply rq_fail_fires.
  - unfold rq_check_timeout. destruct (is_timed_out r now); [|by apply fires_none].
    pose proof (rq_fail_fires r) as Hf. by destruct (rq_fail r).
  - unfold mark_delivered. case_decide; by apply fires_none.
  - unfold mark_resource_sending. case_decide as Hd; [|by apply fires_none]. apply fires_none; [done|].
    unfold is_pending. by rewrite Hd.
  - unfold mark_resource_sent. case_decide as Hd; [|by apply fires_none]. apply fires_none; [done|].
    unfold is_pending. by rewrite Hd.
  - unfold mark_failed. destruct (is_pending r) eqn:Hp; by apply fires_none.
Qed.

(** Over any history, the callbacks invoked and those still registered are
    the ones registered at the start: each is consumed at most once. *)
Lemma rq_run_fires l : ∀ r, (length (rq_run r l).2 + rq_callbacks (rq_run r l).1 = rq_callbacks r)%nat.
Proof.
  induction l as [|e l IH]; intros r; cbn [rq_run]; [done|]. pose proof (rq_step_fires r e) as [H1 _].
  destruct (rq_step r e) as [r1 f]. specialize (IH r1). destruct (rq_run r1 l) as [r2 fs]. cbn in *. rewrite length_app. lia.
Qed.
