(* ===== verification/Handshake.v ===== *)
(** * The link handshake messages

    Models [rns-link/src/handshake.rs]: the request and proof payloads, the
    link identifier and the key agreement.  Keys drawn at random by the code
    are arguments; zeroisation is not modelled. *)

From S2P Require Import Prelude Wire Packet LinkSignalling Receipt Token Ifac F64 Channel LinkChannel Identity.
From stdpp Require Import prelude list.

Open Scope Z_scope.

Definition LINK_MTU_SIZE : nat := 3.
Definition DEFAULT_MODE : Z := MODE_AES256_CBC.
Definition ENABLED_MODES : list Z := [MODE_AES256_CBC].

Inductive HandshakeError :=
| HSignalling (e : LinkSignallingError)
| HTooShort
| HInvalidLength (n : nat)
| HInvalidSignature
| HKeyDerivation (e : LinkKeyError)
| HUnsupportedMode (m : Z).

(** The X25519 keys of a link are those of the identities. *)
Definition link_x25519 `{Curve25519} : X25519 := {|
  x_private := bytes;
  x_public := bytes;
  x_public_of := x_pub;
  x_exchange := x_dh;
|}.
Lemma link_x25519_laws `{CL : Curve25519Laws} : X25519Laws link_x25519.
Proof. split. apply x_dh_agree. Qed.

Section handshake.
Context `{Digest} `{Ed25519} `{!Ed25519Keys} `{Ed25519Signer} `{Curve25519} `{Hkdf}.

Record EphemeralKeys := mkEph {
  x25519_prv : bytes;
  x25519_pub : bytes;
  ed25519_prv : bytes;
  ed25519_pub : verifying_key;
}.

(** [EphemeralKeys::generate], from the two secrets it draws. *)
Definition eph_generate (x_secret ed_secret : bytes) : EphemeralKeys :=
  mkEph x_secret (x_pub x_secret) ed_secret (ed_public ed_secret).

Record LinkRequestData := mkLR { peer_x25519 : bytes; peer_ed25519 : bytes; lr_signalling : SignallingData }.

Definition lr_pack {E} (keys : EphemeralKeys) (s : SignallingData) : res E bytes :=
  let* trailer := sd_pack s in
  Ok (x25519_pub keys ++ vk_bytes (ed25519_pub keys) ++ trailer).

(** The trailer, or the default for the body without one. *)
Definition trailer_or_default {E} (data : bytes) (body : nat) : res E SignallingData :=
  let standard := sd_new DEFAULT_MODE (Z.of_nat MTU) in
  if decide (length data = body + LINK_MTU_SIZE)%nat then
    let* t := slice data body (body + LINK_MTU_SIZE) in
    let* s := sd_unpack t in
    Ok (default standard s)
  else Ok standard.

Definition lr_unpack (data : bytes) : res HandshakeError LinkRequestData :=
  if decide (length data < ECPUBSIZE)%nat then Err HTooShort else
  if decide (length data ≠ ECPUBSIZE ∧ length data ≠ ECPUBSIZE + LINK_MTU_SIZE)%nat then Err (HInvalidLength (length data)) else
  let* _ := map_err HSignalling (parse_request_signalling data) in
  let* a := slice data 0 32 in let* x := copy_array 32 a in
  let* b := slice data 32 64 in let* e := copy_array 32 b in
  let* s := trailer_or_default data ECPUBSIZE in
  Ok (mkLR x e s).

Definition compute_link_id {E} (destination_hash request_data : bytes) : res E bytes :=
  let data_len := Nat.min (length request_data) ECPUBSIZE in
  let* d := slice_to request_data data_len in
  truncated_hash ([2] ++ destination_hash ++ [0] ++ d).

Definition compute_link_id_from_raw {E} (raw : bytes) (ht : HeaderType) : res E bytes := link_id_from_raw raw ht.

Record LinkProofData := mkLP { lp_signature : bytes; responder_x25519_pub : bytes; lp_signalling : SignallingData }.

Definition proof_signed_data (link_id responder_pub identity_pub trailer : bytes) : bytes :=
  link_id ++ responder_pub ++ identity_pub ++ trailer.

Definition lp_create {E} (identity_signing_key responder_pub identity_pub link_id : bytes) (s : SignallingData) : res E LinkProofData :=
  let* sig_bytes := sd_pack s in
  Ok (mkLP (ed_sign identity_signing_key (proof_signed_data link_id responder_pub identity_pub sig_bytes)) responder_pub s).

Definition lp_create_with {E} (sign_fn : bytes → bytes) (responder_pub identity_pub link_id : bytes) (s : SignallingData)
    : res E LinkProofData :=
  let* sig_bytes := sd_pack s in
  Ok (mkLP (sign_fn (proof_signed_data link_id responder_pub identity_pub sig_bytes)) responder_pub s).

Definition lp_pack {E} (p : LinkProofData) : res E bytes :=
  let* trailer := sd_pack (lp_signalling p) in
  Ok (lp_signature p ++ responder_x25519_pub p ++ trailer).

Definition lp_unpack (data : bytes) : res HandshakeError LinkProofData :=
  if decide (length data < 96)%nat then Err HTooShort else
  if decide (length data ≠ 96 ∧ length data ≠ 96 + LINK_MTU_SIZE)%nat then Err (HInvalidLength (length data)) else
  let* _ := map_err HSignalling (parse_proof_signalling data) in
  let* a := slice data 0 64 in let* sg := copy_array 64 a in
  let* b := slice data 64 96 in let* x := copy_array 32 b in
  let* s := trailer_or_default data 96 in
  Ok (mkLP sg x s).

Definition lp_validate {E} (p : LinkProofData) (key : verifying_key) (link_id peer_ed25519_pub : bytes) : res E bool :=
  let* sig_bytes := sd_pack (lp_signalling p) in
  Ok (ed_verify key (proof_signed_data link_id (responder_x25519_pub p) peer_ed25519_pub sig_bytes) (lp_signature p)).

Definition perform_handshake (my_prv peer_pub link_id : bytes) (mode : Z) : res LinkKeyError LinkKeys :=
  derive (H:=link_x25519) my_prv peer_pub link_id mode.
End handshake.

(** ** Lemmas *)

Section handshake_facts.
Context `{DL : DigestLaws} `{E : Ed25519} `{K : !Ed25519Keys} `{S : Ed25519Signer} `{KL : !Ed25519KeysLaws K S} `{SL : !Ed25519SignerLaws S}
  `{CL : Curve25519Laws} `{HL : HkdfLaws}.

(** The signalling every endpoint offers. *)
Definition base_signalling : SignallingData := mkSig 1 500.
Lemma base_is : sd_new DEFAULT_MODE (Z.of_nat MTU) = base_signalling.
Proof. reflexivity. Qed.
Lemma base_pack {X} : sd_pack base_signalling = @Ok X _ [32; 1; 244].
Proof. reflexivity. Qed.

Lemma parse_base body legacy : length body = legacy → ls_parse (body ++ [32; 1; 244]) legacy = Ok (mkLinkSig 1 LinkMtu_BASE true).
Proof.
  intros Hl. unfold ls_parse. rewrite decide_False by (rewrite length_app; simpl; lia).
  rewrite decide_False by (rewrite length_app; simpl; lia). rewrite slice_from_ok by (rewrite length_app; simpl; lia).
  rewrite drop_app_length' by done. reflexivity.
Qed.

Lemma trailer_base {X} body n : length body = n → trailer_or_default (body ++ [32; 1; 244]) n = @Ok X _ base_signalling.
Proof.
  intros Hl. unfold trailer_or_default. rewrite decide_True by (rewrite length_app; unfold LINK_MTU_SIZE; simpl; lia).
  rewrite (slice_at body [32; 1; 244] []) by (rewrite ?app_nil_r; done || simpl; unfold LINK_MTU_SIZE; lia). reflexivity.
Qed.

(** Both forms of a request are read back. *)
Lemma lr_unpack_pack keys : length (x25519_pub keys) = 32%nat →
  ∃ d, lr_pack keys base_signalling = @Ok HandshakeError _ d ∧ d = x25519_pub keys ++ vk_bytes (ed25519_pub keys) ++ [32; 1; 244] ∧
    length d = 67%nat ∧ lr_unpack d = Ok (mkLR (x25519_pub keys) (vk_bytes (ed25519_pub keys)) base_signalling).
Proof.
  intros Hx. pose proof (vk_length (ed25519_pub keys)) as Hv. unfold lr_pack. rewrite base_pack. cbn [res_bind]. eexists.
  split; [reflexivity|]. split; [done|]. split; [rewrite !length_app, Hx, Hv; done|]. unfold lr_unpack.
  assert (Hlen : length (x25519_pub keys ++ vk_bytes (ed25519_pub keys) ++ [32; 1; 244]) = 67%nat) by (rewrite !length_app, Hx, Hv; done).
  rewrite Hlen. rewrite !decide_False by (unfold ECPUBSIZE, LINK_MTU_SIZE; lia).
  assert (Hb : length (x25519_pub keys ++ vk_bytes (ed25519_pub keys)) = 64%nat) by (rewrite length_app; lia).
  rewrite app_assoc. unfold parse_request_signalling. rewrite parse_base by done. cbn [map_err res_bind].
  rewrite (trailer_base (X:=HandshakeError) _ ECPUBSIZE Hb). rewrite <- app_assoc.
  rewrite (slice_at [] (x25519_pub keys) (vk_bytes (ed25519_pub keys) ++ [32; 1; 244])) by (done || simpl; lia). cbn [res_bind].
  rewrite copy_array_ok by done. cbn [res_bind].
  rewrite (slice_at (x25519_pub keys) (vk_bytes (ed25519_pub keys)) [32; 1; 244]) by (done || lia). cbn [res_bind].
  rewrite copy_array_ok by done. done.
Qed.

Lemma lp_unpack_base sg x : length sg = 64%nat → length x = 32%nat →
  lp_unpack (sg ++ x ++ [32; 1; 244]) = Ok (mkLP sg x base_signalling) ∧
  parse_proof_signalling (sg ++ x ++ [32; 1; 244]) = Ok (mkLinkSig 1 LinkMtu_BASE true).
Proof.
  intros Hs Hx. assert (Hb : length (sg ++ x) = 96%nat) by (rewrite length_app; lia).
  assert (Hp : parse_proof_signalling (sg ++ x ++ [32; 1; 244]) = Ok (mkLinkSig 1 LinkMtu_BASE true)).
  { rewrite app_assoc. by apply parse_base. }
  split; [|done]. unfold lp_unpack.
  assert (Hlen : length (sg ++ x ++ [32; 1; 244]) = 99%nat) by (rewrite !length_app, Hs, Hx; done).
  rewrite Hlen, !decide_False by (unfold LINK_MTU_SIZE; lia). rewrite Hp. cbn [map_err res_bind].
  replace (trailer_or_default (sg ++ x ++ [32; 1; 244]) 96) with (@Ok HandshakeError _ base_signalling) by (rewrite app_assoc; by rewrite trailer_base).
  rewrite (slice_at [] sg (x ++ [32; 1; 244])) by (done || simpl; lia). cbn [res_bind]. rewrite copy_array_ok by done. cbn [res_bind].
  rewrite (slice_at sg x [32; 1; 244]) by (done || lia). cbn [res_bind]. by rewrite copy_array_ok.
Qed.

Lemma compute_link_id_ok {X} dest data : (64 ≤ length data)%nat →
  compute_link_id dest data = @Ok X _ (take 16 (sha256 ([2] ++ dest ++ [0] ++ take 64 data))).
Proof.
  intros Hl. unfold compute_link_id. rewrite slice_to_ok by lia. cbn [res_bind]. unfold ECPUBSIZE.
  rewrite Nat.min_r by lia. apply truncated_hash_ok.
Qed.
Lemma compute_link_id_length {X} dest data id : compute_link_id dest data = @Ok X _ id → length id = 16%nat.
Proof.
  unfold compute_link_id. rewrite slice_to_ok by lia. cbn [res_bind]. rewrite truncated_hash_ok. intros [= <-].
  rewrite length_take, sha256_length. lia.
Qed.

(** The identifier the endpoints compute from the request is the one a relay
    computes from any packet that carries it, whatever the trailer. *)
Lemma link_id_wire {X} h data : header_ok h → (64 ≤ length data)%nat →
  packet_type (flags h) = LinkRequest → destination_type (flags h) = Single → context h = CtxNone →
  link_id_from_raw (header_pack h ++ data) (header_type (flags h)) = @compute_link_id _ X (destination_hash h) data.
Proof.
  intros Hh Hl Hp Hd Hc. rewrite compute_link_id_ok by done. unfold link_id_from_raw. rewrite hashable_part_packed by done. cbn [res_bind].
  rewrite truncated_hash_ok. do 3 f_equal. destruct Hh as (_ & [Hdl _] & _). unfold hash_stable. rewrite Hp, Hd, Hc. cbn [to_byte].
  set (nib := Z.lor _ _). replace nib with 2 by reflexivity. rewrite !length_app, Hdl. unfold ECPUBSIZE. case_decide as Hx.
  - rewrite !app_assoc, take_app, !length_app, Hdl. rewrite <- !app_assoc, (take_ge ([2] ++ _)) by (rewrite !length_app, Hdl; simpl; lia).
    rewrite <- !app_assoc. do 4 f_equal. simpl. lia.
  - simpl in Hx. by rewrite take_ge by lia.
Qed.

(** *** Reading arbitrary bytes *)

Lemma parse_no_panic data legacy : ls_parse data legacy ≠ Panic.
Proof.
  unfold ls_parse. case_decide; [done|]. case_decide; [done|]. rewrite slice_from_ok by lia. cbn [res_bind]. unfold sd_unpack.
  assert (Hl : length (drop legacy data) = 3%nat) by (rewrite length_drop; lia). rewrite decide_False by lia.
  destruct (drop legacy data) as [|a [|b [|c []]]]; try done.
  rewrite (idx_ok _ 0 a), (idx_ok _ 1 b), (idx_ok _ 2 c) by done. cbn [res_bind expect sd_mtu sd_mode].
  set (w := Z.land _ MAX_SIGNALLED_LINK_MTU). unfold try_from_signal. destruct (w =? 0); [done|]. by destruct (_ && _).
Qed.
Lemma mdu_no_panic m : checked_mdu m ≠ Panic.
Proof.
  unfold checked_mdu. destruct (mtu_get m <=? USIZE_MAX); [|done]. cbn [res_bind].
  destruct (n ← checked_add _ _; _) as [o|]; [|done]. cbn [ok_or res_bind]. by destruct (n ← checked_sub _ _; _).
Qed.

Lemma trailer_no_panic {X} data n : ∃ s, trailer_or_default data n = @Ok X _ s.
Proof.
  unfold trailer_or_default. case_decide as Hl; [|by eexists]. unfold LINK_MTU_SIZE in *. rewrite slice_ok by lia. cbn [res_bind].
  assert (H3 : length (take (n + 3 - n) (drop n data)) = 3%nat) by (rewrite length_take, length_drop; lia).
  unfold sd_unpack. rewrite decide_False by lia. destruct (take _ _) as [|a [|b [|c []]]]; try done. eexists. reflexivity.
Qed.

(** A proof that unpacks is a signature, a key and the trailer. *)
Lemma lp_unpack_inv data :
  match lp_unpack data with
  | Ok p => ∃ trailer, data = lp_signature p ++ responder_x25519_pub p ++ trailer ∧ length (lp_signature p) = 64%nat ∧
      length (responder_x25519_pub p) = 32%nat
  | Err _ => True
  | Panic => False
  end.
Proof.
  unfold lp_unpack. case_decide; [done|]. case_decide; [done|].
  pose proof (parse_no_panic data 96) as Hp. unfold parse_proof_signalling. destruct (ls_parse data 96) as [s|e|]; [|done|done]. cbn [map_err res_bind].
  rewrite (slice_ok data 0 64), (slice_ok data 64 96) by lia. cbn [res_bind].
  rewrite !copy_array_ok by (rewrite length_take, length_drop; lia). cbn [res_bind].
  destruct (trailer_no_panic (X:=HandshakeError) data 96) as [s' ->]. cbn [res_bind lp_signature responder_x25519_pub].
  exists (drop 96 data). rewrite !length_take, !length_drop. split; [|lia]. rewrite drop_0. change (64 - 0)%nat with 64%nat. change (96 - 64)%nat with 32%nat.
  rewrite <- (take_drop 64 data) at 1. f_equal. rewrite <- (take_drop 32 (drop 64 data)) at 1. by rewrite drop_drop.
Qed.
End handshake_facts.
