(* ===== verification/Link.v ===== *)
(** * The link state machine

    Models [rns-link/src/link.rs].  The fields of [Link] are grouped in records
    by concern.  A method reads the clock once, as the argument [now]; IVs,
    ephemeral secrets and the keepalive jitter, drawn at random by the code,
    are arguments.  Callbacks are identifiers: an operation returns those it
    invoked.  Counters wrap at 64 bits, as in a release build. *)

From S2P Require Import Prelude Wire Packet LinkSignalling Receipt Token Ifac F64 Channel LinkChannel Identity Msgpack.
From S2P Require Import Keepalive LinkRequest Handshake.
From stdpp Require Import prelude list strings.

Open Scope Z_scope.

(** ** Data *)

Inductive LinkState := Pending | Handshake | Active | Stale | Closed.
#[export] Instance LinkState_eq_dec : EqDecision LinkState. Proof. solve_decision. Defined.
Inductive LinkRole := Initiator | Responder.
#[export] Instance LinkRole_eq_dec : EqDecision LinkRole. Proof. solve_decision. Defined.

Inductive PacketProofError :=
| WrongRole
| InvalidState (s : LinkState)
| SignerUnavailable
| PeerKeyUnavailable
| MalformedProof
| HashMismatch
| ProofInvalidSignature.
Inductive TimeoutError := mkTimeoutError.
Inductive CloseReason := CrTimeout | CrInitiatorClosed | CrDestinationClosed.
Inductive ResourceStrategy := AcceptNone | AcceptApp | AcceptAll.
Inductive ResourceAcceptance := RaAccept | RaReject | RaAskApp.
Inductive OutboundResourceState := OrTransferring | OrAwaitingProof | OrComplete | OrFailed.
Inductive RequestSendMode := SendPacket (b : bytes) | SendResource (b : bytes).
Inductive LinkAction :=
| ActNone
| SendKeepalive
| TransitionedToStale
| SendTeardownAndClose (data : bytes)
| ActClosed (r : CloseReason).

Record LinkPhyStats := mkPhy { rssi : option f64; snr : option f64; q : option f64 }.

Definition ESTABLISHMENT_TIMEOUT_PER_HOP : f64 := f_of_Z 6.
Definition TRAFFIC_TIMEOUT_FACTOR : f64 := f_of_Z 6.
Definition RESPONSE_MAX_GRACE_TIME : f64 := f_of_Z 10.
Definition PEER_RTT_MAX_SECS : f64 := STALE_TIME_DEFAULT.

Definition peer_reported_rtt (s : f64) : option Z :=
  if f_is_nan s || f_lt s f_zero then None else try_from_secs_f64 (f_min s PEER_RTT_MAX_SECS).

(** Counter increments. *)
Definition add64 (a b : Z) : Z := (a + b) mod 2 ^ 64.

(** [iter_mut().find(p)] and an update of the element found. *)
Fixpoint update_first {A} (p : A → bool) (f : A → A) (l : list A) : list A :=
  match l with
  | [] => []
  | x :: l => if p x then f x :: l else x :: update_first p f l
  end.

Section link.
Context `{Digest} `{Ed25519} `{!Ed25519Keys} `{Ed25519Signer} `{Curve25519} `{Hkdf} `{AesCbc} `{Hmac} `{Msgpack}.

Record LinkCrypto := mkCrypto {
  ephemeral_keys : option EphemeralKeys;
  peer_x25519_pub : option bytes;
  peer_packet_proof_key : option bytes;
  responder_identity_signing_key : option bytes;
  l_session_keys : option LinkKeys;
}.
Record LinkTiming := mkTiming {
  request_time : Z;
  rtt : option Z;
  establishment_timeout : Z;
  activated_at : option Z;
  stale_since : option Z;
}.
Record LinkResources := mkResources {
  resource_strategy : ResourceStrategy;
  incoming_resources : list bytes;
  outgoing_resources : list bytes;
  outgoing_resource_states : list OutboundResourceState;
  incoming_resource_count : Z;
}.
Record LinkRates := mkRates {
  establishment_cost : Z;
  establishment_rate : option f64;
  expected_rate : option f64;
  expected_hops : option Z;
}.
Record LinkTraffic := mkTraffic { tx_bytes : Z; rx_bytes : Z; tx_count : Z; rx_count : Z }.
Record LinkCallbacks := mkCallbacks {
  packet_callback : option nat;
  resource_callback : option nat;
  remote_identified_callback : option nat;
  link_established_callback : option nat;
  link_closed_callback : option nat;
}.

Record Link := mkLink {
  l_id : bytes;
  l_state : LinkState;
  teardown_reason : option CloseReason;
  is_initiator : bool;
  l_mode : Z;
  offered_mode : Z;
  offered_mtu : LinkMtu;
  l_crypto : LinkCrypto;
  l_timing : LinkTiming;
  l_keepalive : KeepaliveState;
  l_mtu : Z;
  l_mdu : Z;
  l_resources : LinkResources;
  pending_requests : list RequestReceipt;
  l_rates : LinkRates;
  l_destination_hash : bytes;
  remote_identity_pub : option bytes;
  identified : bool;
  l_traffic : LinkTraffic;
  l_phy : LinkPhyStats;
  l_track_phy_stats : bool;
  has_channel : bool;
  l_callbacks : LinkCallbacks;
}.

(** Updates of one field. *)
Definition set_state (l : Link) (x : LinkState) : Link :=
  mkLink (l_id l) x (teardown_reason l) (is_initiator l) (l_mode l) (offered_mode l) (offered_mtu l) (l_crypto l) (l_timing l) (l_keepalive l)
    (l_mtu l) (l_mdu l) (l_resources l) (pending_requests l) (l_rates l) (l_destination_hash l) (remote_identity_pub l) (identified l)
    (l_traffic l) (l_phy l) (l_track_phy_stats l) (has_channel l) (l_callbacks l).
Definition set_reason (l : Link) (x : option CloseReason) : Link :=
  mkLink (l_id l) (l_state l) x (is_initiator l) (l_mode l) (offered_mode l) (offered_mtu l) (l_crypto l) (l_timing l) (l_keepalive l)
    (l_mtu l) (l_mdu l) (l_resources l) (pending_requests l) (l_rates l) (l_destination_hash l) (remote_identity_pub l) (identified l)
    (l_traffic l) (l_phy l) (l_track_phy_stats l) (has_channel l) (l_callbacks l).
Definition set_mode (l : Link) (x : Z) : Link :=
  mkLink (l_id l) (l_state l) (teardown_reason l) (is_initiator l) x (offered_mode l) (offered_mtu l) (l_crypto l) (l_timing l) (l_keepalive l)
    (l_mtu l) (l_mdu l) (l_resources l) (pending_requests l) (l_rates l) (l_destination_hash l) (remote_identity_pub l) (identified l)
    (l_traffic l) (l_phy l) (l_track_phy_stats l) (has_channel l) (l_callbacks l).
Definition set_crypto (l : Link) (x : LinkCrypto) : Link :=
  mkLink (l_id l) (l_state l) (teardown_reason l) (is_initiator l) (l_mode l) (offered_mode l) (offered_mtu l) x (l_timing l) (l_keepalive l)
    (l_mtu l) (l_mdu l) (l_resources l) (pending_requests l) (l_rates l) (l_destination_hash l) (remote_identity_pub l) (identified l)
    (l_traffic l) (l_phy l) (l_track_phy_stats l) (has_channel l) (l_callbacks l).
Definition set_timing (l : Link) (x : LinkTiming) : Link :=
  mkLink (l_id l) (l_state l) (teardown_reason l) (is_initiator l) (l_mode l) (offered_mode l) (offered_mtu l) (l_crypto l) x (l_keepalive l)
    (l_mtu l) (l_mdu l) (l_resources l) (pending_requests l) (l_rates l) (l_destination_hash l) (remote_identity_pub l) (identified l)
    (l_traffic l) (l_phy l) (l_track_phy_stats l) (has_channel l) (l_callbacks l).
Definition set_keepalive (l : Link) (x : KeepaliveState) : Link :=
  mkLink (l_id l) (l_state l) (teardown_reason l) (is_initiator l) (l_mode l) (offered_mode l) (offered_mtu l) (l_crypto l) (l_timing l) x
    (l_mtu l) (l_mdu l) (l_resources l) (pending_requests l) (l_rates l) (l_destination_hash l) (remote_identity_pub l) (identified l)
    (l_traffic l) (l_phy l) (l_track_phy_stats l) (has_channel l) (l_callbacks l).
Definition set_mtu_mdu (l : Link) (x y : Z) : Link :=
  mkLink (l_id l) (l_state l) (teardown_reason l) (is_initiator l) (l_mode l) (offered_mode l) (offered_mtu l) (l_crypto l) (l_timing l) (l_keepalive l)
    x y (l_resources l) (pending_requests l) (l_rates l) (l_destination_hash l) (remote_identity_pub l) (identified l)
    (l_traffic l) (l_phy l) (l_track_phy_stats l) (has_channel l) (l_callbacks l).
Definition set_resources (l : Link) (x : LinkResources) : Link :=
  mkLink (l_id l) (l_state l) (teardown_reason l) (is_initiator l) (l_mode l) (offered_mode l) (offered_mtu l) (l_crypto l) (l_timing l) (l_keepalive l)
    (l_mtu l) (l_mdu l) x (pending_requests l) (l_rates l) (l_destination_hash l) (remote_identity_pub l) (identified l)
    (l_traffic l) (l_phy l) (l_track_phy_stats l) (has_channel l) (l_callbacks l).
Definition set_pending (l : Link) (x : list RequestReceipt) : Link :=
  mkLink (l_id l) (l_state l) (teardown_reason l) (is_initiator l) (l_mode l) (offered_mode l) (offered_mtu l) (l_crypto l) (l_timing l) (l_keepalive l)
    (l_mtu l) (l_mdu l) (l_resources l) x (l_rates l) (l_destination_hash l) (remote_identity_pub l) (identified l)
    (l_traffic l) (l_phy l) (l_track_phy_stats l) (has_channel l) (l_callbacks l).
Definition set_rates (l : Link) (x : LinkRates) : Link :=
  mkLink (l_id l) (l_state l) (teardown_reason l) (is_initiator l) (l_mode l) (offered_mode l) (offered_mtu l) (l_crypto l) (l_timing l) (l_keepalive l)
    (l_mtu l) (l_mdu l) (l_resources l) (pending_requests l) x (l_destination_hash l) (remote_identity_pub l) (identified l)
    (l_traffic l) (l_phy l) (l_track_phy_stats l) (has_channel l) (l_callbacks l).
Definition set_identity (l : Link) (x : option bytes) (y : bool) : Link :=
  mkLink (l_id l) (l_state l) (teardown_reason l) (is_initiator l) (l_mode l) (offered_mode l) (offered_mtu l) (l_crypto l) (l_timing l) (l_keepalive l)
    (l_mtu l) (l_mdu l) (l_resources l) (pending_requests l) (l_rates l) (l_destination_hash l) x y
    (l_traffic l) (l_phy l) (l_track_phy_stats l) (has_channel l) (l_callbacks l).
Definition set_traffic (l : Link) (x : LinkTraffic) : Link :=
  mkLink (l_id l) (l_state l) (teardown_reason l) (is_initiator l) (l_mode l) (offered_mode l) (offered_mtu l) (l_crypto l) (l_timing l) (l_keepalive l)
    (l_mtu l) (l_mdu l) (l_resources l) (pending_requests l) (l_rates l) (l_destination_hash l) (remote_identity_pub l) (identified l)
    x (l_phy l) (l_track_phy_stats l) (has_channel l) (l_callbacks l).
Definition set_phy (l : Link) (x : LinkPhyStats) (y : bool) : Link :=
  mkLink (l_id l) (l_state l) (teardown_reason l) (is_initiator l) (l_mode l) (offered_mode l) (offered_mtu l) (l_crypto l) (l_timing l) (l_keepalive l)
    (l_mtu l) (l_mdu l) (l_resources l) (pending_requests l) (l_rates l) (l_destination_hash l) (remote_identity_pub l) (identified l)
    (l_traffic l) x y (has_channel l) (l_callbacks l).
Definition set_has_channel (l : Link) (x : bool) : Link :=
  mkLink (l_id l) (l_state l) (teardown_reason l) (is_initiator l) (l_mode l) (offered_mode l) (offered_mtu l) (l_crypto l) (l_timing l) (l_keepalive l)
    (l_mtu l) (l_mdu l) (l_resources l) (pending_requests l) (l_rates l) (l_destination_hash l) (remote_identity_pub l) (identified l)
    (l_traffic l) (l_phy l) (l_track_phy_stats l) x (l_callbacks l).
Definition set_callbacks (l : Link) (x : LinkCallbacks) : Link :=
  mkLink (l_id l) (l_state l) (teardown_reason l) (is_initiator l) (l_mode l) (offered_mode l) (offered_mtu l) (l_crypto l) (l_timing l) (l_keepalive l)
    (l_mtu l) (l_mdu l) (l_resources l) (pending_requests l) (l_rates l) (l_destination_hash l) (remote_identity_pub l) (identified l)
    (l_traffic l) (l_phy l) (l_track_phy_stats l) (has_channel l) x.

(** ** Construction and the handshake *)

Definition role (l : Link) : LinkRole := if is_initiator l then Initiator else Responder.

Definition fresh_timing (now timeout : Z) : LinkTiming := mkTiming now None timeout None None.
Definition fresh_resources : LinkResources := mkResources AcceptNone [] [] [] 0.
Definition no_callbacks : LinkCallbacks := mkCallbacks None None None None None.

Definition new_initiator {E} (destination_hash : bytes) (hops : Z) (x_secret ed_secret : bytes) (now : Z) (jitter : f64) : res E (Link * bytes) :=
  let keys := eph_generate x_secret ed_secret in
  let signalling := sd_new DEFAULT_MODE (Z.of_nat MTU) in
  let* request_data := lr_pack keys signalling in
  let* link_id := compute_link_id destination_hash request_data in
  let timeout_secs := f_mul ESTABLISHMENT_TIMEOUT_PER_HOP (f_of_Z (Z.max hops 1)) in
  let* timeout := secs timeout_secs in
  let* keepalive := ka_new true jitter now in
  Ok (mkLink link_id Pending None true DEFAULT_MODE DEFAULT_MODE LinkMtu_BASE
        (mkCrypto (Some keys) None None None None) (fresh_timing now timeout) keepalive
        (Z.of_nat MTU) (Z.of_nat LINK_MDU) fresh_resources [] (mkRates (len request_data) None None (Some hops))
        destination_hash None false (mkTraffic 0 0 0 0) (mkPhy None None None) false false no_callbacks,
      request_data).

Definition try_extend_establishment_timeout (l : Link) (additional_secs : f64) : res TimeoutError Link :=
  let* additional := ok_or (try_from_secs_f64 additional_secs) mkTimeoutError in
  let* timeout := ok_or (dur_checked_add (establishment_timeout (l_timing l)) additional) mkTimeoutError in
  let* _ := ok_or (instant_add (request_time (l_timing l)) timeout) mkTimeoutError in
  let t := l_timing l in
  Ok (set_timing l (mkTiming (request_time t) (rtt t) timeout (activated_at t) (stale_since t))).
Definition extend_establishment_timeout (l : Link) (additional_secs : f64) : Link :=
  match try_extend_establishment_timeout l additional_secs with Ok l => l | _ => l end.

(** The checks and computations of [validate_proof], before it changes the
    link: the responder's key, the mode and MTU, the MDU, the session keys and
    the encrypted RTT. *)
Definition check_proof (l : Link) (proof_data : bytes) (key : verifying_key) (identity_pub : bytes) (now : Z) (iv : bytes)
    : res HandshakeError (bytes * LinkSignalling * Z * LinkKeys * bytes) :=
  if decide (l_state l ≠ Pending) then Err HInvalidSignature else
  let* checked := map_err HSignalling (parse_proof_signalling proof_data) in
  if negb (ls_mode checked =? offered_mode l) then Err HInvalidSignature else
  if decide (ls_mode checked ∉ ENABLED_MODES) then Err (HUnsupportedMode (ls_mode checked)) else
  if mtu_get (offered_mtu l) <? mtu_get (ls_mtu checked) then Err (HSignalling (InvalidMtu (mtu_get (ls_mtu checked)))) else
  let* mdu := map_err HSignalling (checked_mdu (ls_mtu checked)) in
  let* proof := lp_unpack proof_data in
  let* trailer := slice_from proof_data 96 in
  let signed := l_id l ++ responder_x25519_pub proof ++ identity_pub ++ trailer in
  if negb (ed_verify key signed (lp_signature proof)) then Err HInvalidSignature else
  let* ephemeral := ok_or (ephemeral_keys (l_crypto l)) HInvalidSignature in
  let* keys := map_err HKeyDerivation (perform_handshake (x25519_prv ephemeral) (responder_x25519_pub proof) (l_id l) (ls_mode checked)) in
  let rtt_bytes := mp_encode (MpF64 (f_bits (as_secs_f64 (since now (request_time (l_timing l)))))) in
  let* encrypted_rtt := map_err (λ _, HInvalidSignature) (link_encrypt keys rtt_bytes iv) in
  Ok (responder_x25519_pub proof, checked, mdu, keys, encrypted_rtt).

(** [usize::saturating_add] *)
Definition sat_add (a b : Z) : Z := Z.min (a + b) USIZE_MAX.

(** The rate of [cost] bytes in a round trip, when it is not zero. *)
Definition rate_of (cost rtt : Z) (old : option f64) : option f64 :=
  if f_gt (as_secs_f64 rtt) f_zero then Some (f_div (f_of_Z cost) (as_secs_f64 rtt)) else old.

Definition validate_proof (l : Link) (proof_data : bytes) (key : verifying_key) (identity_pub : bytes) (now : Z) (iv : bytes) (jitter : f64)
    : Link * res HandshakeError bytes :=
  match check_proof l proof_data key identity_pub now iv with
  | Err e => (l, Err e)
  | Panic => (l, Panic)
  | Ok (peer, checked, mdu, keys, encrypted_rtt) =>
      let t := l_timing l in
      let r := since now (request_time t) in
      let cost := sat_add (establishment_cost (l_rates l)) (len proof_data) in
      match update_from_rtt (mark_activated (l_keepalive l) now) r jitter with
      | Ok k =>
          let c := l_crypto l in
          let l := set_crypto l (mkCrypto (ephemeral_keys c) (Some peer) (Some identity_pub) (responder_identity_signing_key c) (Some keys)) in
          let l := set_mtu_mdu (set_mode l (ls_mode checked)) (mtu_get (ls_mtu checked)) mdu in
          let l := set_timing (set_state l Active) (mkTiming (request_time t) (Some r) (establishment_timeout t) (Some now) (stale_since t)) in
          let e := l_rates l in
          (set_rates (set_keepalive l k)
             (mkRates cost (rate_of cost r (establishment_rate e)) (expected_rate e) (expected_hops e)),
           Ok encrypted_rtt)
      | Err e => (l, Err e)
      | Panic => (l, Panic)
      end
  end.

Definition new_responder_inner (request_data identity_pub destination_hash : bytes) (hops : Z) (identity_signing_key : option bytes)
    (sign_fn : bytes → option bytes) (x_secret ed_secret : bytes) (now : Z) (jitter : f64) : res HandshakeError (Link * bytes) :=
  let* request := lr_unpack request_data in
  let* link_id := compute_link_id destination_hash request_data in
  let mode := sd_mode (lr_signalling request) in
  if decide (mode ∉ ENABLED_MODES) then Err (HUnsupportedMode mode) else
  let* offered := map_err HSignalling (try_from_signal (Some (sd_mtu (lr_signalling request)))) in
  let accepted_mtu := if mtu_get LinkMtu_BASE <? mtu_get offered then LinkMtu_BASE else offered in
  let* accepted_mdu := map_err HSignalling (checked_mdu accepted_mtu) in
  let responder_keys := eph_generate x_secret ed_secret in
  let* keys := map_err HKeyDerivation (perform_handshake (x25519_prv responder_keys) (peer_x25519 request) link_id mode) in
  let* signalling := map_err HSignalling (sd_try_new mode (mtu_get accepted_mtu)) in
  let* sig_bytes := sd_pack signalling in
  let signed_data := link_id ++ x25519_pub responder_keys ++ identity_pub ++ sig_bytes in
  let* signature := ok_or (sign_fn signed_data) HInvalidSignature in
  let* proof_data := lp_pack (mkLP signature (x25519_pub responder_keys) signalling) in
  let timeout_secs := f_add (f_mul ESTABLISHMENT_TIMEOUT_PER_HOP (f_of_Z (Z.max hops 1))) KEEPALIVE_DEFAULT in
  let* timeout := secs timeout_secs in
  let* keepalive := ka_new false jitter now in
  Ok (mkLink link_id Handshake None false mode mode accepted_mtu
        (mkCrypto (Some responder_keys) (Some (peer_x25519 request)) (Some (peer_ed25519 request)) identity_signing_key (Some keys))
        (fresh_timing now timeout) keepalive (mtu_get accepted_mtu) accepted_mdu fresh_resources []
        (mkRates (len request_data + len proof_data) None None None)
        destination_hash None false (mkTraffic 0 0 0 0) (mkPhy None None None) false false no_callbacks,
      proof_data).

Definition new_responder (request_data identity_signing_key destination_hash : bytes) (hops : Z) (x_secret ed_secret : bytes) (now : Z) (jitter : f64)
    : res HandshakeError (Link * bytes) :=
  let identity_pub := vk_bytes (ed_public identity_signing_key) in
  new_responder_inner request_data identity_pub destination_hash hops (Some identity_signing_key)
    (λ signed_data, Some (ed_sign identity_signing_key signed_data)) x_secret ed_secret now jitter.

Definition new_responder_with (request_data identity_pub destination_hash : bytes) (hops : Z) (sign_fn : bytes → option bytes)
    (x_secret ed_secret : bytes) (now : Z) (jitter : f64) : res HandshakeError (Link * bytes) :=
  new_responder_inner request_data identity_pub destination_hash hops None sign_fn x_secret ed_secret now jitter.

Definition l_encrypt (l : Link) (plaintext iv : bytes) : res LinkCryptoError bytes :=
  let* keys := ok_or (l_session_keys (l_crypto l)) LinkEncryptionFailed in
  link_encrypt keys plaintext iv.
Definition l_decrypt (l : Link) (ciphertext : bytes) : res LinkCryptoError bytes :=
  let* keys := ok_or (l_session_keys (l_crypto l)) LinkDecryptionFailed in
  link_decrypt keys ciphertext.

(** The round trip a responder adopts from the peer's measurement, if the
    message carries one, and its own. *)
Definition adopted_rtt (plaintext : bytes) (local_rtt : Z) : option Z :=
  match mp_read plaintext ≫= as_f64 with
  | Some peer => Some (match peer_reported_rtt peer with Some p => Z.max p local_rtt | None => local_rtt end)
  | None => None
  end.

Definition receive_rtt_packet (l : Link) (encrypted_data : bytes) (now : Z) (jitter : f64) : Link * res HandshakeError unit :=
  if decide (l_state l ≠ Handshake) then (l, Err HInvalidSignature) else
  match map_err HSignalling (let* m := try_from_signal (Some (l_mtu l)) in checked_mdu m) with
  | Err e => (l, Err e)
  | Panic => (l, Panic)
  | Ok mdu =>
      let e := l_rates l in
      let cost := add64 (establishment_cost e) (len encrypted_data) in
      let l := set_rates l (mkRates cost (establishment_rate e) (expected_rate e) (expected_hops e)) in
      match l_decrypt l encrypted_data with
      | Err _ => (l, Err HInvalidSignature)
      | Panic => (l, Panic)
      | Ok plaintext =>
          let t := l_timing l in
          let new := adopted_rtt plaintext (since now (request_time t)) in
          let r := match new with Some r => Some r | None => rtt t end in
          match (match new with Some r => update_from_rtt (l_keepalive l) r jitter | None => Ok (l_keepalive l) end) with
          | Err e => (l, Err e)
          | Panic => (l, Panic)
          | Ok k =>
              let l := set_timing (set_state l Active) (mkTiming (request_time t) r (establishment_timeout t) (Some now) (stale_since t)) in
              let l := set_mtu_mdu (set_keepalive l (mark_activated k now)) (l_mtu l) mdu in
              let rate := match r with
                          | Some r => if 0 <? cost then rate_of cost r (establishment_rate e) else establishment_rate e
                          | None => establishment_rate e
                          end in
              (set_rates l (mkRates cost rate (expected_rate e) (expected_hops e)), Ok tt)
          end
      end
  end.

(** ** Identification *)

Definition identify_with_fallible (l : Link) (identity_pub_key : bytes) (sign_fn : bytes → option bytes) (iv : bytes) : res LinkCryptoError bytes :=
  if negb (is_initiator l) || bool_decide (l_state l ≠ Active) then Err LinkEncryptionFailed else
  let signed_data := l_id l ++ identity_pub_key in
  let* signature := ok_or (sign_fn signed_data) LinkEncryptionFailed in
  l_encrypt l (identity_pub_key ++ signature) iv.
Definition identify_with (l : Link) (identity_pub_key : bytes) (sign_fn : bytes → bytes) (iv : bytes) : res LinkCryptoError bytes :=
  identify_with_fallible l identity_pub_key (λ message, Some (sign_fn message)) iv.
Definition identify (l : Link) (identity_pub_key identity_signing_key iv : bytes) : res LinkCryptoError bytes :=
  identify_with_fallible l identity_pub_key (λ message, Some (ed_sign identity_signing_key message)) iv.

(** The identity a LINKIDENTIFY payload proves. *)
Definition verified_identity (l : Link) (plaintext : bytes) : res LinkCryptoError bytes :=
  if negb (Nat.eqb (length plaintext) 128) then Err LinkDecryptionFailed else
  let* a := slice_to plaintext 64 in let* public_key := copy_array 64 a in
  let* b := slice plaintext 64 128 in let* signature := copy_array 64 b in
  let signed_data := l_id l ++ public_key in
  let* c := slice public_key 32 64 in let* ed25519_pub_bytes := copy_array 32 c in
  let* verify_key := ok_or (public_key_from_bytes ed25519_pub_bytes) LinkDecryptionFailed in
  if ed_verify verify_key signed_data signature then Ok public_key else Err LinkDecryptionFailed.

Definition identifies_in (s : LinkState) : bool := match s with Handshake | Active | Stale => true | _ => false end.

Definition handle_identification (l : Link) (encrypted_data : bytes) : Link * res LinkCryptoError bytes :=
  if bool_decide (role l ≠ Responder) || negb (identifies_in (l_state l)) then (l, Err LinkDecryptionFailed) else
  match (let* plaintext := l_decrypt l encrypted_data in verified_identity l plaintext) with
  | Err e => (l, Err e)
  | Panic => (l, Panic)
  | Ok public_key =>
      match remote_identity_pub l with
      | Some existing => (l, Ok existing)
      | None => (set_identity l (Some public_key) true, Ok public_key)
      end
  end.
Definition remote_identity (l : Link) : option bytes := remote_identity_pub l.

(** ** Requests and responses *)

Definition msgpack_value_from_bytes_or_binary (data : bytes) : mp_value :=
  match mp_decode data with
  | Some (value, []) => value
  | _ => MpBin data
  end.
Definition msgpack_value_to_bytes (value : mp_value) : bytes :=
  match as_slice value with
  | Some b => b
  | None => match as_str value with Some text => string_bytes text | None => mp_encode value end
  end.

Definition receipt_for (request_id : bytes) (r : RequestReceipt) : bool := bool_decide (take 16 (rq_request_id r) = request_id).
Definition other_than (request_id : bytes) (l : list RequestReceipt) : list RequestReceipt := filter (λ r, receipt_for request_id r = false) l.

Definition prepare_request_value (l : Link) (path : string) (data_value : mp_value) (timeout : Z) (timestamp : f64) (now : Z)
    : Link * res LinkCryptoError (bytes * bytes) :=
  if decide (l_state l ≠ Active) then (l, Err LinkEncryptionFailed) else
  match truncated_hash (string_bytes path) with
  | Err e => (l, Err e)
  | Panic => (l, Panic)
  | Ok path_hash =>
      let packed := mp_encode (MpArray [MpF64 (f_bits timestamp); MpBin path_hash; data_value]) in
      match truncated_hash packed with
      | Err e => (l, Err e)
      | Panic => (l, Panic)
      | Ok request_id =>
          let receipt := rq_new (request_id ++ replicate 16 0) (l_id l) timeout now in
          (set_pending l (pending_requests l ++ [receipt]), Ok (packed, request_id))
      end
  end.

Definition prepare_request (l : Link) (path : string) (data : option bytes) (timeout : Z) (timestamp : f64) (now : Z)
    : Link * res LinkCryptoError (bytes * bytes) :=
  let data_value := match data with Some d => msgpack_value_from_bytes_or_binary d | None => MpNil end in
  prepare_request_value l path data_value timeout timestamp now.

Definition discard_pending_request (l : Link) (request_id : bytes) : Link := set_pending l (other_than request_id (pending_requests l)).

(** The encryption of a prepared request; a failure withdraws the receipt. *)
Definition seal_request (p : Link * res LinkCryptoError (bytes * bytes)) (iv : bytes) : Link * res LinkCryptoError (bytes * bytes) :=
  let '(l, r) := p in
  match r with
  | Ok (packed, request_id) =>
      match l_encrypt l packed iv with
      | Ok encrypted => (l, Ok (encrypted, request_id))
      | Err e => (discard_pending_request l request_id, Err e)
      | Panic => (l, Panic)
      end
  | Err e => (l, Err e)
  | Panic => (l, Panic)
  end.

Definition request (l : Link) (path : string) (data : option bytes) (timeout : Z) (timestamp : f64) (now : Z) (iv : bytes) :=
  seal_request (prepare_request l path data timeout timestamp now) iv.
Definition request_str (l : Link) (path data : string) (timeout : Z) (timestamp : f64) (now : Z) (iv : bytes) :=
  seal_request (prepare_request_value l path (MpStr data) timeout timestamp now) iv.

Definition has_receipt (l : Link) (request_id : bytes) : bool := existsb (receipt_for request_id) (pending_requests l).

(** [find] the receipt and update it; [false] when there is none. *)
Definition on_receipt (l : Link) (request_id : bytes) (f : RequestReceipt → RequestReceipt) : Link * bool :=
  if has_receipt l request_id then (set_pending l (update_first (receipt_for request_id) f (pending_requests l)), true) else (l, false).

Definition mark_request_resource_sending (l : Link) (request_id : bytes) : Link * bool := on_receipt l request_id mark_resource_sending.
Definition mark_request_resource_sent (l : Link) (request_id : bytes) (now : Z) : Link * bool :=
  on_receipt l request_id (λ r, mark_resource_sent r now).
Definition update_pending_request_id (l : Link) (old_request_id new_request_id : bytes) : Link * bool :=
  on_receipt l old_request_id (λ r, with_rq_id r (new_request_id ++ replicate 16 0)).

(** Conclude the first receipt found, then drop every receipt of the id. *)
Definition conclude_receipt (l : Link) (request_id : bytes) (f : RequestReceipt → RequestReceipt * rq_fired) : Link * rq_fired * bool :=
  match find (receipt_for request_id) (pending_requests l) with
  | None => (l, [], false)
  | Some r => (set_pending l (other_than request_id (pending_requests l)), (f r).2, true)
  end.
Definition fail_pending_request (l : Link) (request_id : bytes) : Link * rq_fired * bool := conclude_receipt l request_id rq_fail.
Definition deliver_response_data (l : Link) (request_id response_data : bytes) (now : Z) : Link * rq_fired * bool :=
  conclude_receipt l request_id (λ r, receive_response r response_data now).

Definition parse_request (plaintext : bytes) : res LinkCryptoError (bytes * bytes * f64 * bytes) :=
  let* request_id := truncated_hash plaintext in
  let* value := ok_or (mp_read plaintext) LinkDecryptionFailed in
  let* array := ok_or (as_array value) LinkDecryptionFailed in
  match array with
  | a0 :: a1 :: a2 :: _ =>
      let* timestamp := ok_or (as_f64 a0) LinkDecryptionFailed in
      let* path_hash_bytes := ok_or (as_slice a1) LinkDecryptionFailed in
      if negb (Nat.eqb (length path_hash_bytes) 16) then Err LinkDecryptionFailed else
      let* path_hash := copy_array 16 path_hash_bytes in
      Ok (request_id, path_hash, timestamp, msgpack_value_to_bytes a2)
  | _ => Err LinkDecryptionFailed
  end.
Definition handle_request (l : Link) (encrypted_data : bytes) : res LinkCryptoError (bytes * bytes * f64 * bytes) :=
  let* plaintext := l_decrypt l encrypted_data in
  parse_request plaintext.

Definition pack_response (request_id response_data : bytes) : bytes :=
  mp_encode (MpArray [MpBin request_id; msgpack_value_from_bytes_or_binary response_data]).
Definition create_response (l : Link) (request_id response_data iv : bytes) : res LinkCryptoError bytes :=
  l_encrypt l (pack_response request_id response_data) iv.

Definition parse_response_plaintext (plaintext : bytes) : res LinkCryptoError (bytes * bytes) :=
  let* value := ok_or (mp_read plaintext) LinkDecryptionFailed in
  let* array := ok_or (as_array value) LinkDecryptionFailed in
  match array with
  | a0 :: a1 :: _ =>
      let* id_bytes := ok_or (as_slice a0) LinkDecryptionFailed in
      if negb (Nat.eqb (length id_bytes) 16) then Err LinkDecryptionFailed else
      let* request_id := copy_array 16 id_bytes in
      Ok (request_id, msgpack_value_to_bytes a1)
  | _ => Err LinkDecryptionFailed
  end.
Definition handle_response_plaintext (l : Link) (plaintext : bytes) (now : Z) : Link * rq_fired * res LinkCryptoError (bytes * bytes) :=
  match parse_response_plaintext plaintext with
  | Ok (request_id, response_data) =>
      let '(l, fired, _) := deliver_response_data l request_id response_data now in (l, fired, Ok (request_id, response_data))
  | Err e => (l, [], Err e)
  | Panic => (l, [], Panic)
  end.
Definition handle_response (l : Link) (encrypted_data : bytes) (now : Z) : Link * rq_fired * res LinkCryptoError (bytes * bytes) :=
  match l_decrypt l encrypted_data with
  | Ok plaintext => handle_response_plaintext l plaintext now
  | Err e => (l, [], Err e)
  | Panic => (l, [], Panic)
  end.

(** ** RTT updates *)

Definition update_rtt_from_packet (l : Link) (encrypted_data : bytes) (jitter : f64) : Link * res LinkCryptoError Z :=
  match (let* plaintext := l_decrypt l encrypted_data in
         let* value := ok_or (mp_read plaintext) LinkDecryptionFailed in
         let* peer_rtt := ok_or (as_f64 value) LinkDecryptionFailed in
         match peer_reported_rtt peer_rtt, rtt (l_timing l) with
         | Some peer, Some existing => Ok (Z.max peer existing)
         | Some r, None | None, Some r => Ok r
         | None, None => Err LinkDecryptionFailed
         end) with
  | Err e => (l, Err e)
  | Panic => (l, Panic)
  | Ok r =>
      let t := l_timing l in
      let l := set_timing l (mkTiming (request_time t) (Some r) (establishment_timeout t) (activated_at t) (stale_since t)) in
      match update_from_rtt (l_keepalive l) r jitter with
      | Ok k => (set_keepalive l k, Ok r)
      | Err e => (l, Err e)
      | Panic => (l, Panic)
      end
  end.

Definition rtt_secs (l : Link) : f64 := match rtt (l_timing l) with Some r => as_secs_f64 r | None => f_zero end.
Definition create_rtt_packet (l : Link) (iv : bytes) : res LinkCryptoError bytes := l_encrypt l (mp_encode (MpF64 (f_bits (rtt_secs l)))) iv.

(** ** Packet proofs *)

Definition ensure_packet_proof_state (l : Link) : res PacketProofError unit :=
  let allowed := bool_decide (l_state l = Active) || bool_decide (l_state l = Stale)
                 || (bool_decide (role l = Responder) && bool_decide (l_state l = Handshake)) in
  if allowed then Ok tt else Err (InvalidState (l_state l)).

Definition encode_packet_proof (l : Link) (packet_hash : bytes) (signature : option bytes) : res PacketProofError bytes :=
  let* _ := ensure_packet_proof_state l in
  let* signature := ok_or signature SignerUnavailable in
  Ok (packet_hash ++ signature).

Definition prove_packet_with_local_signer (l : Link) (packet_hash : bytes) : res PacketProofError bytes :=
  let* _ := ensure_packet_proof_state l in
  let signature :=
    match role l with
    | Initiator => (λ keys, ed_sign (ed25519_prv keys) packet_hash) <$> ephemeral_keys (l_crypto l)
    | Responder => (λ key, ed_sign key packet_hash) <$> responder_identity_signing_key (l_crypto l)
    end in
  encode_packet_proof l packet_hash signature.

Definition prove_responder_packet_with (l : Link) (packet_hash : bytes) (sign_fn : bytes → option bytes) : res PacketProofError bytes :=
  if decide (role l ≠ Responder) then Err WrongRole else
  let* _ := ensure_packet_proof_state l in
  encode_packet_proof l packet_hash (sign_fn packet_hash).

Definition validate_peer_packet_proof (l : Link) (packet_hash proof_data : bytes) : res PacketProofError unit :=
  if negb (Nat.eqb (length proof_data) 96) then Err MalformedProof else
  let* front := slice_to proof_data 32 in
  if decide (front ≠ packet_hash) then Err HashMismatch else
  let* tail := slice_from proof_data 32 in
  let* signature := copy_array 64 tail in
  let* peer_key := ok_or (peer_packet_proof_key (l_crypto l)) PeerKeyUnavailable in
  let* verify_key := ok_or (public_key_from_bytes peer_key) PeerKeyUnavailable in
  if ed_verify verify_key packet_hash signature then Ok tt else Err ProofInvalidSignature.

Definition prove_packet (l : Link) (packet_hash identity_signing_key : bytes) : res LinkCryptoError bytes :=
  map_err (λ _, LinkEncryptionFailed) (prove_responder_packet_with l packet_hash (λ hash, Some (ed_sign identity_signing_key hash))).
Definition prove_packet_with_link_key (l : Link) (packet_hash : bytes) : res LinkCryptoError bytes :=
  map_err (λ _, LinkEncryptionFailed) (prove_packet_with_local_signer l packet_hash).
Definition prove_packet_with (l : Link) (packet_hash : bytes) (sign_fn : bytes → bytes) : res LinkCryptoError bytes :=
  map_err (λ _, LinkEncryptionFailed) (prove_responder_packet_with l packet_hash (λ hash, Some (sign_fn hash))).
Definition prove_packet_with_fallible (l : Link) (packet_hash : bytes) (sign_fn : bytes → option bytes) : res LinkCryptoError bytes :=
  map_err (λ _, LinkEncryptionFailed) (prove_responder_packet_with l packet_hash sign_fn).
Definition validate_packet_proof (l : Link) (packet_hash proof_data : bytes) : bool :=
  match validate_peer_packet_proof l packet_hash proof_data with Ok _ => true | _ => false end.

Definition l_sign (l : Link) (message : bytes) : option bytes := (λ key, ed_sign key message) <$> responder_identity_signing_key (l_crypto l).
Definition l_validate (l : Link) (signature message : bytes) : bool :=
  match peer_packet_proof_key (l_crypto l) with
  | Some peer_pub_bytes =>
      if negb (Nat.eqb (length signature) 64) then false else
      match public_key_from_bytes peer_pub_bytes with Some pub_key => ed_verify pub_key message signature | None => false end
  | None => false
  end.

(** ** Resources, traffic and physical-layer statistics *)

Definition mark_channel_created (l : Link) : Link := set_has_channel l true.

Definition set_resource_strategy (l : Link) (strategy : ResourceStrategy) : Link :=
  let r := l_resources l in
  set_resources l (mkResources strategy (incoming_resources r) (outgoing_resources r) (outgoing_resource_states r) (incoming_resource_count r)).
Definition should_accept_resource (l : Link) : ResourceAcceptance :=
  match resource_strategy (l_resources l) with AcceptNone => RaReject | AcceptAll => RaAccept | AcceptApp => RaAskApp end.
Definition with_tracked (l : Link) (inc out : list bytes) : Link :=
  let r := l_resources l in
  set_resources l (mkResources (resource_strategy r) inc out (outgoing_resource_states r) (incoming_resource_count r)).
Definition track_incoming_resource (l : Link) (h : bytes) : Link :=
  with_tracked l (incoming_resources (l_resources l) ++ [h]) (outgoing_resources (l_resources l)).
Definition track_outgoing_resource (l : Link) (h : bytes) : Link :=
  with_tracked l (incoming_resources (l_resources l)) (outgoing_resources (l_resources l) ++ [h]).
Definition untrack_resource (l : Link) (h : bytes) : Link :=
  with_tracked l (filter (λ x, x ≠ h) (incoming_resources (l_resources l))) (filter (λ x, x ≠ h) (outgoing_resources (l_resources l))).

Definition count_tx (l : Link) (n : Z) : Link :=
  let t := l_traffic l in set_traffic l (mkTraffic (add64 (tx_bytes t) n) (rx_bytes t) (add64 (tx_count t) 1) (rx_count t)).
Definition record_tx (l : Link) (n now : Z) : Link := set_keepalive (count_tx l n) (ka_record_outbound (l_keepalive l) now).
Definition record_tx_keepalive (l : Link) (n now : Z) : Link := set_keepalive (count_tx l n) (record_keepalive_outbound (l_keepalive l) now).
Definition should_respond_to_keepalive (l : Link) (now : Z) : bool := should_respond_to_keepalive_at (l_keepalive l) now.
Definition record_rx (l : Link) (n : Z) : Link :=
  let t := l_traffic l in set_traffic l (mkTraffic (tx_bytes t) (add64 (rx_bytes t) n) (tx_count t) (add64 (rx_count t) 1)).
Definition traffic_stats (l : Link) : Z * Z * Z * Z :=
  let t := l_traffic l in (tx_bytes t, rx_bytes t, tx_count t, rx_count t).

Definition track_phy_stats (l : Link) (track : bool) : Link := set_phy l (l_phy l) track.
Definition phy_stats_tracking_enabled (l : Link) : bool := l_track_phy_stats l.
Definition update_phy_stats_force (l : Link) (r s x : option f64) : Link :=
  let or (a b : option f64) := match a with Some v => Some v | None => b end in
  set_phy l (mkPhy (or r (rssi (l_phy l))) (or s (snr (l_phy l))) (or x (q (l_phy l)))) (l_track_phy_stats l).
Definition update_phy_stats (l : Link) (r s x : option f64) : Link :=
  if negb (l_track_phy_stats l) then l else update_phy_stats_force l r s x.
Definition phy_stats_snapshot (l : Link) : LinkPhyStats := if l_track_phy_stats l then l_phy l else mkPhy None None None.
Definition phy_stats (l : Link) : option f64 * option f64 * option f64 :=
  let s := phy_stats_snapshot l in (rssi s, snr s, q s).
Definition get_rssi (l : Link) : option f64 := if l_track_phy_stats l then rssi (l_phy l) else None.
Definition get_snr (l : Link) : option f64 := if l_track_phy_stats l then snr (l_phy l) else None.
Definition get_q (l : Link) : option f64 := if l_track_phy_stats l then q (l_phy l) else None.

Definition get_session_keys (l : Link) : option LinkKeys := l_session_keys (l_crypto l).
Definition packet_proof_timeout (l : Link) : Z :=
  Z.max (dur_mul (default (500 * 1000000) (rtt (l_timing l))) (f_to_usize TRAFFIC_TIMEOUT_FACTOR)) (5 * 1000000).

(** ** Closing and the clock *)

Definition purge_keys (l : Link) : Link := set_crypto l (mkCrypto None None None None None).
Definition close (l : Link) (reason : CloseReason) : Link * rq_fired :=
  let fired := concat ((λ r, (rq_fail r).2) <$> pending_requests l) in
  (purge_keys (set_state (set_pending (set_reason l (Some reason)) []) Closed), fired).
Definition mark_closed (l : Link) (reason : CloseReason) : Link * rq_fired :=
  if decide (l_state l ≠ Closed) then close l reason else (l, []).

Definition teardown (l : Link) (reason : CloseReason) (iv : bytes) : Link * rq_fired * option bytes :=
  if decide (l_state l = Closed) then (l, [], None) else
  let teardown_data := match l_encrypt l (l_id l) iv with Ok d => Some d | _ => None end in
  let '(l, fired) := close l reason in (l, fired, teardown_data).

Definition receive_teardown (l : Link) (encrypted_data : bytes) : Link * rq_fired * bool :=
  match l_decrypt l encrypted_data with
  | Ok plaintext =>
      if Nat.leb 16 (length plaintext) && bool_decide (take 16 plaintext = l_id l) then
        let '(l, fired) := close l CrDestinationClosed in (l, fired, true)
      else (l, [], false)
  | _ => (l, [], false)
  end.

(** The time-outs of the pending requests. *)
Definition tick_receipts (l : Link) (now : Z) : Link * rq_fired :=
  let checked := (λ r, rq_check_timeout r now) <$> pending_requests l in
  (set_pending l (filter (λ r, concluded r = false) ((λ c, c.1.1) <$> checked)), concat ((λ c, c.1.2) <$> checked)).

Definition enter_stale (l : Link) (now : Z) : Link :=
  let t := l_timing l in
  set_timing (set_state l Stale) (mkTiming (request_time t) (rtt t) (establishment_timeout t) (activated_at t) (Some now)).

Definition tick_at (l : Link) (now : Z) (iv : bytes) : Link * rq_fired * LinkAction :=
  let '(l, fired) := tick_receipts l now in
  match l_state l with
  | Pending | Handshake =>
      if establishment_timeout (l_timing l) <? since now (request_time (l_timing l)) then
        let '(l, f) := close l CrTimeout in (l, fired ++ f, ActClosed CrTimeout)
      else (l, fired, ActNone)
  | Active =>
      if should_send_keepalive_at (l_keepalive l) now then
        (set_keepalive l (mark_keepalive_sent_at (l_keepalive l) now), fired, SendKeepalive)
      else if is_stale_at (l_keepalive l) now then (enter_stale l now, fired, TransitionedToStale)
      else (l, fired, ActNone)
  | Stale =>
      let grace := stale_grace_timeout (default (from_secs 1) (rtt (l_timing l))) in
      match stale_since (l_timing l) with
      | Some s =>
          if grace <=? since now s then
            let teardown_data := match l_encrypt l (l_id l) iv with Ok d => d | _ => [] end in
            let '(l, f) := close l CrTimeout in (l, fired ++ f, SendTeardownAndClose teardown_data)
          else (l, fired, ActNone)
      | None => (l, fired, ActNone)
      end
  | Closed => (l, fired, ActNone)
  end.

Definition record_inbound (l : Link) (now : Z) : Link :=
  let l := set_keepalive l (ka_record_inbound (l_keepalive l) now) in
  if decide (l_state l = Stale) then
    let t := l_timing l in
    set_timing (set_state l Active) (mkTiming (request_time t) (rtt t) (establishment_timeout t) (activated_at t) None)
  else l.

Definition set_signing_key (l : Link) (key : bytes) : Link :=
  if decide (role l = Responder) then
    let c := l_crypto l in
    set_crypto l (mkCrypto (ephemeral_keys c) (peer_x25519_pub c) (peer_packet_proof_key c) (Some key) (l_session_keys c))
  else l.

(** ** Callbacks and queries *)

Definition set_packet_callback (l : Link) (cb : nat) : Link :=
  let c := l_callbacks l in
  set_callbacks l (mkCallbacks (Some cb) (resource_callback c) (remote_identified_callback c) (link_established_callback c) (link_closed_callback c)).
Definition set_resource_callback (l : Link) (cb : nat) : Link :=
  let c := l_callbacks l in
  set_callbacks l (mkCallbacks (packet_callback c) (Some cb) (remote_identified_callback c) (link_established_callback c) (link_closed_callback c)).
Definition set_remote_identified_callback (l : Link) (cb : nat) : Link :=
  let c := l_callbacks l in
  set_callbacks l (mkCallbacks (packet_callback c) (resource_callback c) (Some cb) (link_established_callback c) (link_closed_callback c)).
Definition set_link_established_callback (l : Link) (cb : nat) : Link :=
  let c := l_callbacks l in
  set_callbacks l (mkCallbacks (packet_callback c) (resource_callback c) (remote_identified_callback c) (Some cb) (link_closed_callback c)).
Definition set_link_closed_callback (l : Link) (cb : nat) : Link :=
  let c := l_callbacks l in
  set_callbacks l (mkCallbacks (packet_callback c) (resource_callback c) (remote_identified_callback c) (link_established_callback c) (Some cb)).

Definition is_active (l : Link) : bool := bool_decide (l_state l = Active).
Definition has_keys (l : Link) : bool := bool_decide (is_Some (l_session_keys (l_crypto l))).
Definition no_data_for (l : Link) (now : Z) : Z := since now (last_data (l_keepalive l)).
Definition no_outbound_for (l : Link) (now : Z) : Z :=
  match last_outbound (l_keepalive l) with Some t => since now t | None => DURATION_LIMIT end.
Definition no_inbound_for (l : Link) (now : Z) : Z := since now (last_inbound (l_keepalive l)).
Definition inactive_for (l : Link) (now : Z) : Z :=
  let inbound := last_inbound (l_keepalive l) in
  let outbound := default inbound (last_outbound (l_keepalive l)) in
  since now (if inbound <? outbound then outbound else inbound).

Definition add_establishment_cost (l : Link) (n : Z) : Link :=
  let e := l_rates l in
  set_rates l (mkRates (add64 (establishment_cost e) n) (establishment_rate e) (expected_rate e) (expected_hops e)).
Definition get_establishment_rate (l : Link) : option f64 := (λ rate, f_mul rate (f_of_Z 8)) <$> establishment_rate (l_rates l).
Definition get_mtu (l : Link) : option Z := if decide (l_state l = Active) then Some (l_mtu l) else None.
Definition get_mdu (l : Link) : option Z := if decide (l_state l = Active) then Some (l_mdu l) else None.
Definition get_mode (l : Link) : Z := l_mode l.
Definition age (l : Link) (now : Z) : option Z := (λ a, since now a) <$> activated_at (l_timing l).
Definition get_age (l : Link) (now : Z) : option f64 := as_secs_f64 <$> age l now.
Definition get_expected_rate (l : Link) : option f64 := if decide (l_state l = Active) then expected_rate (l_rates l) else None.

(** ** Resource accounting *)

Definition settled (s : OutboundResourceState) : bool := match s with OrAwaitingProof | OrComplete | OrFailed => true | OrTransferring => false end.
(** [position] of the first settled transfer, and [remove]. *)
Fixpoint remove_settled (l : list OutboundResourceState) : list OutboundResourceState :=
  match l with
  | [] => []
  | s :: l => if settled s then l else s :: remove_settled l
  end.
Definition with_outgoing (l : Link) (states : list OutboundResourceState) (count : Z) : Link :=
  let r := l_resources l in
  set_resources l (mkResources (resource_strategy r) (incoming_resources r) (outgoing_resources r) states count).

Definition resource_concluded (l : Link) (resource_size : Z) (transfer_duration_secs : f64) (is_incoming : bool) : Link :=
  let duration := f_max transfer_duration_secs (f_lit 1 10000) in
  let e := l_rates l in
  let l := set_rates l (mkRates (establishment_cost e) (establishment_rate e)
             (Some (f_div (f_mul (f_of_Z resource_size) (f_of_Z 8)) duration)) (expected_hops e)) in
  let r := l_resources l in
  if is_incoming then with_outgoing l (outgoing_resource_states r)
                        (if 0 <? incoming_resource_count r then incoming_resource_count r - 1 else incoming_resource_count r)
  else with_outgoing l (remove_settled (outgoing_resource_states r)) (incoming_resource_count r).
Definition register_outgoing_resource (l : Link) : Link :=
  let r := l_resources l in with_outgoing l (outgoing_resource_states r ++ [OrTransferring]) (incoming_resource_count r).
Definition register_incoming_resource (l : Link) : Link :=
  let r := l_resources l in with_outgoing l (outgoing_resource_states r) (add64 (incoming_resource_count r) 1).
Definition update_outgoing_resource_state (l : Link) (index : nat) (s : OutboundResourceState) : Link :=
  let r := l_resources l in
  if decide (index < length (outgoing_resource_states r))%nat
  then with_outgoing l (<[index := s]> (outgoing_resource_states r)) (incoming_resource_count r) else l.
Definition ready_for_new_resource (l : Link) : bool :=
  match outgoing_resource_states (l_resources l) with [] => true | s => forallb settled s end.

Definition classify_request (l : Link) (packed_request : bytes) : RequestSendMode :=
  if len packed_request <=? l_mdu l then SendPacket packed_request else SendResource packed_request.
Definition default_request_timeout {E} (l : Link) : res E Z :=
  let* grace := secs (f_mul RESPONSE_MAX_GRACE_TIME (f_lit 9 8)) in
  Ok (dur_add (dur_mul (default (from_secs 1) (rtt (l_timing l))) (f_to_usize TRAFFIC_TIMEOUT_FACTOR)) grace).
End link.
