(* ===== verification/LinkSession.v ===== *)
(** * Links end to end

    Theorems on [rns-link/src/link.rs]: establishment between two endpoints,
    authentication, the life cycle over every operation, requests and
    responses, packet proofs, and teardown. *)

From S2P Require Import Prelude Wire Packet LinkSignalling Receipt Token Ifac F64 Channel LinkChannel Identity Msgpack.
From S2P Require Import Keepalive LinkRequest Handshake Link.
From stdpp Require Import prelude list strings.
From Stdlib Require Import SpecFloat.

Open Scope Z_scope.

(** ** Timers *)

(** Both establishment timeouts are in range for every hop count. *)
Lemma establishment_secs {E} hops : u8 hops →
  secs (f_mul ESTABLISHMENT_TIMEOUT_PER_HOP (f_of_Z (Z.max hops 1))) = @Ok E _ (from_secs (6 * Z.max hops 1)) ∧
  secs (f_add (f_mul ESTABLISHMENT_TIMEOUT_PER_HOP (f_of_Z (Z.max hops 1))) KEEPALIVE_DEFAULT) = @Ok E _ (from_secs (6 * Z.max hops 1 + 360)).
Proof.
  intros Hh.
  assert (Hall : forallb (λ n, bool_decide
     (try_from_secs_f64 (f_mul ESTABLISHMENT_TIMEOUT_PER_HOP (f_of_Z (Z.max (Z.of_nat n) 1))) = Some (from_secs (6 * Z.max (Z.of_nat n) 1)) ∧
      try_from_secs_f64 (f_add (f_mul ESTABLISHMENT_TIMEOUT_PER_HOP (f_of_Z (Z.max (Z.of_nat n) 1))) KEEPALIVE_DEFAULT)
        = Some (from_secs (6 * Z.max (Z.of_nat n) 1 + 360)))) (seq 0 256) = true) by (vm_compute; reflexivity).
  rewrite forallb_forall in Hall. specialize (Hall (Z.to_nat hops)). unfold u8 in Hh. rewrite Z2Nat.id in Hall by lia.
  rewrite bool_decide_eq_true in Hall. destruct Hall as [H1 H2]; [apply in_seq; lia|]. unfold secs. by rewrite H1, H2.
Qed.

Lemma since_nonneg a b : 0 ≤ since a b.
Proof. unfold since. lia. Qed.
#[export] Hint Resolve since_nonneg : rns.

Section session.
Context `{DL : DigestLaws} `{ED : Ed25519} `{K : !Ed25519Keys} `{S : Ed25519Signer} `{KL : !Ed25519KeysLaws K S} `{SL : !Ed25519SignerLaws S}
  `{CL : Curve25519Laws} `{HK : HkdfLaws} `{AL : AesCbcLaws} `{HM : HmacLaws} `{ML : MsgpackLaws}.

(** ** Encryption *)

Lemma crypt_roundtrip a b k data iv : l_session_keys (l_crypto a) = Some k → l_session_keys (l_crypto b) = Some k → keys_ok k →
  length iv = 16%nat → bytes_ok data → ∃ ct, l_encrypt a data iv = Ok ct ∧ l_decrypt b ct = Ok data.
Proof.
  intros Ha Hb Hk Hiv Hd. destruct (link_roundtrip k data iv Hk Hiv Hd) as (ct & He & Hd'). exists ct.
  unfold l_encrypt, l_decrypt. rewrite Ha, Hb. by cbn [ok_or res_bind].
Qed.

(** Both ends of a handshake derive the same usable keys. *)
Lemma handshake_keys a b id : ∃ k, perform_handshake a (x_pub b) id DEFAULT_MODE = Ok k ∧
  perform_handshake b (x_pub a) id DEFAULT_MODE = Ok k ∧ keys_ok k.
Proof.
  unfold perform_handshake. destruct (derive_agree (X:=link_x25519) (LX:=link_x25519_laws) a b id DEFAULT_MODE) as [He Hk].
  change (@x_public_of link_x25519) with (@x_pub _) in *. rewrite <- He.
  destruct (derive (H:=link_x25519) a (x_pub b) id DEFAULT_MODE) as [k|e|]; [|destruct Hk as (_ & _ & ?); done|done]. exists k. tauto.
Qed.

(** A float on the wire. *)
Lemma mp_f64 x : valid_binary 53 1024 x = true →
  bytes_ok (mp_encode (MpF64 (f_bits x))) ∧ mp_read (mp_encode (MpF64 (f_bits x))) ≫= as_f64 = Some x.
Proof.
  intros Hv. destruct (valid_bits x Hv) as [Hr Hb]. assert (Hok : mp_ok (MpF64 (f_bits x))) by done. split; [by apply mp_bytes|].
  unfold mp_read. rewrite <- (app_nil_r (mp_encode _)), mp_roundtrip by (done || (simpl; unfold MP_MAX_DEPTH; lia)). simpl. by rewrite Hb.
Qed.

(** ** Establishment *)

Definition request_bytes (x_secret ed_secret : bytes) : bytes := x_pub x_secret ++ vk_bytes (ed_public ed_secret) ++ [32; 1; 244].
Definition link_id_of (dest req : bytes) : bytes := take 16 (sha256 ([2] ++ dest ++ [0] ++ take 64 req)).

Lemma new_initiator_ok {E} dest hops xs es now j : u8 hops → jitter_ok j →
  ∃ l, new_initiator dest hops xs es now j = @Ok E _ (l, request_bytes xs es) ∧
    l_id l = link_id_of dest (request_bytes xs es) ∧ l_state l = Pending ∧ is_initiator l = true ∧
    offered_mode l = DEFAULT_MODE ∧ offered_mtu l = LinkMtu_BASE ∧ l_crypto l = mkCrypto (Some (eph_generate xs es)) None None None None ∧
    l_timing l = fresh_timing now (from_secs (6 * Z.max hops 1)) ∧ pending_requests l = [] ∧ l_destination_hash l = dest ∧
    teardown_reason l = None ∧ remote_identity_pub l = None ∧ identified l = false ∧ ka_initiator (l_keepalive l) = true.
Proof.
  intros Hh Hj. unfold new_initiator. rewrite base_is.
  pose proof (lr_unpack_pack (eph_generate xs es) (x_pub_length xs)) as (d & Hp & -> & Hl & _). unfold lr_pack in *. rewrite base_pack in *.
  cbn [res_bind] in *. rewrite compute_link_id_ok by lia. cbn [res_bind]. destruct (establishment_secs (E:=E) hops Hh) as [-> _].
  cbn [res_bind]. destruct (ka_new_ok (E:=E) true j now Hj) as (k & -> & Hk & _). cbn [res_bind]. eexists. split; [reflexivity|]. by cbn.
Qed.

Lemma new_responder_ok xs es seed dest hops xr er now j : u8 hops → jitter_ok j →
  let req := request_bytes xs es in let id := link_id_of dest req in
  let pub := vk_bytes (ed_public seed) in
  ∃ l k, perform_handshake xr (x_pub xs) id DEFAULT_MODE = Ok k ∧ keys_ok k ∧ perform_handshake xs (x_pub xr) id DEFAULT_MODE = Ok k ∧
    new_responder req seed dest hops xr er now j =
      Ok (l, ed_sign seed (id ++ x_pub xr ++ pub ++ [32; 1; 244]) ++ x_pub xr ++ [32; 1; 244]) ∧
    l_id l = id ∧ l_state l = Handshake ∧ is_initiator l = false ∧ l_mode l = DEFAULT_MODE ∧ l_mtu l = 500 ∧
    l_crypto l = mkCrypto (Some (eph_generate xr er)) (Some (x_pub xs)) (Some (vk_bytes (ed_public es))) (Some seed) (Some k) ∧
    l_timing l = fresh_timing now (from_secs (6 * Z.max hops 1 + 360)) ∧ pending_requests l = [] ∧ l_destination_hash l = dest ∧
    teardown_reason l = None ∧ remote_identity_pub l = None ∧ identified l = false ∧ ka_initiator (l_keepalive l) = false.
Proof.
  intros Hh Hj req id pub. unfold new_responder, new_responder_inner.
  pose proof (lr_unpack_pack (eph_generate xs es) (x_pub_length xs)) as (d & _ & -> & Hl & Hu).
  change (x25519_pub (eph_generate xs es) ++ _) with req in *. rewrite Hu. cbn [res_bind]. rewrite compute_link_id_ok by lia.
  change (take 16 (sha256 ([2] ++ dest ++ [0] ++ take 64 req))) with id. cbn [res_bind lr_signalling base_signalling sd_mode sd_mtu].
  rewrite decide_False by (rewrite not_elem_of_nil || (intros Hn; apply Hn; by left)).
  change (map_err HSignalling (try_from_signal (Some 500))) with (@Ok HandshakeError _ LinkMtu_BASE). cbn [res_bind].
  rewrite Z.ltb_irrefl. change (map_err HSignalling (checked_mdu LinkMtu_BASE)) with (@Ok HandshakeError _ 431). cbn [res_bind].
  destruct (handshake_keys xr xs id) as (k & Hk1 & Hk2 & Hk). cbn [x25519_prv eph_generate peer_x25519 x25519_pub].
  change (perform_handshake xr (x_pub xs) id 1) with (perform_handshake xr (x_pub xs) id DEFAULT_MODE). rewrite Hk1. cbn [map_err res_bind].
  change (map_err HSignalling (sd_try_new 1 (mtu_get LinkMtu_BASE))) with (@Ok HandshakeError _ base_signalling). cbn [res_bind].
  unfold lp_pack. cbn [lp_signalling]. rewrite base_pack. cbn [res_bind ok_or lp_signature responder_x25519_pub].
  destruct (establishment_secs (E:=HandshakeError) hops Hh) as [_ ->]. cbn [res_bind].
  destruct (ka_new_ok (E:=HandshakeError) false j now Hj) as (ka & -> & Hka & _). cbn [res_bind].
  eexists _, k. split_and!; try reflexivity; try done.
Qed.

(** Any peer key gives usable keys. *)
Lemma handshake_any a p id : ∃ k, perform_handshake a p id DEFAULT_MODE = Ok k ∧ keys_ok k.
Proof.
  unfold perform_handshake, derive. change (DEFAULT_MODE =? MODE_AES128_CBC) with false. change (DEFAULT_MODE =? MODE_AES256_CBC) with true.
  cbn [res_bind]. unfold hkdf_sha256, AES256_DERIVED_KEY_LENGTH. rewrite decide_False by (unfold MAX_OUTPUT_LENGTH; lia).
  destruct (hkdf_expand_ok (hkdf_new (Some id) (x_exchange (X25519:=link_x25519) a p)) (default [] None) 64) as (okm & -> & Hl & _); [unfold MAX_OUTPUT_LENGTH; lia|].
  cbn [ok_or map_err res_bind]. rewrite slice_to_ok, slice_from_ok by (rewrite Hl; cbn; lia). cbn [res_bind]. eexists. split; [reflexivity|].
  unfold keys_ok. cbn [signing_key encryption_key]. rewrite take_drop. unfold key_len_ok, KEY_LENGTH, LEGACY_KEY_LENGTH. rewrite Hl. tauto.
Qed.

(** What a proof that passes the checks is. *)
Lemma check_proof_inv l proof key pub now iv : length iv = 16%nat →
  match check_proof l proof key pub now iv with
  | Ok (x, checked, mdu, keys, pkt) =>
      l_state l = Pending ∧ parse_proof_signalling proof = Ok checked ∧ checked_mdu (ls_mtu checked) = Ok mdu ∧
      ls_mode checked = offered_mode l ∧ ls_mode checked = DEFAULT_MODE ∧ mtu_get (ls_mtu checked) ≤ mtu_get (offered_mtu l) ∧
      (∃ sg trailer, proof = sg ++ x ++ trailer ∧ length sg = 64%nat ∧ length x = 32%nat ∧
        ed_verify key (l_id l ++ x ++ pub ++ trailer) sg = true) ∧
      (∃ eph, ephemeral_keys (l_crypto l) = Some eph ∧ perform_handshake (x25519_prv eph) x (l_id l) DEFAULT_MODE = Ok keys) ∧
      keys_ok keys ∧ link_encrypt keys (mp_encode (MpF64 (f_bits (as_secs_f64 (since now (request_time (l_timing l))))))) iv = Ok pkt
  | Err _ => True
  | Panic => False
  end.
Proof.
  intros Hiv. unfold check_proof. destruct (decide (l_state l ≠ Pending)) as [?|Hs]; [done|]. apply dec_stable in Hs.
  pose proof (parse_no_panic proof 96) as Hpp. destruct (parse_proof_signalling proof) as [checked|e|] eqn:Hp; [|done|done]. cbn [map_err res_bind].
  destruct (Z.eqb_spec (ls_mode checked) (offered_mode l)) as [Hm|]; [|done]. cbn [negb].
  destruct (decide (ls_mode checked ∉ ENABLED_MODES)) as [|Hen]; [done|]. apply dec_stable, list_elem_of_singleton in Hen.
  destruct (Z.ltb_spec (mtu_get (offered_mtu l)) (mtu_get (ls_mtu checked))) as [|Hmtu]; [done|].
  pose proof (mdu_no_panic (ls_mtu checked)) as Hmp. destruct (checked_mdu (ls_mtu checked)) as [mdu|e|] eqn:Hmdu; [|done|done]. cbn [map_err res_bind].
  pose proof (lp_unpack_inv proof) as Hu. destruct (lp_unpack proof) as [p|e|]; [|done|done]. cbn [res_bind].
  destruct Hu as (trailer & Hpd & Hl1 & Hl2). rewrite slice_from_ok by (rewrite Hpd, !length_app; lia). cbn [res_bind].
  assert (drop 96 proof = trailer) as ->. { rewrite Hpd, app_assoc. apply drop_app_length'. rewrite length_app. lia. }
  destruct (ed_verify key _ _) eqn:Hv; [|done]. cbn [negb]. destruct (ephemeral_keys (l_crypto l)) as [eph|] eqn:He; [|done]. cbn [ok_or res_bind].
  rewrite Hen. change MODE_AES256_CBC with DEFAULT_MODE. destruct (handshake_any (x25519_prv eph) (responder_x25519_pub p) (l_id l)) as (k & Hk & Hok).
  rewrite Hk. cbn [map_err res_bind].
  destruct (mp_f64 (as_secs_f64 (since now (request_time (l_timing l)))) (as_secs_valid _ (since_nonneg _ _))) as [Hb _].
  destruct (link_roundtrip k _ iv Hok Hiv Hb) as (ct & Hct & _). rewrite Hct. cbn [map_err res_bind].
  split_and!; eauto 10.
Qed.

(** The fields activation keeps. *)
Definition kept (l l' : Link) : Prop :=
  l_id l' = l_id l ∧ is_initiator l' = is_initiator l ∧ l_destination_hash l' = l_destination_hash l ∧
  remote_identity_pub l' = remote_identity_pub l ∧ identified l' = identified l ∧ teardown_reason l' = teardown_reason l ∧
  pending_requests l' = pending_requests l ∧ l_traffic l' = l_traffic l ∧ l_resources l' = l_resources l ∧
  ka_initiator (l_keepalive l') = ka_initiator (l_keepalive l).

Lemma validate_activates l proof key pub now iv j x checked mdu keys pkt : jitter_ok j →
  check_proof l proof key pub now iv = Ok (x, checked, mdu, keys, pkt) →
  ∃ l', validate_proof l proof key pub now iv j = (l', Ok pkt) ∧ kept l l' ∧ l_state l' = Active ∧ l_mode l' = ls_mode checked ∧
    l_mtu l' = mtu_get (ls_mtu checked) ∧ l_mdu l' = mdu ∧
    l_crypto l' = mkCrypto (ephemeral_keys (l_crypto l)) (Some x) (Some pub) (responder_identity_signing_key (l_crypto l)) (Some keys) ∧
    rtt (l_timing l') = Some (since now (request_time (l_timing l))) ∧ activated_at (l_timing l') = Some now ∧
    stale_since (l_timing l') = stale_since (l_timing l).
Proof.
  intros Hj Hc. unfold validate_proof. rewrite Hc.
  destruct (update_from_rtt_ok (E:=HandshakeError) (mark_activated (l_keepalive l) now) (since now (request_time (l_timing l))) j Hj)
    as (k & -> & Hk & _); [apply since_nonneg|]. eexists. split; [reflexivity|]. by cbn.
Qed.

Lemma rtt_activates l data now j pt : jitter_ok j → l_state l = Handshake → l_mtu l = 500 → l_decrypt l data = Ok pt →
  ∃ l', receive_rtt_packet l data now j = (l', Ok tt) ∧ kept l l' ∧ l_state l' = Active ∧ l_mode l' = l_mode l ∧ l_mtu l' = 500 ∧ l_mdu l' = 431 ∧
    l_crypto l' = l_crypto l ∧ activated_at (l_timing l') = Some now ∧ stale_since (l_timing l') = stale_since (l_timing l) ∧
    rtt (l_timing l') = match adopted_rtt pt (since now (request_time (l_timing l))) with Some r => Some r | None => rtt (l_timing l) end.
Proof.
  intros Hj Hs Hm Hd. unfold receive_rtt_packet. rewrite decide_False by tauto. rewrite Hm.
  change (map_err HSignalling (let* m := try_from_signal (Some 500) in checked_mdu m)) with (@Ok HandshakeError _ 431). cbv zeta.
  set (l1 := set_rates l _). change (l_decrypt l1 data) with (l_decrypt l data). rewrite Hd. change (l_timing l1) with (l_timing l).
  change (l_keepalive l1) with (l_keepalive l).
  set (o := adopted_rtt pt (since now (request_time (l_timing l)))).
  assert (Hk : ∃ k, match o with Some r => update_from_rtt (l_keepalive l) r j | None => Ok (l_keepalive l) end = @Ok HandshakeError _ k ∧
    ka_initiator k = ka_initiator (l_keepalive l)).
  { destruct o as [r|] eqn:Ho; [|by eexists]. destruct (update_from_rtt_ok (E:=HandshakeError) (l_keepalive l) r j Hj) as (k & -> & Hk & _); [|by eexists].
    unfold o, adopted_rtt in Ho. destruct (mp_read pt ≫= as_f64); [|done]. destruct (peer_reported_rtt _); injection Ho as <-; unfold since; lia. }
  destruct Hk as (k & -> & Hk). eexists. split; [reflexivity|]. cbn. unfold kept. cbn. by rewrite Hm.
Qed.

(** ** Two endpoints of one session *)

(** What the initiator [i] and the responder [r] of destination key [seed]
    agree on. *)
Record paired (seed : bytes) (i r : Link) : Prop := {
  pair_id : l_id i = l_id r;
  pair_dest : l_destination_hash i = l_destination_hash r;
  pair_roles : is_initiator i = true ∧ is_initiator r = false;
  pair_mode : l_mode i = l_mode r ∧ l_mtu i = l_mtu r ∧ l_mdu i = l_mdu r;
  pair_keys : ∃ k, l_session_keys (l_crypto i) = Some k ∧ l_session_keys (l_crypto r) = Some k ∧ keys_ok k;
  pair_initiator_proofs : ∃ eph, ephemeral_keys (l_crypto i) = Some eph ∧ ed25519_pub eph = ed_public (ed25519_prv eph) ∧
    peer_packet_proof_key (l_crypto r) = Some (vk_bytes (ed25519_pub eph));
  pair_responder_proofs : responder_identity_signing_key (l_crypto r) = Some seed ∧
    peer_packet_proof_key (l_crypto i) = Some (vk_bytes (ed_public seed));
}.

(** A proof the responder made passes the initiator's checks. *)
Lemma check_proof_ok l xs es xr seed k now iv : length iv = 16%nat →
  l_state l = Pending → offered_mode l = DEFAULT_MODE → offered_mtu l = LinkMtu_BASE → ephemeral_keys (l_crypto l) = Some (eph_generate xs es) →
  perform_handshake xs (x_pub xr) (l_id l) DEFAULT_MODE = Ok k → keys_ok k →
  let pub := vk_bytes (ed_public seed) in
  ∃ pkt, check_proof l (ed_sign seed (l_id l ++ x_pub xr ++ pub ++ [32; 1; 244]) ++ x_pub xr ++ [32; 1; 244]) (ed_public seed) pub now iv
      = Ok (x_pub xr, mkLinkSig 1 LinkMtu_BASE true, 431, k, pkt) ∧
    link_decrypt k pkt = Ok (mp_encode (MpF64 (f_bits (as_secs_f64 (since now (request_time (l_timing l))))))).
Proof.
  intros Hiv Hs Hom Hot He Hk Hok pub. set (sg := ed_sign seed _). assert (Hsg : length sg = 64%nat) by apply ed_sign_length.
  destruct (lp_unpack_base sg (x_pub xr) Hsg (x_pub_length xr)) as [Hu Hp].
  destruct (mp_f64 (as_secs_f64 (since now (request_time (l_timing l)))) (as_secs_valid _ (since_nonneg _ _))) as [Hb _].
  destruct (link_roundtrip k _ iv Hok Hiv Hb) as (ct & Hct & Hdec). exists ct. split; [|done].
  unfold check_proof. rewrite decide_False by tauto. rewrite Hp. cbn [map_err res_bind ls_mode ls_mtu]. rewrite Hom, Hot. cbn [negb].
  change (1 =? DEFAULT_MODE) with true. cbn [negb]. rewrite decide_False by (intros Hn; apply Hn; by left). rewrite Z.ltb_irrefl.
  change (checked_mdu LinkMtu_BASE) with (@Ok LinkSignallingError _ 431). cbn [map_err res_bind]. rewrite Hu. cbn [res_bind responder_x25519_pub lp_signature].
  rewrite slice_from_ok by (rewrite !length_app, Hsg, x_pub_length; simpl; lia). cbn [res_bind].
  rewrite (app_assoc sg), (drop_app_length' (sg ++ x_pub xr)) by (rewrite length_app, Hsg, x_pub_length; done).
  unfold sg. rewrite ed_sign_verify. cbn [negb]. rewrite He. cbn [ok_or res_bind x25519_prv eph_generate].
  change 1 with DEFAULT_MODE at 1. rewrite Hk. cbn [map_err res_bind]. by rewrite Hct.
Qed.

(** C5.  Links are established: the initiator's request is accepted by the
    responder, whose proof activates the initiator, whose RTT message activates
    the responder.  Both ends then hold the same link identifier, mode, MTU,
    MDU and session keys and each other's proof keys; the initiator's round trip
    is the time from request to proof, and the responder's is at least the one
    it measured itself.  A relay that sees the request in any packet computes
    the same identifier. *)
Theorem link_establishes dest hops_i hops_r xi ei xr er seed t0 t1 t2 t3 ji jr ji' jr' iv :
  u8 hops_i → u8 hops_r → jitter_ok ji → jitter_ok jr → jitter_ok ji' → jitter_ok jr' → length iv = 16%nat →
  ∃ i req r proof i' pkt r' p,
    new_initiator dest hops_i xi ei t0 ji = @Ok HandshakeError _ (i, req) ∧
    new_responder req seed dest hops_r xr er t1 jr = Ok (r, proof) ∧
    validate_proof i proof (ed_public seed) (vk_bytes (ed_public seed)) t2 iv ji' = (i', Ok pkt) ∧
    receive_rtt_packet r pkt t3 jr' = (r', Ok tt) ∧
    l_state i' = Active ∧ l_state r' = Active ∧ paired seed i' r' ∧
    rtt (l_timing i') = Some (since t2 t0) ∧ rtt (l_timing r') = Some p ∧ since t3 t1 ≤ p ∧
    ∀ h, header_ok h → packet_type (flags h) = LinkRequest → destination_type (flags h) = Single → context h = CtxNone →
      destination_hash h = dest → link_id_from_raw (header_pack h ++ req) (header_type (flags h)) = @Ok HandshakeError _ (l_id i').
Proof.
  intros Hhi Hhr Hji Hjr Hji' Hjr' Hiv.
  destruct (new_initiator_ok (E:=HandshakeError) dest hops_i xi ei t0 ji Hhi Hji) as (i & Hni & Hid & Hst & Hin & Hom & Hot & Hcr & Htm & _ & Hde & _ & _ & _ & Hka).
  destruct (new_responder_ok xi ei seed dest hops_r xr er t1 jr Hhr Hjr)
    as (r & k & Hk1 & Hok & Hk2 & Hnr & Hidr & Hsr & Hinr & Hmr & Hmtu & Hcrr & Htmr & _ & Hder & _ & _ & _ & Hkar).
  destruct (check_proof_ok i xi ei xr seed k t2 iv) as (pkt & Hc & Hdec); [done..|by rewrite Hcr|by rewrite Hid|done|].
  rewrite Hid in Hc. destruct (validate_activates i _ _ _ t2 iv ji' _ _ _ _ _ Hji' Hc)
    as (i' & Hv & (Hi1 & Hi2 & Hi3 & _) & Hi4 & Hi5 & Hi6 & Hi7 & Hi8 & Hi9 & _).
  destruct (rtt_activates r pkt t3 jr' (mp_encode (MpF64 (f_bits (as_secs_f64 (since t2 (request_time (l_timing i))))))) Hjr' Hsr Hmtu)
    as (r' & Hr & (Hr1 & Hr2 & Hr3 & _) & Hr4 & Hr5 & Hr6 & Hr7 & Hr8 & _ & _ & Hr9).
  { unfold l_decrypt. rewrite Hcrr. exact Hdec. }
  assert (Ha : ∃ p, adopted_rtt (mp_encode (MpF64 (f_bits (as_secs_f64 (since t2 (request_time (l_timing i))))))) (since t3 (request_time (l_timing r)))
      = Some p ∧ since t3 t1 ≤ p).
  { unfold adopted_rtt. destruct (mp_f64 _ (as_secs_valid _ (since_nonneg t2 (request_time (l_timing i))))) as [_ ->]. rewrite Htmr. cbn [request_time fresh_timing].
    destruct (peer_reported_rtt _); eexists; (split; [reflexivity|lia]). }
  destruct Ha as (p & Hp & Hle). rewrite Hp in Hr9.
  exists i, (request_bytes xi ei), r. eexists. exists i', pkt, r', p. split; [done|]. split; [exact Hnr|]. split; [exact Hv|]. split; [exact Hr|]. split; [done|]. split; [done|].
  split; [|rewrite Htm in Hi9; split; [done|split; [done|split; [done|]]]].
  - split; rewrite ?Hi8, ?Hr8, ?Hcr, ?Hcrr; cbn; try congruence; [split; congruence|by rewrite Hi5, Hi6, Hi7, Hr5, Hr6, Hr7, Hmr|by exists k| |done].
    by exists (eph_generate xi ei).
  - intros h Hh Hpt Hdt Hcx Hdh.
    assert (Hlr : (64 ≤ length (request_bytes xi ei))%nat) by (unfold request_bytes; rewrite !length_app, x_pub_length, vk_length; lia).
    rewrite (link_id_wire h (request_bytes xi ei) Hh Hlr Hpt Hdt Hcx), Hdh, compute_link_id_ok by done. by rewrite Hi1, Hid.
Qed.

(** C10.  A link is activated only by a proof that the destination signed:
    when [validate_proof] succeeds, the link was pending, and the proof is a
    signature by the given key over this link's identifier, the responder's
    key, the identity and the trailer as received; the session keys come from
    that responder key, the mode is the one offered and enabled, and the MTU
    does not exceed the offer.  When it fails, the link is unchanged.  It never
    panics. *)
Theorem link_proof_authentic l proof key pub now iv j : length iv = 16%nat → jitter_ok j →
  match validate_proof l proof key pub now iv j with
  | (l', Ok _) =>
      l_state l = Pending ∧ l_state l' = Active ∧ l_id l' = l_id l ∧
      l_mode l' = offered_mode l ∧ l_mode l' ∈ ENABLED_MODES ∧ l_mtu l' ≤ mtu_get (offered_mtu l) ∧
      peer_packet_proof_key (l_crypto l') = Some pub ∧
      ∃ sg x trailer eph k, proof = sg ++ x ++ trailer ∧ length sg = 64%nat ∧ length x = 32%nat ∧
        ed_verify key (l_id l ++ x ++ pub ++ trailer) sg = true ∧ peer_x25519_pub (l_crypto l') = Some x ∧
        ephemeral_keys (l_crypto l) = Some eph ∧ perform_handshake (x25519_prv eph) x (l_id l) (l_mode l') = Ok k ∧
        l_session_keys (l_crypto l') = Some k
  | (l', Err _) => l' = l
  | (_, Panic) => False
  end.
Proof.
  intros Hiv Hj. pose proof (check_proof_inv l proof key pub now iv Hiv) as Hc.
  destruct (check_proof l proof key pub now iv) as [[[[[x checked] mdu] keys] pkt]|e|] eqn:He; [|unfold validate_proof; by rewrite He|done].
  destruct (validate_activates l proof key pub now iv j _ _ _ _ _ Hj He) as (l' & -> & (Hid & _) & Hs & Hm & Ht & _ & Hcr & _).
  destruct Hc as (Hp & _ & _ & Hmo & Hmd & Hmtu & (sg & tr & Hpr & Hl1 & Hl2 & Hv) & (eph & Hep & Hk) & _).
  rewrite Hcr, Hm. cbn. split_and!; try done; [rewrite Hmd; by left|lia|].
  exists sg, x, tr, eph, keys. by rewrite Hmd.
Qed.

(** ** Packet proofs *)

Lemma local_proof l h sg : length h = 32%nat → length sg = 64%nat → ∀ pk vk, peer_packet_proof_key (l_crypto l) = Some pk →
  public_key_from_bytes pk = Some vk → validate_packet_proof l h (h ++ sg) = ed_verify vk h sg.
Proof.
  intros Hh Hs pk vk Hp Hv. unfold validate_packet_proof, validate_peer_packet_proof. rewrite length_app, Hh, Hs. cbn [Nat.eqb Nat.add negb].
  rewrite slice_to_ok by (rewrite length_app; lia). cbn [res_bind]. rewrite take_app_length' by done. rewrite decide_False by tauto.
  rewrite slice_from_ok by (rewrite length_app; lia). cbn [res_bind]. rewrite drop_app_length' by done. rewrite copy_array_ok by done.
  cbn [res_bind]. rewrite Hp. cbn [ok_or res_bind]. rewrite Hv. cbn [ok_or res_bind]. by destruct (ed_verify vk h sg).
Qed.

(** C28.  Packet proofs cross the link: for two paired ends in a state that
    proves packets, each end's own signer proves any received packet and the
    other end accepts that proof.  Conversely whatever an end accepts as a proof
    of a packet is its hash followed by a signature of the hash under the peer
    key recorded at establishment. *)
Theorem packet_proofs_cross seed i r h : paired seed i r → length h = 32%nat →
  l_state i ∈ [Active; Stale] → l_state r ∈ [Handshake; Active; Stale] →
  (∃ p, prove_packet_with_local_signer i h = Ok p ∧ validate_packet_proof r h p = true) ∧
  (∃ p, prove_packet_with_local_signer r h = Ok p ∧ validate_packet_proof i h p = true) ∧
  ∀ l p, validate_packet_proof l h p = true → ∃ sg pk vk, p = h ++ sg ∧ length sg = 64%nat ∧
    peer_packet_proof_key (l_crypto l) = Some pk ∧ public_key_from_bytes pk = Some vk ∧ ed_verify vk h sg = true.
Proof.
  intros Hp Hh Hsi Hsr. destruct (pair_roles _ _ _ Hp) as [Hri Hrr]. destruct (pair_initiator_proofs _ _ _ Hp) as (eph & He & Hek & Hpk).
  destruct (pair_responder_proofs _ _ _ Hp) as [Hrk Hpi].
  assert (Hei : ensure_packet_proof_state i = Ok tt).
  { unfold ensure_packet_proof_state. set_unfold in Hsi. by destruct Hsi as [->|[->|]]. }
  assert (Her : ensure_packet_proof_state r = Ok tt).
  { unfold ensure_packet_proof_state, role. rewrite Hrr. set_unfold in Hsr. by destruct Hsr as [->|[->|[->|]]]. }
  split; [|split].
  - unfold prove_packet_with_local_signer, encode_packet_proof, role. rewrite Hei, Hri, He. cbn. eexists. split; [reflexivity|].
    rewrite (local_proof r h _ Hh (ed_sign_length _ _) _ _ Hpk (vk_parse _)), Hek. apply ed_sign_verify.
  - unfold prove_packet_with_local_signer, encode_packet_proof, role. rewrite Her, Hrr, Hrk. cbn. eexists. split; [reflexivity|].
    rewrite (local_proof i h _ Hh (ed_sign_length _ _) _ _ Hpi (vk_parse _)). apply ed_sign_verify.
  - intros l p. unfold validate_packet_proof, validate_peer_packet_proof. destruct (Nat.eqb_spec (length p) 96) as [Hl|]; [|done]. cbn [negb].
    rewrite slice_to_ok by lia. cbn [res_bind]. case_decide as Hd; [done|]. rewrite slice_from_ok by lia. cbn [res_bind].
    rewrite copy_array_ok by (rewrite length_drop; lia). cbn [res_bind]. destruct (peer_packet_proof_key (l_crypto l)) as [pk|] eqn:Hk; [|done].
    cbn [ok_or res_bind]. destruct (public_key_from_bytes pk) as [vk|] eqn:Hv; [|done]. cbn [ok_or res_bind].
    destruct (ed_verify vk h (drop 32 p)) eqn:Hver; [|done]. intros _. exists (drop 32 p), pk, vk.
    rewrite length_drop, Hl. split_and!; try done. rewrite <- Hd at 1. by rewrite take_drop.
Qed.

(** ** Requests and responses *)

(** Values a request or response can carry inside its array. *)
Definition carried (v : mp_value) : Prop := mp_ok v ∧ (depth v < MP_MAX_DEPTH)%nat.

Lemma mp_array l : Forall carried l → len l < 2 ^ 32 →
  bytes_ok (mp_encode (MpArray l)) ∧ mp_read (mp_encode (MpArray l)) = Some (MpArray l).
Proof.
  intros Hl Hn. assert (Hok : mp_ok (MpArray l)).
  { split; [done|]. apply foldr_and. eapply Forall_impl; [exact Hl|]. by intros v [? _]. }
  split; [by apply mp_bytes|]. unfold mp_read. rewrite <- (app_nil_r (mp_encode _)), mp_roundtrip; [done|done|].
  cbn [depth]. apply le_n_S. change 1023%nat with (pred MP_MAX_DEPTH). apply foldr_max. eapply Forall_impl; [exact Hl|]. intros v [_ ?]. unfold MP_MAX_DEPTH in *. lia.
Qed.

Lemma bin16_carried b : length b = 16%nat → bytes_ok b → carried (MpBin b).
Proof. intros Hl Hb. split; [split; [unfold len; rewrite Hl; done|done]|]. simpl. unfold MP_MAX_DEPTH. lia. Qed.
Lemma f64_carried x : valid_binary 53 1024 x = true → carried (MpF64 (f_bits x)).
Proof. intros Hv. split; [exact (proj1 (valid_bits x Hv))|]. simpl. unfold MP_MAX_DEPTH. lia. Qed.
Lemma hash16 b : length (take 16 (sha256 b)) = 16%nat ∧ bytes_ok (take 16 (sha256 b)).
Proof. split; [rewrite length_take, sha256_length; lia|apply bytes_ok_take, digest_bytes]. Qed.

(** The receipt of a new request. *)
Lemma prepare_ok l path v timeout ts now : l_state l = Active →
  let packed := mp_encode (MpArray [MpF64 (f_bits ts); MpBin (take 16 (sha256 (string_bytes path))); v]) in
  let rid := take 16 (sha256 packed) in
  prepare_request_value l path v timeout ts now =
    (set_pending l (pending_requests l ++ [rq_new (rid ++ replicate 16 0) (l_id l) timeout now]), Ok (packed, rid)).
Proof.
  intros Hs packed rid. unfold prepare_request_value. rewrite decide_False by tauto. by rewrite !truncated_hash_ok.
Qed.

Lemma parse_request_packed ts h v : valid_binary 53 1024 ts = true → length h = 16%nat → bytes_ok h → carried v →
  let packed := mp_encode (MpArray [MpF64 (f_bits ts); MpBin h; v]) in
  bytes_ok packed ∧ parse_request packed = Ok (take 16 (sha256 packed), h, ts, msgpack_value_to_bytes v).
Proof.
  intros Hts Hh Hb Hv packed. destruct (mp_array [MpF64 (f_bits ts); MpBin h; v]) as [Hp Hr]; [|done|].
  { rewrite !Forall_cons. split; [by apply f64_carried|]. split; [by apply bin16_carried|]. done. }
  split; [done|]. unfold parse_request. rewrite truncated_hash_ok. cbn [res_bind]. unfold packed. rewrite Hr. cbn [ok_or res_bind as_array as_f64 as_slice].
  rewrite (proj2 (valid_bits ts Hts)), Hh. cbn [Nat.eqb negb]. by rewrite copy_array_ok by done.
Qed.

Lemma parse_response_packed rid v : length rid = 16%nat → bytes_ok rid → carried v →
  bytes_ok (mp_encode (MpArray [MpBin rid; v])) ∧ parse_response_plaintext (mp_encode (MpArray [MpBin rid; v])) = Ok (rid, msgpack_value_to_bytes v).
Proof.
  intros Hh Hb Hv. destruct (mp_array [MpBin rid; v]) as [Hp Hr]; [|done|].
  { rewrite !Forall_cons. split; [by apply bin16_carried|]. done. }
  split; [done|]. unfold parse_response_plaintext. rewrite Hr. cbn [ok_or res_bind as_array as_slice]. rewrite Hh. cbn [Nat.eqb negb].
  by rewrite copy_array_ok by done.
Qed.

(** A response concludes the one receipt with its id. *)
Lemma deliver_last l pre r rid d now : pending_requests l = pre ++ [r] → Forall (λ x, receipt_for rid x = false) pre → receipt_for rid r = true →
  deliver_response_data l rid d now = (set_pending l pre, (receive_response r d now).2, true).
Proof.
  intros Hp Hpre Hr. unfold deliver_response_data, conclude_receipt, other_than. rewrite Hp.
  assert (Hf : find (receipt_for rid) (pre ++ [r]) = Some r).
  { clear -Hpre Hr. induction Hpre as [|x pre Hx _ IH]; simpl; [by rewrite Hr|by rewrite Hx]. }
  rewrite Hf. do 3 f_equal. rewrite filter_app, (filter_cons_False _ r) by congruence. rewrite filter_nil, app_nil_r.
  clear -Hpre. induction Hpre as [|x pre Hx _ IH]; [done|]. rewrite filter_cons_True by done. by f_equal.
Qed.

(** The value a payload travels as, and the id of a request. *)
Definition payload_value (data : option bytes) : mp_value :=
  match data with Some d => msgpack_value_from_bytes_or_binary d | None => MpNil end.
Definition packed_request (path : string) (v : mp_value) (ts : f64) : bytes :=
  mp_encode (MpArray [MpF64 (f_bits ts); MpBin (take 16 (sha256 (string_bytes path))); v]).
Definition request_id_of (path : string) (v : mp_value) (ts : f64) : bytes := take 16 (sha256 (packed_request path v ts)).

(** C23.  A request reaches its handler and its response reaches the requester:
    on a paired link, the responder parses exactly the request id, path hash,
    timestamp and payload the initiator sent (a payload that is one complete
    MessagePack value travels as that value, anything else byte for byte), and
    its response, packed under that id, runs the response callback of that
    request's receipt once, with the response and the measured round trip, and
    of no other receipt; the link is then as it was before the request. *)
Theorem request_roundtrip seed i r path data timeout ts now iv response iv' now' cb :
  paired seed i r → l_state i = Active → valid_binary 53 1024 ts = true → length iv = 16%nat → length iv' = 16%nat →
  let v := payload_value data in let w := payload_value (Some response) in let rid := request_id_of path v ts in
  carried v → carried w → Forall (λ q, receipt_for rid q = false) (pending_requests i) →
  ∃ i1 ct q rct answered,
    request i path data timeout ts now iv = (i1, Ok (ct, rid)) ∧ pending_requests i1 = pending_requests i ++ [q] ∧
    handle_request r ct = Ok (rid, take 16 (sha256 (string_bytes path)), ts, msgpack_value_to_bytes v) ∧
    create_response r rid response iv' = Ok rct ∧
    handle_response (set_pending i1 (pending_requests i ++ [set_response_callback q cb])) rct now' =
      (i, [(cb, answered)], Ok (rid, msgpack_value_to_bytes w)) ∧
    rq_request_id answered = rid ++ replicate 16 0 ∧ rq_state answered = RqResponseReceived ∧
    rq_response answered = Some (msgpack_value_to_bytes w) ∧ rq_rtt answered = Some (Z.max 0 (now' - now)).
Proof.
  intros Hp Hs Hts Hiv Hiv' v w rid Hv Hw Hf. destruct (pair_keys _ _ _ Hp) as (k & Hki & Hkr & Hk).
  destruct (hash16 (string_bytes path)) as [Hl Hb]. destruct (hash16 (packed_request path v ts)) as [Hrl Hrb].
  destruct (parse_request_packed ts _ v Hts Hl Hb Hv) as [Hpb Hpr].
  destruct (parse_response_packed rid w Hrl Hrb Hw) as [Hqb Hqr].
  set (q := rq_new (rid ++ replicate 16 0) (l_id i) timeout now). set (i1 := set_pending i (pending_requests i ++ [q])).
  destruct (crypt_roundtrip i1 r k (packed_request path v ts) iv Hki Hkr Hk Hiv Hpb) as (ct & He & Hd).
  destruct (crypt_roundtrip r i1 k (mp_encode (MpArray [MpBin rid; w])) iv' Hkr Hki Hk Hiv' Hqb) as (rct & He' & Hd').
  exists i1, ct, q, rct. eexists. split.
  { unfold request, prepare_request, seal_request. fold (payload_value data). change (payload_value data) with v.
    rewrite (prepare_ok i path v timeout ts now Hs). change (l_encrypt _ _ iv) with (l_encrypt i1 (packed_request path v ts) iv). by rewrite He. }
  split; [done|]. split; [unfold handle_request; rewrite Hd; exact Hpr|]. split; [exact He'|]. split.
  - unfold handle_response. change (l_decrypt _ rct) with (l_decrypt i1 rct). rewrite Hd'. unfold handle_response_plaintext. rewrite Hqr.
    rewrite (deliver_last _ (pending_requests i) (set_response_callback q cb)); [|done|done|].
    + do 2 f_equal. by destruct i.
    + unfold receipt_for. apply bool_decide_eq_true. change (rq_request_id _) with (rid ++ replicate 16 0). by apply take_app_length'.
  - done.
Qed.

(** ** Identification *)

Lemma decrypt_no_panic l ct : l_decrypt l ct ≠ Panic.
Proof.
  unfold l_decrypt, link_decrypt. destruct (l_session_keys (l_crypto l)) as [k|]; [|done]. cbn [ok_or res_bind].
  pose proof (token_decrypt_cases ct (signing_key k ++ encryption_key k)) as Hc. by destruct (token_decrypt ct _).
Qed.

Lemma verified_ok l x prv sg : length x = 32%nat → length sg = 64%nat → let pk := x ++ vk_bytes (ed_public prv) in
  ed_verify (ed_public prv) (l_id l ++ pk) sg = true → verified_identity l (pk ++ sg) = Ok pk.
Proof.
  intros Hx Hs pk Hv. assert (Hp : length pk = 64%nat) by (unfold pk; rewrite length_app, Hx, vk_length; done).
  unfold verified_identity. rewrite length_app, Hp, Hs. cbn [Nat.add Nat.eqb negb]. rewrite slice_to_ok by (rewrite length_app; lia). cbn [res_bind].
  rewrite take_app_length' by done. rewrite copy_array_ok by done. cbn [res_bind].
  rewrite (slice_at pk sg []) by (rewrite ?app_nil_r; done || lia). cbn [res_bind]. rewrite copy_array_ok by done. cbn [res_bind].
  rewrite (slice_at x (vk_bytes (ed_public prv)) []) by (rewrite ?app_nil_r, ?vk_length; done || lia). cbn [res_bind].
  rewrite copy_array_ok by apply vk_length. cbn [res_bind]. rewrite vk_parse. cbn [ok_or res_bind]. by rewrite Hv.
Qed.

Lemma verified_inv l pt :
  match verified_identity l pt with
  | Ok pub => ∃ sg vk, pt = pub ++ sg ∧ length pub = 64%nat ∧ length sg = 64%nat ∧
      public_key_from_bytes (drop 32 pub) = Some vk ∧ ed_verify vk (l_id l ++ pub) sg = true
  | Err _ => True
  | Panic => False
  end.
Proof.
  unfold verified_identity. destruct (Nat.eqb_spec (length pt) 128) as [Hl|]; [|done]. cbn [negb].
  rewrite slice_to_ok by lia. cbn [res_bind]. rewrite copy_array_ok by (rewrite length_take; lia). cbn [res_bind].
  rewrite (slice_ok pt 64 128) by lia. cbn [res_bind]. rewrite (copy_array_ok 64 (take _ (drop _ _))) by (rewrite length_take, length_drop; lia). cbn [res_bind].
  set (pub := take 64 pt). assert (Hp : length pub = 64%nat) by (unfold pub; rewrite length_take; lia).
  rewrite (slice_ok pub 32 64) by lia. cbn [res_bind]. rewrite copy_array_ok by (rewrite length_take, length_drop; lia). cbn [res_bind].
  rewrite !take_ge by (rewrite length_drop; lia). destruct (public_key_from_bytes (drop 32 pub)) as [vk|] eqn:Hk; [|done]. cbn [ok_or res_bind].
  destruct (ed_verify vk _ _) eqn:Hv; [|done]. exists (drop 64 pt), vk. rewrite length_drop, Hl. split_and!; try done. unfold pub. by rewrite take_drop.
Qed.

(** C27.  Identification is authenticated and final: what an initiator's
    [identify] sends over a paired link makes the responder report that
    identity, the first one recorded; a responder that reports an identity
    verified a signature of the link identifier and the identity under the
    identity's own key, records it only when none was recorded, and is
    otherwise unchanged; an error changes nothing. *)
Theorem identification_final seed i r x pk prv iv : paired seed i r → l_state i = Active → l_state r ∈ [Handshake; Active; Stale] →
  length x = 32%nat → bytes_ok x → bytes_ok (vk_bytes (ed_public prv)) → pk = x ++ vk_bytes (ed_public prv) → length iv = 16%nat →
  (∃ ct, identify i pk prv iv = Ok ct ∧
     handle_identification r ct = match remote_identity_pub r with
                                  | Some existing => (r, Ok existing)
                                  | None => (set_identity r (Some pk) true, Ok pk)
                                  end) ∧
  ∀ l ct, match handle_identification l ct with
          | (l', Ok p) => is_initiator l = false ∧ remote_identity_pub l' = Some p ∧
              (remote_identity_pub l = Some p ∧ l' = l ∨ remote_identity_pub l = None ∧ l' = set_identity l (Some p) true) ∧
              ∃ pub sg vk, l_decrypt l ct = Ok (pub ++ sg) ∧ length pub = 64%nat ∧ length sg = 64%nat ∧
                public_key_from_bytes (drop 32 pub) = Some vk ∧ ed_verify vk (l_id l ++ pub) sg = true ∧
                (remote_identity_pub l = None → p = pub)
          | (l', Err _) => l' = l
          | (_, Panic) => False
          end.
Proof.
  intros Hp Hi Hr Hx Hbx Hbv -> Hiv. destruct (pair_keys _ _ _ Hp) as (k & Hki & Hkr & Hk). destruct (pair_roles _ _ _ Hp) as [Hri Hrr]. split.
  - set (pk := x ++ vk_bytes (ed_public prv)). set (sg := ed_sign prv (l_id i ++ pk)).
    destruct (crypt_roundtrip i r k (pk ++ sg) iv Hki Hkr Hk Hiv) as (ct & He & Hd).
    { unfold pk. rewrite !bytes_ok_app. repeat split; try done. apply ed_sign_ok. }
    exists ct. split.
    + unfold identify, identify_with_fallible. rewrite Hri, bool_decide_eq_false_2 by tauto. cbn [negb orb ok_or res_bind]. exact He.
    + unfold handle_identification, role. rewrite Hrr. assert (Hs : identifies_in (l_state r) = true) by (set_unfold in Hr; by destruct Hr as [->|[->|[->|]]]).
      rewrite Hs, bool_decide_eq_false_2 by tauto. cbn [orb negb]. rewrite Hd. cbn [res_bind].
      assert (Hvi : verified_identity r (pk ++ sg) = Ok pk); [|rewrite Hvi; by destruct (remote_identity_pub r)].
      apply verified_ok; [done|apply ed_sign_length|]. unfold sg. rewrite <- (pair_id _ _ _ Hp). apply ed_sign_verify.
  - intros l ct. unfold handle_identification, role. destruct (is_initiator l) eqn:Hin; [by rewrite bool_decide_eq_true_2|].
    rewrite bool_decide_eq_false_2 by tauto. destruct (identifies_in (l_state l)); [|done]. cbn [orb negb].
    pose proof (decrypt_no_panic l ct) as Hnp. destruct (l_decrypt l ct) as [pt|e|]; [|done|done]. cbn [res_bind].
    pose proof (verified_inv l pt) as Hv. destruct (verified_identity l pt) as [pub|e|]; [|done|done].
    destruct Hv as (sg & vk & -> & Hv). destruct (remote_identity_pub l) as [p|] eqn:Hrem.
    + split_and!; auto. exists pub, sg, vk. split_and!; done || apply Hv.
    + split_and!; auto. exists pub, sg, vk. split_and!; done || apply Hv.
Qed.

(** ** Teardown and dead peers *)

(** A closed link: the reason is kept, every key and pending request is gone. *)
Definition is_closed (l : Link) (reason : CloseReason) : Prop :=
  l_state l = Closed ∧ teardown_reason l = Some reason ∧ l_crypto l = mkCrypto None None None None None ∧ pending_requests l = [].

(** The callbacks of the pending requests of a link that closes. *)
Definition failed_callbacks (l : Link) : rq_fired := concat ((λ r, (rq_fail r).2) <$> pending_requests l).

Lemma close_closed l reason : is_closed (close l reason).1 reason ∧ (close l reason).2 = failed_callbacks l.
Proof. done. Qed.

(** The two ends of a link, either way round. *)
Definition ends (seed : bytes) (a b : Link) : Prop := paired seed a b ∨ paired seed b a.
Definition shares (a b : Link) : Prop := l_id a = l_id b ∧
  ∃ k, l_session_keys (l_crypto a) = Some k ∧ l_session_keys (l_crypto b) = Some k ∧ keys_ok k.
Lemma ends_share seed a b : ends seed a b → shares a b.
Proof. intros [Hp|Hp]; (split; [rewrite (pair_id _ _ _ Hp); done|]); destruct (pair_keys _ _ _ Hp) as (k & ? & ? & ?); by exists k. Qed.

Lemma teardown_received a b k iv : l_session_keys (l_crypto a) = Some k → l_session_keys (l_crypto b) = Some k → keys_ok k → l_id a = l_id b →
  array_ok 16 (l_id a) → length iv = 16%nat →
  ∃ ct, l_encrypt a (l_id a) iv = Ok ct ∧ receive_teardown b ct = ((close b CrDestinationClosed).1, failed_callbacks b, true).
Proof.
  intros Ha Hb Hk Hid [Hl Hok] Hiv. destruct (crypt_roundtrip a b k (l_id a) iv Ha Hb Hk Hiv Hok) as (ct & He & Hd). exists ct. split; [done|].
  unfold receive_teardown. rewrite Hd, Hl. rewrite take_ge by lia. rewrite bool_decide_eq_true_2 by done. done.
Qed.

(** C31.  Tearing a link down closes both ends: the message of [teardown]
    makes the peer close too.  Both ends drop every key, so nothing can be
    encrypted or decrypted any more, and fail their pending requests, each
    running its failure callback. *)
Theorem teardown_closes_both seed a b reason iv : ends seed a b → l_state a ≠ Closed → array_ok 16 (l_id a) → length iv = 16%nat →
  ∃ a' ct b', teardown a reason iv = (a', failed_callbacks a, Some ct) ∧
    receive_teardown b ct = (b', failed_callbacks b, true) ∧ is_closed a' reason ∧ is_closed b' CrDestinationClosed ∧
    ∀ data iv', l_encrypt a' data iv' = Err LinkEncryptionFailed ∧ l_decrypt a' data = Err LinkDecryptionFailed ∧
      l_encrypt b' data iv' = Err LinkEncryptionFailed ∧ l_decrypt b' data = Err LinkDecryptionFailed.
Proof.
  intros He Hs Hid Hiv. destruct (ends_share _ _ _ He) as (Hi & k & Ha & Hb & Hk).
  destruct (teardown_received a b k iv Ha Hb Hk Hi Hid Hiv) as (ct & Hc & Hr). exists (close a reason).1, ct, (close b CrDestinationClosed).1.
  split; [|split; [done|split; [apply close_closed|split; [apply close_closed|done]]]]. unfold teardown. rewrite decide_False by done. by rewrite Hc.
Qed.

(** A tick of an active link that heard nothing for the stale time. *)
Lemma tick_silent l t iv : l_state l = Active → is_stale_at (l_keepalive l) t = true →
  ∃ l' f a, tick_at l t iv = (l', f, a) ∧ l_id l' = l_id l ∧ l_crypto l' = l_crypto l ∧
    rtt (l_timing l') = rtt (l_timing l) ∧
    (should_send_keepalive_at (l_keepalive l) t = true ∧ l_state l' = Active ∧ a = SendKeepalive ∧ l_keepalive l' = mark_keepalive_sent_at (l_keepalive l) t ∨
     should_send_keepalive_at (l_keepalive l) t = false ∧ l_state l' = Stale ∧ a = TransitionedToStale ∧ stale_since (l_timing l') = Some t).
Proof.
  intros Hs Hst. unfold tick_at, tick_receipts. set (l0 := set_pending l _). change (l_state l0) with (l_state l). change (l_keepalive l0) with (l_keepalive l).
  rewrite Hs, Hst. destruct (should_send_keepalive_at (l_keepalive l) t); eexists _, _, _; (split; [reflexivity|]); cbn; rewrite ?Hs; split_and!; auto.
Qed.

(** A tick of a stale link. *)
Lemma tick_stale l s t iv : l_state l = Stale → stale_since (l_timing l) = Some s →
  let grace := stale_grace_timeout (default (from_secs 1) (rtt (l_timing l))) in
  ∃ l' f a, tick_at l t iv = (l', f, a) ∧
    (grace ≤ since t s ∧ is_closed l' CrTimeout ∧ a = SendTeardownAndClose (match l_encrypt l (l_id l) iv with Ok d => d | _ => [] end) ∨
     since t s < grace ∧ a = ActNone ∧ l_state l' = Stale ∧ stale_since (l_timing l') = Some s ∧ l_id l' = l_id l ∧ l_crypto l' = l_crypto l ∧
       rtt (l_timing l') = rtt (l_timing l)).
Proof.
  intros Hs Hst grace. unfold tick_at, tick_receipts. set (l0 := set_pending l _). change (l_state l0) with (l_state l). change (l_timing l0) with (l_timing l).
  rewrite Hs, Hst. fold grace. destruct (Z.leb_spec grace (since t s)); eexists _, _, _; (split; [reflexivity|]); [left|right]; cbn; split_and!; try done; lia.
Qed.

Lemma tick_closed l reason t iv : is_closed l reason → is_closed (tick_at l t iv).1.1 reason ∧ (tick_at l t iv).2 = ActNone.
Proof.
  intros (Hs & Hr & Hc & Hp). unfold tick_at, tick_receipts. set (l0 := set_pending l _). change (l_state l0) with (l_state l). rewrite Hs. cbn.
  unfold is_closed, l0. cbn. by rewrite Hp.
Qed.

(** From stale to closed: the teardown message closes the peer. *)
Lemma stale_closes a b s t1 t2 iv1 iv2 : shares a b → l_state a = Stale → stale_since (l_timing a) = Some s → array_ok 16 (l_id a) →
  length iv1 = 16%nat → length iv2 = 16%nat → s ≤ t1 → stale_grace_timeout (default (from_secs 1) (rtt (l_timing a))) ≤ t2 - s → t1 ≤ t2 →
  let '(a2, _, x2) := tick_at a t1 iv1 in let '(a3, _, x3) := tick_at a2 t2 iv2 in
  is_closed a3 CrTimeout ∧ ∃ ct, SendTeardownAndClose ct ∈ [x2; x3] ∧
    receive_teardown b ct = ((close b CrDestinationClosed).1, failed_callbacks b, true).
Proof.
  intros (Hib & k & Ha & Hb & Hk) Hs Hst Hid Hi1 Hi2 Hle Hg Ht.
  destruct (tick_stale a s t1 iv1 Hs Hst) as (a2 & f2 & x2 & -> & Hc).
  destruct Hc as [(Hg1 & Hcl & ->)|(_ & -> & Hs2 & Hst2 & Hid2 & Hc2 & Hr2)].
  - pose proof (tick_closed a2 CrTimeout t2 iv2 Hcl) as [Hcl' _]. destruct (tick_at a2 t2 iv2) as [[a3 f3] x3]. split; [exact Hcl'|].
    destruct (teardown_received a b k iv1 Ha Hb Hk Hib Hid Hi1) as (ct & -> & Hrt). exists ct. split; [by left|done].
  - destruct (tick_stale a2 s t2 iv2 Hs2 Hst2) as (a3 & f3 & x3 & -> & Hc3). rewrite Hr2 in Hc3. unfold since in Hc3.
    destruct Hc3 as [(_ & Hcl & ->)|(Hbad & _)]; [|lia]. split; [exact Hcl|].
    destruct (teardown_received a2 b k iv2) as (ct & -> & Hrt); [by rewrite Hc2|done|done|congruence|by rewrite Hid2|done|].
    exists ct. split; [right; by left|done].
Qed.

(** C30.  A dead peer is detected: an active link that has heard nothing for
    its stale time is closed by at most three ticks, the second within the
    keepalive interval of the first and the third after the grace period of the
    second; the teardown message it then sends closes the peer if it is there
    after all. *)
Theorem dead_peer_closed seed a b t t1 t2 iv iv1 iv2 : ends seed a b → l_state a = Active → array_ok 16 (l_id a) →
  length iv1 = 16%nat → length iv2 = 16%nat → is_stale_at (l_keepalive a) t = true →
  t ≤ t1 < t + jittered (l_keepalive a) → stale_grace_timeout (default (from_secs 1) (rtt (l_timing a))) ≤ t2 - t1 → t1 ≤ t2 →
  let '(a1, _, _) := tick_at a t iv in
  let '(a2, _, x2) := tick_at a1 t1 iv1 in let '(a3, _, x3) := tick_at a2 t2 iv2 in
  is_closed a3 CrTimeout ∧ ∃ ct b', SendTeardownAndClose ct ∈ [x2; x3] ∧ receive_teardown b ct = (b', failed_callbacks b, true) ∧
    is_closed b' CrDestinationClosed.
Proof.
  intros He Hs Hid Hi1 Hi2 Hstale Ht1 Hg Ht2. destruct (ends_share _ _ _ He) as (Hib & k & Ha & Hb & Hk).
  destruct (tick_silent a t iv Hs Hstale) as (a1 & f1 & x1 & -> & Hid1 & Hc1 & Hr1 & Hcase).
  destruct Hcase as [(_ & Hs1 & _ & Hk1)|(_ & Hs1 & _ & Hst1)].
  - assert (Hstale1 : is_stale_at (l_keepalive a1) t1 = true).
    { rewrite Hk1. unfold is_stale_at in *. change (latest_evidence (mark_keepalive_sent_at _ _)) with (latest_evidence (l_keepalive a)).
      change (stale_time (mark_keepalive_sent_at _ _)) with (stale_time (l_keepalive a)). apply Z.leb_le in Hstale. apply Z.leb_le. unfold since in *. lia. }
    destruct (tick_silent a1 t1 iv1 Hs1 Hstale1) as (a2 & f2 & x2 & -> & Hid2 & Hc2 & Hr2 & Hcase2).
    destruct Hcase2 as [(Hsend & _)|(_ & Hs2 & _ & Hst2)].
    { exfalso. rewrite Hk1 in Hsend. unfold should_send_keepalive_at in Hsend. change (jittered (mark_keepalive_sent_at _ _)) with (jittered (l_keepalive a)) in Hsend.
      cbn [last_keepalive_sent mark_keepalive_sent_at] in Hsend. apply andb_true_iff in Hsend as [_ Hsend%Z.leb_le]. unfold since in Hsend. lia. }
    destruct (tick_stale a2 t1 t2 iv2 Hs2 Hst2) as (a3 & f3 & x3 & -> & Hc3). rewrite Hr2, Hr1 in Hc3. unfold since in Hc3.
    destruct Hc3 as [(_ & Hcl & ->)|(Hbad & _)]; [|lia]. split; [exact Hcl|].
    destruct (teardown_received a2 b k iv2) as (ct & -> & Hrt); [by rewrite Hc2, Hc1|done|done|congruence|by rewrite Hid2, Hid1|done|].
    exists ct, (close b CrDestinationClosed).1. split; [right; by left|]. split; [done|apply close_closed].
  - pose proof (stale_closes a1 b t t1 t2 iv1 iv2) as Hsc. rewrite Hr1, Hid1 in Hsc. unfold shares in Hsc. rewrite Hid1, Hc1 in Hsc.
    destruct (tick_at a1 t1 iv1) as [[a2 f2] x2]. destruct (tick_at a2 t2 iv2) as [[a3 f3] x3].
    destruct Hsc as (Hcl & ct & Hin & Hrt); [eauto|done..|lia|lia|lia|]. split; [done|]. exists ct, (close b CrDestinationClosed).1.
    split; [done|]. split; [done|apply close_closed].
Qed.
End session.

(** ** Witnesses *)

#[local] Existing Instance toy_digest.
#[local] Existing Instance toy_ed.

Lemma zero_jitter : jitter_ok f_zero.
Proof. split_and!; reflexivity. Qed.

(** Two ends of a link to the destination of key 9. *)
Definition demo_keys : LinkKeys := {| signing_key := replicate 32 1; encryption_key := replicate 32 2 |}.
Definition demo_keepalive (initiator : bool) : KeepaliveState :=
  mkKeepalive (360 * NANOS) (720 * NANOS) initiator 0 None 0 None None (Some 0) 0 false.
Definition demo_end (initiator : bool) (c : LinkCrypto) : Link :=
  mkLink (replicate 16 7) Active None initiator 1 1 LinkMtu_BASE c (mkTiming 0 (Some 1000) 0 (Some 0) None) (demo_keepalive initiator) 500 431
    fresh_resources [] (mkRates 0 None None None) (replicate 16 3) None false (mkTraffic 0 0 0 0) (mkPhy None None None) false false no_callbacks.
Definition demo_initiator : Link :=
  demo_end true (mkCrypto (Some (eph_generate [5] [6])) (Some (x_pub [8])) (Some (vk_bytes (ed_public [9]))) None (Some demo_keys)).
Definition demo_responder : Link :=
  demo_end false (mkCrypto (Some (eph_generate [8] [4])) (Some (x_pub [5])) (Some (vk_bytes (ed_public [6]))) (Some [9]) (Some demo_keys)).

Lemma demo_paired : paired [9] demo_initiator demo_responder.
Proof.
  split; try done.
  - exists demo_keys. split_and!; [done..|]. unfold keys_ok, key_len_ok. left. reflexivity.
  - by exists (eph_generate [5] [6]).
Qed.

Lemma link_establishes_witness :
  ∃ i req r proof i' pkt r',
    new_initiator (replicate 16 3) 2 [5] [6] 0 f_zero = @Ok HandshakeError _ (i, req) ∧
    new_responder req [9] (replicate 16 3) 1 [8] [4] 100 f_zero = Ok (r, proof) ∧
    validate_proof i proof (ed_public [9]) (vk_bytes (ed_public [9])) 1000 (replicate 16 1) f_zero = (i', Ok pkt) ∧
    receive_rtt_packet r pkt 2000 f_zero = (r', Ok tt) ∧ l_state i' = Active ∧ l_state r' = Active ∧ paired [9] i' r'.
Proof.
  destruct (link_establishes (replicate 16 3) 2 1 [5] [6] [8] [4] [9] 0 100 1000 2000 f_zero f_zero f_zero f_zero (replicate 16 1))
    as (i & req & r & proof & i' & pkt & r' & p & H1 & H2 & H3 & H4 & H5 & H6 & H7 & _);
    [unfold u8; lia|unfold u8; lia|apply zero_jitter..|reflexivity|].
  exists i, req, r, proof, i', pkt, r'. exact (conj H1 (conj H2 (conj H3 (conj H4 (conj H5 (conj H6 H7)))))).
Defined.

Lemma link_proof_authentic_witness : (validate_proof demo_initiator [] (ed_public [9]) [] 0 (replicate 16 1) f_zero).1 = demo_initiator.
Proof.
  pose proof (link_proof_authentic demo_initiator [] (ed_public [9]) [] 0 (replicate 16 1) f_zero eq_refl zero_jitter) as H.
  assert (He : check_proof demo_initiator [] (ed_public [9]) [] 0 (replicate 16 1) = Err HInvalidSignature).
  { unfold check_proof. rewrite decide_True by discriminate. reflexivity. }
  unfold validate_proof in *. rewrite He in *. exact H.
Defined.

Lemma packet_proofs_cross_witness : ∃ p, prove_packet_with_local_signer demo_initiator (replicate 32 5) = Ok p ∧
  validate_packet_proof demo_responder (replicate 32 5) p = true.
Proof.
  destruct (packet_proofs_cross [9] demo_initiator demo_responder (replicate 32 5) demo_paired eq_refl) as [H _];
    [left|right; left|exact H].
Defined.

Lemma identification_final_witness : ∃ ct, identify demo_initiator (replicate 32 4 ++ vk_bytes (ed_public [2])) [2] (replicate 16 1) = Ok ct ∧
  (handle_identification demo_responder ct).2 = Ok (replicate 32 4 ++ vk_bytes (ed_public [2])).
Proof.
  destruct (identification_final [9] demo_initiator demo_responder (replicate 32 4) (replicate 32 4 ++ vk_bytes (ed_public [2])) [2] (replicate 16 1) demo_paired eq_refl)
    as [(ct & H1 & H2) _]; try reflexivity;
    [right; left|apply (bool_decide_eq_true_1 _); reflexivity|apply (bool_decide_eq_true_1 _); reflexivity|].
  exists ct. split; [exact H1|]. rewrite H2. reflexivity.
Defined.

Lemma teardown_closes_both_witness : ∃ a' ct b', teardown demo_responder CrDestinationClosed (replicate 16 1) = (a', [], Some ct) ∧
  receive_teardown demo_initiator ct = (b', [], true) ∧ is_closed b' CrDestinationClosed.
Proof.
  destruct (teardown_closes_both [9] demo_responder demo_initiator CrDestinationClosed (replicate 16 1)) as (a' & ct & b' & H1 & H2 & _ & H3 & _);
    [right; exact demo_paired|discriminate|apply (bool_decide_eq_true_1 _); reflexivity|reflexivity|].
  exists a', ct, b'. exact (conj H1 (conj H2 H3)).
Defined.

Lemma request_roundtrip_witness : ∃ i1 ct rct, 
  (request demo_initiator "/page" (Some [200; 1]) NANOS f_zero 0 (replicate 16 1)) =
    (i1, Ok (ct, request_id_of "/page" (payload_value (Some [200; 1])) f_zero)) ∧
  create_response demo_responder (request_id_of "/page" (payload_value (Some [200; 1])) f_zero) [7] (replicate 16 2) = Ok rct ∧
  payload_value (Some [7]) = MpInt 7.
Proof.
  destruct (request_roundtrip [9] demo_initiator demo_responder "/page" (Some [200; 1]) NANOS f_zero 0 (replicate 16 1) [7] (replicate 16 2) NANOS 0%nat
    demo_paired eq_refl eq_refl eq_refl eq_refl) as (i1 & ct & q & rct & ans & H1 & _ & _ & H4 & _).
  - split; [|unfold MP_MAX_DEPTH; vm_compute; lia]. vm_compute. split; [reflexivity|]. repeat constructor; vm_compute; discriminate.
  - split; [vm_compute; split; discriminate|]. unfold MP_MAX_DEPTH. vm_compute. lia.
  - constructor.
  - exists i1, ct, rct. split; [exact H1|]. split; [exact H4|]. vm_compute. reflexivity.
Defined.

(** Silence for 720 seconds, a tick a second later, and one ten seconds on. *)
Lemma dead_peer_closed_witness :
  is_closed (tick_at (tick_at (tick_at demo_initiator (720 * NANOS) []).1.1 (721 * NANOS) (replicate 16 1)).1.1 (731 * NANOS) (replicate 16 2)).1.1 CrTimeout.
Proof.
  pose proof (dead_peer_closed [9] demo_initiator demo_responder (720 * NANOS) (721 * NANOS) (731 * NANOS) [] (replicate 16 1) (replicate 16 2)
    (or_introl demo_paired) eq_refl) as H.
  destruct (tick_at demo_initiator (720 * NANOS) []) as [[a1 f1] x1] eqn:E1. cbn [fst].
  destruct (tick_at a1 (721 * NANOS) (replicate 16 1)) as [[a2 f2] x2] eqn:E2. cbn [fst].
  destruct (tick_at a2 (731 * NANOS) (replicate 16 2)) as [[a3 f3] x3] eqn:E3. cbn [fst].
  apply H; [apply (bool_decide_eq_true_1 _)| | | | | |]; try reflexivity; vm_compute; try (split; [discriminate|reflexivity]); discriminate.
Defined.

(** A keepalive that is due hides staleness: an initiator whose ticks are
    further apart than its keepalive interval sends a keepalive on each of them
    and stays active, however long the peer has been silent. *)
Example due_keepalive_hides_staleness :
  let tick l t := tick_at l (t * NANOS) (replicate 16 1) in
  let '(l1, _, x1) := tick demo_initiator 720 in let '(l2, _, x2) := tick l1 1080 in let '(l3, _, x3) := tick l2 100000 in
  (x1, x2, x3, l_state l3) = (SendKeepalive, SendKeepalive, SendKeepalive, Active) ∧ is_stale_at (l_keepalive l3) (100000 * NANOS) = true.
Proof. vm_compute. split; reflexivity. Qed.
