(* ===== verification/LinkLife.v ===== *)
(** * The life cycle of a link

    Every state-changing operation of [rns-link/src/link.rs] as one step
    relation, the invariant of a link, and what any sequence of operations,
    in any order and with any arguments, can do to it. *)

From S2P Require Import Prelude Wire Packet LinkSignalling Receipt Token Ifac F64 Channel LinkChannel Identity Msgpack.
From S2P Require Import Keepalive LinkRequest Handshake Link LinkSession.
From stdpp Require Import prelude list strings relations.

Open Scope Z_scope.

Section life.
Context `{DL : DigestLaws} `{ED : Ed25519} `{K : !Ed25519Keys} `{S : Ed25519Signer} `{KL : !Ed25519KeysLaws K S} `{SL : !Ed25519SignerLaws S}
  `{CL : Curve25519Laws} `{HK : HkdfLaws} `{AL : AesCbcLaws} `{HM : HmacLaws} `{ML : MsgpackLaws}.

(** ** Operations *)

Inductive link_step : Link → Link → Prop :=
| s_extend l s l' : try_extend_establishment_timeout l s = Ok l' → link_step l l'
| s_proof l proof key pub now iv j : length iv = 16%nat → jitter_ok j → link_step l (validate_proof l proof key pub now iv j).1
| s_rtt l data now j : jitter_ok j → link_step l (receive_rtt_packet l data now j).1
| s_identify l data : link_step l (handle_identification l data).1
| s_request l path data timeout ts now iv : link_step l (request l path data timeout ts now iv).1
| s_request_str l path data timeout ts now iv : link_step l (request_str l path data timeout ts now iv).1
| s_prepare l path data timeout ts now : link_step l (prepare_request l path data timeout ts now).1
| s_sending l id : link_step l (mark_request_resource_sending l id).1
| s_sent l id now : link_step l (mark_request_resource_sent l id now).1
| s_rename l old new : link_step l (update_pending_request_id l old new).1
| s_fail l id : link_step l (fail_pending_request l id).1.1
| s_deliver l id data now : link_step l (deliver_response_data l id data now).1.1
| s_response l data now : link_step l (handle_response l data now).1.1
| s_response_plain l data now : link_step l (handle_response_plaintext l data now).1.1
| s_update_rtt l data j : jitter_ok j → link_step l (update_rtt_from_packet l data j).1
| s_channel l : link_step l (mark_channel_created l)
| s_strategy l s : link_step l (set_resource_strategy l s)
| s_track_in l h : link_step l (track_incoming_resource l h)
| s_track_out l h : link_step l (track_outgoing_resource l h)
| s_untrack l h : link_step l (untrack_resource l h)
| s_tx l n now : link_step l (record_tx l n now)
| s_tx_keepalive l n now : link_step l (record_tx_keepalive l n now)
| s_rx l n : link_step l (record_rx l n)
| s_track_phy l b : link_step l (track_phy_stats l b)
| s_phy l r s x : link_step l (update_phy_stats l r s x)
| s_phy_force l r s x : link_step l (update_phy_stats_force l r s x)
| s_tick l now iv : link_step l (tick_at l now iv).1.1
| s_inbound l now : link_step l (record_inbound l now)
| s_teardown l reason iv : link_step l (teardown l reason iv).1.1
| s_receive_teardown l data : link_step l (receive_teardown l data).1.1
| s_mark_closed l reason : link_step l (mark_closed l reason).1
| s_signing_key l key : link_step l (set_signing_key l key)
| s_packet_cb l cb : link_step l (set_packet_callback l cb)
| s_resource_cb l cb : link_step l (set_resource_callback l cb)
| s_identified_cb l cb : link_step l (set_remote_identified_callback l cb)
| s_established_cb l cb : link_step l (set_link_established_callback l cb)
| s_closed_cb l cb : link_step l (set_link_closed_callback l cb)
| s_cost l n : link_step l (add_establishment_cost l n)
| s_concluded l size d incoming : link_step l (resource_concluded l size d incoming)
| s_register_out l : link_step l (register_outgoing_resource l)
| s_register_in l : link_step l (register_incoming_resource l)
| s_update_out l i s : link_step l (update_outgoing_resource_state l i s).

(** ** Invariant *)

Definition unkeyed (c : LinkCrypto) : Prop :=
  ephemeral_keys c = None ∧ peer_x25519_pub c = None ∧ peer_packet_proof_key c = None ∧ l_session_keys c = None.

Definition link_inv (l : Link) : Prop :=
  (identified l = true ↔ is_Some (remote_identity_pub l)) ∧ ka_initiator (l_keepalive l) = is_initiator l ∧
  match l_state l with
  | Pending => is_initiator l = true ∧ teardown_reason l = None ∧ l_session_keys (l_crypto l) = None ∧ is_Some (ephemeral_keys (l_crypto l)) ∧
      activated_at (l_timing l) = None ∧ stale_since (l_timing l) = None ∧ pending_requests l = []
  | Handshake => is_initiator l = false ∧ teardown_reason l = None ∧ is_Some (l_session_keys (l_crypto l)) ∧
      activated_at (l_timing l) = None ∧ stale_since (l_timing l) = None ∧ pending_requests l = []
  | Active => teardown_reason l = None ∧ is_Some (l_session_keys (l_crypto l)) ∧ is_Some (activated_at (l_timing l)) ∧ stale_since (l_timing l) = None
  | Stale => teardown_reason l = None ∧ is_Some (l_session_keys (l_crypto l)) ∧ is_Some (activated_at (l_timing l)) ∧ is_Some (stale_since (l_timing l))
  | Closed => is_Some (teardown_reason l) ∧ unkeyed (l_crypto l) ∧ pending_requests l = []
  end.

(** The transitions of the state machine. *)
Definition allowed (s s' : LinkState) : bool :=
  match s, s' with
  | Pending, (Pending | Active | Closed) | Handshake, (Handshake | Active | Closed)
  | Active, (Active | Stale | Closed) | Stale, (Stale | Active | Closed) | Closed, Closed => true
  | _, _ => false
  end.

(** What no operation changes, or changes once. *)
Definition progress (l l' : Link) : Prop :=
  allowed (l_state l) (l_state l') = true ∧ l_id l' = l_id l ∧ is_initiator l' = is_initiator l ∧ l_destination_hash l' = l_destination_hash l ∧
  (∀ p, remote_identity_pub l = Some p → remote_identity_pub l' = Some p) ∧
  (∀ k, l_session_keys (l_crypto l) = Some k → l_session_keys (l_crypto l') = Some k ∨ l_state l' = Closed) ∧
  (∀ r, teardown_reason l = Some r → teardown_reason l' = Some r).

(** ** Steps that leave the life cycle alone *)

Definition inert (l l' : Link) : Prop :=
  l_state l' = l_state l ∧ teardown_reason l' = teardown_reason l ∧ is_initiator l' = is_initiator l ∧ l_id l' = l_id l ∧
  l_destination_hash l' = l_destination_hash l ∧
  (ephemeral_keys (l_crypto l') = ephemeral_keys (l_crypto l) ∧ peer_x25519_pub (l_crypto l') = peer_x25519_pub (l_crypto l) ∧
   peer_packet_proof_key (l_crypto l') = peer_packet_proof_key (l_crypto l) ∧ l_session_keys (l_crypto l') = l_session_keys (l_crypto l)) ∧
  activated_at (l_timing l') = activated_at (l_timing l) ∧ stale_since (l_timing l') = stale_since (l_timing l) ∧
  remote_identity_pub l' = remote_identity_pub l ∧ identified l' = identified l ∧
  ka_initiator (l_keepalive l') = ka_initiator (l_keepalive l) ∧
  (l_state l = Active ∨ (pending_requests l = [] → pending_requests l' = [])).

Lemma allowed_refl s : allowed s s = true.
Proof. by destruct s. Qed.

Lemma inert_ok l l' : inert l l' → link_inv l → link_inv l' ∧ progress l l'.
Proof.
  intros (Hs & Ht & Hi & Hid & Hd & (Hc1 & Hc2 & Hc3 & Hc4) & Ha & Hst & Hr & Hin & Hk & Hp) (Hv1 & Hv2 & Hv3). split.
  - unfold link_inv, unkeyed. rewrite Hs, Ht, Hi, Hc1, Hc2, Hc3, Hc4, Ha, Hst, Hr, Hin, Hk. split; [done|]. split; [done|].
    destruct (l_state l); try tauto; destruct Hp as [|Hp]; done || (unfold unkeyed in Hv3; tauto).
  - unfold progress. rewrite Hs, Ht, Hi, Hid, Hd, Hc4, Hr. split_and!; auto using allowed_refl.
Qed.
Lemma inert_refl l : inert l l.
Proof. unfold inert. tauto. Qed.
Lemma inert_pending l p : l_state l = Active → inert l (set_pending l p).
Proof. intros Hs. unfold inert. cbn. tauto. Qed.
Lemma inert_pending_nil l p : (pending_requests l = [] → p = []) → inert l (set_pending l p).
Proof. intros Hs. unfold inert. cbn. tauto. Qed.

Lemma update_initiator {E} k r j k' : update_from_rtt k r j = @Ok E _ k' → ka_initiator k' = ka_initiator k.
Proof. unfold update_from_rtt, secs. repeat case_match; cbn [res_bind]; try done. by intros [= <-]. Qed.

(** ** The other steps *)

Lemma prepare_cases l path v timeout ts now :
  (∃ e, prepare_request_value l path v timeout ts now = (l, Err e)) ∨
  l_state l = Active ∧ ∃ p r, prepare_request_value l path v timeout ts now = (set_pending l p, r).
Proof.
  unfold prepare_request_value. case_decide as Hs; [left; by eexists|]. rewrite !truncated_hash_ok. right. split; [done|]. by eexists _, _.
Qed.
Lemma prepare_inert l path v timeout ts now : inert l (prepare_request_value l path v timeout ts now).1.
Proof. destruct (prepare_cases l path v timeout ts now) as [[e ->]|(Hs & p & r & ->)]; [apply inert_refl|by apply inert_pending]. Qed.

Lemma seal_inert l path v timeout ts now iv : inert l (seal_request (prepare_request_value l path v timeout ts now) iv).1.
Proof.
  destruct (prepare_cases l path v timeout ts now) as [[e ->]|(Hs & p & r & ->)]; [apply inert_refl|]. unfold seal_request.
  destruct r as [[packed rid]|e|]; [destruct (l_encrypt _ packed iv)|..]; apply (inert_pending l); done.
Qed.

Lemma receipt_inert l id f : inert l (on_receipt l id f).1.
Proof.
  unfold on_receipt. destruct (has_receipt l id) eqn:Hh; [|apply inert_refl]. apply inert_pending_nil. intros Hp. unfold has_receipt in Hh. by rewrite Hp in Hh.
Qed.
Lemma conclude_inert l id f : inert l (conclude_receipt l id f).1.1.
Proof.
  unfold conclude_receipt. destruct (find _ _) eqn:Hh; [|apply inert_refl]. apply inert_pending_nil. intros Hp. by rewrite Hp in Hh.
Qed.
Lemma response_inert l data now : inert l (handle_response_plaintext l data now).1.1.
Proof.
  unfold handle_response_plaintext. destruct (parse_response_plaintext data) as [[id d]|e|]; [|apply inert_refl..].
  pose proof (conclude_inert l id (λ r, receive_response r d now)) as Hc. unfold deliver_response_data. by destruct (conclude_receipt _ _ _) as [[]].
Qed.

Lemma update_rtt_inert l data j : inert l (update_rtt_from_packet l data j).1.
Proof.
  unfold update_rtt_from_packet. destruct (let* plaintext := l_decrypt l data in _) as [r|e|]; [|apply inert_refl..]. cbv zeta.
  set (l1 := set_timing l _). assert (H1 : inert l l1) by (unfold inert, l1; cbn; tauto).
  destruct (update_from_rtt (l_keepalive l1) r j) as [k|e|] eqn:Hk; [|done|done]. apply update_initiator in Hk. unfold inert, l1 in *. cbn in *. tauto.
Qed.

Lemma identify_cases l data : (handle_identification l data).1 = l ∨
  remote_identity_pub l = None ∧ ∃ p, (handle_identification l data).1 = set_identity l (Some p) true.
Proof.
  unfold handle_identification. case_match; [by left|]. destruct (let* plaintext := l_decrypt l data in _) as [p|e|]; [|by left..].
  destruct (remote_identity_pub l) eqn:Hr; [by left|]. right. split; [done|]. by exists p.
Qed.

Lemma rtt_cases l data now j : inert l (receive_rtt_packet l data now j).1 ∨
  let l' := (receive_rtt_packet l data now j).1 in
  l_state l = Handshake ∧ l_state l' = Active ∧ kept l l' ∧ l_crypto l' = l_crypto l ∧
  is_Some (activated_at (l_timing l')) ∧ stale_since (l_timing l') = stale_since (l_timing l).
Proof.
  unfold receive_rtt_packet. case_decide as Hs; [left; apply inert_refl|].
  destruct (map_err HSignalling _) as [mdu|e|]; [|left; apply inert_refl..]. cbv zeta. set (l1 := set_rates l _).
  assert (H1 : inert l l1) by (unfold inert, l1; cbn; tauto). destruct (l_decrypt l1 data) as [pt|e|]; [|left; exact H1..].
  set (o := adopted_rtt pt _). assert (Hk : ∀ k, match o with Some r => update_from_rtt (l_keepalive l1) r j | None => Ok (l_keepalive l1) end = @Ok HandshakeError _ k →
    ka_initiator k = ka_initiator (l_keepalive l)).
  { intros k. destruct o; [apply update_initiator|by intros [= <-]]. }
  destruct (match o with Some r => _ | None => _ end) as [k|e|]; [|left; exact H1..]. right. specialize (Hk k eq_refl). cbn. unfold kept. cbn.
  split_and!; try done.
Qed.

(** Closing. *)
Lemma close_ok l reason : l_state l ≠ Closed → link_inv l → link_inv (close l reason).1 ∧ progress l (close l reason).1.
Proof.
  intros Hs (Hv1 & Hv2 & Hv3). split; [split; [done|]; split; [done|]; cbn; split; [by eexists|]; done|].
  unfold progress. cbn. split_and!; try done; [by destruct (l_state l)|auto|]. intros r Hr. assert (teardown_reason l = None) by (destruct (l_state l); tauto). congruence.
Qed.

Lemma after_inert l l1 l' : inert l l1 → link_inv l' ∧ progress l1 l' → link_inv l' ∧ progress l l'.
Proof.
  intros (Hs & Ht & Hi & Hid & Hd & (_ & _ & _ & Hc4) & _ & _ & Hr & _) [Hv Hp]. split; [done|].
  unfold progress in *. by rewrite Hs, Ht, Hi, Hid, Hd, Hc4, Hr in Hp.
Qed.

Lemma stale_ok l now : l_state l = Active → link_inv l → link_inv (enter_stale l now) ∧ progress l (enter_stale l now).
Proof.
  intros Hs (H1 & H2 & H3). rewrite Hs in H3. destruct H3 as (? & ? & ? & _). unfold link_inv, progress. cbn. rewrite Hs. split_and!; eauto.
Qed.

Lemma tick_ok l now iv : link_inv l → link_inv (tick_at l now iv).1.1 ∧ progress l (tick_at l now iv).1.1.
Proof.
  intros Hv. unfold tick_at, tick_receipts. set (l1 := set_pending l _).
  assert (H1 : inert l l1) by (apply inert_pending_nil; intros ->; done). pose proof (inert_ok l l1 H1 Hv) as [Hv1 Hp1].
  destruct (l_state l1) eqn:Hs.
  1,2: destruct (_ <? _); [|by apply inert_ok]; apply (after_inert l l1); [done|]; apply close_ok; [congruence|done].
  - destruct (should_send_keepalive_at _ _); [apply (after_inert l l1); [done|]; apply inert_ok; [unfold inert; cbn; tauto|done]|].
    destruct (is_stale_at _ _); [|by apply inert_ok]. apply (after_inert l l1); [done|]. by apply stale_ok.
  - destruct (stale_since _) as [s|]; [|by apply inert_ok]. destruct (_ <=? _); [|by apply inert_ok].
    apply (after_inert l l1); [done|]. apply close_ok; [congruence|done].
  - by apply inert_ok.
Qed.

Lemma proof_ok l proof key pub now iv j : length iv = 16%nat → jitter_ok j → link_inv l →
  link_inv (validate_proof l proof key pub now iv j).1 ∧ progress l (validate_proof l proof key pub now iv j).1.
Proof.
  intros Hiv Hj Hv. pose proof (check_proof_inv l proof key pub now iv Hiv) as Hc.
  destruct (check_proof l proof key pub now iv) as [[[[[x checked] mdu] keys] pkt]|e|] eqn:He; [|unfold validate_proof; rewrite He; apply inert_ok; [apply inert_refl|done]|done].
  destruct (validate_activates l proof key pub now iv j _ _ _ _ _ Hj He)
    as (l' & -> & (K1 & K2 & K3 & K4 & K5 & K6 & _ & _ & _ & K7) & Hs & _ & _ & _ & Hcr & _ & Ha & Hst).
  destruct Hc as (Hp & _). destruct Hv as (Hv1 & Hv2 & Hv3). rewrite Hp in Hv3. destruct Hv3 as (_ & Ht & Hk & _ & _ & Hsn & _). cbn [fst].
  unfold link_inv, progress. rewrite Hs, Hcr, K1, K2, K3, K4, K5, K6, K7, Ha, Hst, Hp. cbn. split_and!; try done. intros k. by rewrite Hk.
Qed.

Lemma rtt_ok l data now j : link_inv l → link_inv (receive_rtt_packet l data now j).1 ∧ progress l (receive_rtt_packet l data now j).1.
Proof.
  intros Hv. destruct (rtt_cases l data now j) as [Hi|(Hp & Hs & (K1 & K2 & K3 & K4 & K5 & K6 & _ & _ & _ & K7) & Hcr & Ha & Hst)]; [by apply inert_ok|].
  set (l' := (receive_rtt_packet l data now j).1) in *. destruct Hv as (Hv1 & Hv2 & Hv3). rewrite Hp in Hv3. destruct Hv3 as (_ & Ht & Hk & _ & Hsn & _).
  unfold link_inv, progress. rewrite Hs, Hcr, K1, K2, K3, K4, K5, K6, K7, Hst, Hp. split_and!; try done. auto.
Qed.

Lemma inbound_ok l now : link_inv l → link_inv (record_inbound l now) ∧ progress l (record_inbound l now).
Proof.
  intros Hv. unfold record_inbound. cbv zeta. set (l1 := set_keepalive l _). assert (H1 : inert l l1) by (unfold inert, l1; cbn; tauto).
  case_decide as Hs; [|by apply inert_ok]. change (l_state l1) with (l_state l) in Hs. destruct Hv as (Hv1 & Hv2 & Hv3). rewrite Hs in Hv3.
  unfold link_inv, progress. cbn. rewrite Hs. split_and!; try tauto; auto.
Qed.

Lemma identify_ok l data : link_inv l → link_inv (handle_identification l data).1 ∧ progress l (handle_identification l data).1.
Proof.
  intros Hv. destruct (identify_cases l data) as [->|(Hn & p & ->)]; [apply inert_ok; [apply inert_refl|done]|].
  destruct Hv as (Hv1 & Hv2 & Hv3). unfold link_inv, progress. cbn. rewrite Hn, allowed_refl. split_and!; eauto; done.
Qed.

Lemma teardown_ok l reason iv data :
  link_inv l → (link_inv (teardown l reason iv).1.1 ∧ progress l (teardown l reason iv).1.1) ∧
    (link_inv (receive_teardown l data).1.1 ∧ progress l (receive_teardown l data).1.1).
Proof.
  intros Hv. pose proof (inert_ok l l (inert_refl l) Hv) as Hr. split.
  - unfold teardown. case_decide as Hs; [done|]. by apply close_ok.
  - unfold receive_teardown. destruct (l_decrypt l data) as [pt|e|] eqn:Hd; [|done|done]. destruct (_ && _); [|done]. apply close_ok; [|done].
    intros Hs. destruct Hv as (_ & _ & Hv3). rewrite Hs in Hv3. destruct Hv3 as (_ & (_ & _ & _ & Hk) & _). unfold l_decrypt in Hd. by rewrite Hk in Hd.
Qed.

Lemma extend_inert l s l' : try_extend_establishment_timeout l s = Ok l' → inert l l'.
Proof.
  unfold try_extend_establishment_timeout. destruct (try_from_secs_f64 s); [|done]. cbn [ok_or res_bind]. destruct (dur_checked_add _ _); [|done].
  cbn [ok_or res_bind]. destruct (instant_add _ _); [|done]. cbn [ok_or res_bind]. intros [= <-]. unfold inert. cbn. tauto.
Qed.

Lemma step_ok l l' : link_step l l' → link_inv l → link_inv l' ∧ progress l l'.
Proof.
  intros Hst Hv. destruct Hst; try (apply inert_ok; [unfold inert; cbn; tauto|exact Hv]).
  - by apply inert_ok; [eapply extend_inert|].
  - by apply proof_ok.
  - by apply rtt_ok.
  - by apply identify_ok.
  - by apply inert_ok; [apply seal_inert|].
  - by apply inert_ok; [apply seal_inert|].
  - by apply inert_ok; [apply prepare_inert|].
  - by apply inert_ok; [apply receipt_inert|].
  - by apply inert_ok; [apply receipt_inert|].
  - by apply inert_ok; [apply receipt_inert|].
  - by apply inert_ok; [apply conclude_inert|].
  - by apply inert_ok; [apply conclude_inert|].
  - apply inert_ok; [|done]. unfold handle_response. destruct (l_decrypt l data); [apply response_inert|apply inert_refl..].
  - by apply inert_ok; [apply response_inert|].
  - by apply inert_ok; [apply update_rtt_inert|].
  - apply inert_ok; [|done]. unfold update_phy_stats. destruct (negb _); unfold inert; cbn; tauto.
  - by apply tick_ok.
  - by apply inbound_ok.
  - by apply (teardown_ok l reason iv []).
  - by apply (teardown_ok l CrTimeout [] data).
  - unfold mark_closed. case_decide; [by apply close_ok|apply inert_ok; [apply inert_refl|done]].
  - apply inert_ok; [|done]. unfold set_signing_key. case_decide; unfold inert; cbn; tauto.
  - apply inert_ok; [|done]. unfold resource_concluded. destruct incoming; unfold inert; cbn; tauto.
  - apply inert_ok; [|done]. unfold update_outgoing_resource_state. case_decide; unfold inert; cbn; tauto.
Qed.

(** ** Links as created *)

Definition created (l : Link) : Prop :=
  (∃ dest hops xs es now j req, new_initiator dest hops xs es now j = @Ok HandshakeError _ (l, req)) ∨
  (∃ req pub dest hops key sign xr er now j proof, new_responder_inner req pub dest hops key sign xr er now j = Ok (l, proof)).

Lemma ka_new_initiator {E} i j now k : ka_new i j now = @Ok E _ k → ka_initiator k = i.
Proof. unfold ka_new. destruct (secs KEEPALIVE_DEFAULT), (secs STALE_TIME_DEFAULT); cbn [res_bind]; try done. destruct (secs _); try done. by intros [= <-]. Qed.

Lemma created_inv l : created l → link_inv l.
Proof.
  intros [(dest & hops & xs & es & now & j & req & Hn)|(req & pub & dest & hops & key & sign & xr & er & now & j & proof & Hn)].
  - unfold new_initiator in Hn. destruct (lr_pack _ _) as [rd|e|]; [|done|done]. cbn [res_bind] in Hn. destruct (compute_link_id dest rd) as [id|e|]; [|done|done].
    cbn [res_bind] in Hn. destruct (secs _); [|done|done]. cbn [res_bind] in Hn. destruct (ka_new true j now) as [k|e|] eqn:Hk; [|done|done].
    apply ka_new_initiator in Hk. cbn [res_bind] in Hn. injection Hn as <- _. unfold link_inv. cbn. rewrite is_Some_alt. split_and!; try done; by eexists.
  - unfold new_responder_inner in Hn. destruct (lr_unpack req) as [r|e|]; [|done|done]. cbn [res_bind] in Hn.
    destruct (compute_link_id dest req) as [id|e|]; [|done|done]. cbn [res_bind] in Hn. case_decide; [done|].
    destruct (map_err HSignalling (try_from_signal _)); [|done|done]. cbn [res_bind] in Hn. destruct (map_err HSignalling (checked_mdu _)); [|done|done].
    cbn [res_bind] in Hn. destruct (map_err HKeyDerivation _) as [keys|e|]; [|done|done]. cbn [res_bind] in Hn.
    destruct (map_err HSignalling (sd_try_new _ _)) as [sd|e|]; [|done|done]. cbn [res_bind] in Hn. destruct (sd_pack sd); [|done|done]. cbn [res_bind] in Hn.
    destruct (ok_or (sign _) _); [|done|done]. cbn [res_bind] in Hn. destruct (lp_pack _); [|done|done]. cbn [res_bind] in Hn.
    destruct (secs _); [|done|done]. cbn [res_bind] in Hn. destruct (ka_new false j now) as [k|e|] eqn:Hk; [|done|done]. apply ka_new_initiator in Hk.
    cbn [res_bind] in Hn. injection Hn as <- _. unfold link_inv. cbn. rewrite is_Some_alt. split_and!; try done; by eexists.
Qed.

(** ** Any sequence of operations *)

Lemma run_ok l l' : rtc link_step l l' → link_inv l →
  link_inv l' ∧ l_id l' = l_id l ∧ is_initiator l' = is_initiator l ∧ l_destination_hash l' = l_destination_hash l ∧
  (∀ p, remote_identity_pub l = Some p → remote_identity_pub l' = Some p) ∧ (l_state l = Closed → l_state l' = Closed) ∧
  (∀ k, l_session_keys (l_crypto l) = Some k → l_session_keys (l_crypto l') = Some k ∨ l_state l' = Closed) ∧
  (∀ r, teardown_reason l = Some r → teardown_reason l' = Some r).
Proof.
  induction 1 as [l|l l1 l' Hs Hr IH]; intros Hv; [split_and!; auto|].
  destruct (step_ok l l1 Hs Hv) as [Hv1 (P1 & P2 & P3 & P4 & P5 & P6 & P7)]. destruct (IH Hv1) as (Q0 & Q1 & Q2 & Q3 & Q4 & Q5 & Q6 & Q7).
  split_and!; try congruence; auto.
  - intros Hc. rewrite Hc in P1. apply Q5. by destruct (l_state l1).
  - intros k Hk. destruct (P6 k Hk) as [Hk1|Hc]; [by apply Q6|right; by apply Q5].
Qed.

(** C9.  The life cycle of a link: however its operations are called, a link
    created by either role stays consistent.  Its state moves only from pending
    or handshake to active, between active and stale, and from anywhere to
    closed; its identifier, role and destination never change, an identified
    peer stays that peer, and session keys stay the same until it closes.  An
    active or stale link has session keys and an activation time, a pending one
    has none.  A closed link stays closed for the same reason, without session,
    ephemeral or peer keys and without pending requests. *)
Theorem link_lifecycle l0 l l' : created l0 → rtc link_step l0 l → rtc link_step l l' →
  link_inv l ∧ l_id l = l_id l0 ∧ is_initiator l = is_initiator l0 ∧ l_destination_hash l = l_destination_hash l0 ∧
  (∀ l2, link_step l l2 → allowed (l_state l) (l_state l2) = true) ∧
  (∀ p, remote_identity_pub l = Some p → remote_identity_pub l' = Some p) ∧
  (∀ k, l_session_keys (l_crypto l) = Some k → l_session_keys (l_crypto l') = Some k ∨ l_state l' = Closed) ∧
  (l_state l = Closed → l_state l' = Closed ∧ teardown_reason l' = teardown_reason l ∧ unkeyed (l_crypto l') ∧ pending_requests l' = []).
Proof.
  intros Hc H1 H2. destruct (run_ok l0 l H1 (created_inv l0 Hc)) as (Hv & Hid & Hi & Hd & _). destruct (run_ok l l' H2 Hv) as (Hv' & _ & _ & _ & Hr & Hcl & Hk & Ht).
  split_and!; auto; [intros l2 Hs; by destruct (step_ok l l2 Hs Hv) as [_ [? _]]|].
  intros Hs. specialize (Hcl Hs). split; [done|]. destruct Hv as (_ & _ & Hv). rewrite Hs in Hv. destruct Hv as ([r Hr'] & _).
  destruct Hv' as (_ & _ & Hv'). rewrite Hcl in Hv'. split; [rewrite Hr'; auto|]. tauto.
Qed.
End life.

(** ** Witness *)

#[local] Existing Instance toy_digest.
#[local] Existing Instance toy_ed.

(** A new link, closed, then ticked. *)
Lemma link_lifecycle_witness : ∃ l0, created l0 ∧ l_state l0 = Pending ∧
  l_state (tick_at (mark_closed l0 CrTimeout).1 5 []).1.1 = Closed.
Proof.
  destruct (new_initiator_ok (E:=HandshakeError) (replicate 16 3) 2 [5] [6] 0 f_zero) as (l0 & Hn & _ & Hs & _); [unfold u8; lia|exact zero_jitter|].
  assert (Hc : created l0). { left. exists (replicate 16 3), 2, [5], [6], 0, f_zero. eexists. exact Hn. }
  exists l0. split; [exact Hc|]. split; [exact Hs|]. set (l := (mark_closed l0 CrTimeout).1).
  destruct (link_lifecycle l0 l (tick_at l 5 []).1.1 Hc) as (_ & _ & _ & _ & _ & _ & _ & Hcl).
  - apply rtc_once. apply s_mark_closed.
  - apply rtc_once. apply s_tick.
  - apply Hcl. unfold l, mark_closed. rewrite Hs. reflexivity.
Defined.
