(* ===== verification/ResourceAdv.v ===== *)
(** * Resource advertisements and control frames

    Models [rns-protocol/src/resource_adv.rs], [resource_control.rs], and the
    flags and hashmap-update format of [resource.rs], on the MessagePack
    interface of [Msgpack]. *)

From S2P Require Import Prelude Wire Token Msgpack.
From stdpp Require Import prelude list strings.

Open Scope Z_scope.

(** ** Constants and errors (resource.rs) *)

Definition WINDOW_MAX_FAST : nat := 75.
Definition WINDOW_MAX : nat := 75.
Definition MAPHASH_LEN : nat := 4.
Definition RANDOM_HASH_SIZE : nat := 4.
Definition SDU : nat := MDU.
Definition MAX_EFFICIENT_SIZE : Z := 1048575.
Definition METADATA_MAX_SIZE : Z := 16777215.
Definition MAX_RESOURCE_SIZE : Z := 134217727.
Definition MAX_SEGMENTS : Z := 128.

Inductive ResourceError :=
| RTooLarge
| RIncomplete
| RCorrupt
| RDecryptFailed
| RHashMismatch
| RDecompressionFailed
| RInvalidMetadata (declared available : Z)
| RControlFrameTooLarge (context : PacketContext) (encoded_len mtu : Z)
| RInvalidAdvertisement
| RMetadataTooLarge
| RDuplicateSegment.

Record ResourceFlags := mkFlags {
  f_encrypted : bool;
  f_compressed : bool;
  f_split : bool;
  f_is_request : bool;
  f_is_response : bool;
  f_has_metadata : bool;
}.

Definition flags_to_byte (f : ResourceFlags) : Z :=
  let b := 0 in
  let b := if f_encrypted f then Z.lor b 1 else b in
  let b := if f_compressed f then Z.lor b 2 else b in
  let b := if f_split f then Z.lor b 4 else b in
  let b := if f_is_request f then Z.lor b 8 else b in
  let b := if f_is_response f then Z.lor b 16 else b in
  if f_has_metadata f then Z.lor b 32 else b.

Definition flags_from_byte (b : Z) : ResourceFlags :=
  let t m := negb (Z.land b m =? 0) in
  mkFlags (t 1) (t 2) (t 4) (t 8) (t 16) (t 32).

(** ** Advertisements (resource_adv.rs) *)

Definition ADV_OVERHEAD : nat := 134.

Definition hashmap_max_len (mdu : nat) : nat :=
  if decide (ADV_OVERHEAD < mdu)%nat then ((mdu - ADV_OVERHEAD) / MAPHASH_LEN)%nat else 0.

Definition collision_guard_size (mdu : nat) : nat := 2 * WINDOW_MAX_FAST + hashmap_max_len mdu.

Record ResourceAdvertisement := mkAdv {
  transfer_size : Z;
  data_size : Z;
  num_parts : Z;
  resource_hash : bytes;
  random_hash : bytes;
  original_hash : bytes;
  segment_index : Z;
  total_segments : Z;
  request_id : option bytes;
  adv_flags : ResourceFlags;
  hashmap : bytes;
  metadata_size : Z;
}.

Definition with_metadata_size (transfer_size data_size num_parts : Z) (resource_hash random_hash : bytes)
    (flags : ResourceFlags) (map_hashes : list bytes) (mdu : nat) (metadata_size : Z) : ResourceAdvertisement :=
  let max_hashes := hashmap_max_len mdu in
  let initial_hashes := Nat.min (length map_hashes) max_hashes in
  mkAdv transfer_size data_size num_parts resource_hash random_hash resource_hash 1 1 None flags
    (concat (take initial_hashes map_hashes)) metadata_size.

Definition adv_new (transfer_size data_size num_parts : Z) (resource_hash random_hash : bytes)
    (flags : ResourceFlags) (map_hashes : list bytes) (mdu : nat) : ResourceAdvertisement :=
  with_metadata_size transfer_size data_size num_parts resource_hash random_hash flags map_hashes mdu 0.

(** [as_chunks::<N>().0]: the complete chunks. *)
Fixpoint full_chunks (fuel n : nat) (b : bytes) : list bytes :=
  match fuel with
  | O => []
  | S fuel => if decide (length b < n)%nat then [] else take n b :: full_chunks fuel n (drop n b)
  end.
Definition as_chunks (n : nat) (b : bytes) : list bytes := full_chunks (length b) n b.

Definition get_map_hashes (a : ResourceAdvertisement) : list bytes := as_chunks MAPHASH_LEN (hashmap a).

Section control.
Context `{Msgpack}.

(** The value [AdvertisementRef] serialises. *)
Definition adv_value (a : ResourceAdvertisement) : mp_value :=
  MpMap [(MpStr "t", MpInt (transfer_size a)); (MpStr "d", MpInt (data_size a)); (MpStr "n", MpInt (num_parts a));
    (MpStr "h", MpBin (resource_hash a)); (MpStr "r", MpBin (random_hash a)); (MpStr "o", MpBin (original_hash a));
    (MpStr "i", MpInt (segment_index a)); (MpStr "l", MpInt (total_segments a));
    (MpStr "q", match request_id a with Some id => MpBin id | None => MpNil end);
    (MpStr "f", MpInt (flags_to_byte (adv_flags a))); (MpStr "m", MpBin (hashmap a))].

Definition adv_pack (a : ResourceAdvertisement) : bytes := mp_encode (adv_value a).

(** [encoded_len] counts the bytes written. *)
Definition adv_encoded_len (a : ResourceAdvertisement) : res ResourceError Z :=
  let n := len (adv_pack a) in
  if n <=? USIZE_MAX then Ok n else Err RTooLarge.

(** ** Control frames (resource_control.rs) *)

Definition HASHMAP_STRIDE : nat := 74.

(** [usize] arithmetic with [None] on overflow. *)
Definition usize (n : Z) : option Z := if n <=? USIZE_MAX then Some n else None.

Definition encrypted_len (plaintext_len : Z) : res ResourceError Z :=
  ok_or (n ← usize (plaintext_len / 16); n ← usize (n + 1); n ← usize (n * 16); usize (n + 48)) RTooLarge.

Definition check_control_frame (context : PacketContext) (payload_len : Z) (encrypted : bool) (header_len mtu : Z)
    : res ResourceError () :=
  let* body := (if encrypted then encrypted_len payload_len else Ok payload_len) in
  let* encoded_len := ok_or (usize (header_len + body)) RTooLarge in
  if mtu <? encoded_len then Err (RControlFrameTooLarge context encoded_len mtu) else Ok ().

Definition HDR : Z := Z.of_nat HEADER_MINSIZE.

Definition check_advertisement (a : ResourceAdvertisement) (mtu : Z) : res ResourceError () :=
  let* n := adv_encoded_len a in
  check_control_frame ResourceAdv n true HDR mtu.

Definition encode_hashmap_update (rh : bytes) (segment : Z) (hashes : bytes) : bytes :=
  rh ++ mp_encode (MpArray [MpInt segment; MpBin hashes]).

(** [usize::div_ceil] *)
Definition div_ceil (a b : Z) : Z := (a + b - 1) / b.

Definition preflight_outbound_with_sdu (data_len : Z) (metadata_len : option Z) (request_id : option bytes)
    (is_response encrypted : bool) (part_sdu : Z) (mtu : Z) : res ResourceError () :=
  if part_sdu =? 0 then Err RInvalidAdvertisement else
  if MAX_RESOURCE_SIZE <? data_len then Err RTooLarge else
  let* metadata_wire :=
    match metadata_len with
    | Some n => ok_or (usize (n + 3)) RMetadataTooLarge
    | None => Ok 0
    end in
  if MAX_EFFICIENT_SIZE <? metadata_wire then Err RMetadataTooLarge else
  let* total_data := ok_or (usize (data_len + metadata_wire)) RTooLarge in
  let first := Z.min data_len (MAX_EFFICIENT_SIZE - metadata_wire) in
  let* total_segments := ok_or (usize (1 + div_ceil (Z.max 0 (data_len - first)) MAX_EFFICIENT_SIZE)) RTooLarge in
  if MAX_SEGMENTS <? total_segments then Err RTooLarge else
  let* _ :=
    match request_id with
    | Some id => check_control_frame ResourceAdv (len id) true HDR mtu
    | None => Ok ()
    end in
  let segment_len := Z.min total_data MAX_EFFICIENT_SIZE in
  let* blob := ok_or (usize (segment_len + Z.of_nat RANDOM_HASH_SIZE)) RTooLarge in
  let* transfer_size := (if encrypted then encrypted_len blob else Ok blob) in
  let parts := div_ceil transfer_size part_sdu in
  let hashes := replicate (Z.to_nat (Z.min parts (Z.of_nat HASHMAP_STRIDE))) (replicate MAPHASH_LEN 0) in
  let a := adv_new transfer_size total_data parts (replicate 32 0) (replicate RANDOM_HASH_SIZE 0)
    (mkFlags encrypted false (1 <? total_segments)
       (bool_decide (is_Some request_id) && negb is_response) is_response (bool_decide (is_Some metadata_len)))
    hashes LINK_MDU in
  let a := mkAdv (ResourceAdv.transfer_size a) (data_size a) (num_parts a) (resource_hash a) (random_hash a)
    (original_hash a) total_segments total_segments request_id (adv_flags a) (hashmap a) (metadata_size a) in
  let* _ := check_advertisement a mtu in
  let max_map_segment := Z.max 0 (parts - 1) / Z.of_nat HASHMAP_STRIDE in
  let hmu := encode_hashmap_update (replicate 32 0) max_map_segment (replicate (HASHMAP_STRIDE * MAPHASH_LEN) 0) in
  let* _ := check_control_frame ResourceHmu (len hmu) true HDR mtu in
  let* _ := check_control_frame ResourceReq (1 + 4 + 32 + Z.of_nat WINDOW_MAX * Z.of_nat MAPHASH_LEN) true HDR mtu in
  let* _ := check_control_frame ResourcePrf 64 false HDR mtu in
  check_control_frame ResourceIcl 32 true HDR mtu.

Definition preflight_outbound (data_len : Z) (metadata_len : option Z) (request_id : option bytes)
    (is_response encrypted : bool) (mtu : Z) : res ResourceError () :=
  preflight_outbound_with_sdu data_len metadata_len request_id is_response encrypted (Z.of_nat SDU) mtu.

(** ** Decoding *)

(** The reason an advertisement is refused, in place of the error string. *)
Inductive AdvError := AdvTooLarge (e : ResourceError) | AdvMsgpack | AdvNotMap | AdvMissing (key : string) | AdvShort (key : string) (want got : nat).

(** The first entry with that string key. *)
Fixpoint mp_get (l : list (mp_value * mp_value)) (key : string) : option mp_value :=
  match l with
  | [] => None
  | (MpStr s, v) :: rest => if String.eqb s key then Some v else mp_get rest key
  | _ :: rest => mp_get rest key
  end.

Definition get_usize (l : list (mp_value * mp_value)) (key : string) : res AdvError Z :=
  ok_or (mp_get l key ≫= as_u64) (AdvMissing key).

Definition get_bytes (l : list (mp_value * mp_value)) (key : string) (n : nat) : res AdvError bytes :=
  let* b := ok_or (mp_get l key ≫= as_slice) (AdvMissing key) in
  if decide (length b < n)%nat then Err (AdvShort key n (length b)) else Ok b.

Definition adv_unpack (d : bytes) : res AdvError ResourceAdvertisement :=
  let* _ := map_err AdvTooLarge (check_control_frame ResourceAdv (len d) true HDR (Z.of_nat MTU)) in
  let* value := ok_or (mp_read d) AdvMsgpack in
  match value with
  | MpMap m =>
      let* transfer_size := get_usize m "t" in
      let* data_size := get_usize m "d" in
      let* num_parts := get_usize m "n" in
      let* h := get_bytes m "h" 32 in
      let* hs := slice_to h 32 in
      let* resource_hash := copy_array 32 hs in
      let* random_hash := get_bytes m "r" 4 in
      let* o := get_bytes m "o" 32 in
      let* os := slice_to o 32 in
      let* original_hash := copy_array 32 os in
      let* segment_index := get_usize m "i" in
      let* total_segments := get_usize m "l" in
      let request_id :=
        match mp_get m "q" with Some MpNil => None | Some v => as_slice v | None => None end in
      let flags_byte := default 0 (mp_get m "f" ≫= as_u64) mod 256 in
      let hashmap := default [] (mp_get m "m" ≫= as_slice) in
      Ok (mkAdv transfer_size data_size num_parts resource_hash random_hash original_hash segment_index
            total_segments request_id (flags_from_byte flags_byte) hashmap 0)
  | _ => Err AdvNotMap
  end.

Definition parse_hashmap_update (d : bytes) : res ResourceError (bytes * Z * bytes) :=
  if decide (length d < 32)%nat then Err RCorrupt else
  let* h := slice_to d 32 in
  let* resource_hash := copy_array 32 h in
  let* t := slice_from d 32 in
  let* value := ok_or (mp_read t) RCorrupt in
  match value with
  | MpArray items =>
      match items with
      | [i0; i1] =>
          let* segment := ok_or (as_u64 i0) RCorrupt in
          let* hashmap := ok_or (as_slice i1) RCorrupt in
          Ok (resource_hash, segment, hashmap)
      | _ => Err RCorrupt
      end
  | _ => Err RCorrupt
  end.

End control.

(** ** Flags, chunks and sizes *)

Lemma flags_to_byte_range f : 0 ≤ flags_to_byte f < 64.
Proof. by destruct f as [[] [] [] [] [] []]. Qed.

Lemma flags_roundtrip f : flags_from_byte (flags_to_byte f mod 256) = f.
Proof. by destruct f as [[] [] [] [] [] []]. Qed.

Lemma full_chunks_concat n hs fuel : (0 < n)%nat → Forall (λ h, length h = n) hs →
  (length (concat hs) ≤ fuel)%nat → full_chunks fuel n (concat hs) = hs.
Proof.
  intros Hn Hhs. revert fuel. induction Hhs as [|h hs Hh _ IH]; intros fuel Hf; simpl in *.
  { destruct fuel; simpl; [done|]. by rewrite decide_True. }
  rewrite length_app in Hf. destruct fuel as [|fuel]; [lia|]. cbn [full_chunks].
  rewrite decide_False by (rewrite length_app; lia). rewrite take_app_length', drop_app_length' by done.
  by rewrite IH by lia.
Qed.

Lemma as_chunks_concat n hs : (0 < n)%nat → Forall (λ h, length h = n) hs → as_chunks n (concat hs) = hs.
Proof. intros. by apply full_chunks_concat. Qed.

Lemma full_chunks_length n fuel b : Forall (λ h, length h = n) (full_chunks fuel n b).
Proof.
  revert b. induction fuel as [|fuel IH]; intros b; simpl; [constructor|].
  case_decide; constructor; [rewrite length_take; lia|apply IH].
Qed.

Lemma as_chunks_length n b : Forall (λ h, length h = n) (as_chunks n b).
Proof. apply full_chunks_length. Qed.

Lemma length_concat_uniform n (hs : list bytes) : Forall (λ h, length h = n) hs →
  length (concat hs) = (n * length hs)%nat.
Proof. induction 1; simpl; [lia|]. rewrite length_app. lia. Qed.

Lemma uint_size_mono a b : a ≤ b → uint_size a ≤ uint_size b.
Proof. unfold uint_size. intros. repeat case_match; lia. Qed.
Lemma bin_header_mono a b : a ≤ b → bin_header a ≤ bin_header b.
Proof. unfold bin_header. intros. repeat case_match; lia. Qed.
Lemma uint_size_bound n : 1 ≤ uint_size n ≤ 9.
Proof. unfold uint_size. repeat case_match; lia. Qed.
Lemma bin_header_bound n : 2 ≤ bin_header n ≤ 5.
Proof. unfold bin_header. repeat case_match; lia. Qed.

(** The part of an advertisement's size that depends on its values. *)
Definition request_id_size (id : option bytes) : Z :=
  match id with Some id => bin_header (len id) + len id | None => 1 end.

Lemma adv_value_size a :
  mp_size (adv_value a) = 24 + uint_size (transfer_size a) + uint_size (data_size a) + uint_size (num_parts a) +
    uint_size (segment_index a) + uint_size (total_segments a) + request_id_size (request_id a) +
    (bin_header (len (resource_hash a)) + len (resource_hash a)) +
    (bin_header (len (random_hash a)) + len (random_hash a)) +
    (bin_header (len (original_hash a)) + len (original_hash a)) + (bin_header (len (hashmap a)) + len (hashmap a)).
Proof.
  pose proof (flags_to_byte_range (adv_flags a)) as Hf.
  assert (Hu : uint_size (flags_to_byte (adv_flags a)) = 1) by (unfold uint_size; case_match; lia).
  unfold adv_value. cbn [mp_size map foldr fst snd]. rewrite Hu.
  unfold request_id_size. destruct (request_id a); cbn [mp_size];
    repeat change (str_header (str_len _) + str_len _) with 2; change (seq_header (len _)) with 1; lia.
Qed.

(** ** Control frames *)

Lemma encrypted_len_ok n : 0 ≤ n → 16 * (n / 16 + 1) + 48 ≤ USIZE_MAX →
  encrypted_len n = Ok (16 * (n / 16 + 1) + 48).
Proof.
  intros Hn Hm. assert (0 ≤ n / 16) by (apply Z.div_pos; lia).
  unfold encrypted_len, usize. rewrite Zle_imp_le_bool by lia. simpl.
  rewrite Zle_imp_le_bool by lia. simpl. rewrite Zle_imp_le_bool by lia. simpl.
  rewrite Zle_imp_le_bool by lia. cbn [ok_or]. f_equal. lia.
Qed.

Lemma encrypted_len_over n : 0 ≤ n → USIZE_MAX < 16 * (n / 16 + 1) + 48 → encrypted_len n = Err RTooLarge.
Proof.
  intros Hn Hm. unfold encrypted_len, usize.
  repeat (case_match; [|reflexivity]; cbn [mbind option_bind]). lia.
Qed.

(** The frame of an encrypted control packet: header, IV, padded body, tag. *)
Definition control_frame_len (n : Z) : Z := HDR + (16 * (n / 16 + 1) + 48).

Lemma check_control_frame_exact ctx n mtu : 0 ≤ n → 0 ≤ mtu ≤ USIZE_MAX →
  (check_control_frame ctx n true HDR mtu = Ok () ∧ control_frame_len n ≤ mtu) ∨
  (check_control_frame ctx n true HDR mtu =
     Err (if control_frame_len n <=? USIZE_MAX then RControlFrameTooLarge ctx (control_frame_len n) mtu else RTooLarge)
   ∧ mtu < control_frame_len n).
Proof.
  intros Hn Hm. unfold control_frame_len, check_control_frame. change HDR with 19.
  destruct (Z.leb_spec (16 * (n / 16 + 1) + 48) USIZE_MAX) as [H1|H1].
  - rewrite encrypted_len_ok by done. cbn [res_bind]. unfold usize.
    case_match eqn:H2; cbn [ok_or res_bind].
    + case_match; [right|left]; split; [done|lia|done|lia].
    + right. split; [done|]. lia.
  - rewrite encrypted_len_over by done. cbn [res_bind]. right.
    rewrite (proj2 (Z.leb_gt _ _)) by lia. split; [done|]. lia.
Qed.

Lemma control_frame_len_ge n : n + HDR + 48 < control_frame_len n.
Proof.
  unfold control_frame_len. pose proof (Z.div_mod n 16 ltac:(lia)). pose proof (Z.mod_pos_bound n 16 ltac:(lia)). lia.
Qed.

Lemma control_frame_len_mono a b : a ≤ b → control_frame_len a ≤ control_frame_len b.
Proof. intros. unfold control_frame_len. assert (a / 16 ≤ b / 16) by (apply Z.div_le_mono; lia). lia. Qed.

(** ** Round trips *)

Definition usize_ok (n : Z) : Prop := 0 ≤ n ≤ U64_MAX.

Record adv_ok (a : ResourceAdvertisement) : Prop := {
  aok_transfer : usize_ok (transfer_size a);
  aok_data : usize_ok (data_size a);
  aok_parts : usize_ok (num_parts a);
  aok_index : usize_ok (segment_index a);
  aok_total : usize_ok (total_segments a);
  aok_hash : array_ok 32 (resource_hash a);
  aok_original : array_ok 32 (original_hash a);
  aok_random : (4 ≤ length (random_hash a))%nat ∧ len (random_hash a) < 2 ^ 32 ∧ bytes_ok (random_hash a);
  aok_id : ∀ id, request_id a = Some id → len id < 2 ^ 32 ∧ bytes_ok id;
  aok_map : len (hashmap a) < 2 ^ 32 ∧ bytes_ok (hashmap a);
}.

(** What the wire carries: everything but the local metadata size. *)
Definition wire_adv (a : ResourceAdvertisement) : ResourceAdvertisement :=
  mkAdv (transfer_size a) (data_size a) (num_parts a) (resource_hash a) (random_hash a) (original_hash a)
    (segment_index a) (total_segments a) (request_id a) (adv_flags a) (hashmap a) 0.

Lemma adv_value_ok a : adv_ok a → mp_ok (adv_value a).
Proof.
  intros [? ? ? ? ? [Hh ?] [Ho ?] (? & ? & ?) Hid [? ?]]. unfold adv_value. cbn [mp_ok map foldr fst snd].
  pose proof (flags_to_byte_range (adv_flags a)) as [? ?].
  assert (Hs : ∀ c, str_len (String c EmptyString) < 2 ^ 32) by (intros; reflexivity).
  assert (len (resource_hash a) < 2 ^ 32) by (unfold len; rewrite Hh; reflexivity).
  assert (len (original_hash a) < 2 ^ 32) by (unfold len; rewrite Ho; reflexivity).
  split; [reflexivity|]. unfold usize_ok, U64_MAX in *.
  split_and!; try apply Hs; try done; try lia.
  destruct (request_id a) as [id|]; [by apply Hid|done].
Qed.

Lemma get_usize_hit l k n : mp_get l k = Some (MpInt n) → 0 ≤ n → get_usize l k = Ok n.
Proof. intros Hg Hn. unfold get_usize. rewrite Hg. cbn. by rewrite Zle_imp_le_bool. Qed.

Lemma get_bytes_hit l k b n : mp_get l k = Some (MpBin b) → (n ≤ length b)%nat → get_bytes l k n = Ok b.
Proof. intros Hg Hn. unfold get_bytes. rewrite Hg. cbn. rewrite decide_False by lia. done. Qed.

Section roundtrips.
Context `{LM : MsgpackLaws}.

Lemma read_encoded_app v rest : mp_ok v → (depth v ≤ MP_MAX_DEPTH)%nat → mp_read (mp_encode v ++ rest) = Some v.
Proof. intros Hv Hd. unfold mp_read. by rewrite mp_roundtrip. Qed.
Lemma read_encoded v : mp_ok v → (depth v ≤ MP_MAX_DEPTH)%nat → mp_read (mp_encode v) = Some v.
Proof. rewrite <- (app_nil_r (mp_encode v)). apply read_encoded_app. Qed.

Lemma adv_value_depth a : (depth (adv_value a) ≤ MP_MAX_DEPTH)%nat.
Proof. unfold MP_MAX_DEPTH, adv_value. cbn [depth map foldr fst snd]. destruct (request_id a); cbn [depth]; lia. Qed.

Lemma adv_unpack_value a : adv_ok a →
  check_control_frame ResourceAdv (len (adv_pack a)) true HDR (Z.of_nat MTU) = Ok () →
  adv_unpack (adv_pack a) = Ok (wire_adv a).
Proof.
  intros Ha Hc. unfold adv_unpack. rewrite Hc. cbn [map_err res_bind].
  unfold adv_pack. rewrite read_encoded by (apply adv_value_depth || by apply adv_value_ok). cbn [ok_or res_bind].
  destruct Ha as [? ? ? ? ? [Hh ?] [Ho ?] (? & ? & ?) Hid [? ?]]. unfold usize_ok in *.
  unfold adv_value.
  erewrite !get_usize_hit by (reflexivity || lia). cbn [res_bind].
  do 3 (erewrite get_bytes_hit by (reflexivity || lia); cbn [res_bind];
    rewrite ?slice_to_ok by lia; cbn [res_bind]; rewrite ?take_ge, ?copy_array_ok by lia; cbn [res_bind]).
  cbn [mp_get String.eqb Ascii.eqb Bool.eqb mbind option_bind].
  destruct (flags_to_byte_range (adv_flags a)). cbn [as_u64 as_slice default].
  rewrite Zle_imp_le_bool by lia. cbn [default]. unfold wire_adv, id. rewrite flags_roundtrip.
  by destruct (request_id a).
Qed.

Lemma adv_pack_len a : adv_ok a → len (adv_pack a) = mp_size (adv_value a).
Proof. intros. by apply mp_length, adv_value_ok. Qed.

(** Unpacking what was packed gives the advertisement, exactly when the
    sender's own check admits it. *)
Lemma adv_unpack_pack a : adv_ok a →
  adv_unpack (adv_pack a) =
    match check_advertisement a (Z.of_nat MTU) with
    | Ok _ => Ok (wire_adv a)
    | Err e => Err (AdvTooLarge e)
    | Panic => Panic
    end.
Proof.
  intros Ha. unfold check_advertisement, adv_encoded_len.
  pose proof (len_nonneg (adv_pack a)) as Hp. pose proof (control_frame_len_ge (len (adv_pack a))) as Hg.
  change HDR with 19 in Hg.
  destruct (check_control_frame_exact ResourceAdv (len (adv_pack a)) (Z.of_nat MTU) Hp) as [[Hc Hl]|[Hc Hl]];
    [done| |].
  - rewrite Zle_imp_le_bool by (unfold MTU, USIZE_MAX, U64_MAX in *; lia).
    cbn [res_bind]. rewrite Hc. by apply adv_unpack_value.
  - unfold adv_unpack. rewrite Hc. cbn [map_err res_bind].
    destruct (Z.leb_spec (len (adv_pack a)) USIZE_MAX) as [Hu|Hu]; cbn [res_bind]; [by rewrite Hc|].
    rewrite (proj2 (Z.leb_gt _ _)); [done|]. lia.
Qed.

(** A hashmap update is read back as it was written. *)
Lemma hashmap_update_roundtrip rh segment hashes rest :
  length rh = 32%nat → usize_ok segment → bytes_ok hashes → len hashes < 2 ^ 32 →
  parse_hashmap_update (encode_hashmap_update rh segment hashes ++ rest) = Ok (rh, segment, hashes).
Proof.
  intros Hr [? ?] Hb Hl. unfold parse_hashmap_update, encode_hashmap_update.
  rewrite decide_False by (rewrite !length_app; lia).
  rewrite <- app_assoc, slice_to_ok by (rewrite length_app; lia). cbn [res_bind].
  rewrite take_app_length', copy_array_ok by done. cbn [res_bind].
  rewrite slice_from_ok by (rewrite length_app; lia). cbn [res_bind]. rewrite drop_app_length' by done.
  rewrite read_encoded_app; [|cbn [mp_ok map foldr]; split_and!; done|unfold MP_MAX_DEPTH; cbn; lia].
  cbn [ok_or res_bind as_u64 as_slice]. by rewrite Zle_imp_le_bool by lia.
Qed.
End roundtrips.

(** ** What the preflight check promises *)

Definition metadata_wire (m : option Z) : Z := match m with Some n => n + 3 | None => 0 end.
Definition segments_of (data_len mw : Z) : Z :=
  1 + div_ceil (Z.max 0 (data_len - Z.min data_len (MAX_EFFICIENT_SIZE - mw))) MAX_EFFICIENT_SIZE.
(** Upper bounds on the first segment's transfer size and part count. *)
Definition transfer_bound (data_len mw : Z) (encrypted : bool) : Z :=
  let blob := Z.min (data_len + mw) MAX_EFFICIENT_SIZE + 4 in
  if encrypted then 16 * (blob / 16 + 1) + 48 else blob.
Definition parts_bound (data_len mw : Z) (encrypted : bool) (sdu : Z) : Z :=
  div_ceil (transfer_bound data_len mw encrypted) sdu.

(** An advertisement within the bounds the check used. *)
Record adv_within (a : ResourceAdvertisement) (data_len mw : Z) (id : option bytes) (encrypted : bool) (sdu : Z) : Prop := {
  aw_ok : adv_ok a;
  aw_transfer : transfer_size a ≤ transfer_bound data_len mw encrypted;
  aw_data : data_size a ≤ data_len + mw;
  aw_parts : num_parts a ≤ parts_bound data_len mw encrypted sdu;
  aw_index : segment_index a ≤ segments_of data_len mw;
  aw_total : total_segments a ≤ segments_of data_len mw;
  aw_id : request_id a = id;
  aw_random : len (random_hash a) = 4;
  aw_map : len (hashmap a) ≤ 4 * Z.min (parts_bound data_len mw encrypted sdu) 74;
}.

Lemma div_ceil_nonneg a b : 0 ≤ a → 0 < b → 0 ≤ div_ceil a b.
Proof. intros. apply Z.div_pos; lia. Qed.

Lemma div_ceil_le a b : 0 ≤ a → 0 < b → div_ceil a b ≤ a.
Proof.
  intros. unfold div_ceil. destruct (decide (a = 0)) as [->|]; [rewrite Z.div_small; lia|].
  apply Z.div_le_upper_bound; nia.
Qed.

Lemma div_ceil_mono a b c : a ≤ b → 0 < c → div_ceil a c ≤ div_ceil b c.
Proof. intros. apply Z.div_le_mono; lia. Qed.

Lemma transfer_bound_range d mw e : 0 ≤ d → 0 ≤ mw → 4 ≤ transfer_bound d mw e ≤ 1048655.
Proof.
  intros. unfold transfer_bound, MAX_EFFICIENT_SIZE. set (b := Z.min (d + mw) 1048575 + 4).
  assert (4 ≤ b ≤ 1048579) by lia. pose proof (Z.div_mod b 16 ltac:(lia)). pose proof (Z.mod_pos_bound b 16 ltac:(lia)).
  destruct e; lia.
Qed.

Lemma check_advertisement_fits `{LM : MsgpackLaws} a : adv_ok a →
  control_frame_len (mp_size (adv_value a)) ≤ Z.of_nat MTU → check_advertisement a (Z.of_nat MTU) = Ok ().
Proof.
  intros Ha Hl. unfold check_advertisement, adv_encoded_len. rewrite adv_pack_len by done.
  pose proof (control_frame_len_ge (mp_size (adv_value a))) as Hg. change HDR with 19 in Hg.
  change (Z.of_nat MTU) with 500 in *.
  rewrite Zle_imp_le_bool by (unfold USIZE_MAX, U64_MAX; lia). cbn [res_bind].
  rewrite <- (adv_pack_len a) in * by done.
  destruct (check_control_frame_exact ResourceAdv (len (adv_pack a)) 500 (len_nonneg _)) as [[? _]|[_ ?]];
    [done|done|lia].
Qed.

Lemma check_advertisement_inv `{LM : MsgpackLaws} a : adv_ok a →
  check_advertisement a (Z.of_nat MTU) = Ok () → control_frame_len (mp_size (adv_value a)) ≤ Z.of_nat MTU.
Proof.
  intros Ha. unfold check_advertisement, adv_encoded_len. change (Z.of_nat MTU) with 500.
  rewrite <- adv_pack_len by done. case_match; [|done]. cbn [res_bind]. intros Hc.
  destruct (check_control_frame_exact ResourceAdv (len (adv_pack a)) 500 (len_nonneg _)) as [[_ ?]|[He _]];
    [done|done|]. rewrite He in Hc. done.
Qed.

Definition worst_hashes (parts : Z) : list bytes :=
  replicate (Z.to_nat (Z.min parts 74)) (replicate MAPHASH_LEN 0).

(** The advertisement the check tries, with every field at its bound. *)
Definition worst_adv (d mw : Z) (id : option bytes) (is_response encrypted has_meta : bool) (sdu : Z) : ResourceAdvertisement :=
  mkAdv (transfer_bound d mw encrypted) (d + mw) (parts_bound d mw encrypted sdu) (replicate 32 0) (replicate 4 0)
    (replicate 32 0) (segments_of d mw) (segments_of d mw) id
    (mkFlags encrypted false (1 <? segments_of d mw) (bool_decide (is_Some id) && negb is_response) is_response has_meta)
    (concat (worst_hashes (parts_bound d mw encrypted sdu))) 0.

(** The size limits of the check, in order. *)
Record sizes_ok (d : Z) (m : option Z) (sdu : Z) : Prop := {
  so_sdu : 0 < sdu;
  so_data : 0 ≤ d ≤ MAX_RESOURCE_SIZE;
  so_nonneg : ∀ n, m = Some n → 0 ≤ n;
  so_meta : metadata_wire m ≤ MAX_EFFICIENT_SIZE;
  so_segments : segments_of d (metadata_wire m) ≤ MAX_SEGMENTS;
}.

Lemma len_worst_hashes parts : 0 ≤ parts → len (concat (worst_hashes parts)) = 4 * Z.min parts 74.
Proof.
  intros. unfold len, worst_hashes. rewrite (length_concat_uniform 4), length_replicate; [lia|].
  by apply Forall_replicate.
Qed.

Lemma segments_of_range d mw : 0 ≤ mw → 1 ≤ segments_of d mw.
Proof.
  intros. unfold segments_of. assert (0 ≤ div_ceil (Z.max 0 (d - Z.min d (MAX_EFFICIENT_SIZE - mw))) MAX_EFFICIENT_SIZE)
    by (apply div_ceil_nonneg; unfold MAX_EFFICIENT_SIZE; lia). lia.
Qed.

Lemma metadata_wire_nonneg d m sdu : sizes_ok d m sdu → 0 ≤ metadata_wire m.
Proof. intros [_ _ H _ _]. destruct m as [n|]; simpl; [specialize (H n eq_refl)|]; lia. Qed.

Lemma parts_bound_range d mw e sdu : 0 ≤ d → 0 ≤ mw → 0 < sdu → 1 ≤ parts_bound d mw e sdu ≤ 1048655.
Proof.
  intros. pose proof (transfer_bound_range d mw e). unfold parts_bound. split.
  - unfold div_ceil. apply Z.div_le_lower_bound; lia.
  - etrans; [apply div_ceil_le|]; lia.
Qed.

Lemma worst_adv_ok d m id r e h sdu : sizes_ok d m sdu → (∀ i, id = Some i → len i < 2 ^ 32 ∧ bytes_ok i) →
  adv_ok (worst_adv d (metadata_wire m) id r e h sdu).
Proof.
  intros Hs Hid. pose proof (metadata_wire_nonneg _ _ _ Hs) as Hm. destruct Hs as [? ? ? ? ?].
  pose proof (transfer_bound_range d (metadata_wire m) e ltac:(lia) Hm).
  pose proof (parts_bound_range d (metadata_wire m) e sdu ltac:(lia) Hm ltac:(done)).
  pose proof (segments_of_range d (metadata_wire m) Hm).
  unfold MAX_RESOURCE_SIZE, MAX_EFFICIENT_SIZE, MAX_SEGMENTS in *.
  assert (Hb : bytes_ok (concat (worst_hashes (parts_bound d (metadata_wire m) e sdu)))).
  { apply Forall_concat, Forall_replicate. by apply bytes_ok_replicate. }
  split; cbn [worst_adv transfer_size data_size num_parts segment_index total_segments resource_hash
    original_hash random_hash request_id hashmap]; unfold usize_ok, U64_MAX; try lia; try done;
    [split; [done|by apply bytes_ok_replicate]..| |].
  - split_and!; [simpl; lia|done|by apply bytes_ok_replicate].
  - split; [|done]. rewrite len_worst_hashes by lia. lia.
Qed.

Lemma bind_no_panic {E A B} (m : res E A) (f : A → res E B) : m ≠ Panic → (∀ a, f a ≠ Panic) → res_bind m f ≠ Panic.
Proof. destruct m; simpl; auto. Qed.
Lemma ok_or_no_panic {E A} (o : option A) (e : E) : ok_or o e ≠ Panic.
Proof. by destruct o. Qed.

Lemma check_control_frame_no_panic ctx n e h mtu : check_control_frame ctx n e h mtu ≠ Panic.
Proof.
  unfold check_control_frame. apply bind_no_panic; [destruct e; [apply ok_or_no_panic|done]|].
  intros b. apply bind_no_panic; [apply ok_or_no_panic|]. intros l. by case_match.
Qed.

Lemma preflight_no_panic `{Msgpack} d m id r e sdu mtu : preflight_outbound_with_sdu d m id r e sdu mtu ≠ Panic.
Proof.
  unfold preflight_outbound_with_sdu, check_advertisement, adv_encoded_len, encrypted_len.
  cbv zeta.
  repeat (first [ apply check_control_frame_no_panic | apply ok_or_no_panic | discriminate
                | apply bind_no_panic; [|intros ?] | case_match ]).
Qed.

Section preflight.
Context `{LM : MsgpackLaws}.

Lemma check_frame_ok ctx n : 0 ≤ n → control_frame_len n ≤ 500 → check_control_frame ctx n true HDR 500 = Ok ().
Proof. intros Hn Hl. destruct (check_control_frame_exact ctx n 500 Hn) as [[? _]|[_ ?]]; [done|done|lia]. Qed.

Lemma hmu_len rh segment hashes : usize_ok segment → bytes_ok hashes → len hashes < 2 ^ 32 →
  len (encode_hashmap_update rh segment hashes) = len rh + (1 + uint_size segment + (bin_header (len hashes) + len hashes)).
Proof.
  intros ? ? ?. unfold encode_hashmap_update. rewrite len_app, mp_length.
  - cbn [mp_size map foldr]. change (seq_header (len _)) with 1. lia.
  - cbn [mp_ok map foldr]. done.
Qed.

(** A hashmap update of at most one full segment fits a control frame. *)
Lemma hmu_fits rh segment hashes : length rh = 32%nat → 0 ≤ segment ≤ 2 ^ 20 → bytes_ok hashes → len hashes ≤ 296 →
  check_control_frame ResourceHmu (len (encode_hashmap_update rh segment hashes)) true HDR 500 = Ok ().
Proof.
  intros Hr Hs Hb Hl. apply check_frame_ok; [apply len_nonneg|].
  rewrite hmu_len by (done || unfold usize_ok, U64_MAX; lia).
  etrans; [apply (control_frame_len_mono _ 337)|by vm_compute].
  assert (uint_size segment ≤ uint_size (2 ^ 20)) as Hu by (apply uint_size_mono; lia). change (uint_size (2 ^ 20)) with 5 in Hu.
  assert (bin_header (len hashes) ≤ bin_header 296) as Hh by (apply bin_header_mono; lia). change (bin_header 296) with 3 in Hh.
  unfold len in *. rewrite Hr. lia.
Qed.

Definition id_check (id : option bytes) : res ResourceError () :=
  match id with Some i => check_control_frame ResourceAdv (len i) true HDR 500 | None => Ok () end.

Lemma preflight_eq d m id r e sdu : sizes_ok d m sdu →
  preflight_outbound_with_sdu d m id r e sdu 500 =
  let* _ := id_check id in
  check_advertisement (worst_adv d (metadata_wire m) id r e (bool_decide (is_Some m)) sdu) 500.
Proof.
  intros Hs. pose proof (metadata_wire_nonneg _ _ _ Hs) as Hm. destruct Hs as [Hsdu Hd Hn Hmw Hsg].
  pose proof (transfer_bound_range d (metadata_wire m) e ltac:(lia) Hm) as Ht.
  pose proof (parts_bound_range d (metadata_wire m) e sdu ltac:(lia) Hm ltac:(done)) as Hp.
  unfold MAX_RESOURCE_SIZE, MAX_EFFICIENT_SIZE in *.
  unfold preflight_outbound_with_sdu. rewrite (proj2 (Z.eqb_neq _ _)) by lia.
  unfold MAX_RESOURCE_SIZE. rewrite (proj2 (Z.ltb_ge _ _)) by lia.
  replace (match m with Some n => ok_or (usize (n + 3)) RMetadataTooLarge | None => Ok 0 end)
    with (@Ok ResourceError _ (metadata_wire m)).
  2:{ destruct m as [n|]; simpl in *; [|done]. unfold usize. by rewrite Zle_imp_le_bool by (unfold USIZE_MAX, U64_MAX; lia). }
  cbn [res_bind]. unfold usize at 1 2 3. unfold MAX_EFFICIENT_SIZE at 1. rewrite (proj2 (Z.ltb_ge _ _)) by lia.
  rewrite Zle_imp_le_bool by (unfold USIZE_MAX, U64_MAX; lia). cbn [ok_or res_bind].
  fold (segments_of d (metadata_wire m)). pose proof (segments_of_range d (metadata_wire m) Hm).
  unfold MAX_SEGMENTS in *. rewrite Zle_imp_le_bool by (unfold USIZE_MAX, U64_MAX; lia). cbn [ok_or res_bind].
  rewrite (proj2 (Z.ltb_ge _ _)) by lia. fold (id_check id). destruct (id_check id); cbn [res_bind]; [|done..].
  change (Z.of_nat RANDOM_HASH_SIZE) with 4.
  rewrite Zle_imp_le_bool by (unfold USIZE_MAX, U64_MAX, MAX_EFFICIENT_SIZE; lia). cbn [ok_or res_bind].
  replace (if e then encrypted_len _ else Ok _) with (@Ok ResourceError _ (transfer_bound d (metadata_wire m) e)).
  2:{ unfold transfer_bound in *. destruct e; [|done].
      rewrite encrypted_len_ok; [done|unfold MAX_EFFICIENT_SIZE; lia|]. unfold USIZE_MAX, U64_MAX. lia. }
  cbn [res_bind]. fold (parts_bound d (metadata_wire m) e sdu). set (p := parts_bound _ _ _ _) in *.
  change (Z.of_nat HASHMAP_STRIDE) with 74. fold (worst_hashes p).
  match goal with |- res_bind (check_advertisement ?a _) _ = _ =>
    replace a with (worst_adv d (metadata_wire m) id r e (bool_decide (is_Some m)) sdu) end.
  2:{ unfold worst_adv, adv_new, with_metadata_size. fold p. cbn [transfer_size data_size num_parts resource_hash
        random_hash original_hash adv_flags hashmap metadata_size]. f_equal.
      rewrite take_ge; [done|]. unfold worst_hashes. rewrite length_replicate. change (hashmap_max_len LINK_MDU) with 74%nat. lia. }
  destruct (check_advertisement _ _) as [[]|?|]; cbn [res_bind]; [|done..].
  rewrite hmu_fits; [|done| |by apply bytes_ok_replicate|done].
  2:{ split; [apply Z.div_pos; lia|]. etrans; [apply Z.div_le_upper_bound with (q := 2 ^ 20)|]; lia. }
  done.
Qed.

Lemma preflight_sizes d m id r e sdu : 0 ≤ sdu → 0 ≤ d → (∀ n, m = Some n → 0 ≤ n) →
  preflight_outbound_with_sdu d m id r e sdu 500 = Ok () → sizes_ok d m sdu.
Proof.
  intros H1 H2 H3 Hp. unfold preflight_outbound_with_sdu in Hp.
  destruct (Z.eqb_spec sdu 0) as [|Hsdu]; [done|]. destruct (Z.ltb_spec MAX_RESOURCE_SIZE d); [done|].
  assert (0 ≤ metadata_wire m) by (destruct m as [n|]; simpl; [specialize (H3 n eq_refl)|]; lia).
  replace (match m with Some n => ok_or (usize (n + 3)) RMetadataTooLarge | None => Ok 0 end)
    with (if metadata_wire m <=? USIZE_MAX then @Ok ResourceError _ (metadata_wire m) else Err RMetadataTooLarge) in Hp.
  2:{ destruct m as [n|]; [|done]. cbn [metadata_wire]. unfold usize. by destruct (n + 3 <=? USIZE_MAX). }
  case_match; cbn [res_bind] in Hp; [|done].
  destruct (Z.ltb_spec MAX_EFFICIENT_SIZE (metadata_wire m)); [done|].
  unfold usize at 1 2 in Hp. case_match; cbn [ok_or res_bind] in Hp; [|done].
  fold (segments_of d (metadata_wire m)) in Hp. case_match; cbn [ok_or res_bind] in Hp; [|done].
  destruct (Z.ltb_spec MAX_SEGMENTS (segments_of d (metadata_wire m))); [done|].
  split; lia || done.
Qed.

(** The frame of an advertisement grows with its fields. *)
Lemma within_size a d m id r e h sdu : sizes_ok d m sdu → adv_within a d (metadata_wire m) id e sdu →
  mp_size (adv_value a) ≤ mp_size (adv_value (worst_adv d (metadata_wire m) id r e h sdu)).
Proof.
  intros Hs [[] Ht Hd Hn Hi Hg Hid Hr Hmap]. pose proof (metadata_wire_nonneg _ _ _ Hs) as Hm. destruct Hs as [? [? _] _ _ _].
  pose proof (parts_bound_range d (metadata_wire m) e sdu ltac:(lia) Hm ltac:(done)) as Hp.
  rewrite !adv_value_size. unfold worst_adv. cbn [transfer_size data_size num_parts resource_hash random_hash
    original_hash segment_index total_segments request_id hashmap]. rewrite len_worst_hashes by lia.
  unfold len in *. rewrite (proj1 aok_hash0), (proj1 aok_original0), Hid, Hr.
  rewrite !length_replicate.
  assert (bin_header (Z.of_nat (length (hashmap a))) ≤ bin_header (4 * Z.min (parts_bound d (metadata_wire m) e sdu) 74))
    by by apply bin_header_mono.
  pose proof (uint_size_mono _ _ Ht). pose proof (uint_size_mono _ _ Hd). pose proof (uint_size_mono _ _ Hn).
  pose proof (uint_size_mono _ _ Hi). pose proof (uint_size_mono _ _ Hg).
  change (Z.of_nat 4) with 4. lia.
Qed.

(** Every advertisement within the checked bounds fits a control frame. *)
Lemma preflight_sound a d m id r e sdu : 0 ≤ sdu → 0 ≤ d → (∀ n, m = Some n → 0 ≤ n) →
  preflight_outbound_with_sdu d m id r e sdu 500 = Ok () → adv_within a d (metadata_wire m) id e sdu →
  check_advertisement a 500 = Ok ().
Proof.
  intros H1 H2 H3 Hp Hw. pose proof (preflight_sizes _ _ _ _ _ _ H1 H2 H3 Hp) as Hs.
  rewrite preflight_eq in Hp by done. apply (res_bind_Ok_inv (id_check id)) in Hp as (? & _ & Hc).
  change 500 with (Z.of_nat MTU) in *.
  apply check_advertisement_inv in Hc.
  2:{ apply worst_adv_ok; [done|]. intros i ->. apply (aok_id _ (aw_ok _ _ _ _ _ _ Hw)), Hw. }
  apply check_advertisement_fits; [apply Hw|]. etrans; [|exact Hc]. apply control_frame_len_mono.
  by apply within_size.
Qed.

(** Without a request id, the sizes are the only reason to refuse. *)
Lemma preflight_exact d m r e sdu : 0 ≤ sdu → 0 ≤ d → (∀ n, m = Some n → 0 ≤ n) →
  preflight_outbound_with_sdu d m None r e sdu 500 = Ok () ↔ sizes_ok d m sdu.
Proof.
  intros H1 H2 H3. split; [by apply preflight_sizes|]. intros Hs. rewrite preflight_eq by done. cbn [id_check res_bind].
  change 500 with (Z.of_nat MTU). apply check_advertisement_fits; [by apply worst_adv_ok|].
  pose proof (metadata_wire_nonneg _ _ _ Hs) as Hm. destruct Hs as [? [? ?] _ ? ?].
  pose proof (transfer_bound_range d (metadata_wire m) e ltac:(lia) Hm) as Ht.
  pose proof (parts_bound_range d (metadata_wire m) e sdu ltac:(lia) Hm ltac:(done)) as Hp.
  unfold MAX_RESOURCE_SIZE, MAX_EFFICIENT_SIZE, MAX_SEGMENTS in *.
  etrans; [apply (control_frame_len_mono _ 431)|by vm_compute].
  rewrite adv_value_size. unfold worst_adv. cbn [transfer_size data_size num_parts resource_hash random_hash
    original_hash segment_index total_segments request_id hashmap request_id_size]. rewrite len_worst_hashes by lia.
  unfold len. rewrite !length_replicate. set (p := parts_bound _ _ _ _) in *. set (g := segments_of _ _) in *.
  pose proof (uint_size_mono (transfer_bound d (metadata_wire m) e) (2 ^ 21) ltac:(lia)) as U1.
  pose proof (uint_size_mono (d + metadata_wire m) (2 ^ 28) ltac:(lia)) as U2.
  pose proof (uint_size_mono p (2 ^ 21) ltac:(lia)) as U3. pose proof (uint_size_mono g 128 ltac:(lia)) as U4.
  pose proof (bin_header_mono (4 * Z.min p 74) 296 ltac:(lia)) as U5.
  change (uint_size (2 ^ 21)) with 5 in *. change (uint_size (2 ^ 28)) with 5 in *. change (uint_size 128) with 2 in *.
  change (bin_header 296) with 3 in *. change (bin_header (Z.of_nat 32)) with 2. change (bin_header (Z.of_nat 4)) with 2.
  lia.
Qed.
End preflight.
