(* ===== verification/Resource.v ===== *)
(** * Resources: parts, reassembly, segments

    Models lines 1-1225 of [rns-protocol/src/resource.rs]: the flow-control
    window, a sender's resource ([OutboundResource]), a receiver's
    ([InboundResource]) and the segment coordinators.

    The random hash of each construction attempt is the argument [rng], by
    attempt; the encryption closure takes the attempt too, since it draws an
    initialisation vector of its own each time it is called.  A method that
    changes [self] and can fail returns the new [self] beside the result. *)

From S2P Require Import Prelude F64 Wire Packet Token Channel Stream LinkChannel Msgpack ResourceAdv.
From stdpp Require Import prelude list gmap.

Open Scope Z_scope.

(** ** Constants and states *)

Inductive ResourceState :=
| RNone | RQueued | RAdvertised | RTransferring | RAwaitingProof | RAssembling | RComplete | RFailed | RCorruptState | RRejected.

#[export] Instance ResourceState_eq_dec : EqDecision ResourceState.
Proof. solve_decision. Defined.

Definition WINDOW_INITIAL : Z := 4.
Definition WINDOW_MIN : Z := 2.
Definition WINDOW_MAX_SLOW : Z := 10.
Definition WINDOW_MAX_VERY_SLOW : Z := 4.
Definition FAST_RATE_THRESHOLD : Z := 4.
Definition VERY_SLOW_RATE_THRESHOLD : Z := 2.
Definition RATE_FAST : Z := 6250.
Definition RATE_VERY_SLOW : Z := 250.
Definition WINDOW_FLEXIBILITY : Z := 4.
Definition HASHMAP_IS_NOT_EXHAUSTED : Z := 0.
Definition HASHMAP_IS_EXHAUSTED : Z := 255.

(** ** The window *)

Record WindowState := mkWindow {
  window : Z;
  window_min : Z;
  window_max : Z;
  fast_rate_rounds : Z;
  very_slow_rate_rounds : Z;
}.

Definition window_new : WindowState := mkWindow WINDOW_INITIAL WINDOW_MIN WINDOW_MAX_SLOW 0 0.

(** [saturating_sub] *)
Definition sat_sub (a b : Z) : Z := Z.max 0 (a - b).

Definition grow (w : WindowState) (rate : Z) : WindowState :=
  let '(win, wmin) :=
    if window w <? window_max w then
      let win := window w + 1 in
      (win, if WINDOW_FLEXIBILITY - 1 <? sat_sub win (window_min w) then window_min w + 1 else window_min w)
    else (window w, window_min w) in
  if RATE_FAST <? rate then
    let fast := fast_rate_rounds w + 1 in
    mkWindow win wmin (if FAST_RATE_THRESHOLD <=? fast then Z.of_nat WINDOW_MAX_FAST else window_max w) fast 0
  else if rate <? RATE_VERY_SLOW then
    let slow := very_slow_rate_rounds w + 1 in
    if VERY_SLOW_RATE_THRESHOLD <=? slow then
      mkWindow (if WINDOW_MAX_VERY_SLOW <? win then WINDOW_MAX_VERY_SLOW else win) wmin WINDOW_MAX_VERY_SLOW 0 slow
    else mkWindow win wmin (window_max w) 0 slow
  else mkWindow win wmin (window_max w) 0 0.

Definition shrink (w : WindowState) : WindowState :=
  let win := if window_min w <? window w then window w - 1 else window w in
  let wmax := if window_min w <? window_max w then window_max w - 1 else window_max w in
  let wmax := if WINDOW_FLEXIBILITY - 1 <? sat_sub wmax win then wmax - 1 else wmax in
  mkWindow win (window_min w) wmax (fast_rate_rounds w) (very_slow_rate_rounds w).

(** ** Hashes *)

Section hashes.
Context `{Digest}.
Definition compute_resource_hash (data random_hash : bytes) : bytes := sha256 (data ++ random_hash).
Definition compute_expected_proof (data resource_hash : bytes) : bytes := sha256 (data ++ resource_hash).
(** The first four bytes of a hash; a SHA-256 value has 32, so the slice is in range. *)
Definition get_map_hash (data random_hash : bytes) : bytes := take MAPHASH_LEN (sha256 (data ++ random_hash)).
End hashes.

(** ** Outbound resources *)

Record OutboundResource := mkOut {
  o_state : ResourceState;
  o_data : bytes;
  o_random_hash : bytes;
  o_resource_hash : bytes;
  o_expected_proof : bytes;
  o_flags : ResourceFlags;
  o_parts : list bytes;
  o_map_hashes : list bytes;
  o_total_size : Z;
  o_advertisement_data_size : Z;
  o_segment_index : Z;
  o_total_segments : Z;
  o_request_id : option bytes;
  o_original_hash : option bytes;
  o_window : WindowState;
  o_retries : Z;
  o_sdu : nat;
  o_metadata : option bytes;
  o_metadata_size : Z;
}.

Definition out_state (r : OutboundResource) (s : ResourceState) : OutboundResource :=
  mkOut s (o_data r) (o_random_hash r) (o_resource_hash r) (o_expected_proof r) (o_flags r) (o_parts r) (o_map_hashes r)
    (o_total_size r) (o_advertisement_data_size r) (o_segment_index r) (o_total_segments r) (o_request_id r)
    (o_original_hash r) (o_window r) (o_retries r) (o_sdu r) (o_metadata r) (o_metadata_size r).
Definition out_window (r : OutboundResource) (w : WindowState) : OutboundResource :=
  mkOut (o_state r) (o_data r) (o_random_hash r) (o_resource_hash r) (o_expected_proof r) (o_flags r) (o_parts r)
    (o_map_hashes r) (o_total_size r) (o_advertisement_data_size r) (o_segment_index r) (o_total_segments r)
    (o_request_id r) (o_original_hash r) w (o_retries r) (o_sdu r) (o_metadata r) (o_metadata_size r).

(** [chunks(n)]: full chunks and a last partial one. *)
Fixpoint chunks_loop (fuel n : nat) (b : bytes) : list bytes :=
  match fuel with
  | O => []
  | S fuel => if decide (b = []) then [] else take n b :: chunks_loop fuel n (drop n b)
  end.
Definition chunks (n : nat) (b : bytes) : list bytes := chunks_loop (length b) n b.

(** The three-byte big-endian length prefix. *)
Definition metadata_prefix (n : Z) : bytes :=
  [Z.land (Z.shiftr n 16) 255; Z.land (Z.shiftr n 8) 255; Z.land n 255].

Definition MAX_COLLISION_RETRIES : nat := 5.

Section outbound.
Context `{Digest} `{Bzip2} `{Msgpack}.

(** The loop over the parts: hashes so far, the guard set, a collision seen. *)
Definition hash_part (rnd : bytes) (acc : list bytes * gset bytes * bool) (part : bytes) : list bytes * gset bytes * bool :=
  let '(hashes, guard, has_collision) := acc in
  let mh := get_map_hash part rnd in
  (hashes ++ [mh], {[mh]} ∪ guard, if decide (mh ∈ guard) then true else has_collision).

(** [tries] is [MAX_COLLISION_RETRIES - collision_retries]. *)
Fixpoint with_options_inner (data : bytes) (auto_compress : bool) (metadata : option bytes) (link_sdu : option nat)
    (encrypt_fn : option (nat → bytes → bytes)) (rng : nat → bytes) (tries : nat) : res ResourceError OutboundResource :=
  let sdu := default SDU link_sdu in
  if Nat.eqb sdu 0 then Err RInvalidAdvertisement else
  let* _ := preflight_outbound_with_sdu (len data) (len <$> metadata) None false
              (bool_decide (is_Some encrypt_fn)) (Z.of_nat sdu) (Z.of_nat MTU) in
  let* '(packed_metadata, metadata_size, has_metadata) :=
    match metadata with
    | Some meta =>
        if METADATA_MAX_SIZE <? len meta then Err RMetadataTooLarge else
        let packed := metadata_prefix (len meta) ++ meta in
        Ok (Some packed, len packed, true)
    | None => Ok (None, 0, false)
    end in
  if MAX_EFFICIENT_SIZE <? metadata_size + len data then Err RTooLarge else
  let random_hash := rng tries in
  let full_data := match packed_metadata with Some meta => meta ++ data | None => data end in
  let '(processed_data, compressed) :=
    if auto_compress && (len full_data <=? AUTO_COMPRESS_MAX_SIZE) then try_compress full_data else (full_data, false) in
  let blob := random_hash ++ processed_data in
  let blob := match encrypt_fn with Some enc => enc tries blob | None => blob end in
  let resource_hash := compute_resource_hash full_data random_hash in
  let expected_proof := compute_expected_proof full_data resource_hash in
  let parts := chunks sdu blob in
  let '(map_hashes, _, has_collision) := foldl (hash_part random_hash) ([], ∅, false) parts in
  let done :=
    mkOut RNone data random_hash resource_hash expected_proof
      (mkFlags (bool_decide (is_Some encrypt_fn)) compressed false false false has_metadata)
      parts map_hashes (len blob) (len full_data) 1 1 None None window_new 0 sdu packed_metadata metadata_size in
  if has_collision then
    match tries with
    | O => Ok done
    | S tries => with_options_inner data auto_compress metadata link_sdu encrypt_fn rng tries
    end
  else Ok done.

Definition with_options (data : bytes) (auto_compress : bool) (metadata : option bytes) (link_sdu : option nat)
    (encrypt_fn : option (nat → bytes → bytes)) (rng : nat → bytes) : res ResourceError OutboundResource :=
  with_options_inner data auto_compress metadata link_sdu encrypt_fn rng MAX_COLLISION_RETRIES.

Definition outbound_new (data : bytes) (auto_compress : bool) (encrypt_fn : option (nat → bytes → bytes))
    (rng : nat → bytes) : res ResourceError OutboundResource :=
  with_options data auto_compress None None encrypt_fn rng.
End outbound.

Definition out_num_parts (r : OutboundResource) : nat := length (o_parts r).
Definition get_part (r : OutboundResource) (i : nat) : option bytes := o_parts r !! i.

Definition out_validate_proof (r : OutboundResource) (proof_data : bytes) : OutboundResource * res ResourceError bool :=
  if decide (length proof_data < 64)%nat then (r, Ok false) else
  match slice proof_data 32 64 with
  | Ok received => if decide (received = o_expected_proof r) then (out_state r RComplete, Ok true) else (r, Ok false)
  | Err e => (r, Err e)
  | Panic => (r, Panic)
  end.

(** Indices [start..end]. *)
Definition range (a b : nat) : list nat := seq a (b - a).

Definition out_handle_hmu (r : OutboundResource) (plaintext : bytes) : OutboundResource * list nat :=
  match plaintext with
  | [] => (r, [])
  | b0 :: data =>
      if b0 =? HASHMAP_IS_EXHAUSTED then (out_window (out_state r RAwaitingProof) (grow (o_window r) 0), [])
      else if decide (MAPHASH_LEN ≤ length data)%nat then
        match list_find (λ h, h = take MAPHASH_LEN data) (o_map_hashes r) with
        | Some (i, _) => let start := S i in
            (r, range start (Nat.min (start + Z.to_nat (window (o_window r))) (out_num_parts r)))
        | None => (r, [])
        end
      else (r, [])
  end.

Definition out_handle_cancel (r : OutboundResource) : OutboundResource := out_state r RRejected.

(** ** Inbound resources *)

Record InboundResource := mkIn {
  i_state : ResourceState;
  i_parts : list (option bytes);
  i_total_parts : nat;
  i_random_hash : bytes;
  i_resource_hash : bytes;
  i_flags : ResourceFlags;
  i_total_size : Z;
  i_data_size : Z;
  consecutive_completed : nat;
  i_window : WindowState;
  i_map_hashes : list bytes;
  i_sdu : nat;
  i_metadata : option bytes;
}.

Definition in_state (r : InboundResource) (s : ResourceState) : InboundResource :=
  mkIn s (i_parts r) (i_total_parts r) (i_random_hash r) (i_resource_hash r) (i_flags r) (i_total_size r) (i_data_size r)
    (consecutive_completed r) (i_window r) (i_map_hashes r) (i_sdu r) (i_metadata r).
Definition in_parts (r : InboundResource) (p : list (option bytes)) : InboundResource :=
  mkIn (i_state r) p (i_total_parts r) (i_random_hash r) (i_resource_hash r) (i_flags r) (i_total_size r) (i_data_size r)
    (consecutive_completed r) (i_window r) (i_map_hashes r) (i_sdu r) (i_metadata r).
Definition in_completed (r : InboundResource) (n : nat) : InboundResource :=
  mkIn (i_state r) (i_parts r) (i_total_parts r) (i_random_hash r) (i_resource_hash r) (i_flags r) (i_total_size r)
    (i_data_size r) n (i_window r) (i_map_hashes r) (i_sdu r) (i_metadata r).
Definition in_window (r : InboundResource) (w : WindowState) : InboundResource :=
  mkIn (i_state r) (i_parts r) (i_total_parts r) (i_random_hash r) (i_resource_hash r) (i_flags r) (i_total_size r)
    (i_data_size r) (consecutive_completed r) w (i_map_hashes r) (i_sdu r) (i_metadata r).
Definition in_hashes (r : InboundResource) (l : list bytes) : InboundResource :=
  mkIn (i_state r) (i_parts r) (i_total_parts r) (i_random_hash r) (i_resource_hash r) (i_flags r) (i_total_size r)
    (i_data_size r) (consecutive_completed r) (i_window r) l (i_sdu r) (i_metadata r).
Definition in_metadata (r : InboundResource) (m : option bytes) : InboundResource :=
  mkIn (i_state r) (i_parts r) (i_total_parts r) (i_random_hash r) (i_resource_hash r) (i_flags r) (i_total_size r)
    (i_data_size r) (consecutive_completed r) (i_window r) (i_map_hashes r) (i_sdu r) m.

Definition MAX_AES_BLOCK_PAD : Z := 16.
Definition MIN_PART_SIZE : Z := 32.
Definition max_total_size : Z :=
  MAX_EFFICIENT_SIZE + Z.of_nat RANDOM_HASH_SIZE + Z.of_nat TOKEN_OVERHEAD + MAX_AES_BLOCK_PAD.

Definition with_sdu (total_parts : nat) (total_size data_size : Z) (random_hash resource_hash : bytes)
    (flags : ResourceFlags) (initial_map_hashes : list bytes) (link_sdu : option nat) : res ResourceError InboundResource :=
  if Nat.eqb total_parts 0 then Err RInvalidAdvertisement else
  if max_total_size <? total_size then Err RTooLarge else
  let max_parts := Z.min (div_ceil total_size MIN_PART_SIZE + 16) USIZE_MAX in
  if max_parts <? Z.of_nat total_parts then Err RTooLarge else
  Ok (mkIn RTransferring (replicate total_parts None) total_parts random_hash resource_hash flags total_size data_size
        0 window_new initial_map_hashes (default SDU link_sdu) None).

Definition inbound_new (total_parts : nat) (total_size data_size : Z) (random_hash resource_hash : bytes)
    (flags : ResourceFlags) (initial_map_hashes : list bytes) : res ResourceError InboundResource :=
  with_sdu total_parts total_size data_size random_hash resource_hash flags initial_map_hashes None.

Definition in_is_complete (r : InboundResource) : bool := Nat.eqb (consecutive_completed r) (i_total_parts r).

(** [while consecutive_completed < total_parts]: the fuel is what is left. *)
Fixpoint update_consecutive_loop {E} (fuel : nat) (r : InboundResource) : res E InboundResource :=
  match fuel with
  | O => Ok r
  | S fuel =>
      let* p := idx (i_parts r) (consecutive_completed r) in
      match p with
      | Some _ => update_consecutive_loop fuel (in_completed r (S (consecutive_completed r)))
      | None => Ok r
      end
  end.
Definition update_consecutive {E} (r : InboundResource) : res E InboundResource :=
  update_consecutive_loop (i_total_parts r - consecutive_completed r) r.

(** The scan over the window for the first empty slot with that hash. *)
Fixpoint find_slot {E} (r : InboundResource) (mh : bytes) (l : list nat) : res E (option nat) :=
  match l with
  | [] => Ok None
  | i :: l =>
      if decide (i_map_hashes r !! i = Some mh) then
        let* p := idx (i_parts r) i in
        match p with None => Ok (Some i) | Some _ => find_slot r mh l end
      else find_slot r mh l
  end.

Definition search_end (r : InboundResource) : nat :=
  Nat.min (consecutive_completed r + Z.to_nat (window (i_window r))) (i_total_parts r).

Definition received_count (r : InboundResource) : Z := len (filter is_Some (i_parts r)).

Definition in_progress (r : InboundResource) : f64 :=
  if Nat.eqb (i_total_parts r) 0 then f_of_Z 1
  else f_div (f_of_Z (received_count r)) (f_of_Z (Z.of_nat (i_total_parts r))).

Definition in_handle_cancel (r : InboundResource) : InboundResource :=
  in_parts (in_state r RFailed) (replicate (length (i_parts r)) None).

(** The parts in order; a missing one is an error. *)
Definition join_parts (parts : list (option bytes)) : res ResourceError bytes :=
  foldl (λ acc p, let* s := acc in let* d := ok_or p RIncomplete in Ok (s ++ d)) (Ok []) parts.

Section inbound.
Context `{Digest} `{Bzip2}.

Definition in_receive_part {E} (r : InboundResource) (data : bytes) : res E (InboundResource * bool) :=
  let mh := get_map_hash data (i_random_hash r) in
  let* slot := find_slot r mh (range (consecutive_completed r) (search_end r)) in
  match slot with
  | Some i =>
      let* r := update_consecutive (in_parts r (<[i := Some data]> (i_parts r))) in
      Ok (r, true)
  | None => Ok (r, false)
  end.

(** Metadata and payload of the verified content, with the new [self]. *)
Definition split_metadata (r : InboundResource) (final_data : bytes) : InboundResource * res ResourceError bytes :=
  if f_has_metadata (i_flags r) then
    match final_data with
    | b0 :: b1 :: b2 :: rest =>
        let metadata_size := Z.lor (Z.lor (Z.shiftl b0 16) (Z.shiftl b1 8)) b2 in
        if len final_data <? 3 + metadata_size then
          (in_state r RCorruptState, Err (RInvalidMetadata metadata_size (sat_sub (len final_data) 3)))
        else
          (in_state (in_metadata r (Some (take (Z.to_nat metadata_size) rest))) RComplete,
           Ok (drop (Z.to_nat metadata_size) rest))
    | _ => (in_state r RCorruptState, Err (RInvalidMetadata 0 (len final_data)))
    end
  else (in_state r RComplete, Ok final_data).

Definition assemble (r : InboundResource) (decrypt_fn : option (bytes → res ResourceError bytes))
    : InboundResource * res ResourceError bytes :=
  if negb (in_is_complete r) then (r, Err RIncomplete) else
  let r := in_state r RAssembling in
  match (let* stream := join_parts (i_parts r) in
         match decrypt_fn with Some dec => dec stream | None => Ok stream end) with
  | Err e => (r, Err e)
  | Panic => (r, Panic)
  | Ok stream =>
      if decide (length stream < RANDOM_HASH_SIZE)%nat then (in_state r RCorruptState, Err RCorrupt) else
      let data := drop RANDOM_HASH_SIZE stream in
      match (if f_compressed (i_flags r)
             then map_err (λ _, RDecompressionFailed) (bz2_decompress data (Z.to_nat MAX_EFFICIENT_SIZE))
             else Ok data) with
      | Err e => (r, Err e)
      | Panic => (r, Panic)
      | Ok final_data =>
          if decide (compute_resource_hash final_data (i_random_hash r) = i_resource_hash r)
          then split_metadata r final_data
          else (in_state r RCorruptState, Err RHashMismatch)
      end
  end.

Definition generate_proof (r : InboundResource) (data : bytes) : bytes :=
  i_resource_hash r ++ compute_expected_proof data (i_resource_hash r).
End inbound.

(** ** Segments *)

(** [required_segment_count] *)
Definition required_segment_count (data_size metadata_wire_size : Z) : Z :=
  if data_size =? 0 then 1 else
  let first_payload_size := sat_sub MAX_EFFICIENT_SIZE metadata_wire_size in
  let first_len := Z.min data_size first_payload_size in
  1 + div_ceil (sat_sub data_size first_len) MAX_EFFICIENT_SIZE.

Record LazyMultiSegmentOutbound := mkLazy {
  l_data : bytes;
  l_auto_compress : bool;
  l_metadata : option bytes;
  l_metadata_wire_size : Z;
  l_request_id : option bytes;
  l_is_response : bool;
  l_next_offset : Z;
  l_next_segment_index : Z;
  l_original_hash : bytes;
  l_total_segments : Z;
  l_data_size : Z;
}.

Record MultiSegmentOutbound := mkMulti {
  ms_original_hash : bytes;
  ms_segments : list OutboundResource;
  ms_total_segments : Z;
  ms_data_size : Z;
}.

Definition remaining_segments (l : LazyMultiSegmentOutbound) : Z :=
  sat_sub (l_total_segments l) (sat_sub (l_next_segment_index l) 1).

(** The fields [next_segment] overwrites in the resource it built. *)
Definition segment_fields (l : LazyMultiSegmentOutbound) (segment_index : Z) (r : OutboundResource) : OutboundResource :=
  mkOut (o_state r) (o_data r) (o_random_hash r) (o_resource_hash r) (o_expected_proof r)
    (mkFlags (f_encrypted (o_flags r)) (f_compressed (o_flags r)) true (f_is_request (o_flags r)) (l_is_response l)
       (f_has_metadata (o_flags r)))
    (o_parts r) (o_map_hashes r) (o_total_size r) (l_data_size l + l_metadata_wire_size l) segment_index
    (l_total_segments l) (l_request_id l) (Some (l_original_hash l)) (o_window r) (o_retries r) (o_sdu r)
    (o_metadata r) (o_metadata_size r).

Section segments.
Context `{Digest} `{Bzip2} `{Msgpack}.

(** [LazyMultiSegmentOutbound::with_options]; [rnd] is the random hash drawn. *)
Definition lazy_with_options (data : bytes) (auto_compress : bool) (metadata request_id : option bytes)
    (is_response : bool) (rnd : bytes) : res ResourceError LazyMultiSegmentOutbound :=
  if MAX_RESOURCE_SIZE <? len data then Err RTooLarge else
  let data_size := len data in
  let metadata_wire_size := match metadata with Some v => 3 + len v | None => 0 end in
  if MAX_EFFICIENT_SIZE <? metadata_wire_size then Err RMetadataTooLarge else
  let total_segments := required_segment_count data_size metadata_wire_size in
  if MAX_SEGMENTS <? total_segments then Err RTooLarge else
  let* _ := preflight_outbound data_size (len <$> metadata) request_id is_response true (Z.of_nat MTU) in
  Ok (mkLazy data auto_compress metadata metadata_wire_size request_id is_response 0 1
        (compute_resource_hash data rnd) total_segments data_size).

Definition lazy_new (data : bytes) (auto_compress : bool) (rnd : bytes) : res ResourceError LazyMultiSegmentOutbound :=
  lazy_with_options data auto_compress None None false rnd.

Definition next_segment (l : LazyMultiSegmentOutbound) (encrypt_fn : option (nat → bytes → bytes)) (rng : nat → bytes)
    : LazyMultiSegmentOutbound * res ResourceError (option OutboundResource) :=
  if l_total_segments l <? l_next_segment_index l then (l, Ok None) else
  let segment_index := l_next_segment_index l in
  let segment_metadata := if segment_index =? 1 then l_metadata l else None in
  let metadata := if segment_index =? 1 then None else l_metadata l in
  let payload_limit := if segment_index =? 1 then MAX_EFFICIENT_SIZE - l_metadata_wire_size l else MAX_EFFICIENT_SIZE in
  let stop := Z.min (sat_add64 (l_next_offset l) payload_limit) (len (l_data l)) in
  let taken := mkLazy (l_data l) (l_auto_compress l) metadata (l_metadata_wire_size l) (l_request_id l)
    (l_is_response l) (l_next_offset l) segment_index (l_original_hash l) (l_total_segments l) (l_data_size l) in
  match (let* chunk := slice (l_data l) (Z.to_nat (l_next_offset l)) (Z.to_nat stop) in
         with_options chunk (l_auto_compress l) segment_metadata None encrypt_fn rng) with
  | Err e => (taken, Err e)
  | Panic => (taken, Panic)
  | Ok resource =>
      let next := segment_index + 1 in
      (mkLazy (if l_total_segments l <? next then [] else l_data l) (l_auto_compress l) metadata
         (l_metadata_wire_size l) (l_request_id l) (l_is_response l) stop next (l_original_hash l)
         (l_total_segments l) (l_data_size l),
       Ok (Some (segment_fields l segment_index resource)))
  end.

(** The [while let Some(segment)] loop; each turn advances the index, so
    one turn more than the remaining segments is enough. *)
Fixpoint drain_segments (fuel : nat) (l : LazyMultiSegmentOutbound) (encrypt_fn : option (nat → bytes → bytes))
    (rng : nat → nat → bytes) : res ResourceError (list OutboundResource) :=
  match fuel with
  | O => Ok []
  | S fuel' =>
      let '(l, r) := next_segment l encrypt_fn (rng fuel) in
      let* o := r in
      match o with
      | None => Ok []
      | Some segment => let* rest := drain_segments fuel' l encrypt_fn rng in Ok (segment :: rest)
      end
  end.

Definition multi_with_options (data : bytes) (auto_compress : bool) (metadata request_id : option bytes)
    (is_response : bool) (encrypt_fn : option (nat → bytes → bytes)) (rnd : bytes) (rng : nat → nat → bytes)
    : res ResourceError MultiSegmentOutbound :=
  let* lazy := lazy_with_options data auto_compress metadata request_id is_response rnd in
  let* segments := drain_segments (Z.to_nat (l_total_segments lazy) + 1) lazy encrypt_fn rng in
  Ok (mkMulti (l_original_hash lazy) segments (l_total_segments lazy) (l_data_size lazy)).

Definition multi_with_encrypt (data : bytes) (auto_compress : bool) (encrypt_fn : option (nat → bytes → bytes))
    (rnd : bytes) (rng : nat → nat → bytes) : res ResourceError MultiSegmentOutbound :=
  multi_with_options data auto_compress None None false encrypt_fn rnd rng.

Definition multi_new (data : bytes) (auto_compress : bool) (rnd : bytes) (rng : nat → nat → bytes)
    : res ResourceError MultiSegmentOutbound :=
  multi_with_encrypt data auto_compress None rnd rng.
End segments.

Definition get_segment (m : MultiSegmentOutbound) (i : nat) : option OutboundResource := ms_segments m !! i.
Definition num_segments (m : MultiSegmentOutbound) : nat := length (ms_segments m).
Definition multi_is_complete (m : MultiSegmentOutbound) : bool :=
  forallb (λ s, bool_decide (o_state s = RComplete)) (ms_segments m).

Definition cancel_all (m : MultiSegmentOutbound) : MultiSegmentOutbound * nat :=
  let live s := negb (bool_decide (o_state s = RFailed) || bool_decide (o_state s = RComplete)) in
  (mkMulti (ms_original_hash m) ((λ s, if live s then out_state s RFailed else s) <$> ms_segments m)
     (ms_total_segments m) (ms_data_size m),
   length (filter (λ s, live s = true) (ms_segments m))).

Record MultiSegmentInbound := mkMsIn {
  mi_original_hash : bytes;
  mi_total_segments : nat;
  mi_segments : list (option InboundResource);
  mi_assembled : list (option bytes);
  mi_data_size : Z;
  mi_metadata : option bytes;
}.

Definition ms_inbound_new (total_segments : nat) (original_hash : bytes) : MultiSegmentInbound :=
  mkMsIn original_hash total_segments (replicate total_segments None) (replicate total_segments None) 0 None.

(** [vec[i] = v]: out of range panics. *)
Definition set_idx {E A} (l : list A) (i : nat) (v : A) : res E (list A) :=
  if decide (i < length l)%nat then Ok (<[i := v]> l) else Panic.

Definition set_segment {E} (m : MultiSegmentInbound) (segment_index : nat) (r : InboundResource) : res E MultiSegmentInbound :=
  if decide (1 ≤ segment_index ≤ mi_total_segments m)%nat then
    let* s := set_idx (mi_segments m) (segment_index - 1) (Some r) in
    Ok (mkMsIn (mi_original_hash m) (mi_total_segments m) s (mi_assembled m) (mi_data_size m) (mi_metadata m))
  else Ok m.

Definition set_segment_data (m : MultiSegmentInbound) (segment_index : nat) (data : bytes)
    : res ResourceError MultiSegmentInbound :=
  if decide (segment_index < 1 ∨ mi_total_segments m < segment_index)%nat then Err RInvalidAdvertisement else
  let i := (segment_index - 1)%nat in
  let* slot := idx (mi_assembled m) i in
  match slot with
  | Some _ => Err RDuplicateSegment
  | None =>
      let* a := set_idx (mi_assembled m) i (Some data) in
      Ok (mkMsIn (mi_original_hash m) (mi_total_segments m) (mi_segments m) a
            (sat_add64 (mi_data_size m) (len data)) (mi_metadata m))
  end.

Definition set_metadata (m : MultiSegmentInbound) (meta : bytes) : MultiSegmentInbound :=
  match mi_metadata m with
  | None => mkMsIn (mi_original_hash m) (mi_total_segments m) (mi_segments m) (mi_assembled m) (mi_data_size m) (Some meta)
  | Some _ => m
  end.

Definition assemble_segment `{Digest} `{Bzip2} (m : MultiSegmentInbound) (segment_index : nat)
    (decrypt_fn : option (bytes → res ResourceError bytes)) : MultiSegmentInbound * res ResourceError () :=
  if decide (segment_index < 1 ∨ mi_total_segments m < segment_index)%nat then (m, Err RInvalidAdvertisement) else
  let i := (segment_index - 1)%nat in
  match mi_segments m !! i with
  | None => (m, Panic)
  | Some None => (m, Err RIncomplete)
  | Some (Some resource) =>
      let '(resource, r) := assemble resource decrypt_fn in
      let segments := <[i := Some resource]> (mi_segments m) in
      match r with
      | Ok data =>
          (mkMsIn (mi_original_hash m) (mi_total_segments m) segments (<[i := Some data]> (mi_assembled m))
             (mi_data_size m) (mi_metadata m),
           if decide (i < length (mi_assembled m))%nat then Ok () else Panic)
      | Err e => (mkMsIn (mi_original_hash m) (mi_total_segments m) segments (mi_assembled m) (mi_data_size m) (mi_metadata m), Err e)
      | Panic => (m, Panic)
      end
  end.

Definition ms_is_complete (m : MultiSegmentInbound) : bool := forallb (λ s, bool_decide (is_Some s)) (mi_assembled m).

Definition reassemble (m : MultiSegmentInbound) : res ResourceError bytes :=
  if negb (ms_is_complete m) then Err RIncomplete else join_parts (mi_assembled m).

Definition assembled_count (m : MultiSegmentInbound) : Z := len (filter is_Some (mi_assembled m)).
Definition ms_progress (m : MultiSegmentInbound) : f64 :=
  if Nat.eqb (mi_total_segments m) 0 then f_of_Z 1
  else f_div (f_of_Z (assembled_count m)) (f_of_Z (Z.of_nat (mi_total_segments m))).

(** ** The window invariant *)

Record window_ok (w : WindowState) : Prop := {
  wk_window : WINDOW_MIN ≤ window w ≤ window_max w;
  wk_max : window_max w ≤ Z.of_nat WINDOW_MAX;
  wk_min : WINDOW_MIN ≤ window_min w ≤ Z.of_nat WINDOW_MAX;
  wk_rounds : 0 ≤ fast_rate_rounds w ∧ 0 ≤ very_slow_rate_rounds w;
}.

Ltac window_lia :=
  unfold WINDOW_MIN, WINDOW_INITIAL, WINDOW_MAX_SLOW, WINDOW_MAX_VERY_SLOW, WINDOW_FLEXIBILITY, WINDOW_MAX,
    WINDOW_MAX_FAST, sat_sub in *; simpl in *; lia.

Lemma rwindow_new_ok : window_ok window_new.
Proof. unfold window_new. split; window_lia. Qed.

Lemma rwindow_grow_ok w rate : window_ok w → window_ok (grow w rate).
Proof.
  intros [? ? ? ?]. unfold grow. destruct (Z.ltb_spec (window w) (window_max w));
    repeat case_match; simplify_eq; split; window_lia.
Qed.

Lemma rwindow_shrink_ok w : window_ok w → window_ok (shrink w).
Proof. intros [? ? ? ?]. unfold shrink. repeat case_match; split; window_lia. Qed.

Inductive window_op := WGrow (rate : Z) | WShrink.
Definition window_step (w : WindowState) (o : window_op) : WindowState :=
  match o with WGrow rate => grow w rate | WShrink => shrink w end.

Lemma window_run_ok ops : ∀ w, window_ok w → window_ok (foldl window_step w ops).
Proof. induction ops as [|[]]; intros; simpl; auto using rwindow_grow_ok, rwindow_shrink_ok. Qed.

(** ** Chunks *)

Lemma chunks_loop_spec n fuel b : (0 < n)%nat → (length b ≤ fuel)%nat →
  concat (chunks_loop fuel n b) = b ∧ Forall (λ c, 1 ≤ length c ≤ n)%nat (chunks_loop fuel n b) ∧
  len (chunks_loop fuel n b) = div_ceil (len b) (Z.of_nat n).
Proof.
  intros Hn. revert b. induction fuel as [|fuel IH]; intros b Hb; simpl.
  { destruct b; [|simpl in Hb; lia]. split_and!; [done|constructor|]. unfold len, div_ceil. simpl. rewrite Z.div_small; lia. }
  case_decide as Hne; [subst b|].
  { split_and!; [done|constructor|]. unfold len, div_ceil. simpl. rewrite Z.div_small; lia. }
  assert (1 ≤ length b)%nat by (destruct b; [done|simpl; lia]).
  destruct (IH (drop n b)) as (H1 & H2 & H3); [rewrite length_drop; lia|]. split_and!.
  - simpl. by rewrite H1, take_drop.
  - constructor; [rewrite length_take; lia|done].
  - rewrite len_cons, H3. unfold len, div_ceil. rewrite length_drop.
    destruct (decide (n ≤ length b)%nat).
    + replace (Z.of_nat (length b) + Z.of_nat n - 1) with (Z.of_nat (length b - n) + Z.of_nat n - 1 + 1 * Z.of_nat n) by lia.
      rewrite Z.div_add by lia. lia.
    + replace (length b - n)%nat with 0%nat by lia. rewrite Z.div_small by lia.
      change (1 + 0) with 1. apply Z.div_unique with (r := Z.of_nat (length b) - 1); lia.
Qed.

Lemma concat_chunks n b : (0 < n)%nat → concat (chunks n b) = b.
Proof. intros. by eapply (chunks_loop_spec n (length b) b). Qed.
Lemma length_chunks n b : (0 < n)%nat → len (chunks n b) = div_ceil (len b) (Z.of_nat n).
Proof. intros. by apply (chunks_loop_spec n (length b) b). Qed.
Lemma chunks_bound n b : (0 < n)%nat → Forall (λ c, 1 ≤ length c ≤ n)%nat (chunks n b).
Proof. intros. by eapply (chunks_loop_spec n (length b) b). Qed.

(** ** Map hashes *)

Lemma hash_parts_spec `{Digest} rnd parts :
  ∃ guard, foldl (hash_part rnd) ([], ∅, false) parts =
    ((λ p, get_map_hash p rnd) <$> parts, guard, negb (bool_decide (NoDup ((λ p, get_map_hash p rnd) <$> parts)))) ∧
  guard = list_to_set ((λ p, get_map_hash p rnd) <$> parts).
Proof.
  induction parts as [|p parts (g & IH & Hg)] using rev_ind.
  { exists ∅. done. }
  exists ({[get_map_hash p rnd]} ∪ g). rewrite foldl_app. cbn [foldl]. rewrite IH. cbn [hash_part].
  rewrite fmap_app. cbn [fmap list_fmap]. split; [|subst g; rewrite list_to_set_app_L; simpl; set_solver]. apply pair_equal_spec. split; [done|].
  set (hs := _ <$> parts) in *. set (mh := get_map_hash p rnd).
  assert (Hd : NoDup (hs ++ [mh]) ↔ NoDup hs ∧ mh ∉ hs).
  { rewrite NoDup_app. setoid_rewrite list_elem_of_singleton. split.
    - intros (? & Hx & _). split; [done|]. intros Hm. by apply (Hx mh Hm).
    - intros [? ?]. split_and!; [done|by intros x Hx ->|apply NoDup_singleton]. }
  subst g. case_decide as Hm; rewrite elem_of_list_to_set in Hm.
  - rewrite bool_decide_false; [done|]. rewrite Hd. tauto.
  - f_equal. apply bool_decide_ext. rewrite Hd. tauto.
Qed.

Lemma length_map_hash `{DL : DigestLaws} d rnd : length (get_map_hash d rnd) = MAPHASH_LEN.
Proof. unfold get_map_hash. rewrite length_take, sha256_length. done. Qed.

(** ** What the constructor builds *)

(** The content that is hashed: framed metadata, then the data. *)
Definition full_content (metadata : option bytes) (data : bytes) : bytes :=
  match metadata with Some meta => metadata_prefix (len meta) ++ meta | None => [] end ++ data.

Section built.
Context `{Digest} `{Bzip2} `{Msgpack}.

Definition processed (auto_compress : bool) (full : bytes) : bytes * bool :=
  if auto_compress && (len full <=? AUTO_COMPRESS_MAX_SIZE) then try_compress full else (full, false).

Definition blob_of (data : bytes) (auto_compress : bool) (metadata : option bytes)
    (encrypt_fn : option (nat → bytes → bytes)) (rng : nat → bytes) (t : nat) : bytes :=
  let plain := rng t ++ (processed auto_compress (full_content metadata data)).1 in
  match encrypt_fn with Some enc => enc t plain | None => plain end.

(** The resource of attempt [t]. *)
Definition attempt (data : bytes) (auto_compress : bool) (metadata : option bytes) (sdu : nat)
    (encrypt_fn : option (nat → bytes → bytes)) (rng : nat → bytes) (t : nat) : OutboundResource :=
  let full := full_content metadata data in
  let blob := blob_of data auto_compress metadata encrypt_fn rng t in
  let rh := compute_resource_hash full (rng t) in
  mkOut RNone data (rng t) rh (compute_expected_proof full rh)
    (mkFlags (bool_decide (is_Some encrypt_fn)) (processed auto_compress full).2 false false false (bool_decide (is_Some metadata)))
    (chunks sdu blob) ((λ p, get_map_hash p (rng t)) <$> chunks sdu blob) (len blob) (len full) 1 1 None None window_new 0
    sdu ((λ meta, metadata_prefix (len meta) ++ meta) <$> metadata) (metadata_wire (len <$> metadata)).

Lemma len_full metadata data : len (full_content metadata data) = metadata_wire (len <$> metadata) + len data.
Proof. unfold full_content. rewrite len_app. destruct metadata; simpl; [|done]. rewrite ?len_cons. lia. Qed.

Context `{LM : !MsgpackLaws H1}.

Lemma sizes_fit (data : bytes) (metadata : option bytes) sdu : sdu ≠ 0%nat → metadata_wire (len <$> metadata) + len data ≤ MAX_EFFICIENT_SIZE →
  sizes_ok (len data) (len <$> metadata) (Z.of_nat sdu).
Proof.
  intros Hsdu Hfit. pose proof (len_nonneg data) as Hd.
  assert (Hm : 0 ≤ metadata_wire (len <$> metadata)) by (destruct metadata as [m|]; simpl; [pose proof (len_nonneg m)|]; lia).
  split; unfold MAX_RESOURCE_SIZE, MAX_EFFICIENT_SIZE, MAX_SEGMENTS, segments_of in *; try lia.
  - intros n. destruct metadata; intros [= <-]. apply len_nonneg.
  - unfold MAX_EFFICIENT_SIZE. rewrite Z.min_l by lia. by rewrite Z.sub_diag.
Qed.

Lemma with_options_step data auto metadata link_sdu enc rng tries :
  default SDU link_sdu ≠ 0%nat → metadata_wire (len <$> metadata) + len data ≤ MAX_EFFICIENT_SIZE →
  with_options_inner data auto metadata link_sdu enc rng tries =
    let a := attempt data auto metadata (default SDU link_sdu) enc rng tries in
    if bool_decide (NoDup (o_map_hashes a)) then Ok a
    else match tries with O => Ok a | S t => with_options_inner data auto metadata link_sdu enc rng t end.
Proof.
  intros Hsdu Hfit. pose proof (sizes_fit data metadata _ Hsdu Hfit) as Hs. set (sdu := default SDU link_sdu) in *.
  set (enc_flag := bool_decide (is_Some enc)).
  assert (Hpf : preflight_outbound_with_sdu (len data) (len <$> metadata) None false enc_flag (Z.of_nat sdu) (Z.of_nat MTU) = Ok ()).
  { apply preflight_exact; [lia|apply len_nonneg|apply Hs|done]. }
  assert (Hmeta : match metadata with
    | Some meta => if METADATA_MAX_SIZE <? len meta then Err RMetadataTooLarge
                   else Ok (Some (metadata_prefix (len meta) ++ meta), len (metadata_prefix (len meta) ++ meta), true)
    | None => Ok (None, 0, false)
    end = @Ok ResourceError _ ((λ meta, metadata_prefix (len meta) ++ meta) <$> metadata,
            metadata_wire (len <$> metadata), bool_decide (is_Some metadata))).
  { destruct metadata as [m|]; [|done]. cbn [fmap option_fmap option_map metadata_wire] in *. pose proof (len_nonneg data).
    rewrite (proj2 (Z.ltb_ge _ _)) by (unfold METADATA_MAX_SIZE, MAX_EFFICIENT_SIZE in *; lia).
    rewrite len_app. do 2 f_equal. f_equal. unfold metadata_prefix. rewrite !len_cons. change (len []) with 0. lia. }
  pose proof (hash_parts_spec (rng tries) (chunks sdu (blob_of data auto metadata enc rng tries))) as (g & Hp & _).
  destruct tries as [|t]; cbn [with_options_inner]; fold sdu enc_flag; rewrite (proj2 (Nat.eqb_neq sdu 0) Hsdu), Hpf;
    cbn [res_bind]; rewrite Hmeta; cbn [res_bind]; rewrite (proj2 (Z.ltb_ge _ _)) by lia;
    (replace (match (λ meta, metadata_prefix (len meta) ++ meta) <$> metadata with Some meta => meta ++ data | None => data end)
      with (full_content metadata data) by (by destruct metadata));
    fold (processed auto (full_content metadata data));
    unfold blob_of in Hp; unfold attempt, blob_of; destruct (processed auto (full_content metadata data)) as [pr c];
    cbn [fst snd] in Hp |- *; rewrite Hp; cbn [o_map_hashes]; by case_bool_decide.
Qed.

(** The constructor succeeds exactly when content and prefix fit a segment;
    the first attempt without a hash collision wins, or the last one. *)
Lemma with_options_ok data auto metadata link_sdu enc rng tries :
  let sdu := default SDU link_sdu in
  sdu ≠ 0%nat → metadata_wire (len <$> metadata) + len data ≤ MAX_EFFICIENT_SIZE →
  ∃ t, (t ≤ tries)%nat ∧ with_options_inner data auto metadata link_sdu enc rng tries =
       Ok (attempt data auto metadata sdu enc rng t) ∧
     (t = 0%nat ∨ NoDup (o_map_hashes (attempt data auto metadata sdu enc rng t))) ∧
     ∀ t', (t < t' ≤ tries)%nat → ¬ NoDup (o_map_hashes (attempt data auto metadata sdu enc rng t')).
Proof.
  intros sdu Hsdu Hfit. induction tries as [|tries IH]; rewrite with_options_step by done; fold sdu; cbv zeta;
    case_bool_decide as Hn.
  - exists 0%nat. split_and!; [done..|auto|lia].
  - exists 0%nat. split_and!; [done..|auto|lia].
  - exists (S tries). split_and!; [done..|auto|lia].
  - destruct IH as (t & Ht & He & Hu & Hl). exists t. split_and!; [lia|done..|].
    intros t' Ht'. destruct (decide (t' = S tries)) as [->|]; [done|]. apply Hl. lia.
Qed.

Lemma with_options_err data auto metadata link_sdu enc rng tries :
  default SDU link_sdu = 0%nat ∨ MAX_EFFICIENT_SIZE < metadata_wire (len <$> metadata) + len data →
  ∃ e, with_options_inner data auto metadata link_sdu enc rng tries = Err e.
Proof.
  intros Hbad. destruct tries; cbn [with_options_inner]; (destruct (Nat.eqb_spec (default SDU link_sdu) 0) as [|Hs]; [by eauto|]);
    (destruct Hbad as [?|Hbad]; [done|]);
    (destruct (preflight_outbound_with_sdu _ _ _ _ _ _ _) as [[]|e|] eqn:Hp; cbn [res_bind];
      [clear Hp|by eauto|by apply preflight_no_panic in Hp]);
    (destruct metadata as [m|]; [destruct (METADATA_MAX_SIZE <? len m); [by eauto|]|]; cbv zeta; cbn [res_bind];
     (rewrite (proj2 (Z.ltb_lt _ _)); [by eauto|]); cbn [fmap option_fmap option_map metadata_wire] in Hbad; rewrite ?len_app;
     unfold metadata_prefix; rewrite ?len_cons; change (len (@nil Z)) with 0; lia).
Qed.
End built.

(** ** Assembly *)

Lemma metadata_prefix_value n : 0 ≤ n ≤ METADATA_MAX_SIZE →
  ∃ b0 b1 b2, metadata_prefix n = [b0; b1; b2] ∧ Z.lor (Z.lor (Z.shiftl b0 16) (Z.shiftl b1 8)) b2 = n.
Proof.
  unfold METADATA_MAX_SIZE. intros Hn. eexists _, _, _. split; [reflexivity|].
  change 255 with (2 ^ 8 - 1). rewrite !land_ones_mod, !Z.shiftr_div_pow2 by lia. change (2 ^ 8) with 256. change (2 ^ 16) with 65536.
  pose proof (Z.mod_pos_bound n 256 ltac:(lia)). pose proof (Z.mod_pos_bound (n / 256) 256 ltac:(lia)).
  set (b0 := n / 65536 mod 256). set (b1 := n / 256 mod 256). set (b2 := n mod 256) in *.
  rewrite <- Z.lor_assoc, (Z.lor_comm (Z.shiftl b1 8)), (lor_disjoint_add b2 b1 8) by lia.
  rewrite Z.lor_comm, lor_disjoint_add by (subst b1; lia). subst b0 b1 b2.
  change (2 ^ 16) with 65536. change (2 ^ 8) with 256. Z.to_euclidean_division_equations. lia.
Qed.

Lemma join_parts_ok parts : join_parts (Some <$> parts) = Ok (concat parts).
Proof.
  unfold join_parts. assert (H : ∀ acc, foldl (λ acc p, let* s := acc in let* d := ok_or p RIncomplete in Ok (s ++ d))
    (Ok acc) (Some <$> parts) = Ok (acc ++ concat parts)); [|by rewrite H].
  induction parts as [|p parts IH]; intros acc; simpl; [by rewrite app_nil_r|]. by rewrite IH, app_assoc.
Qed.

Lemma processed_spec `{LB : Bzip2Laws} auto full : 
  let '(pr, c) := processed auto full in
  if c then ∀ max, (length full ≤ max)%nat → bz2_decompress pr max = Ok full else pr = full.
Proof.
  unfold processed, try_compress. repeat case_match; simplify_eq; try done. intros max Hm. by apply bz2_roundtrip.
Qed.

Section assembly.
Context `{DL : DigestLaws} `{LB : Bzip2Laws}.

Definition with_content_metadata (r : InboundResource) (metadata : option bytes) : InboundResource :=
  match metadata with Some m => in_metadata r (Some m) | None => r end.

Lemma split_metadata_ok r metadata data :
  f_has_metadata (i_flags r) = bool_decide (is_Some metadata) →
  metadata_wire (len <$> metadata) + len data ≤ MAX_EFFICIENT_SIZE →
  split_metadata r (full_content metadata data) = (in_state (with_content_metadata r metadata) RComplete, Ok data).
Proof.
  intros Hf Hl. unfold split_metadata. rewrite Hf. destruct metadata as [m|]; [|done].
  rewrite bool_decide_eq_true_2 by done. cbn [fmap option_fmap option_map metadata_wire] in Hl.
  pose proof (len_nonneg m). pose proof (len_nonneg data).
  destruct (metadata_prefix_value (len m)) as (b0 & b1 & b2 & Hp & Hv);
    [unfold METADATA_MAX_SIZE, MAX_EFFICIENT_SIZE in *; lia|].
  unfold full_content. rewrite Hp. cbn [app]. rewrite Hv, !len_cons, len_app.
  rewrite (proj2 (Z.ltb_ge _ _)) by lia. unfold len. by rewrite Nat2Z.id, take_app_length, drop_app_length.
Qed.

Lemma assemble_ok r dec parts blob plain rnd auto metadata data :
  in_is_complete r = true → i_parts r = Some <$> parts → concat parts = blob →
  match dec with Some f => f blob = Ok plain | None => blob = plain end →
  plain = rnd ++ (processed auto (full_content metadata data)).1 → length rnd = RANDOM_HASH_SIZE →
  i_random_hash r = rnd → i_resource_hash r = compute_resource_hash (full_content metadata data) rnd →
  f_compressed (i_flags r) = (processed auto (full_content metadata data)).2 →
  f_has_metadata (i_flags r) = bool_decide (is_Some metadata) →
  metadata_wire (len <$> metadata) + len data ≤ MAX_EFFICIENT_SIZE →
  assemble r dec = (in_state (with_content_metadata r metadata) RComplete, Ok data).
Proof.
  intros Hc Hp Hb Hd Hpl Hr Hir Hih Hfc Hfm Hl. unfold assemble. rewrite Hc. cbn [negb in_state i_parts].
  rewrite Hp, join_parts_ok, Hb. cbn [res_bind].
  replace (match dec with Some d => d blob | None => Ok blob end) with (@Ok ResourceError _ plain)
    by (destruct dec; [done|by rewrite Hd]).
  subst plain. rewrite decide_False by (rewrite length_app; lia). rewrite drop_app_length' by done.
  cbn [i_flags in_state]. rewrite Hfc.
  pose proof (processed_spec auto (full_content metadata data)) as Hs.
  destruct (processed auto (full_content metadata data)) as [pr c]. cbn [fst snd] in *.
  replace (if c then map_err (λ _, RDecompressionFailed) (bz2_decompress pr (Z.to_nat MAX_EFFICIENT_SIZE)) else Ok pr)
    with (@Ok ResourceError _ (full_content metadata data)).
  2:{ destruct c; [|by rewrite Hs]. rewrite Hs; [done|]. pose proof (len_full metadata data) as Hlf.
      unfold len at 1 in Hlf. lia. }
  cbn [i_random_hash i_resource_hash in_state]. rewrite Hir, Hih, decide_True by done.
  rewrite split_metadata_ok by done. by destruct metadata.
Qed.

(** Whatever the parts, content is accepted only if it hashes to the
    advertised resource hash; [assemble] never panics. *)
Lemma assemble_inv r dec r' d : assemble r dec = (r', Ok d) →
  i_state r' = RComplete ∧ i_resource_hash r' = i_resource_hash r ∧ i_flags r' = i_flags r ∧ in_is_complete r = true ∧
  ∃ final, compute_resource_hash final (i_random_hash r) = i_resource_hash r ∧
    (if f_has_metadata (i_flags r)
     then ∃ b0 b1 b2 m, i_metadata r' = Some m ∧ final = [b0; b1; b2] ++ m ++ d ∧
            len m = Z.max 0 (Z.lor (Z.lor (Z.shiftl b0 16) (Z.shiftl b1 8)) b2)
     else final = d ∧ i_metadata r' = i_metadata r).
Proof.
  unfold assemble. destruct (in_is_complete r) eqn:Hc; [|done]. cbn [negb].
  destruct (let* stream := _ in _) as [stream|e|]; [|done..]. case_decide; [done|].
  destruct (if f_compressed _ then _ else _) as [final|e|]; [|done..]. case_decide as Hh; [|done].
  cbn [i_random_hash i_resource_hash in_state] in Hh. unfold split_metadata. cbn [i_flags in_state].
  destruct (f_has_metadata (i_flags r)).
  - destruct final as [|b0 [|b1 [|b2 rest]]]; try done. case_match eqn:Hl; [done|]. intros [= <- <-].
    split_and!; [done..|]. eexists. split; [exact Hh|]. eexists b0, b1, b2, _. split; [reflexivity|].
    rewrite take_drop. split; [done|]. apply Z.ltb_ge in Hl. rewrite !len_cons in Hl.
    unfold len in *. rewrite length_take. lia.
  - intros [= <- <-]. split_and!; [done..|]. eexists. split; [exact Hh|]. done.
Qed.
End assembly.

(** ** Receiving parts *)

Record in_ok (r : InboundResource) : Prop := {
  ik_length : length (i_parts r) = i_total_parts r;
  ik_le : (consecutive_completed r ≤ i_total_parts r)%nat;
  ik_prefix : ∀ i, (i < consecutive_completed r)%nat → ∃ d, i_parts r !! i = Some (Some d);
  ik_next : (consecutive_completed r < i_total_parts r)%nat → i_parts r !! consecutive_completed r = Some None;
  ik_window : window_ok (i_window r);
}.

Lemma update_consecutive_spec {E} r : length (i_parts r) = i_total_parts r →
  (consecutive_completed r ≤ i_total_parts r)%nat →
  (∀ i, (i < consecutive_completed r)%nat → ∃ d, i_parts r !! i = Some (Some d)) → window_ok (i_window r) →
  ∃ n, update_consecutive r = @Ok E _ (in_completed r n) ∧ (consecutive_completed r ≤ n)%nat ∧ in_ok (in_completed r n).
Proof.
  intros Hl Hle Hpre Hw. unfold update_consecutive.
  remember (i_total_parts r - consecutive_completed r)%nat as fuel eqn:Hf. revert r Hl Hle Hpre Hw Hf.
  induction fuel as [|fuel IH]; intros r Hl Hle Hpre Hw Hf; cbn [update_consecutive_loop].
  { exists (consecutive_completed r). split_and!; [by destruct r|done|]. split; cbn; try done. lia. }
  destruct (idx_lt_inv (E:=E) (i_parts r) (consecutive_completed r)) as (p & Hp & Hi); [lia|].
  rewrite Hi. cbn [res_bind]. destruct p as [d|].
  - destruct (IH (in_completed r (S (consecutive_completed r)))) as (n & Hn & Hge & Hok); cbn; try done; try lia.
    { intros i Hi'. destruct (decide (i = consecutive_completed r)) as [->|]; [by eauto|]. apply Hpre. lia. }
    exists n. rewrite Hn. split_and!; [done|cbn in Hge; lia|done].
  - exists (consecutive_completed r). split_and!; [by destruct r|done|]. by split.
Qed.

Lemma find_slot_spec {E} r mh l : (∀ i, i ∈ l → (i < length (i_parts r))%nat) →
  (find_slot r mh l = @Ok E _ None ∧ ∀ i, i ∈ l → i_map_hashes r !! i = Some mh → ∃ d, i_parts r !! i = Some (Some d)) ∨
  ∃ i, find_slot r mh l = @Ok E _ (Some i) ∧ i ∈ l ∧ i_map_hashes r !! i = Some mh ∧ i_parts r !! i = Some None.
Proof.
  induction l as [|i l IH]; intros Hl; cbn [find_slot]; [left; split; [done|set_solver]|].
  destruct IH as [[He Ha]|(j & He & Hj & Hh & Hp)]; [set_solver| |];
    (case_decide as Hm;
     [destruct (idx_lt_inv (E:=E) (i_parts r) i) as ([d|] & Hd & Hi); [set_solver| |]; rewrite Hi; cbn [res_bind]|]).
  - left. split; [done|]. intros k [->|Hk]%elem_of_cons ?; eauto.
  - right. exists i. split_and!; [done|set_solver|done..].
  - left. split; [done|]. intros k [->|Hk]%elem_of_cons ?; [done|eauto].
  - right. exists j. split_and!; [done|set_solver|done..].
  - right. exists i. split_and!; [done|set_solver|done..].
  - right. exists j. split_and!; [done|set_solver|done..].
Qed.

Lemma elem_of_range i a b : i ∈ range a b ↔ (a ≤ i < b)%nat.
Proof. unfold range. rewrite elem_of_seq. lia. Qed.

Section receiving.
Context `{Digest}.

(** A part goes to an empty slot of the window whose map hash it has, or
    changes nothing. *)
Lemma in_receive_part_spec {E} r data : in_ok r →
  let mh := get_map_hash data (i_random_hash r) in
  (in_receive_part r data = @Ok E _ (r, false) ∧
   ∀ i, (consecutive_completed r ≤ i < search_end r)%nat → i_map_hashes r !! i = Some mh →
     ∃ d, i_parts r !! i = Some (Some d)) ∨
  ∃ i n, let r' := in_completed (in_parts r (<[i := Some data]> (i_parts r))) n in
    in_receive_part r data = @Ok E _ (r', true) ∧ in_ok r' ∧ (consecutive_completed r ≤ n)%nat ∧
    (consecutive_completed r ≤ i < search_end r)%nat ∧ i_map_hashes r !! i = Some mh ∧ i_parts r !! i = Some None.
Proof.
  intros Hok mh. unfold in_receive_part. fold mh.
  assert (Hse : (search_end r ≤ length (i_parts r))%nat) by (unfold search_end; rewrite (ik_length _ Hok); lia).
  destruct (find_slot_spec (E:=E) r mh (range (consecutive_completed r) (search_end r))) as [[He Ha]|(i & He & Hi & Hh & Hp)].
  { intros i ?%elem_of_range. lia. }
  - left. rewrite He. split; [done|]. intros i Hi. apply Ha. by apply elem_of_range.
  - right. apply elem_of_range in Hi. rewrite He. cbn [res_bind].
    destruct (update_consecutive_spec (E:=E) (in_parts r (<[i := Some data]> (i_parts r)))) as (n & Hn & Hge & Hok').
    + cbn. rewrite length_insert. apply Hok.
    + apply Hok.
    + cbn. intros j Hj. rewrite list_lookup_insert_ne by lia. by apply Hok.
    + apply Hok.
    + exists i, n. cbv zeta. rewrite Hn. cbn [res_bind]. split_and!; done || lia.
Qed.
End receiving.

(** ** Splitting into segments *)

(** Where segment [k + 1] starts in the payload. *)
Definition segment_offset (D mw : Z) (k : nat) : Z :=
  match k with O => 0 | S k => Z.min D (MAX_EFFICIENT_SIZE - mw + Z.of_nat k * MAX_EFFICIENT_SIZE) end.

(** The payload of segment [k + 1]. *)
Definition segment_data (data : bytes) (mw : Z) (k : nat) : bytes :=
  let a := Z.to_nat (segment_offset (len data) mw k) in
  let b := Z.to_nat (segment_offset (len data) mw (S k)) in
  take (b - a) (drop a data).

Lemma segment_offset_mono D mw k : 0 ≤ D → 0 ≤ mw ≤ MAX_EFFICIENT_SIZE →
  0 ≤ segment_offset D mw k ≤ segment_offset D mw (S k) ∧ segment_offset D mw (S k) ≤ D ∧
  segment_offset D mw (S k) - segment_offset D mw k ≤ MAX_EFFICIENT_SIZE - (if decide (k = 0)%nat then mw else 0).
Proof. unfold MAX_EFFICIENT_SIZE. destruct k; simpl; unfold MAX_EFFICIENT_SIZE; lia. Qed.

Lemma required_segments_spec D mw : 0 ≤ D → 0 ≤ mw ≤ MAX_EFFICIENT_SIZE →
  1 ≤ required_segment_count D mw ∧ segment_offset D mw (Z.to_nat (required_segment_count D mw)) = D ∧
  required_segment_count D mw = segments_of D mw.
Proof.
  intros HD Hm. unfold required_segment_count, segments_of, sat_sub.
  set (M := MAX_EFFICIENT_SIZE) in *. assert (HM : 0 < M) by done.
  rewrite (Z.max_r 0 (M - mw)) by lia. set (f := Z.min D (M - mw)). assert (Hf : 0 ≤ f ≤ D) by lia.
  rewrite Z.max_r by lia.
  assert (Hc : 0 ≤ div_ceil (D - f) M ∧ D - f ≤ div_ceil (D - f) M * M ∧ (D = 0 → div_ceil (D - f) M = 0)).
  { split_and!; [apply div_ceil_nonneg; lia| |].
    - unfold div_ceil. pose proof (Z.div_mod (D - f + M - 1) M ltac:(lia)).
      pose proof (Z.mod_pos_bound (D - f + M - 1) M HM). nia.
    - intros ->. unfold div_ceil. rewrite Z.div_small; lia. }
  destruct Hc as (Hc1 & Hc2 & Hc3). destruct (Z.eqb_spec D 0) as [->|Hne].
  - rewrite Hc3 by done. split_and!; [done| |done]. change (Z.to_nat 1) with 1%nat. cbn. fold M. lia.
  - split_and!; [lia| |done]. replace (Z.to_nat (1 + div_ceil (D - f) M)) with (S (Z.to_nat (div_ceil (D - f) M))) by lia.
    cbn [segment_offset]. fold M. rewrite Z2Nat.id by lia. lia.
Qed.

Lemma concat_segments data mw n : 0 ≤ mw ≤ MAX_EFFICIENT_SIZE →
  concat (segment_data data mw <$> seq 0 n) = take (Z.to_nat (segment_offset (len data) mw n)) data.
Proof.
  intros Hm. pose proof (len_nonneg data) as HD. induction n as [|n IH]; [done|].
  rewrite seq_S, fmap_app, concat_app, IH. cbn [fmap list_fmap concat]. rewrite app_nil_r, Nat.add_0_l. unfold segment_data. cbv zeta.
  pose proof (segment_offset_mono (len data) mw n HD Hm).
  set (a := Z.to_nat (segment_offset (len data) mw n)). set (b := Z.to_nat (segment_offset (len data) mw (S n))).
  rewrite take_take_drop. f_equal. lia.
Qed.

(** A plan after [k] of its segments were built. *)
Definition lazy_at (l : LazyMultiSegmentOutbound) (k : nat) : LazyMultiSegmentOutbound :=
  mkLazy (if Z.of_nat k <? l_total_segments l then l_data l else []) (l_auto_compress l)
    (if Nat.eqb k 0 then l_metadata l else None) (l_metadata_wire_size l) (l_request_id l) (l_is_response l)
    (segment_offset (l_data_size l) (l_metadata_wire_size l) k) (Z.of_nat k + 1) (l_original_hash l)
    (l_total_segments l) (l_data_size l).

Record plan_ok (l : LazyMultiSegmentOutbound) : Prop := {
  pk_meta : l_metadata_wire_size l = metadata_wire (len <$> l_metadata l);
  pk_wire : 0 ≤ l_metadata_wire_size l ≤ MAX_EFFICIENT_SIZE;
  pk_size : l_data_size l = len (l_data l) ∧ len (l_data l) ≤ MAX_RESOURCE_SIZE;
  pk_total : l_total_segments l = required_segment_count (l_data_size l) (l_metadata_wire_size l);
  pk_max : l_total_segments l ≤ MAX_SEGMENTS;
  pk_start : lazy_at l 0 = l;
}.

Definition segment_metadata (l : LazyMultiSegmentOutbound) (k : nat) : option bytes :=
  if Nat.eqb k 0 then l_metadata l else None.

Lemma SDU_nonzero : SDU ≠ 0%nat.
Proof. discriminate. Qed.

Section splitting.
Context `{Digest} `{Bzip2} `{LM : MsgpackLaws}.

Lemma lazy_with_options_inv data auto metadata id resp rnd l :
  lazy_with_options data auto metadata id resp rnd = Ok l →
  plan_ok l ∧ l_data l = data ∧ l_metadata l = metadata ∧ l_auto_compress l = auto ∧ l_request_id l = id ∧
  l_is_response l = resp ∧ l_original_hash l = compute_resource_hash data rnd ∧
  preflight_outbound (len data) (len <$> metadata) id resp true (Z.of_nat MTU) = Ok ().
Proof.
  unfold lazy_with_options. destruct (Z.ltb_spec MAX_RESOURCE_SIZE (len data)); [done|].
  set (mw := match metadata with Some v => 3 + len v | None => 0 end).
  assert (Hmw : mw = metadata_wire (len <$> metadata)) by (subst mw; destruct metadata; simpl; lia).
  assert (0 ≤ mw) by (subst mw; destruct metadata as [m|]; [pose proof (len_nonneg m)|]; lia).
  destruct (Z.ltb_spec MAX_EFFICIENT_SIZE mw); [done|].
  destruct (Z.ltb_spec MAX_SEGMENTS (required_segment_count (len data) mw)); [done|].
  intros ([] & Hp & [= <-])%res_bind_Ok_inv. split_and!; try done.
  split; cbn; try done; try lia.
  unfold lazy_at; cbn. pose proof (required_segments_spec (len data) mw (len_nonneg _) ltac:(lia)) as [? _].
  by rewrite (proj2 (Z.ltb_lt 0 _)) by lia.
Qed.

Lemma segment_fits l k : plan_ok l →
  metadata_wire (len <$> segment_metadata l k) + len (segment_data (l_data l) (l_metadata_wire_size l) k) ≤ MAX_EFFICIENT_SIZE.
Proof.
  intros [Hm Hw [Hs _] _ _ _]. unfold segment_data, segment_metadata.
  pose proof (segment_offset_mono (len (l_data l)) (l_metadata_wire_size l) k (len_nonneg _) Hw) as Ho.
  set (a := segment_offset (len (l_data l)) (l_metadata_wire_size l) k) in *.
  set (b := segment_offset (len (l_data l)) (l_metadata_wire_size l) (S k)) in *. clearbody a b.
  unfold len at 2. rewrite length_take, length_drop.
  destruct (Nat.eqb_spec k 0) as [->|]; [rewrite <- Hm, decide_True in * by done|rewrite decide_False in * by done; simpl]; lia.
Qed.

Lemma next_segment_step l k enc rng : plan_ok l → Z.of_nat k < l_total_segments l →
  ∃ t, let r := attempt (segment_data (l_data l) (l_metadata_wire_size l) k) (l_auto_compress l) (segment_metadata l k)
              SDU enc rng t in
    next_segment (lazy_at l k) enc rng = (lazy_at l (S k), Ok (Some (segment_fields l (Z.of_nat k + 1) r))) ∧
    (t = 0%nat ∨ NoDup (o_map_hashes r)).
Proof.
  intros Hok Hk. pose proof (segment_fits l k Hok) as Hfit. destruct Hok as [Hm Hw [Hs Hmax] Ht Hs128 _].
  destruct (with_options_ok (segment_data (l_data l) (l_metadata_wire_size l) k) (l_auto_compress l)
    (segment_metadata l k) None enc rng MAX_COLLISION_RETRIES SDU_nonzero Hfit) as (t & _ & Hr & Hu & _).
  cbn [default] in Hr, Hu. exists t. cbv zeta. split; [|exact Hu].
  pose proof (segment_offset_mono (len (l_data l)) (l_metadata_wire_size l) k (len_nonneg _) Hw) as Ho.
  unfold next_segment, lazy_at. cbn [l_total_segments l_next_segment_index l_metadata l_metadata_wire_size l_next_offset
    l_data l_auto_compress l_request_id l_is_response l_original_hash l_data_size].
  rewrite (proj2 (Z.ltb_ge _ _)), (proj2 (Z.ltb_lt _ _) Hk) by lia.
  replace (Z.of_nat k + 1 =? 1) with (Nat.eqb k 0) by (destruct (Nat.eqb_spec k 0), (Z.eqb_spec (Z.of_nat k + 1) 1); lia).
  rewrite Hs. unfold MAX_RESOURCE_SIZE in Hmax.
  replace (Z.min (sat_add64 (segment_offset (len (l_data l)) (l_metadata_wire_size l) k)
      (if Nat.eqb k 0 then MAX_EFFICIENT_SIZE - l_metadata_wire_size l else MAX_EFFICIENT_SIZE)) (len (l_data l)))
    with (segment_offset (len (l_data l)) (l_metadata_wire_size l) (S k)).
  2:{ unfold sat_add64, U64_MAX, MAX_EFFICIENT_SIZE in *. destruct k; simpl Nat.eqb; cbn [segment_offset] in *;
      unfold MAX_EFFICIENT_SIZE in *; lia. }
  assert (Hlen : Z.of_nat (length (l_data l)) = len (l_data l)) by done.
  rewrite slice_ok by lia. cbn [res_bind].
  fold (segment_data (l_data l) (l_metadata_wire_size l) k).
  fold (segment_metadata l k).
  replace (if Nat.eqb k 0 then segment_metadata l k else None) with (segment_metadata l k) by (by destruct k).
  unfold with_options. rewrite Hr.
  replace (Z.of_nat (S k)) with (Z.of_nat k + 1) by lia.
  replace (if l_total_segments l <? Z.of_nat k + 1 + 1 then [] else l_data l)
    with (if Z.of_nat k + 1 <? l_total_segments l then l_data l else [])
    by (destruct (Z.ltb_spec (l_total_segments l) (Z.of_nat k + 1 + 1)), (Z.ltb_spec (Z.of_nat k + 1) (l_total_segments l)); done || lia).
  unfold segment_fields, segment_metadata. cbn [l_is_response l_data_size l_metadata_wire_size l_total_segments l_request_id
    l_original_hash]. rewrite <- Hs. by destruct k.
Qed.

Lemma next_segment_end l enc rng : plan_ok l →
  next_segment (lazy_at l (Z.to_nat (l_total_segments l))) enc rng = (lazy_at l (Z.to_nat (l_total_segments l)), Ok None).
Proof.
  intros [_ Hw [Hs _] Ht _ _].
  pose proof (required_segments_spec (l_data_size l) (l_metadata_wire_size l) ltac:(rewrite Hs; apply len_nonneg) Hw) as [Hr _].
  unfold next_segment, lazy_at. cbn [l_total_segments l_next_segment_index]. by rewrite (proj2 (Z.ltb_lt _ _)) by lia.
Qed.

(** Segment [k + 1] as the plan builds it, for some construction attempt. *)
Definition is_segment (l : LazyMultiSegmentOutbound) (enc : option (nat → bytes → bytes)) (k : nat) (r : OutboundResource) : Prop :=
  ∃ rng t, let a := attempt (segment_data (l_data l) (l_metadata_wire_size l) k) (l_auto_compress l)
                      (segment_metadata l k) SDU enc rng t in
    r = segment_fields l (Z.of_nat k + 1) a ∧ (t = 0%nat ∨ NoDup (o_map_hashes a)).

Lemma drain_segments_ok l enc rng n : plan_ok l → ∀ k, (k + n = Z.to_nat (l_total_segments l))%nat →
  ∃ segs, drain_segments (n + 1) (lazy_at l k) enc rng = Ok segs ∧ Forall2 (is_segment l enc) (seq k n) segs.
Proof.
  intros Hok. induction n as [|n IH]; intros k Hk; cbn [drain_segments Nat.add].
  - replace k with (Z.to_nat (l_total_segments l)) by lia. rewrite next_segment_end by done. cbn. eauto using Forall2_nil.
  - destruct (next_segment_step l k enc (rng (S (n + 1))) Hok) as (t & Hn & Hu); [lia|]. cbv zeta in *. rewrite Hn. cbn [res_bind].
    destruct (IH (S k)) as (segs & Hs & Hf); [lia|]. rewrite Hs. cbn [res_bind]. eexists. split; [done|].
    cbn [seq]. constructor; [|done]. exists (rng (S (n + 1))%nat), t. by split.
Qed.

Lemma drain_plan l enc rng : plan_ok l →
  ∃ segs, drain_segments (Z.to_nat (l_total_segments l) + 1) l enc rng = Ok segs ∧
    Forall2 (is_segment l enc) (seq 0 (Z.to_nat (l_total_segments l))) segs.
Proof.
  intros Hok. pose proof (drain_segments_ok l enc rng _ Hok 0 eq_refl) as Hd. by rewrite (pk_start l Hok) in Hd.
Qed.

Lemma segment_payload l enc segs : plan_ok l → Forall2 (is_segment l enc) (seq 0 (Z.to_nat (l_total_segments l))) segs →
  concat (o_data <$> segs) = l_data l.
Proof.
  intros Hok Hf. replace (o_data <$> segs)
    with (segment_data (l_data l) (l_metadata_wire_size l) <$> seq 0 (Z.to_nat (l_total_segments l))).
  2:{ induction Hf as [|k r ks rs (rng & t & -> & _) _ IH]; [done|]. cbn [fmap list_fmap]. by rewrite IH. }
  destruct Hok as [_ Hw [Hs _] Ht _ _]. rewrite concat_segments by done.
  destruct (required_segments_spec (l_data_size l) (l_metadata_wire_size l) ltac:(rewrite Hs; apply len_nonneg) Hw) as (_ & Hr & _).
  rewrite Ht, Hs in *. rewrite Hr. unfold len. by rewrite Nat2Z.id, firstn_all.
Qed.
End splitting.

(** ** Collecting segments *)

Definition feed_segments (m : MultiSegmentInbound) (l : list (nat * bytes)) : res ResourceError MultiSegmentInbound :=
  foldl (λ acc '(i, d), let* m := acc in set_segment_data m i d) (Ok m) l.

Record msin_ok (m : MultiSegmentInbound) : Prop := {
  mik_length : length (mi_assembled m) = mi_total_segments m;
  mik_segments : length (mi_segments m) = mi_total_segments m;
}.

(** Storing a segment, on every branch. *)
Lemma set_segment_data_spec m i d : msin_ok m →
  set_segment_data m i d =
    if decide (1 ≤ i ≤ mi_total_segments m)%nat then
      match mi_assembled m !! (i - 1)%nat with
      | Some None =>
          Ok (mkMsIn (mi_original_hash m) (mi_total_segments m) (mi_segments m) (<[(i - 1)%nat := Some d]> (mi_assembled m))
                (sat_add64 (mi_data_size m) (len d)) (mi_metadata m))
      | _ => Err RDuplicateSegment
      end
    else Err RInvalidAdvertisement.
Proof.
  intros [Hl _]. unfold set_segment_data. destruct (decide (1 ≤ i ≤ _)%nat).
  - rewrite decide_False by lia. destruct (idx_lt_inv (E:=ResourceError) (mi_assembled m) (i - 1)) as (x & Hx & Hi); [lia|].
    rewrite Hi, Hx. cbn [res_bind]. destruct x; [done|]. unfold set_idx. by rewrite decide_True by lia.
  - by rewrite decide_True by lia.
Qed.

Lemma feed_segments_spec l : ∀ m, msin_ok m → NoDup l.*1 →
  (∀ i d, (i, d) ∈ l → (1 ≤ i ≤ mi_total_segments m)%nat ∧ mi_assembled m !! (i - 1)%nat = Some None) →
  ∃ m', feed_segments m l = Ok m' ∧ msin_ok m' ∧ mi_total_segments m' = mi_total_segments m ∧
    (∀ i d, (i, d) ∈ l → mi_assembled m' !! (i - 1)%nat = Some (Some d)) ∧
    ∀ j, S j ∉ l.*1 → mi_assembled m' !! j = mi_assembled m !! j.
Proof.
  unfold feed_segments. induction l as [|[i d] l IH]; intros m Hok Hnd Hl.
  { exists m. split_and!; try done. set_solver. }
  cbn [foldl res_bind]. apply NoDup_cons in Hnd as [Hni Hnd].
  destruct (Hl i d ltac:(set_solver)) as [Hr He]. rewrite set_segment_data_spec, decide_True, He by done.
  set (m1 := mkMsIn _ _ _ _ _ _).
  destruct (IH m1) as (m' & Hf & Hok' & Ht & Hin & Hout).
  - destruct Hok. split; cbn; [by rewrite length_insert|done].
  - done.
  - intros j e Hj. destruct (Hl j e) as [? Hje]; [set_solver|]. split; [done|]. cbn.
    rewrite list_lookup_insert_ne; [done|]. assert (j ≠ i); [|lia]. intros ->. apply Hni. by apply (list_elem_of_fmap_2 fst _ (i, e)).
  - exists m'. split_and!; [done..| |].
    + intros j e [[= -> ->]|Hj]%elem_of_cons; [|by apply Hin]. rewrite Hout; [|by replace (S (i - 1)) with i by lia].
      cbn. apply list_lookup_insert_eq. rewrite (mik_length _ Hok). lia.
    + intros j Hj. cbn in Hj. rewrite Hout by set_solver. cbn. rewrite list_lookup_insert_ne; [done|]. set_solver by lia.
Qed.

Lemma reassemble_full m ds : mi_assembled m = Some <$> ds → reassemble m = Ok (concat ds).
Proof.
  intros He. unfold reassemble, ms_is_complete. rewrite He.
  replace (forallb _ _) with true; [apply join_parts_ok|]. clear He. induction ds as [|d ds IH]; [done|].
  cbn [fmap list_fmap forallb]. by rewrite <- IH.
Qed.

(** Segments fed once each, in any order, reassemble to their concatenation. *)
Lemma feed_any_order ds l oh : l ≡ₚ imap (λ i d, (S i, d)) ds →
  ∃ m, feed_segments (ms_inbound_new (length ds) oh) l = Ok m ∧ reassemble m = Ok (concat ds) ∧
    ∀ i d, (1 ≤ i ≤ length ds)%nat → set_segment_data m i d = Err RDuplicateSegment.
Proof.
  intros Hp.
  assert (Hin : ∀ i d, (i, d) ∈ l ↔ (1 ≤ i)%nat ∧ ds !! (i - 1)%nat = Some d).
  { intros i d. rewrite Hp, elem_of_lookup_imap. split.
    - intros (j & e & [= -> ->] & He). simpl. rewrite Nat.sub_0_r. split; [lia|done].
    - intros [? ?]. exists (i - 1)%nat, d. split; [f_equal; lia|done]. }
  destruct (feed_segments_spec l (ms_inbound_new (length ds) oh)) as (m & Hf & Hok & Ht & Hi & _).
  - split; cbn; apply length_replicate.
  - rewrite Hp. apply NoDup_alt. intros i j x. rewrite !list_lookup_fmap, !list_lookup_imap.
    destruct (ds !! i), (ds !! j); simpl; intros; simplify_eq; done.
  - intros i d [? Hd]%Hin. apply lookup_lt_Some in Hd. cbn. split; [lia|]. apply lookup_replicate_2. lia.
  - exists m. split; [done|].
    assert (He : mi_assembled m = Some <$> ds).
    { apply list_eq. intros j. rewrite list_lookup_fmap. destruct (ds !! j) as [d|] eqn:Hd; simpl.
      - specialize (Hi (S j) d). simpl in Hi. rewrite Nat.sub_0_r in Hi. apply Hi. apply Hin. simpl. rewrite Nat.sub_0_r.
        split; [lia|done].
      - apply lookup_ge_None. apply lookup_ge_None in Hd. rewrite (mik_length _ Hok), Ht. done. }
    split; [by apply reassemble_full|]. intros i d Hid. rewrite set_segment_data_spec by done. rewrite Ht.
    cbn [ms_inbound_new mi_total_segments]. rewrite decide_True, He, list_lookup_fmap by done.
    destruct (lookup_lt_is_Some_2 ds (i - 1)) as [e ->]; [lia|]. done.
Qed.

(** ** A receiver that tracks a sender *)

Section tracking.
Context `{DL : DigestLaws}.

(** Equal map hashes mean equal parts: no collision but between equal chunks. *)
Definition hashes_separate (o : OutboundResource) : Prop :=
  ∀ p q, p ∈ o_parts o → q ∈ o_parts o → get_map_hash p (o_random_hash o) = get_map_hash q (o_random_hash o) → p = q.

Record sender_ok (o : OutboundResource) : Prop := {
  sk_hashes : o_map_hashes o = (λ p, get_map_hash p (o_random_hash o)) <$> o_parts o;
  sk_separate : hashes_separate o;
}.

Record tracks (o : OutboundResource) (r : InboundResource) : Prop := {
  tk_ok : in_ok r;
  tk_total : i_total_parts r = length (o_parts o);
  tk_random : i_random_hash r = o_random_hash o;
  tk_hash : i_resource_hash r = o_resource_hash o;
  tk_hashes : i_map_hashes r `prefix_of` o_map_hashes o;
  tk_slots : ∀ i d, i_parts r !! i = Some (Some d) → o_parts o !! i = Some d;
}.

Lemma NoDup_separate o : o_map_hashes o = (λ p, get_map_hash p (o_random_hash o)) <$> o_parts o →
  NoDup (o_map_hashes o) → hashes_separate o.
Proof.
  intros Hm Hn p q [i Hi]%list_elem_of_lookup_1 [j Hj]%list_elem_of_lookup_1 He. rewrite Hm in Hn.
  eapply NoDup_lookup with (i := i) (j := j) in Hn; [|rewrite list_lookup_fmap, Hi; reflexivity|rewrite list_lookup_fmap, Hj; simpl; by rewrite He].
  congruence.
Qed.

Lemma receive_tracks {E} o r data : sender_ok o → tracks o r → data ∈ o_parts o →
  ∃ r' b, in_receive_part r data = @Ok E _ (r', b) ∧ tracks o r' ∧
    (b = false → r' = r) ∧
    (b = true → ∃ i n, r' = in_completed (in_parts r (<[i := Some data]> (i_parts r))) n ∧
       i_parts r !! i = Some None ∧ (consecutive_completed r ≤ i < search_end r)%nat ∧ o_parts o !! i = Some data).
Proof.
  intros [Hm Hsep] [Hok Ht Hr Hh Hp Hs] Hd.
  destruct (in_receive_part_spec (E:=E) r data Hok) as [[He _]|(i & n & He & Hok' & Hn & Hi & Hmi & Hpi)].
  { exists r, false. split_and!; [done|by split|done..]. }
  assert (Hoi : o_parts o !! i = Some data).
  { pose proof (prefix_lookup_Some _ _ _ _ Hmi Hp) as Hx.
    rewrite Hm, list_lookup_fmap in Hx. destruct (o_parts o !! i) as [p|] eqn:Ho; [|done]. simpl in Hx.
    injection Hx as Hx. rewrite Hr in Hx. f_equal. apply Hsep; [by eapply list_elem_of_lookup_2|done|done]. }
  exists (in_completed (in_parts r (<[i:=Some data]> (i_parts r))) n), true. split_and!; [done| |done|intros _; by exists i, n].
  split; try done. cbn. intros j d. destruct (decide (i = j)) as [<-|].
  - rewrite list_lookup_insert_eq by (by eapply lookup_lt_Some). by intros [= <-].
  - rewrite list_lookup_insert_ne by done. apply Hs.
Qed.

(** A complete receiver holds exactly the sender's parts. *)
Lemma tracks_complete o r : tracks o r → in_is_complete r = true → i_parts r = Some <$> o_parts o.
Proof.
  intros [Hok Ht _ _ _ Hs] Hc. apply Nat.eqb_eq in Hc. apply list_eq. intros i. rewrite list_lookup_fmap.
  destruct (decide (i < i_total_parts r)%nat) as [Hi|Hi].
  - destruct (ik_prefix _ Hok i) as [d Hd]; [lia|]. by rewrite Hd, (Hs _ _ Hd).
  - rewrite !lookup_ge_None_2; [done|rewrite <- Ht; lia|rewrite (ik_length _ Hok); lia].
Qed.
End tracking.

(** The sender accepts its own expected proof. *)
Lemma validate_expected o : length (o_resource_hash o) = 32%nat → length (o_expected_proof o) = 32%nat →
  out_validate_proof o (o_resource_hash o ++ o_expected_proof o) = (out_state o RComplete, Ok true).
Proof.
  intros Hl Hp. unfold out_validate_proof. rewrite decide_False by (rewrite length_app; lia).
  rewrite slice_ok by (rewrite length_app; lia). change (64 - 32)%nat with 32%nat.
  rewrite drop_app_length' by done. rewrite take_ge by lia. by rewrite decide_True by done.
Qed.

(** ** Theorems *)

Section theorems.
Context `{DL : DigestLaws} `{LB : Bzip2Laws} `{LM : MsgpackLaws}.

(** C20.  A payload that a sender may split (at most 128 MiB, metadata within
    the first segment) is split into exactly the announced number of
    segments; each carries its position, the shared hash and at most a
    segment's worth of content, only the first has the metadata, and their
    payloads concatenate to the original.  A receiver given the segments once
    each, in any order, reassembles the original, and refuses a second copy. *)
Theorem resource_segments_roundtrip data auto metadata id resp rnd l enc rng order oh :
  lazy_with_options data auto metadata id resp rnd = Ok l →
  ∃ ms, multi_with_options data auto metadata id resp enc rnd rng = Ok ms ∧
    Z.of_nat (length (ms_segments ms)) = segments_of (len data) (metadata_wire (len <$> metadata)) ∧
    (∀ k s, ms_segments ms !! k = Some s →
       o_segment_index s = Z.of_nat k + 1 ∧ o_total_segments s = Z.of_nat (length (ms_segments ms)) ∧
       o_original_hash s = Some (compute_resource_hash data rnd) ∧ o_request_id s = id ∧
       f_has_metadata (o_flags s) = bool_decide (k = 0%nat ∧ is_Some metadata) ∧
       o_metadata_size s + len (o_data s) ≤ MAX_EFFICIENT_SIZE) ∧
    concat (o_data <$> ms_segments ms) = data ∧
    (order ≡ₚ imap (λ i s, (S i, o_data s)) (ms_segments ms) →
     ∃ m, feed_segments (ms_inbound_new (length (ms_segments ms)) oh) order = Ok m ∧ reassemble m = Ok data ∧
       ∀ i d, (1 ≤ i ≤ length (ms_segments ms))%nat → set_segment_data m i d = Err RDuplicateSegment).
Proof.
  intros Hl. destruct (lazy_with_options_inv _ _ _ _ _ _ _ Hl) as (Hok & Hd & Hm & Ha & Hid & Hr & Hoh & _).
  destruct (drain_plan l enc rng Hok) as (segs & Hs & Hf).
  pose proof (segment_payload l enc segs Hok Hf) as Hc. rewrite Hd in Hc.
  pose proof (Forall2_length _ _ _ Hf) as Hlen. rewrite length_seq in Hlen.
  pose proof Hok as [Hpm Hpw [Hps _] Hpt _ _].
  destruct (required_segments_spec (l_data_size l) (l_metadata_wire_size l) ltac:(rewrite Hps; apply len_nonneg) Hpw) as (Hge & _ & Hso).
  exists (mkMulti (l_original_hash l) segs (l_total_segments l) (l_data_size l)). cbn [ms_segments].
  assert (Htot : Z.of_nat (length segs) = l_total_segments l) by (rewrite <- Hlen, Hpt; lia).
  split_and!.
  - unfold multi_with_options. rewrite Hl. cbn [res_bind]. by rewrite Hs.
  - rewrite Htot, Hpt, Hso, Hps, Hd, Hpm, Hm. done.
  - intros k s Hk. destruct (Forall2_lookup_r _ _ _ _ _ Hf Hk) as (k' & Hk' & (rg & t & -> & _)).
    apply lookup_seq in Hk' as [-> Hk']. rewrite Nat.add_0_l. cbn. rewrite Hoh, Hid, Htot. split_and!; try done.
    + unfold segment_metadata. rewrite Hm. apply bool_decide_ext. destruct (Nat.eqb_spec k 0); [tauto|].
      split; [by intros [? ?]|by intros [? _]].
    + pose proof (segment_fits l k Hok). done.
  - done.
  - intros Ho. destruct (feed_any_order (o_data <$> segs) order oh) as (m & Hfm & Hrm & Hdup).
    { rewrite Ho. by rewrite imap_fmap. }
    rewrite length_fmap in *. rewrite Hc in Hrm. by exists m.
Qed.

End theorems.

(** ** Witnesses *)

#[local] Existing Instance toy_digest.
#[local] Existing Instance toy_bzip2.

(** Eleven bytes with a two-byte metadata record, in one segment. *)
Definition demo_payload : bytes := [1; 2; 3; 4; 5; 6; 7; 8; 9; 10; 11].
Definition demo_rng (_ : nat) : bytes := [9; 8; 7; 6].

Definition plan_admitted (r : res ResourceError LazyMultiSegmentOutbound) : bool := match r with Ok _ => true | _ => false end.

Lemma resource_segments_roundtrip_witness :
  ∃ ms m, multi_with_options demo_payload false (Some [7; 8]) (Some [5]) false None [1; 1; 1; 1] (λ _, demo_rng) = Ok ms ∧
    Z.of_nat (length (ms_segments ms)) = 1 ∧
    feed_segments (ms_inbound_new (length (ms_segments ms)) []) (imap (λ i s, (S i, o_data s)) (ms_segments ms)) = Ok m ∧
    reassemble m = Ok demo_payload.
Proof.
  assert (Hb : plan_admitted (lazy_with_options demo_payload false (Some [7; 8]) (Some [5]) false [1; 1; 1; 1]) = true)
    by (vm_compute; reflexivity).
  destruct (lazy_with_options demo_payload false (Some [7; 8]) (Some [5]) false [1; 1; 1; 1]) as [l|e|] eqn:Hl;
    [|discriminate Hb|discriminate Hb].
  destruct (resource_segments_roundtrip demo_payload false (Some [7; 8]) (Some [5]) false [1; 1; 1; 1] l None (λ _, demo_rng)
    [(1%nat, demo_payload)] [] Hl) as (ms & H1 & H2 & _ & H3 & _).
  destruct (resource_segments_roundtrip demo_payload false (Some [7; 8]) (Some [5]) false [1; 1; 1; 1] l None (λ _, demo_rng)
    (imap (λ i s, (S i, o_data s)) (ms_segments ms)) [] Hl) as (ms' & H1' & _ & _ & _ & H4).
  rewrite H1 in H1'. injection H1' as <-. destruct (H4 (Permutation_refl _)) as (m & Hm & Hr & _).
  exists ms, m. exact (conj H1 (conj H2 (conj Hm Hr))).
Defined.

Definition demo_out : OutboundResource := attempt demo_payload false (Some [7; 8]) 5 None demo_rng 0.
Definition demo_in : InboundResource :=
  mkIn RTransferring (Some <$> o_parts demo_out) 4 (o_random_hash demo_out) (o_resource_hash demo_out) (o_flags demo_out)
    (o_total_size demo_out) (o_advertisement_data_size demo_out) 4 window_new (o_map_hashes demo_out) 5 None.

