(* ===== verification/Transfer.v ===== *)
(** * Resource transfer

    Models lines 1391-2537 of [rns-protocol/src/resource.rs]: the sender's
    state machine [OutboundTransfer] and the receiver's [InboundTransfer].
    The fields of each are grouped into sub-records; the clock is an argument
    [now], read once per call.  The transfers exchange the frames of
    [ResourceAdv]: advertisement, part request, part, hashmap update, proof. *)

From S2P Require Import Prelude F64 Wire Packet Token Channel Stream LinkChannel Msgpack ResourceAdv Resource.
From stdpp Require Import prelude list gmap.

Open Scope Z_scope.

Definition MAX_RETRIES : nat := 16.
Definition MAX_ADV_RETRIES : nat := 4.
Definition SENDER_GRACE_TIME : f64 := f_of_Z 10.
Definition PROCESSING_GRACE : f64 := f_of_Z 1.
Definition PART_TIMEOUT_FACTOR : f64 := f_of_Z 4.
Definition PART_TIMEOUT_FACTOR_AFTER_RTT : f64 := f_of_Z 2.
Definition RETRY_GRACE_TIME : f64 := f_lit 1 4.
Definition PER_RETRY_DELAY : f64 := f_lit 1 2.
Definition HMU_WAIT_FACTOR : f64 := f_lit 7 2.
Definition EIFR_COLD_START_BYTES : Z := 600.
(** [rns_link::constants::TRAFFIC_TIMEOUT_FACTOR as u32] *)
Definition TRAFFIC_TIMEOUT_FACTOR : Z := f_to_usize (f_of_Z 6).

(** The reasons of [TransferAction::Failed]. *)
Inductive FailReason :=
| TransferFailed | ControlError (e : ResourceError) | ProofTimedOut | RequestsTimedOut | AdvertisementTimedOut | TransferTimedOut.

Inductive CancelType := Icl | Rcl.

Inductive TransferAction :=
| ANone
| SendAdvertisement (b : bytes)
| SendPart (i : nat) (b : bytes)
| SendProof (b : bytes)
| SendHmu (b : bytes)
| SendRequest (b : bytes)
| AComplete
| AFailed (why : FailReason)
| SendCancel (t : CancelType) (h : bytes).

(** ** The sender *)

(** State of the feedback format of [handle_hmu]. *)
Record Feedback := mkFb {
  cursor : nat;
  confirmed_parts : list bool;
  window_cursor : nat;
  awaiting_hmu : bool;
  window_max_sent : nat;
}.

Record Serving := mkServe {
  receiver_min_consecutive_height : nat;
  sent_parts : nat;
  sent_part_indices : gset nat;
  req_hashlist : gset bytes;
  last_request_parts : nat;
}.

Record SenderClock := mkSClock {
  s_retries : nat;
  last_part_sent : option Z;
  s_started_at : Z;
  s_rtt : Z;
  advertised : bool;
  last_progress : Z;
}.

Record OutboundTransfer := mkOT {
  ot_resource : OutboundResource;
  ot_feedback : Feedback;
  ot_serving : Serving;
  ot_clock : SenderClock;
}.

Definition ot_state (t : OutboundTransfer) : ResourceState := o_state (ot_resource t).
Definition set_ot_state (t : OutboundTransfer) (s : ResourceState) : OutboundTransfer :=
  mkOT (out_state (ot_resource t) s) (ot_feedback t) (ot_serving t) (ot_clock t).

Definition from_resource (r : OutboundResource) (rtt now : Z) : OutboundTransfer :=
  mkOT r (mkFb 0 (replicate (out_num_parts r) false) 0 false 0) (mkServe 0 0 ∅ ∅ 0) (mkSClock 0 None now rtt false now).

Section outbound_new.
Context `{Digest} `{Bzip2} `{Msgpack}.

Definition ot_new (data : bytes) (auto_compress : bool) (rtt now : Z) (rng : nat → bytes) : res ResourceError OutboundTransfer :=
  let* r := outbound_new data auto_compress None rng in
  Ok (from_resource r rtt now).

(** The closure of [new_encrypted]: plaintext when encryption fails; [iv] is
    drawn per attempt. *)
Definition link_encryptor `{AesCbc} `{Hmac} (keys : LinkKeys) (iv : nat → bytes) (attempt : nat) (plaintext : bytes) : bytes :=
  match link_encrypt keys plaintext (iv attempt) with Ok c => c | _ => plaintext end.

Definition ot_new_encrypted `{AesCbc} `{Hmac} (data : bytes) (auto_compress : bool) (rtt now : Z) (keys : LinkKeys)
    (rng iv : nat → bytes) : res ResourceError OutboundTransfer :=
  let* r := outbound_new data auto_compress (Some (link_encryptor keys iv)) rng in
  Ok (from_resource r rtt now).
End outbound_new.

Definition from_prebuilt (r : OutboundResource) (rtt now : Z) : OutboundTransfer := from_resource r rtt now.

(** [Duration::from_secs_f64] of a constant in range. *)
Definition from_secs_f64 (x : f64) : Z := default 0 (try_from_secs_f64 x).

(** [SENDER_GRACE_TIME + PER_RETRY_DELAY * (MAX_RETRIES * (MAX_RETRIES + 1) / 2)] *)
Definition progress_grace : f64 :=
  f_add SENDER_GRACE_TIME (f_mul PER_RETRY_DELAY (f_of_Z (Z.of_nat (MAX_RETRIES * (MAX_RETRIES + 1) / 2)))).

Definition progress_timeout (t : OutboundTransfer) : Z :=
  let request_count := Z.min (Z.of_nat (MAX_RETRIES + last_request_parts (ot_serving t))) U32_MAX in
  dur_add (dur_mul (dur_mul (s_rtt (ot_clock t)) (f_to_usize PART_TIMEOUT_FACTOR)) request_count) (from_secs_f64 progress_grace).

(** One advertisement attempt: [rtt * 6 + 1s]. *)
Definition attempt_timeout (t : OutboundTransfer) : Z :=
  dur_add (dur_mul (s_rtt (ot_clock t)) TRAFFIC_TIMEOUT_FACTOR) (from_secs_f64 PROCESSING_GRACE).

Definition terminal (s : ResourceState) : bool :=
  match s with RComplete | RFailed | RRejected | RCorruptState => true | _ => false end.
Definition failed_state (s : ResourceState) : bool :=
  match s with RFailed | RRejected | RCorruptState => true | _ => false end.

Section sender.
Context `{Msgpack}.

Definition create_advertisement (t : OutboundTransfer) : res ResourceError bytes :=
  let r := ot_resource t in
  let mtu := Z.of_nat MTU in
  let* _ := match o_request_id r with
            | Some id => check_control_frame ResourceAdv (len id) true HDR mtu
            | None => Ok ()
            end in
  let a := adv_new (o_total_size r) (o_advertisement_data_size r) (Z.of_nat (out_num_parts r)) (o_resource_hash r)
             (o_random_hash r) (o_flags r) (o_map_hashes r) LINK_MDU in
  let a := mkAdv (transfer_size a) (data_size a) (num_parts a) (resource_hash a) (random_hash a)
             (if f_split (o_flags r) then default (original_hash a) (o_original_hash r) else original_hash a)
             (if f_split (o_flags r) then o_segment_index r else segment_index a)
             (if f_split (o_flags r) then o_total_segments r else total_segments a)
             (o_request_id r) (adv_flags a) (hashmap a) (metadata_size a) in
  let* _ := check_advertisement a mtu in
  Ok (adv_pack a).

Definition ot_check_timeout (t : OutboundTransfer) (now : Z) : OutboundTransfer * TransferAction :=
  if failed_state (ot_state t) then (t, AFailed TransferFailed) else
  match ot_state t with
  | RTransferring | RAwaitingProof =>
      if progress_timeout t <? elapsed (last_progress (ot_clock t)) now then
        let reason := if decide (ot_state t = RAwaitingProof) then ProofTimedOut else RequestsTimedOut in
        (set_ot_state t RFailed, AFailed reason)
      else (t, ANone)
  | RAdvertised =>
      let c := ot_clock t in
      if elapsed (s_started_at c) now <=? attempt_timeout t then (t, ANone) else
      if decide (s_retries c < MAX_ADV_RETRIES)%nat then
        let t := mkOT (ot_resource t) (ot_feedback t) (ot_serving t)
          (mkSClock (S (s_retries c)) (last_part_sent c) now (s_rtt c) (advertised c) (last_progress c)) in
        match create_advertisement t with
        | Ok b => (t, SendAdvertisement b)
        | Err e => (set_ot_state t RFailed, AFailed (ControlError e))
        | Panic => (t, ANone)
        end
      else (set_ot_state t RFailed, AFailed AdvertisementTimedOut)
  | _ => (t, ANone)
  end.

Definition tick (t : OutboundTransfer) (now : Z) : OutboundTransfer * TransferAction :=
  if decide (ot_state t = RComplete) then (t, AComplete) else
  if failed_state (ot_state t) then (t, AFailed TransferFailed) else
  if advertised (ot_clock t) then ot_check_timeout t now else
  match create_advertisement t with
  | Ok b =>
      let c := ot_clock t in
      (set_ot_state (mkOT (ot_resource t) (ot_feedback t) (ot_serving t)
         (mkSClock (s_retries c) (last_part_sent c) now (s_rtt c) true (last_progress c))) RAdvertised, SendAdvertisement b)
  | Err e => (set_ot_state t RFailed, AFailed (ControlError e))
  | Panic => (t, ANone)
  end.
End sender.

Definition timeout_window (t : OutboundTransfer) : option (Z * Z) :=
  match ot_state t with
  | RAdvertised =>
      Some (s_started_at (ot_clock t), dur_mul (attempt_timeout t) (Z.of_nat (MAX_ADV_RETRIES - s_retries (ot_clock t) + 1)))
  | RTransferring | RAwaitingProof => Some (last_progress (ot_clock t), progress_timeout t)
  | _ => None
  end.

(** Confirm the sent parts whose hash was not requested. *)
Fixpoint confirm_loop {E} (map_hashes : list bytes) (requested : list bytes) (l : list nat) (confirmed : list bool) (n : Z)
    : res E (list bool * Z) :=
  match l with
  | [] => Ok (confirmed, n)
  | i :: l =>
      match map_hashes !! i with
      | None => confirm_loop map_hashes requested l confirmed n
      | Some h =>
          let* c := idx confirmed i in
          if negb c && negb (bool_decide (h ∈ requested))
          then confirm_loop map_hashes requested l (<[i := true]> confirmed) (n + 1)
          else confirm_loop map_hashes requested l confirmed n
      end
  end.

(** [while cursor < num_parts && confirmed_parts[cursor]] *)
Fixpoint advance_cursor {E} (fuel : nat) (confirmed : list bool) (c : nat) : res E nat :=
  match fuel with
  | O => Ok c
  | S fuel => let* b := idx confirmed c in if b : bool then advance_cursor fuel confirmed (S c) else Ok c
  end.

(** [n * SDU / elapsed] bytes per second, zero for no elapsed time. *)
Definition byte_rate (n elapsed_ns : Z) : f64 :=
  let e := as_secs_f64 elapsed_ns in
  if f_gt e f_zero then f_div (f_of_Z (n * Z.of_nat SDU)) e else f_zero.

Definition ot_handle_hmu {E} (t : OutboundTransfer) (hmu_data : bytes) (now : Z) : res E OutboundTransfer :=
  let r := ot_resource t in
  let fb := ot_feedback t in
  match hmu_data with
  | [] => Ok t
  | b0 :: _ =>
      if terminal (ot_state t) then Ok t else
      let exhausted := b0 =? HASHMAP_IS_EXHAUSTED in
      let offset := if exhausted then (1 + MAPHASH_LEN)%nat else 1%nat in
      if decide (length hmu_data < offset + 32)%nat then Ok t else
      let* h := slice hmu_data offset (offset + 32) in
      if decide (h ≠ o_resource_hash r) then Ok t else
      if exhausted then
        Ok (mkOT (out_window (out_state r RAwaitingProof) (grow (o_window r) 0))
              (mkFb (out_num_parts r) (replicate (length (confirmed_parts fb)) true) (out_num_parts r) false (window_max_sent fb))
              (ot_serving t) (ot_clock t))
      else
        let* requested_data := slice_from hmu_data (offset + 32) in
        let window_end := Nat.max (window_max_sent fb)
          (Nat.min (cursor fb + Z.to_nat (window (o_window r))) (out_num_parts r)) in
        let* '(confirmed, newly) := confirm_loop (o_map_hashes r) (as_chunks MAPHASH_LEN requested_data)
          (range (cursor fb) window_end) (confirmed_parts fb) 0 in
        let* c := advance_cursor (out_num_parts r - cursor fb) confirmed (cursor fb) in
        let fb := mkFb c confirmed c false (window_max_sent fb) in
        let k := ot_clock t in
        if 0 <? newly then
          let rate := f_to_usize (byte_rate newly (elapsed (s_started_at k) now)) in
          Ok (mkOT (out_window r (grow (o_window r) rate)) fb (ot_serving t)
                (mkSClock 0 (last_part_sent k) (s_started_at k) (s_rtt k) (advertised k) (last_progress k)))
        else Ok (mkOT r fb (ot_serving t) k)
  end.

(** The loop over the search range: the parts to send, and the indices sent. *)
Definition serve_part (r : OutboundResource) (requested : list bytes) (acc : list TransferAction * nat * gset nat) (i : nat)
    : list TransferAction * nat * gset nat :=
  let '(actions, sent, indices) := acc in
  match o_map_hashes r !! i with
  | Some h =>
      if decide (h ∈ requested) then
        match get_part r i with
        | Some p => (actions ++ [SendPart i p], if decide (i ∈ indices) then sent else S sent, {[i]} ∪ indices)
        | None => acc
        end
      else acc
  | None => acc
  end.

(** The part after the one with that hash, or the end of the range. *)
Fixpoint locate (map_hashes : list bytes) (last : bytes) (l : list nat) (part_index : nat) : nat :=
  match l with
  | [] => part_index
  | i :: l => if decide (map_hashes !! i = Some last) then S i else locate map_hashes last l (S i)
  end.

(** The hashes [start..end] of a hashmap segment. *)
Definition hashmap_bytes (map_hashes : list bytes) (a b : nat) : bytes := concat (take (b - a) (drop a map_hashes)).

(** The answer to a request for more of the hashmap. *)
Inductive hashmap_answer := NoAnswer | CancelAnswer | HmuAnswer (payload : bytes).

Section requests.
Context `{Msgpack}.

(** The receiver's new height, and the answer. *)
Definition serve_hashmap (r : OutboundResource) (last_map_hash : bytes) (search_start search_stop : nat) : nat * hashmap_answer :=
  let part_index := locate (o_map_hashes r) last_map_hash (range search_start search_stop) search_start in
  let height := if decide (WINDOW_MAX < part_index)%nat then (part_index - 1 - WINDOW_MAX)%nat else 0%nat in
  let max_len := hashmap_max_len LINK_MDU in
  let answer :=
    if decide (max_len = 0%nat) then NoAnswer else
    if decide ((part_index mod max_len)%nat ≠ 0%nat) then CancelAnswer else
    let segment := (part_index / max_len)%nat in
    let hashes := hashmap_bytes (o_map_hashes r) (segment * max_len) (Nat.min ((segment + 1) * max_len) (out_num_parts r)) in
    if decide (hashes = []) then CancelAnswer
    else HmuAnswer (encode_hashmap_update (o_resource_hash r) (Z.of_nat segment) hashes) in
  (height, answer).

(** Clock, counters and state after a request that was answered. *)
Definition request_served (t : OutboundTransfer) (height sent : nat) (indices : gset nat) (sent_count : nat) (now : Z) : OutboundTransfer :=
  let r := ot_resource t in
  let sv := ot_serving t in
  let c := ot_clock t in
  if decide (0 < sent_count)%nat then
    let rtt := if decide (o_state r = RAdvertised ∧ s_rtt c = 0) then elapsed (s_started_at c) now else s_rtt c in
    let progress := bool_decide (sent_parts sv < sent)%nat in
    mkOT (out_state r (if Nat.eqb sent (out_num_parts r) then RAwaitingProof else RTransferring)) (ot_feedback t)
      (mkServe height sent indices (req_hashlist sv) (if progress then sent_count else last_request_parts sv))
      (mkSClock (if progress then 0%nat else s_retries c) (Some now) (s_started_at c) rtt (advertised c)
         (if progress then now else last_progress c))
  else mkOT r (ot_feedback t) (mkServe height sent indices (req_hashlist sv) (last_request_parts sv)) c.

Definition handle_request {E} (t : OutboundTransfer) (request_data : bytes) (now : Z)
    : res E (OutboundTransfer * list TransferAction) :=
  let r := ot_resource t in
  let sv := ot_serving t in
  match request_data with
  | [] => Ok (t, [])
  | b0 :: _ =>
      if terminal (ot_state t) then Ok (t, []) else
      if negb ((b0 =? HASHMAP_IS_NOT_EXHAUSTED) || (b0 =? HASHMAP_IS_EXHAUSTED)) then Ok (t, []) else
      let wants_more_hashmap := b0 =? HASHMAP_IS_EXHAUSTED in
      let pad := if wants_more_hashmap then (1 + MAPHASH_LEN)%nat else 1%nat in
      let hash_offset := (pad + 32)%nat in
      if decide (length request_data < hash_offset)%nat then Ok (t, []) else
      let* h := slice request_data pad hash_offset in
      if decide (h ≠ o_resource_hash r ∨ ((length request_data - hash_offset) mod MAPHASH_LEN)%nat ≠ 0%nat) then Ok (t, []) else
      let* requested := slice_from request_data hash_offset in
      let requested := as_chunks MAPHASH_LEN requested in
      let search_start := receiver_min_consecutive_height sv in
      let search_stop := Nat.min (search_start + collision_guard_size LINK_MDU) (out_num_parts r) in
      let '(actions, sent, indices) :=
        foldl (serve_part r requested) ([], sent_parts sv, sent_part_indices sv) (range search_start search_stop) in
      let sent_count := length actions in
      let* '(height, answer) :=
        if wants_more_hashmap && bool_decide (MAPHASH_LEN < length request_data)%nat then
          let* last := slice request_data 1 (1 + MAPHASH_LEN) in
          Ok (serve_hashmap r last search_start search_stop)
        else Ok (search_start, NoAnswer) in
      match answer with
      | CancelAnswer =>
          Ok (mkOT (out_state r RFailed) (ot_feedback t)
                (mkServe height sent indices (req_hashlist sv) (last_request_parts sv)) (ot_clock t),
              actions ++ [SendCancel Icl (o_resource_hash r)])
      | HmuAnswer payload => Ok (request_served t height sent indices sent_count now, actions ++ [SendHmu payload])
      | NoAnswer => Ok (request_served t height sent indices sent_count now, actions)
      end
  end.

Definition handle_request_packet {E} (t : OutboundTransfer) (packet_hash request_data : bytes) (now : Z)
    : res E (OutboundTransfer * list TransferAction) :=
  let sv := ot_serving t in
  if decide (packet_hash ∈ req_hashlist sv) then Ok (t, []) else
  handle_request
    (mkOT (ot_resource t) (ot_feedback t)
       (mkServe (receiver_min_consecutive_height sv) (sent_parts sv) (sent_part_indices sv) ({[packet_hash]} ∪ req_hashlist sv)
          (last_request_parts sv)) (ot_clock t)) request_data now.
End requests.

Definition ot_handle_cancel (t : OutboundTransfer) : OutboundTransfer := set_ot_state t RFailed.

Definition handle_proof (t : OutboundTransfer) (proof_data : bytes) : OutboundTransfer * res ResourceError bool :=
  if terminal (ot_state t) then (t, Ok false) else
  if negb (Nat.eqb (length proof_data) 64) then (t, Ok false) else
  match slice_to proof_data 32 with
  | Ok h =>
      if decide (h ≠ o_resource_hash (ot_resource t)) then (t, Ok false) else
      let '(r, b) := out_validate_proof (ot_resource t) proof_data in
      (mkOT r (ot_feedback t) (ot_serving t) (ot_clock t), b)
  | Err e => (t, Err e)
  | Panic => (t, Panic)
  end.

Definition all_confirmed (t : OutboundTransfer) : bool := forallb (λ c, c) (confirmed_parts (ot_feedback t)).

Definition ot_progress (t : OutboundTransfer) : f64 :=
  let n := out_num_parts (ot_resource t) in
  if Nat.eqb n 0 then f_of_Z 1
  else f_div (f_of_Z (Z.of_nat (Nat.min (sent_parts (ot_serving t)) n))) (f_of_Z (Z.of_nat n)).

(** ** The receiver *)

Record Control := mkControl {
  parts_since_hmu : nat;
  accepted : bool;
  outstanding_parts : nat;
  retries_left : nat;
  waiting_for_hmu : bool;
  hashmap_height : nat;
}.

Record ReceiverClock := mkRClock {
  r_started_at : Z;
  r_rtt : Z;
  last_activity : Z;
  req_sent : option Z;
  req_resp : option Z;
  part_timeout_factor : f64;
}.

Record Meter := mkMeter {
  rtt_rxd_bytes : Z;
  rtt_rxd_bytes_at_part_req : Z;
  req_data_rtt_rate : f64;
  eifr : option f64;
  previous_eifr : option f64;
}.

Record InboundTransfer := mkIT {
  it_resource : InboundResource;
  it_control : Control;
  it_clock : ReceiverClock;
  it_meter : Meter;
}.

Definition it_state (t : InboundTransfer) : ResourceState := i_state (it_resource t).
Definition set_it_state (t : InboundTransfer) (s : ResourceState) : InboundTransfer :=
  mkIT (in_state (it_resource t) s) (it_control t) (it_clock t) (it_meter t).

Definition from_advertisement (total_parts : nat) (total_size data_size : Z) (random_hash resource_hash : bytes)
    (flags : ResourceFlags) (map_hashes : list bytes) (rtt now : Z) : res ResourceError InboundTransfer :=
  let* r := inbound_new total_parts total_size data_size random_hash resource_hash flags map_hashes in
  Ok (mkIT r (mkControl 0 true 0 MAX_RETRIES false (length map_hashes))
        (mkRClock now rtt now None None PART_TIMEOUT_FACTOR) (mkMeter 0 0 f_zero None None)).

Definition seed_previous_eifr (t : InboundTransfer) (bits_per_sec : f64) : InboundTransfer :=
  if f_gt bits_per_sec f_zero then
    let m := it_meter t in
    mkIT (it_resource t) (it_control t) (it_clock t)
      (mkMeter (rtt_rxd_bytes m) (rtt_rxd_bytes_at_part_req m) (req_data_rtt_rate m) (eifr m) (Some bits_per_sec))
  else t.

Definition update_eifr (rtt : Z) (m : Meter) : Meter :=
  let rtt_secs := f_max (as_secs_f64 rtt) (f_lit 1 1000) in
  let rate :=
    if f_gt (req_data_rtt_rate m) f_zero then f_mul (req_data_rtt_rate m) (f_of_Z 8)
    else match previous_eifr m with
         | Some prev => prev
         | None => f_div (f_mul (f_of_Z EIFR_COLD_START_BYTES) (f_of_Z 8)) rtt_secs
         end in
  mkMeter (rtt_rxd_bytes m) (rtt_rxd_bytes_at_part_req m) (req_data_rtt_rate m) (Some rate)
    (if f_gt rate f_zero then Some rate else previous_eifr m).

(** The scan of [request_next]: hashes to request, and whether one is missing. *)
Fixpoint request_loop {E} (r : InboundResource) (l : list nat) (hashes : bytes) (count : nat) : res E (bytes * nat * bool) :=
  match l with
  | [] => Ok (hashes, count, false)
  | pn :: l =>
      let* p := idx (i_parts r) pn in
      match p with
      | None =>
          match i_map_hashes r !! pn with
          | Some h =>
              let count := S count in
              if decide (window (i_window r) ≤ Z.of_nat count) then Ok (hashes ++ h, count, false)
              else request_loop r l (hashes ++ h) count
          | None => Ok (hashes, count, true)
          end
      | Some _ =>
          if decide (window (i_window r) ≤ Z.of_nat count) then Ok (hashes, count, false)
          else request_loop r l hashes count
      end
  end.

Definition request_next {E} (t : InboundTransfer) (now : Z) : res E (InboundTransfer * TransferAction) :=
  let r := it_resource t in
  let c := it_control t in
  let k := it_clock t in
  let m := it_meter t in
  if bool_decide (i_state r ≠ RTransferring) || in_is_complete r then Ok (t, ANone) else
  if waiting_for_hmu c then Ok (t, ANone) else
  let* '(requested_hashes, count, exhausted) := request_loop r (range (consecutive_completed r) (search_end r)) [] 0 in
  let last_hash :=
    if exhausted && bool_decide (0 < hashmap_height c)%nat then default [] (i_map_hashes r !! (hashmap_height c - 1)%nat) else [] in
  let request_data := [if exhausted : bool then HASHMAP_IS_EXHAUSTED else HASHMAP_IS_NOT_EXHAUSTED] ++ last_hash ++
    i_resource_hash r ++ requested_hashes in
  Ok (mkIT r (mkControl (parts_since_hmu c) (accepted c) count (retries_left c) exhausted (hashmap_height c))
        (mkRClock (r_started_at k) (r_rtt k) now (Some now) None (part_timeout_factor k))
        (mkMeter (rtt_rxd_bytes m) (rtt_rxd_bytes m) (req_data_rtt_rate m) (eifr m) (previous_eifr m)),
      SendRequest request_data).

(** [duration_since] *)
Definition since (a b : Z) : Z := Z.max 0 (b - a).

(** The first reply to a request is a sample of the round trip. *)
Definition first_reply (k : ReceiverClock) (now : Z) : Z * option Z * f64 :=
  match req_resp k with
  | Some _ as resp => (r_rtt k, resp, part_timeout_factor k)
  | None =>
      match req_sent k with
      | Some sent => (since sent now, Some now, PART_TIMEOUT_FACTOR_AFTER_RTT)
      | None => (r_rtt k, Some now, part_timeout_factor k)
      end
  end.

(** Measure the drained window. *)
Definition measure (k : ReceiverClock) (m : Meter) : Meter :=
  match req_sent k with
  | Some sent_at =>
      let rtt := as_secs_f64 (since sent_at (last_activity k)) in
      if f_gt rtt f_zero then
        let req_transferred := sat_sub (rtt_rxd_bytes m) (rtt_rxd_bytes_at_part_req m) in
        let m := update_eifr (r_rtt k)
          (mkMeter (rtt_rxd_bytes m) (rtt_rxd_bytes_at_part_req m) (f_div (f_of_Z req_transferred) rtt) (eifr m) (previous_eifr m)) in
        mkMeter (rtt_rxd_bytes m) (rtt_rxd_bytes m) (req_data_rtt_rate m) (eifr m) (previous_eifr m)
      else m
  | None => m
  end.

Section receive.
Context `{Digest}.

Definition it_receive_part {E} (t : InboundTransfer) (data : bytes) (now : Z) : res E (InboundTransfer * TransferAction) :=
  if decide (it_state t ≠ RTransferring) then Ok (t, ANone) else
  let* '(r, ok) := in_receive_part (it_resource t) data in
  if negb ok then Ok (mkIT r (it_control t) (it_clock t) (it_meter t), ANone) else
  let c := it_control t in
  let k := it_clock t in
  let m := it_meter t in
  let '(rtt, resp, factor) := first_reply k now in
  let k := mkRClock (r_started_at k) rtt now (req_sent k) resp factor in
  let m := mkMeter (sat_add64 (rtt_rxd_bytes m) (len data)) (rtt_rxd_bytes_at_part_req m) (req_data_rtt_rate m) (eifr m)
             (previous_eifr m) in
  let outstanding := (outstanding_parts c - 1)%nat in
  if in_is_complete r then
    Ok (mkIT r (mkControl 0 (accepted c) outstanding MAX_RETRIES (waiting_for_hmu c) (hashmap_height c)) k m, AComplete)
  else
    let c := mkControl (S (parts_since_hmu c)) (accepted c) outstanding MAX_RETRIES (waiting_for_hmu c) (hashmap_height c) in
    if Nat.eqb outstanding 0 then
      let m := measure k m in
      let rate := f_to_usize (byte_rate (received_count r) (elapsed (r_started_at k) now)) in
      request_next (mkIT (in_window r (grow (i_window r) rate)) c k m) now
    else Ok (mkIT r c k m, ANone).
End receive.

Definition it_handle_cancel (t : InboundTransfer) : InboundTransfer := set_it_state t RFailed.
Definition cancel (t : InboundTransfer) : InboundTransfer * TransferAction :=
  (set_it_state t RFailed, SendCancel Rcl (i_resource_hash (it_resource t))).

Definition it_timeout (t : InboundTransfer) : f64 :=
  let c := it_control t in
  let m := it_meter t in
  let factor := part_timeout_factor (it_clock t) in
  let extra_wait := f_mul (f_of_Z (Z.of_nat (MAX_RETRIES - retries_left c))) PER_RETRY_DELAY in
  let rate := f_max (default (f_of_Z 1) (eifr m)) (f_of_Z 1) in
  let sdu_f := f_of_Z (Z.of_nat (i_sdu (it_resource t))) in
  let hmu_wait :=
    if waiting_for_hmu c || Nat.eqb (outstanding_parts c) 0
    then f_div (f_mul (f_mul sdu_f (f_of_Z 8)) HMU_WAIT_FACTOR) rate else f_zero in
  let tof := f_div (f_mul (f_mul (f_of_Z (Z.of_nat (outstanding_parts c))) sdu_f) (f_of_Z 8)) rate in
  if f_gt (req_data_rtt_rate m) f_zero
  then f_add (f_add (f_add (f_mul factor tof) hmu_wait) RETRY_GRACE_TIME) extra_wait
  else f_add (f_add (f_mul factor (f_div (f_mul (f_of_Z 3) sdu_f) rate)) RETRY_GRACE_TIME) extra_wait.

Definition it_check_timeout {E} (t : InboundTransfer) (now : Z) : res E (InboundTransfer * TransferAction) :=
  if decide (it_state t ≠ RTransferring) then Ok (t, ANone) else
  if in_is_complete (it_resource t) then Ok (t, ANone) else
  let elapsed := as_secs_f64 (since (last_activity (it_clock t)) now) in
  let t := mkIT (it_resource t) (it_control t) (it_clock t) (update_eifr (r_rtt (it_clock t)) (it_meter t)) in
  if f_gt elapsed (it_timeout t) then
    let c := it_control t in
    match retries_left c with
    | S remaining =>
        request_next (mkIT (in_window (it_resource t) (shrink (i_window (it_resource t))))
          (mkControl (parts_since_hmu c) (accepted c) (outstanding_parts c) remaining false (hashmap_height c))
          (it_clock t) (it_meter t)) now
    | O => Ok (set_it_state t RFailed, AFailed TransferTimedOut)
    end
  else Ok (t, ANone).

(** The loop that merges the hashes of an update, from slot [idx] on. *)
Fixpoint merge_hashes (total : nat) (entries : list bytes) (i : nat) (hashes : list bytes) (height : nat) : list bytes * nat :=
  match entries with
  | [] => (hashes, height)
  | mh :: entries =>
      if decide (total ≤ i)%nat then (hashes, height) else
      let zero := replicate MAPHASH_LEN 0 in
      let hashes := hashes ++ replicate (S i - length hashes) zero in
      let height := if decide (hashes !! i = Some zero) then S height else height in
      merge_hashes total entries (S i) (<[i := mh]> hashes) height
  end.

Definition hashmap_update {E} (t : InboundTransfer) (segment : Z) (hashmap_data : bytes) (now : Z)
    : res E (InboundTransfer * TransferAction) :=
  let r := it_resource t in
  let c := it_control t in
  let k := it_clock t in
  if decide (i_state r ≠ RTransferring) then Ok (t, ANone) else
  if negb (waiting_for_hmu c) then Ok (t, ANone) else
  if decide (length hashmap_data < MAPHASH_LEN ∨ (length hashmap_data mod MAPHASH_LEN)%nat ≠ 0%nat)%nat then Ok (cancel t) else
  let max_len := Z.of_nat (hashmap_max_len LINK_MDU) in
  match usize (segment * max_len) with
  | None => Ok (cancel t)
  | Some segment_start =>
      if Z.of_nat (i_total_parts r) <=? segment_start then Ok (cancel t) else
      let hashes_count := (length hashmap_data / MAPHASH_LEN)%nat in
      if Z.of_nat (hashmap_height c) <? segment_start then Ok (cancel t) else
      if sat_add64 segment_start (Z.of_nat hashes_count) <=? Z.of_nat (hashmap_height c) then Ok (t, ANone) else
      let '(hashes, height) :=
        merge_hashes (i_total_parts r) (as_chunks MAPHASH_LEN hashmap_data) (Z.to_nat segment_start) (i_map_hashes r) (hashmap_height c) in
      request_next (mkIT (in_hashes r hashes)
        (mkControl (parts_since_hmu c) (accepted c) (outstanding_parts c) MAX_RETRIES false height)
        (mkRClock (r_started_at k) (r_rtt k) now (req_sent k) (req_resp k) (part_timeout_factor k)) (it_meter t)) now
  end.

(** Hashes of the window's missing parts. *)
Fixpoint needed_hashes {E} (r : InboundResource) (l : list nat) : res E bytes :=
  match l with
  | [] => Ok []
  | i :: l =>
      match i_map_hashes r !! i with
      | Some h =>
          let* p := idx (i_parts r) i in
          let* rest := needed_hashes r l in
          Ok (match p with None => h ++ rest | Some _ => rest end)
      | None => needed_hashes r l
      end
  end.

Definition create_hmu {E} (t : InboundTransfer) : res E bytes :=
  let r := it_resource t in
  if in_is_complete r then
    Ok ([HASHMAP_IS_EXHAUSTED] ++ default [] (last (i_map_hashes r)) ++ i_resource_hash r)
  else
    let* h := needed_hashes r (range (consecutive_completed r) (search_end r)) in
    Ok ([HASHMAP_IS_NOT_EXHAUSTED] ++ i_resource_hash r ++ h).

Definition it_complete `{Digest} `{Bzip2} (t : InboundTransfer) (decrypt_fn : option (bytes → res ResourceError bytes))
    : InboundTransfer * res ResourceError (bytes * bytes) :=
  let '(r, result) := assemble (it_resource t) decrypt_fn in
  let t := mkIT r (it_control t) (it_clock t) (it_meter t) in
  (t, let* data := result in
      let proof_input :=
        if f_has_metadata (i_flags r) then
          match i_metadata r with Some meta => metadata_prefix (len meta) ++ meta ++ data | None => data end
        else data in
      Ok (data, generate_proof r proof_input)).

Definition it_progress (t : InboundTransfer) : f64 := in_progress (it_resource t).

(** ** What a receiver asks for *)

(** The stride of the hashmap: entries per advertisement or update. *)
Abbreviation STRIDE := 74%nat.

Lemma stride_is : hashmap_max_len LINK_MDU = STRIDE.
Proof. reflexivity. Qed.
Lemma guard_is : collision_guard_size LINK_MDU = 224%nat.
Proof. reflexivity. Qed.

(** Slots with a known hash that are still empty, inside the window. *)
Definition empty_slot (r : InboundResource) (i : nat) : Prop := i_parts r !! i = Some None.
#[export] Instance empty_slot_dec r i : Decision (empty_slot r i).
Proof. unfold empty_slot. apply _. Defined.

Definition wanted (r : InboundResource) : list nat :=
  filter (empty_slot r) (range (consecutive_completed r) (Nat.min (search_end r) (length (i_map_hashes r)))).

Definition hashes_at (hs : list bytes) (l : list nat) : list bytes := omap (λ i, hs !! i) l.

Lemma range_cons a b : (a < b)%nat → range a b = a :: range (S a) b.
Proof. intros. unfold range. replace (b - a)%nat with (S (b - S a)) by lia. done. Qed.
Lemma range_nil a b : (b ≤ a)%nat → range a b = [].
Proof. intros. unfold range. by replace (b - a)%nat with 0%nat by lia. Qed.
Lemma range_app a b c : (a ≤ b ≤ c)%nat → range a c = range a b ++ range b c.
Proof.
  intros. unfold range. replace (c - a)%nat with ((b - a) + (c - b))%nat by lia. rewrite seq_app. do 2 f_equal. lia.
Qed.

(** What the loop of [request_next] collects, from slot [a] on. *)
Lemma request_loop_spec {E} r a stop hashes count :
  (a ≤ stop ≤ length (i_parts r))%nat → (a ≤ length (i_map_hashes r))%nat →
  (∀ i, (length (i_map_hashes r) ≤ i < length (i_parts r))%nat → empty_slot r i) →
  Z.of_nat count + Z.of_nat (stop - a) ≤ window (i_window r) →
  let l := filter (empty_slot r) (range a (Nat.min stop (length (i_map_hashes r)))) in
  request_loop r (range a stop) hashes count =
    @Ok E _ (hashes ++ concat (hashes_at (i_map_hashes r) l), (count + length l)%nat,
             bool_decide (length (i_map_hashes r) < stop)%nat).
Proof.
  remember (stop - a)%nat as n eqn:Hn. revert a hashes count Hn.
  induction n as [|n IH]; intros a hashes count Hn Hs Ha He Hc l.
  { subst l. rewrite !range_nil by lia. cbn. rewrite app_nil_r, Nat.add_0_r, bool_decide_false by lia. done. }
  rewrite range_cons by lia. cbn [request_loop].
  destruct (idx_lt_inv (E:=E) (i_parts r) a) as (p & Hp & Hi); [lia|]. rewrite Hi. cbn [res_bind].
  destruct (decide (a < length (i_map_hashes r))%nat) as [Hlt|Hge].
  - destruct (lookup_lt_is_Some_2 (i_map_hashes r) a Hlt) as [h Hh].
    assert (Hl : l = (if decide (empty_slot r a) then [a] else []) ++
      filter (empty_slot r) (range (S a) (Nat.min stop (length (i_map_hashes r))))).
    { subst l. rewrite range_cons by lia. by destruct (decide (empty_slot r a)); [rewrite filter_cons_True|rewrite filter_cons_False]. }
    destruct p as [d|].
    + rewrite decide_False by lia. rewrite IH by (done || lia). cbv zeta.
      rewrite decide_False in Hl by (unfold empty_slot; congruence). by rewrite Hl.
    + rewrite decide_True in Hl by done. rewrite Hh, Hl. cbn [app].
      assert (Hd : ∀ l0, concat (hashes_at (i_map_hashes r) (a :: l0)) = h ++ concat (hashes_at (i_map_hashes r) l0)).
      { intros l0. unfold hashes_at. cbn [omap list_omap]. by rewrite Hh. }
      rewrite Hd. cbn [length]. destruct (decide (window (i_window r) ≤ Z.of_nat (S count))) as [Hw|Hw].
      * assert (n = 0%nat) as -> by lia. rewrite !range_nil by lia. cbn. rewrite app_nil_r, bool_decide_false by lia.
        do 2 f_equal. f_equal. lia.
      * rewrite IH by (done || lia). cbv zeta. rewrite <- app_assoc. do 2 f_equal. f_equal. lia.
  - assert (p = None) as ->. { pose proof (He a ltac:(lia)) as Hx. unfold empty_slot in Hx. congruence. }
    rewrite (lookup_ge_None_2 (i_map_hashes r) a) by lia. subst l. rewrite range_nil by lia. cbn.
    rewrite app_nil_r, Nat.add_0_r, bool_decide_true by lia. done.
Qed.

(** ** The receiver's invariant *)

Section invariant.
Context `{DL : DigestLaws}.

Record it_ok (o : OutboundResource) (t : InboundTransfer) : Prop := {
  tt_tracks : tracks o (it_resource t);
  tt_height : hashmap_height (it_control t) = length (i_map_hashes (it_resource t));
  tt_stride : ∃ k, (1 ≤ k)%nat ∧ length (i_map_hashes (it_resource t)) = Nat.min (STRIDE * k) (length (o_parts o));
  tt_filled : ∀ i d, i_parts (it_resource t) !! i = Some (Some d) → (i < length (i_map_hashes (it_resource t)))%nat;
  tt_retries : (retries_left (it_control t) ≤ MAX_RETRIES)%nat;
  tt_waiting : waiting_for_hmu (it_control t) = true → (length (i_map_hashes (it_resource t)) < length (o_parts o))%nat;
  tt_small : Z.of_nat (length (o_parts o)) ≤ U32_MAX;
  tt_flags : i_flags (it_resource t) = o_flags o;
}.

Definition last_hash (r : InboundResource) : bytes := default [] (last (i_map_hashes r)).

(** The request a receiver in that state sends. *)
Definition request_frame (r : InboundResource) : bytes :=
  let exhausted := bool_decide (length (i_map_hashes r) < search_end r)%nat in
  [if exhausted then HASHMAP_IS_EXHAUSTED else HASHMAP_IS_NOT_EXHAUSTED] ++ (if exhausted then last_hash r else []) ++
  i_resource_hash r ++ concat (hashes_at (i_map_hashes r) (wanted r)).

Lemma map_hash_nonempty o t : it_ok o t → (1 ≤ length (o_parts o))%nat → (1 ≤ length (i_map_hashes (it_resource t)))%nat.
Proof. intros [_ _ (k & ? & ->) _ _ _ _ _] ?. lia. Qed.

Lemma completed_le_hashes o t : it_ok o t → (consecutive_completed (it_resource t) ≤ length (i_map_hashes (it_resource t)))%nat.
Proof.
  intros [Ht _ _ Hf _ _ _ _]. destruct (consecutive_completed (it_resource t)) as [|c] eqn:Hc; [lia|].
  destruct (ik_prefix _ (tk_ok _ _ Ht) c) as [d Hd]; [lia|]. apply Hf in Hd. lia.
Qed.

Lemma beyond_empty o t i : it_ok o t →
  (length (i_map_hashes (it_resource t)) ≤ i < length (i_parts (it_resource t)))%nat → empty_slot (it_resource t) i.
Proof.
  intros [_ _ _ Hf _ _ _ _] Hi. unfold empty_slot. destruct (lookup_lt_is_Some_2 (i_parts (it_resource t)) i) as [[d|] Hd]; [lia| |done].
  apply Hf in Hd. lia.
Qed.

Lemma in_complete_false o t : it_ok o t → in_is_complete (it_resource t) = false →
  (consecutive_completed (it_resource t) < length (o_parts o))%nat.
Proof.
  intros Hok Hc. apply Nat.eqb_neq in Hc. destruct (tt_tracks _ _ Hok) as [Hi Ht _ _ _ _]. pose proof (ik_le _ Hi). lia.
Qed.

(** [request_next] asks for exactly the wanted slots, or does nothing. *)
Lemma request_next_spec {E} o t now : it_ok o t →
  (request_next t now = @Ok E _ (t, ANone) ∧
   (it_state t ≠ RTransferring ∨ in_is_complete (it_resource t) = true ∨ waiting_for_hmu (it_control t) = true)) ∨
  ∃ t', request_next t now = @Ok E _ (t', SendRequest (request_frame (it_resource t))) ∧ it_ok o t' ∧
    it_state t = RTransferring ∧ in_is_complete (it_resource t) = false ∧ waiting_for_hmu (it_control t) = false ∧
    it_resource t' = it_resource t ∧ outstanding_parts (it_control t') = length (wanted (it_resource t)) ∧
    retries_left (it_control t') = retries_left (it_control t) ∧
    waiting_for_hmu (it_control t') = bool_decide (length (i_map_hashes (it_resource t)) < search_end (it_resource t))%nat.
Proof.
  intros Hok. unfold request_next. fold (it_state t).
  destruct (bool_decide (it_state t ≠ RTransferring)) eqn:Hs.
  { left. apply bool_decide_eq_true in Hs. cbn. eauto. }
  destruct (in_is_complete (it_resource t)) eqn:Hc; [left; cbn; eauto|].
  destruct (waiting_for_hmu (it_control t)) eqn:Hw; [left; cbn; eauto|]. right. cbn [orb].
  apply bool_decide_eq_false, dec_stable in Hs.
  pose proof (completed_le_hashes o t Hok) as Hle. pose proof (in_complete_false o t Hok Hc) as Hlt.
  pose proof (beyond_empty o t) as Hbe.
  pose proof Hok as [[Hin Htot Hr Hh Hpre Hsl] Hht (k & Hk1 & Hk) Hf Hrl Hwt Hsm Hfl].
  set (r := it_resource t) in *. pose proof (ik_window _ Hin) as [Hwin _ _ _]. unfold WINDOW_MIN in Hwin.
  assert (Hse : (consecutive_completed r ≤ search_end r ≤ length (i_parts r))%nat).
  { unfold search_end. rewrite (ik_length _ Hin). lia. }
  rewrite request_loop_spec; [|done|done|intros i ?; by apply Hbe|unfold search_end; lia].
  cbv zeta. cbn [res_bind]. fold (wanted r). rewrite app_nil_l, Nat.add_0_l.
  set (ex := bool_decide (length (i_map_hashes r) < search_end r)%nat).
  assert (Hlast : (if ex && bool_decide (0 < hashmap_height (it_control t))%nat
                   then default [] (i_map_hashes r !! (hashmap_height (it_control t) - 1)%nat) else []) =
                  if ex then last_hash r else []).
  { rewrite Hht, (bool_decide_true (0 < _)%nat) by lia. destruct ex; [|done]. cbn [andb]. unfold last_hash.
    rewrite last_lookup. by replace (length (i_map_hashes r) - 1)%nat with (Nat.pred (length (i_map_hashes r))) by lia. }
  rewrite Hlast. eexists. split; [reflexivity|]. split_and!; try done.
  split; cbn; try done; [by exists k|]. intros Hex%bool_decide_eq_true. unfold search_end in Hex. fold r in Hex. lia.
Qed.
End invariant.

Lemma merge_append total entries : ∀ hs : list bytes,
  (length hs + length entries ≤ total)%nat →
  merge_hashes total entries (length hs) hs (length hs) = (hs ++ entries, (length hs + length entries)%nat).
Proof.
  induction entries as [|mh entries IH]; intros hs Hl; cbn [merge_hashes length] in *.
  { rewrite app_nil_r. f_equal. lia. }
  rewrite decide_False by lia. replace (S (length hs) - length hs)%nat with 1%nat by lia. cbn [replicate].
  rewrite lookup_app_r, Nat.sub_diag by lia. cbn [lookup list_lookup]. rewrite decide_True by done.
  rewrite insert_app_r_alt, Nat.sub_diag by lia. cbn [insert list_insert].
  specialize (IH (hs ++ [mh])). rewrite length_app in IH. cbn [length] in IH.
  replace (length hs + 1)%nat with (S (length hs)) in IH by lia. rewrite IH by lia. rewrite <- app_assoc. f_equal. lia.
Qed.

Section steps.
Context `{DL : DigestLaws}.

(** The entries of hashmap segment [s], and their bytes. *)
Definition segment_entries (o : OutboundResource) (s : nat) : list bytes := take STRIDE (drop (STRIDE * s) (o_map_hashes o)).

Lemma map_hashes_length o : sender_ok o → length (o_map_hashes o) = length (o_parts o).
Proof. intros [-> _]. by rewrite length_fmap. Qed.

Lemma map_hashes_uniform o : sender_ok o → Forall (λ h, length h = MAPHASH_LEN) (o_map_hashes o).
Proof. intros [-> _]. apply Forall_fmap, Forall_true. intros p. apply length_map_hash. Qed.

Lemma segment_bytes o s : sender_ok o →
  hashmap_bytes (o_map_hashes o) (s * STRIDE) (Nat.min ((s + 1) * STRIDE) (length (o_parts o))) = concat (segment_entries o s).
Proof.
  intros Hs. pose proof (map_hashes_length o Hs) as Hl. unfold hashmap_bytes, segment_entries. rewrite (Nat.mul_comm STRIDE).
  f_equal. destruct (decide ((s + 1) * STRIDE ≤ length (o_parts o))%nat); [f_equal; lia|].
  rewrite !take_ge by (rewrite length_drop; lia). done.
Qed.

Lemma segment_uniform o s : sender_ok o → Forall (λ h, length h = MAPHASH_LEN) (segment_entries o s).
Proof. intros Hs. by apply Forall_take, Forall_drop, map_hashes_uniform. Qed.

Lemma segment_length o s : sender_ok o → length (segment_entries o s) = Nat.min STRIDE (length (o_parts o) - STRIDE * s).
Proof. intros Hs. unfold segment_entries. rewrite length_take, length_drop, map_hashes_length by done. done. Qed.

Lemma prefix_is_take (l k : list bytes) : l `prefix_of` k → l = take (length l) k.
Proof. intros [m ->]. by rewrite take_app_length. Qed.

Lemma sat_add_fits a b : a ≤ 2 ^ 40 → b ≤ 2 ^ 40 → sat_add64 a b = a + b.
Proof. intros. unfold sat_add64. apply Z.min_l. unfold U64_MAX. lia. Qed.

Lemma stride_arith (k s n M c : nat) : M = Nat.min (STRIDE * k) n → c = Nat.min STRIDE (n - STRIDE * s) → (M < n)%nat →
  (STRIDE * s ≤ M)%nat → (M < STRIDE * s + c)%nat → k = s ∧ M = (STRIDE * s)%nat ∧ (M + c)%nat = Nat.min (STRIDE * (s + 1)) n.
Proof. lia. Qed.

(** The receiver after it merged the next hashmap segment. *)
Definition extended (o : OutboundResource) (t : InboundTransfer) (s : nat) (now : Z) : InboundTransfer :=
  let c := it_control t in
  let k := it_clock t in
  mkIT (in_hashes (it_resource t) (i_map_hashes (it_resource t) ++ segment_entries o s))
    (mkControl (parts_since_hmu c) (accepted c) (outstanding_parts c) MAX_RETRIES false
       (length (i_map_hashes (it_resource t)) + length (segment_entries o s)))
    (mkRClock (r_started_at k) (r_rtt k) now (req_sent k) (req_resp k) (part_timeout_factor k)) (it_meter t).

Lemma extended_ok o t s now : sender_ok o → it_ok o t → length (i_map_hashes (it_resource t)) = (STRIDE * s)%nat →
  (length (i_map_hashes (it_resource t)) + length (segment_entries o s))%nat = Nat.min (STRIDE * (s + 1)) (length (o_parts o)) →
  it_ok o (extended o t s now).
Proof.
  intros Hs [[Hin Htot Hr Hh Hpre Hsl] Hht _ Hf Hrl Hwt Hsm Hfl] HM Hl.
  split; cbn [extended it_resource it_control in_hashes i_map_hashes i_parts hashmap_height retries_left waiting_for_hmu];
    rewrite ?length_app; try done.
  - split; try done; [by destruct Hin|]. cbn [in_hashes i_map_hashes].
    rewrite (prefix_is_take _ _ Hpre), HM. unfold segment_entries. rewrite take_take_drop. apply prefix_take.
  - exists (s + 1)%nat. split; [lia|done].
  - intros i d Hd. apply Hf in Hd. lia.
Qed.

(** A genuine hashmap segment extends the hashes, is ignored, or (when it
    was not the one asked for) cancels. *)
Lemma hashmap_update_spec {E} o t s now : sender_ok o → it_ok o t → (STRIDE * s < length (o_parts o))%nat →
  let M := length (i_map_hashes (it_resource t)) in
  hashmap_update t (Z.of_nat s) (concat (segment_entries o s)) now =
    if bool_decide (it_state t = RTransferring) && waiting_for_hmu (it_control t) then
      if bool_decide (M < STRIDE * s)%nat then @Ok E _ (cancel t)
      else if bool_decide (M = STRIDE * s)%nat then request_next (extended o t s now) now
      else Ok (t, ANone)
    else Ok (t, ANone).
Proof.
  intros Hs Hok Hn M. subst M. pose proof (segment_length o s Hs) as Hsl. pose proof (segment_uniform o s Hs) as Hsu.
  set (M := length (i_map_hashes (it_resource t))). set (n := length (o_parts o)) in *.
  assert (Hdl : length (concat (segment_entries o s)) = (MAPHASH_LEN * length (segment_entries o s))%nat)
    by (by apply length_concat_uniform).
  destruct Hok as [[Hin Htot Hr Hh Hpre Hsl'] Hht (k & Hk1 & Hk) Hf Hrl Hwt Hsm Hfl]. fold n in Hk, Hwt, Hsm, Htot. fold M in Hk, Hwt, Hht.
  unfold hashmap_update. fold (it_state t). destruct (decide (it_state t ≠ RTransferring)) as [Hst|Hst].
  { by rewrite bool_decide_false. }
  apply dec_stable in Hst. rewrite (bool_decide_true (it_state t = _)) by done.
  destruct (waiting_for_hmu (it_control t)) eqn:Hw; [|done]. cbn [negb andb]. specialize (Hwt eq_refl).
  rewrite decide_False.
  2:{ rewrite Hdl, Nat.mul_comm, Nat.Div0.mod_mul. unfold MAPHASH_LEN. intros [?|?]; [lia|done]. }
  rewrite stride_is, Htot, Hht.
  replace (length (concat (segment_entries o s)) / MAPHASH_LEN)%nat with (length (segment_entries o s))
    by (rewrite Hdl, Nat.mul_comm, Nat.div_mul; done).
  rewrite as_chunks_concat by (done || unfold MAPHASH_LEN; lia).
  set (c := length (segment_entries o s)) in *. unfold usize.
  rewrite Zle_imp_le_bool by (unfold USIZE_MAX, U64_MAX, U32_MAX in *; lia).
  rewrite (proj2 (Z.leb_gt _ _)) by lia.
  destruct (Z.ltb_spec (Z.of_nat M) (Z.of_nat s * Z.of_nat STRIDE)) as [Hgap|Hgap].
  { rewrite bool_decide_true by lia. done. }
  rewrite (bool_decide_false (M < _)%nat) by lia.
  rewrite sat_add_fits by (unfold U32_MAX in Hsm; lia).
  destruct (Z.leb_spec (Z.of_nat s * Z.of_nat STRIDE + Z.of_nat c) (Z.of_nat M)) as [Hold|Hnew].
  { rewrite bool_decide_false by lia. done. }
  destruct (stride_arith k s n M c) as (_ & HM & _); [done|done|done|lia|lia|].
  rewrite bool_decide_true by done. replace (Z.to_nat (Z.of_nat s * Z.of_nat STRIDE)) with M by lia.
  unfold M, n. rewrite merge_append by (fold n M c; lia). done.
Qed.
Lemma received_ok o t i d n : it_ok o t → tracks o (in_completed (in_parts (it_resource t) (<[i := Some d]> (i_parts (it_resource t)))) n) →
  (i < length (i_map_hashes (it_resource t)))%nat →
  ∀ w t', window_ok w →
    it_resource t' = in_window (in_completed (in_parts (it_resource t) (<[i := Some d]> (i_parts (it_resource t)))) n) w →
    hashmap_height (it_control t') = hashmap_height (it_control t) → retries_left (it_control t') = MAX_RETRIES →
    waiting_for_hmu (it_control t') = waiting_for_hmu (it_control t) → it_ok o t'.
Proof.
  intros [_ Hht Hk Hf _ Hwt Hsm Hfl] Htr Hi w t' Hw Hr Hh Hl Hwa. split; rewrite ?Hr; try done.
  - destruct Htr as [[] ? ? ? ? ?]. split; try done; by split.
  - by rewrite Hh.
  - cbn. intros j e. destruct (decide (i = j)) as [<-|]; [done|]. rewrite list_lookup_insert_ne by done. apply Hf.
  - by rewrite Hl.
  - rewrite Hwa. done.
Qed.

Lemma in_window_id r : in_window r (i_window r) = r.
Proof. by destruct r. Qed.

(** A part of the sender's, on every branch. *)
Lemma it_receive_part_spec {E} o t data now : sender_ok o → it_ok o t → data ∈ o_parts o →
  (it_receive_part t data now = @Ok E _ (t, ANone) ∧
   (it_state t = RTransferring → in_receive_part (it_resource t) data = @Ok E _ (it_resource t, false))) ∨
  (it_state t = RTransferring ∧ ∃ i n,
    let r1 := in_completed (in_parts (it_resource t) (<[i := Some data]> (i_parts (it_resource t)))) n in
    in_receive_part (it_resource t) data = @Ok E _ (r1, true) ∧
    i_parts (it_resource t) !! i = Some None ∧ o_parts o !! i = Some data ∧
    (consecutive_completed (it_resource t) ≤ i < search_end (it_resource t))%nat ∧
    if in_is_complete r1 then
      ∃ t', it_receive_part t data now = @Ok E _ (t', AComplete) ∧ it_ok o t' ∧ it_resource t' = r1
    else if decide (outstanding_parts (it_control t) ≤ 1)%nat then
      ∃ t2 w, it_receive_part t data now = request_next (E:=E) t2 now ∧ it_ok o t2 ∧ it_resource t2 = in_window r1 w ∧
        waiting_for_hmu (it_control t2) = waiting_for_hmu (it_control t) ∧ retries_left (it_control t2) = MAX_RETRIES ∧
        outstanding_parts (it_control t2) = 0%nat
    else
      ∃ t', it_receive_part t data now = @Ok E _ (t', ANone) ∧ it_ok o t' ∧ it_resource t' = r1 ∧
        waiting_for_hmu (it_control t') = waiting_for_hmu (it_control t) ∧
        outstanding_parts (it_control t') = (outstanding_parts (it_control t) - 1)%nat).
Proof.
  intros Hs Hok Hd. unfold it_receive_part. destruct (decide (it_state t ≠ RTransferring)) as [|Hst]; [by left|].
  apply dec_stable in Hst. destruct (receive_tracks (E:=E) o (it_resource t) data Hs (tt_tracks _ _ Hok) Hd) as (r' & b & Hr & Htr & Hf & Ht).
  rewrite Hr. cbn [res_bind]. destruct b; cbn [negb].
  2:{ left. rewrite Hf by done. split; [by destruct t|done]. }
  right. split; [done|]. destruct (Ht eq_refl) as (i & n & -> & Hpi & Hi & Hoi). exists i, n. cbv zeta. do 3 (split; [done|]). split; [exact Hi|].
  assert (Him : (i < length (i_map_hashes (it_resource t)))%nat).
  { destruct (in_receive_part_spec (E:=E) (it_resource t) data (tk_ok _ _ (tt_tracks _ _ Hok)))
      as [[He _]|(j & m & He & _ & _ & _ & Hm & Hp)]; rewrite He in Hr; [done|].
    injection Hr as Hj _. assert (Hij : (<[j := Some data]> (i_parts (it_resource t)) !! j) = Some (Some data)).
    { apply list_lookup_insert_eq. by eapply lookup_lt_Some. }
    rewrite Hj in Hij. destruct (decide (i = j)) as [->|Hne]; [by eapply lookup_lt_Some|].
    rewrite list_lookup_insert_ne in Hij by done. congruence. }
  set (r1 := in_completed _ n) in *. pose proof (received_ok o t i data n Hok Htr Him) as Hrec. fold r1 in Hrec.
  destruct (first_reply (it_clock t) now) as [[rtt resp] factor].
  assert (Hwi : window_ok (i_window r1)) by apply Htr.
  destruct (in_is_complete r1) eqn:Hc.
  { eexists. split; [reflexivity|]. split; [|done]. eapply (Hrec (i_window r1)); [done|by rewrite in_window_id|done..]. }
  destruct (Nat.eqb_spec (outstanding_parts (it_control t) - 1) 0) as [He|He];
    destruct (decide (outstanding_parts (it_control t) ≤ 1)%nat); try lia.
  - eexists _, (grow (i_window r1) _). split; [reflexivity|]. split; [|by split_and!].
    eapply Hrec; [by apply rwindow_grow_ok|done..].
  - eexists. split; [reflexivity|]. split; [|done]. eapply (Hrec (i_window r1)); [done|by rewrite in_window_id|done..].
Qed.

(** The watchdog: nothing, a bounded retry, or failure. *)
Lemma it_check_timeout_spec {E} o t now : it_ok o t →
  (∃ t', it_check_timeout t now = @Ok E _ (t', ANone) ∧ it_ok o t' ∧ it_resource t' = it_resource t ∧
     it_control t' = it_control t) ∨
  (it_state t = RTransferring ∧ in_is_complete (it_resource t) = false ∧ retries_left (it_control t) = 0%nat ∧
   ∃ t', it_check_timeout t now = @Ok E _ (t', AFailed TransferTimedOut) ∧ it_ok o t' ∧
     it_resource t' = in_state (it_resource t) RFailed) ∨
  (it_state t = RTransferring ∧ in_is_complete (it_resource t) = false ∧
   ∃ t2 m, retries_left (it_control t) = S m ∧ it_check_timeout t now = request_next (E:=E) t2 now ∧ it_ok o t2 ∧
     it_resource t2 = in_window (it_resource t) (shrink (i_window (it_resource t))) ∧
     waiting_for_hmu (it_control t2) = false ∧ retries_left (it_control t2) = m).
Proof.
  intros Hok. unfold it_check_timeout. destruct (decide (it_state t ≠ RTransferring)) as [|Hst]; [left; by exists t|].
  apply dec_stable in Hst. destruct (in_is_complete (it_resource t)) eqn:Hc; [left; by exists t|].
  pose proof Hok as [Htr Hht Hk Hf Hrl Hwt Hsm Hfl].
  destruct (f_gt _ _).
  2:{ left. eexists. split; [reflexivity|]. split; [|done]. by split. }
  cbn [it_control]. destruct (retries_left (it_control t)) as [|m] eqn:Hl.
  - right; left. split_and!; [done..|]. eexists. split; [reflexivity|]. split; [|done]. split; try done; [|cbn; lia].
    destruct Htr as [[] ? ? ? ? ?]. split; try done; by split.
  - right; right. split_and!; [done..|]. eexists _, m. split_and!; [done|reflexivity| |done..].
    split; try done; [|cbn; lia]. destruct Htr as [[] ? ? ? ? ?]. split; try done; split; try done; by apply rwindow_shrink_ok.
Qed.
End steps.

(** ** Frames fit *)

Section frames.
Context `{DL : DigestLaws}.

Lemma prefix_uniform o r : sender_ok o → i_map_hashes r `prefix_of` o_map_hashes o →
  Forall (λ h, length h = MAPHASH_LEN) (i_map_hashes r).
Proof. intros Hs [k Hk]. pose proof (map_hashes_uniform o Hs) as Hu. rewrite Hk in Hu. by apply Forall_app in Hu as [? _]. Qed.

Lemma hashes_at_uniform hs l : Forall (λ h : bytes, length h = MAPHASH_LEN) hs → Forall (λ h, length h = MAPHASH_LEN) (hashes_at hs l).
Proof.
  intros Hu. apply Forall_forall. intros h Hh. unfold hashes_at in Hh. apply list_elem_of_omap in Hh as (i & _ & Hi).
  by eapply Forall_lookup_1 in Hu.
Qed.

Lemma hashes_at_length hs l : (∀ i, i ∈ l → (i < length hs)%nat) → length (hashes_at hs l) = length l.
Proof.
  induction l as [|i l IH]; intros Hl; [done|]. unfold hashes_at in *. cbn [omap list_omap].
  destruct (lookup_lt_is_Some_2 hs i) as [h ->]; [apply Hl; set_solver|]. cbn. rewrite IH; [done|]. set_solver.
Qed.

Lemma wanted_spec r i : i ∈ wanted r ↔
  empty_slot r i ∧ (consecutive_completed r ≤ i < search_end r)%nat ∧ (i < length (i_map_hashes r))%nat.
Proof. unfold wanted. rewrite list_elem_of_filter, elem_of_range. split; intros; split_and!; lia || tauto. Qed.

Lemma wanted_length r : in_ok r → (length (wanted r) ≤ WINDOW_MAX)%nat.
Proof.
  intros Hok. unfold wanted. etrans; [apply length_filter|]. unfold range. rewrite length_seq.
  pose proof (ik_window _ Hok) as [? ? _ _]. unfold search_end, WINDOW_MAX in *. lia.
Qed.

(** Every request fits the control frame of an MTU-sized packet. *)
Lemma request_frame_fits o t : sender_ok o → it_ok o t → length (o_resource_hash o) = 32%nat →
  (1 ≤ length (o_parts o))%nat →
  check_control_frame ResourceReq (len (request_frame (it_resource t))) true HDR (Z.of_nat MTU) = Ok ().
Proof.
  intros Hs Hok Hh Hn. pose proof Hok as [Htr _ _ _ _ _ _ _]. pose proof (tk_ok _ _ Htr) as Hin.
  pose proof (prefix_uniform o _ Hs (tk_hashes _ _ Htr)) as Hu. set (r := it_resource t) in *.
  assert (Hlast : (length (if bool_decide (length (i_map_hashes r) < search_end r)%nat then last_hash r else []) ≤ 4)%nat).
  { case_bool_decide; [|simpl; lia]. unfold last_hash. destruct (last (i_map_hashes r)) as [h|] eqn:Hl; [|simpl; lia].
    apply last_Some_elem_of in Hl. rewrite Forall_forall in Hu. cbn. by rewrite (Hu h Hl). }
  assert (Hw : (length (concat (hashes_at (i_map_hashes r) (wanted r))) ≤ 300)%nat).
  { rewrite (length_concat_uniform MAPHASH_LEN) by (by apply hashes_at_uniform).
    rewrite hashes_at_length by (intros i Hi; by apply wanted_spec in Hi as (_ & _ & ?)).
    pose proof (wanted_length r Hin). unfold MAPHASH_LEN, WINDOW_MAX in *. lia. }
  apply check_frame_ok; [apply len_nonneg|]. etrans; [apply (control_frame_len_mono _ 337)|by vm_compute].
  unfold request_frame, len. rewrite !length_app. cbn [length]. rewrite (tk_hash _ _ Htr), Hh. lia.
Qed.
End frames.

(** ** Any schedule: the receiver's runs *)

(** What can happen to a receiver whose peer is the sender of [o]: any of its
    parts, any of its hashmap segments, a poll of the watchdog, a request. *)
Inductive receiver_event := EvPart (i : nat) | EvHmu (s : nat) | EvPoll | EvAsk.

Section runs.
Context `{DL : DigestLaws}.

Definition it_event {E} (o : OutboundResource) (t : InboundTransfer) (e : receiver_event) (now : Z)
    : res E (InboundTransfer * TransferAction) :=
  match e with
  | EvPart i => match get_part o i with Some p => it_receive_part t p now | None => Ok (t, ANone) end
  | EvHmu s =>
      if decide (STRIDE * s < out_num_parts o)%nat then
        hashmap_update t (Z.of_nat s)
          (hashmap_bytes (o_map_hashes o) (s * STRIDE) (Nat.min ((s + 1) * STRIDE) (out_num_parts o))) now
      else Ok (t, ANone)
  | EvPoll => it_check_timeout t now
  | EvAsk => request_next t now
  end.

(** A run, with the actions it emitted. *)
Fixpoint it_run {E} (o : OutboundResource) (t : InboundTransfer) (l : list (receiver_event * Z))
    : res E (InboundTransfer * list TransferAction) :=
  match l with
  | [] => Ok (t, [])
  | (e, now) :: l =>
      let* '(t, a) := it_event o t e now in
      let* '(t, rest) := it_run o t l in
      Ok (t, a :: rest)
  end.

(** The frames the receiver sends fit their packets. *)
Definition action_fits (a : TransferAction) : Prop :=
  match a with
  | SendRequest b => check_control_frame ResourceReq (len b) true HDR (Z.of_nat MTU) = Ok ()
  | SendCancel _ h => check_control_frame ResourceRcl (len h) true HDR (Z.of_nat MTU) = Ok ()
  | _ => True
  end.

Record good_sender (o : OutboundResource) : Prop := {
  gs_ok : sender_ok o;
  gs_hash : length (o_resource_hash o) = 32%nat;
  gs_parts : (1 ≤ length (o_parts o))%nat;
}.

Lemma it_ok_failed o t : it_ok o t → it_ok o (set_it_state t RFailed).
Proof. intros [[[] ? ? ? ? ?] ? ? ? ? ? ? ?]. split; try done; split; try done; by split. Qed.

Lemma request_next_ok {E} o t now : good_sender o → it_ok o t →
  ∃ t' a, request_next t now = @Ok E _ (t', a) ∧ it_ok o t' ∧ action_fits a ∧ (in_is_complete (it_resource t') = in_is_complete (it_resource t)).
Proof.
  intros [Hs Hh Hn] Hok. destruct (request_next_spec (E:=E) o t now Hok) as [[He _]|(t' & He & Hok' & _ & _ & _ & Hr & _)].
  - by exists t, ANone.
  - exists t'. eexists. split_and!; [done|done|by apply (request_frame_fits o)|by rewrite Hr].
Qed.

Lemma it_event_ok {E} o t e now : good_sender o → it_ok o t →
  ∃ t' a, it_event o t e now = @Ok E _ (t', a) ∧ it_ok o t' ∧ action_fits a.
Proof.
  intros Hg Hok. pose proof Hg as [Hs Hh Hn]. destruct e as [i|s| |]; cbn [it_event].
  - unfold get_part. destruct (o_parts o !! i) as [p|] eqn:Hp; [|by exists t, ANone].
    destruct (it_receive_part_spec (E:=E) o t p now Hs Hok) as [[He _]|(_ & j & n & _ & _ & _ & _ & Hc)];
      [by eapply list_elem_of_lookup_2|by exists t, ANone|]. cbv zeta in Hc.
    destruct (in_is_complete _); [destruct Hc as (t' & He & Hok' & _); by exists t', AComplete|].
    destruct (decide _); [|destruct Hc as (t' & He & Hok' & _); by exists t', ANone].
    destruct Hc as (t2 & w & He & Hok2 & _). rewrite He.
    destruct (request_next_ok (E:=E) o t2 now Hg Hok2) as (t' & a & ? & ? & ? & _). by exists t', a.
  - case_decide as Hlt; [|by exists t, ANone]. unfold out_num_parts in *. rewrite segment_bytes by done.
    rewrite (hashmap_update_spec (E:=E) o t s now Hs Hok Hlt).
    destruct (bool_decide _ && _); [|by exists t, ANone]. case_bool_decide.
    { eexists _, _. split; [reflexivity|]. split; [by apply it_ok_failed|]. cbn [action_fits].
      rewrite (tk_hash _ _ (tt_tracks _ _ Hok)). apply check_frame_ok; unfold len; rewrite Hh; [lia|by vm_compute]. }
    case_bool_decide as HM; [|by exists t, ANone].
    assert (Hx : it_ok o (extended o t s now)).
    { apply extended_ok; try done. rewrite segment_length by done. lia. }
    destruct (request_next_ok (E:=E) o _ now Hg Hx) as (t' & a & ? & ? & ? & _). by exists t', a.
  - destruct (it_check_timeout_spec (E:=E) o t now Hok) as
      [(t' & ? & ? & _)|[(_ & _ & _ & t' & ? & ? & _)|(_ & _ & t2 & m & _ & He & Hok2 & _)]]; [by eexists t', _..|].
    rewrite He. destruct (request_next_ok (E:=E) o _ now Hg Hok2) as (t' & a & ? & ? & ? & _). by exists t', a.
  - destruct (request_next_ok (E:=E) o _ now Hg Hok) as (t' & a & ? & ? & ? & _). by exists t', a.
Qed.

Lemma it_run_ok {E} o l : good_sender o → ∀ t, it_ok o t →
  ∃ t' acts, it_run o t l = @Ok E _ (t', acts) ∧ it_ok o t' ∧ Forall action_fits acts.
Proof.
  intros Hg. induction l as [|[e now] l IH]; intros t Hok; cbn [it_run]; [by exists t, []|].
  destruct (it_event_ok (E:=E) o t e now Hg Hok) as (t1 & a & He & Hok1 & Ha). rewrite He. cbn [res_bind].
  destruct (IH t1 Hok1) as (t' & acts & Hr & Hok' & Hf). rewrite Hr. cbn [res_bind]. exists t', (a :: acts). by split_and!; [..|constructor].
Qed.

(** The state after an accepted advertisement. *)
Lemma from_advertisement_ok o size dsize rtt now t : sender_ok o →
  from_advertisement (length (o_parts o)) size dsize (o_random_hash o) (o_resource_hash o) (o_flags o)
    (take STRIDE (o_map_hashes o)) rtt now = Ok t →
  it_ok o t ∧ it_state t = RTransferring ∧ waiting_for_hmu (it_control t) = false ∧
  i_parts (it_resource t) = replicate (length (o_parts o)) None ∧ i_map_hashes (it_resource t) = take STRIDE (o_map_hashes o) ∧
  (1 ≤ length (o_parts o))%nat.
Proof.
  intros Hs. unfold from_advertisement, inbound_new, with_sdu.
  destruct (Nat.eqb_spec (length (o_parts o)) 0) as [|Hn]; [done|].
  case_match eqn:Hsz; [done|]. case_match eqn:Hpt; [done|]. cbn [res_bind]. intros [= <-].
  apply Z.ltb_ge in Hsz, Hpt. split_and!; try done; [|lia].
  pose proof (map_hashes_length o Hs) as Hml. split; cbn [it_resource it_control i_map_hashes i_parts hashmap_height retries_left waiting_for_hmu]; try done.
  - split; cbn [i_total_parts i_random_hash i_resource_hash i_map_hashes i_parts]; try done.
    + split; cbn [i_parts i_total_parts consecutive_completed i_window]; try done; try lia; [apply length_replicate|].
      intros _. apply lookup_replicate_2. lia.
    + apply prefix_take.
    + intros i d Hd. apply lookup_replicate_1 in Hd as [? _]. done.
  - exists 1%nat. split; [lia|]. rewrite length_take. lia.
  - intros i d Hd. apply lookup_replicate_1 in Hd as [? _]. done.
  - assert (div_ceil size MIN_PART_SIZE ≤ 40000).
    { unfold div_ceil, MIN_PART_SIZE. apply Z.div_le_upper_bound; [lia|]. unfold max_total_size in Hsz. unfold MAX_EFFICIENT_SIZE, MAX_AES_BLOCK_PAD in Hsz.
      change (Z.of_nat RANDOM_HASH_SIZE) with 4 in Hsz. change (Z.of_nat TOKEN_OVERHEAD) with 48 in Hsz. lia. }
    unfold U32_MAX. lia.
Qed.
End runs.

(** ** Completion *)

Section completion.
Context `{DL : DigestLaws} `{LB : Bzip2Laws}.

(** [o] carries that content: the fields both ends rely on. *)
Record carries (o : OutboundResource) (data : bytes) (auto : bool) (metadata : option bytes)
    (enc : option (nat → bytes → bytes)) (rng : nat → bytes) (k : nat) : Prop := {
  cy_parts : concat (o_parts o) = blob_of data auto metadata enc rng k;
  cy_random : o_random_hash o = rng k;
  cy_hash : o_resource_hash o = compute_resource_hash (full_content metadata data) (rng k);
  cy_proof : o_expected_proof o = compute_expected_proof (full_content metadata data) (o_resource_hash o);
  cy_compressed : f_compressed (o_flags o) = (processed auto (full_content metadata data)).2;
  cy_metadata : f_has_metadata (o_flags o) = bool_decide (is_Some metadata);
}.

Lemma attempt_carries data auto metadata sdu enc rng k : sdu ≠ 0%nat →
  carries (attempt data auto metadata sdu enc rng k) data auto metadata enc rng k.
Proof. intros Hs. split; try done. cbn. apply concat_chunks. lia. Qed.

(** The receiver's hook undoes the sender's on this blob. *)
Definition undoes (enc : option (nat → bytes → bytes)) (k : nat) (dec : option (bytes → res ResourceError bytes)) (plain : bytes) : Prop :=
  match enc, dec with
  | Some e, Some d => d (e k plain) = Ok plain
  | None, None => True
  | _, _ => False
  end.

Lemma it_complete_spec o t data auto metadata enc rng k dec :
  carries o data auto metadata enc rng k → it_ok o t →
  in_is_complete (it_resource t) = true → length (rng k) = RANDOM_HASH_SIZE →
  undoes enc k dec (rng k ++ (processed auto (full_content metadata data)).1) →
  metadata_wire (len <$> metadata) + len data ≤ MAX_EFFICIENT_SIZE →
  ∃ t', it_complete t dec = (t', Ok (data, o_resource_hash o ++ o_expected_proof o)) ∧ it_state t' = RComplete ∧
    ∀ m, metadata = Some m → i_metadata (it_resource t') = Some m.
Proof.
  intros Hc Hok Hcm Hr Hu Hfit. pose proof (tt_tracks _ _ Hok) as Htr. pose proof (tt_flags _ _ Hok) as Hf.
  pose proof (tracks_complete o _ Htr Hcm) as Hp. destruct Hc as [Hcp Hcr Hch Hcpr Hcc Hcme].
  unfold it_complete. rewrite (assemble_ok (it_resource t) dec (o_parts o) (blob_of data auto metadata enc rng k)
    (rng k ++ (processed auto (full_content metadata data)).1) (rng k) auto metadata data); try done.
  2:{ unfold blob_of, undoes in *. by destruct enc, dec. }
  2:{ rewrite (tk_random _ _ Htr). done. }
  2:{ rewrite (tk_hash _ _ Htr). done. }
  2,3: by rewrite Hf.
  eexists. split; [f_equal|split; [done|by intros m ->]]. cbn [res_bind]. f_equal. f_equal.
  replace (i_flags (in_state (with_content_metadata (it_resource t) metadata) RComplete)) with (i_flags (it_resource t))
    by (by destruct metadata).
  rewrite Hf, Hcme. unfold generate_proof.
  replace (i_resource_hash (in_state (with_content_metadata (it_resource t) metadata) RComplete)) with (o_resource_hash o)
    by (rewrite <- (tk_hash _ _ Htr); by destruct metadata).
  rewrite Hcpr. f_equal. f_equal. by destruct metadata.
Qed.

(** The proof concludes any sender of that resource that is still waiting. *)
Lemma handle_proof_ok s o data auto metadata enc rng k : carries o data auto metadata enc rng k →
  o_resource_hash (ot_resource s) = o_resource_hash o → o_expected_proof (ot_resource s) = o_expected_proof o →
  terminal (ot_state s) = false →
  handle_proof s (o_resource_hash o ++ o_expected_proof o) = (set_ot_state s RComplete, Ok true).
Proof.
  intros [_ _ Hch Hcpr _ _] Hh Hp Ht. unfold handle_proof. rewrite Ht.
  assert (length (o_resource_hash o) = 32%nat) by (rewrite Hch; apply sha256_length).
  assert (length (o_expected_proof o) = 32%nat) by (rewrite Hcpr; apply sha256_length).
  replace (Nat.eqb (length (o_resource_hash o ++ o_expected_proof o)) 64) with true
    by (symmetry; apply Nat.eqb_eq; rewrite length_app; lia). cbn [negb].
  rewrite slice_to_ok by (rewrite length_app; lia). rewrite take_app_length' by done.
  rewrite decide_False by (rewrite Hh; tauto). rewrite <- Hh, <- Hp, validate_expected by (rewrite ?Hh, ?Hp; done). done.
Qed.
End completion.

(** ** How a sender answers *)

Definition asked (o : OutboundResource) (requested : list bytes) (i : nat) : Prop :=
  match o_map_hashes o !! i with Some h => h ∈ requested | None => False end.
#[export] Instance asked_dec o requested i : Decision (asked o requested i).
Proof. unfold asked. destruct (o_map_hashes o !! i); apply _. Defined.

Definition send_part (o : OutboundResource) (i : nat) : option TransferAction := SendPart i <$> o_parts o !! i.

Lemma serve_parts_spec o requested l : ∀ acts sent idxs, length (o_map_hashes o) = length (o_parts o) →
  ∃ sent' idxs', foldl (serve_part o requested) (acts, sent, idxs) l =
    (acts ++ omap (send_part o) (filter (asked o requested) l), sent', idxs').
Proof.
  intros acts sent idxs Hl. revert acts sent idxs. induction l as [|i l IH]; intros acts sent idxs; cbn [foldl].
  { exists sent, idxs. rewrite filter_nil. cbn. by rewrite app_nil_r. }
  unfold serve_part at 2. unfold get_part. destruct (o_map_hashes o !! i) as [h|] eqn:Hh.
  - destruct (o_parts o !! i) as [p|] eqn:Hp.
    2:{ apply lookup_lt_Some in Hh. apply lookup_ge_None in Hp. lia. }
    destruct (decide (h ∈ requested)) as [Hr|Hr].
    + rewrite filter_cons_True by (unfold asked; by rewrite Hh). cbn [omap list_omap].
      replace (send_part o i) with (Some (SendPart i p)) by (unfold send_part; by rewrite Hp).
      destruct (IH (acts ++ [SendPart i p]) (if decide (i ∈ idxs) then sent else S sent) ({[i]} ∪ idxs)) as (s' & x' & ->).
      exists s', x'. by rewrite <- app_assoc.
    + rewrite filter_cons_False by (unfold asked; rewrite Hh; tauto). apply IH.
  - rewrite filter_cons_False by (unfold asked; rewrite Hh; tauto). apply IH.
Qed.

Lemma filter_range_sub (P : nat → Prop) `{∀ i, Decision (P i)} a b c d :
  (a ≤ b ≤ c)%nat → (c ≤ d)%nat → (∀ i, (a ≤ i < d)%nat → P i → (b ≤ i < c)%nat) →
  filter P (range a d) = filter P (range b c).
Proof.
  intros Hab Hcd Hp. rewrite (range_app a b d), (range_app b c d) by lia. rewrite !filter_app.
  assert (Hn : ∀ l, (∀ i, i ∈ l → (a ≤ i < d)%nat ∧ ¬ (b ≤ i < c)%nat) → filter P l = []).
  { induction l as [|i l IH]; intros Hl; [done|]. rewrite filter_cons_False.
    - apply IH. intros j Hj. apply Hl. set_solver.
    - intros Hpi. destruct (Hl i ltac:(set_solver)) as [Hr Hn]. apply Hn. by apply Hp. }
  rewrite (Hn (range a b)), (Hn (range c d)); [by rewrite app_nil_r|intros i ?%elem_of_range; lia..].
Qed.

Lemma filter_ext_in (P Q : nat → Prop) `{∀ i, Decision (P i)} `{∀ i, Decision (Q i)} (l : list nat) :
  (∀ i, i ∈ l → P i ↔ Q i) → filter P l = filter Q l.
Proof.
  induction l as [|i l IH]; intros Hl; [done|]. assert (IH' : filter P l = filter Q l) by (apply IH; intros j Hj; apply Hl; set_solver).
  assert (Hi : P i ↔ Q i) by (apply Hl; set_solver). destruct (decide (P i)) as [Hp|Hp].
  - rewrite !filter_cons_True by tauto. by rewrite IH'.
  - rewrite !filter_cons_False by tauto. done.
Qed.

Lemma locate_spec hashes x j a b p : NoDup hashes → hashes !! j = Some x → (a ≤ j < b)%nat →
  locate hashes x (range a b) p = S j.
Proof.
  intros Hn Hj Hab. remember (j - a)%nat as m eqn:Hm. revert a p Hab Hm. induction m as [|m IH]; intros a p Hab Hm.
  - assert (a = j) as -> by lia. rewrite range_cons by lia. cbn [locate]. by rewrite decide_True.
  - rewrite range_cons by lia. cbn [locate]. rewrite decide_False.
    + apply IH; lia.
    + intros Ha. pose proof (NoDup_lookup _ _ _ _ Hn Ha Hj). lia.
Qed.

Lemma elem_of_hashes_at hs l i h : NoDup hs → hs !! i = Some h → (∀ j, j ∈ l → (j < length hs)%nat) →
  h ∈ hashes_at hs l ↔ i ∈ l.
Proof.
  intros Hn Hi Hl. unfold hashes_at. rewrite list_elem_of_omap. split.
  - intros (j & Hj & Hh). by rewrite (NoDup_lookup _ _ _ _ Hn Hi Hh).
  - intros Hil. by exists i.
Qed.

Section answering.
Context `{DL : DigestLaws}.

(** The requested parts are exactly the wanted ones, when the sender's
    search range covers the receiver's hashes from its completed prefix on. *)
Lemma asked_wanted o t a stop : sender_ok o → NoDup (o_map_hashes o) → it_ok o t →
  (a ≤ consecutive_completed (it_resource t))%nat → (length (i_map_hashes (it_resource t)) ≤ stop)%nat →
  filter (asked o (hashes_at (i_map_hashes (it_resource t)) (wanted (it_resource t)))) (range a stop) = wanted (it_resource t).
Proof.
  intros Hs Hnd Hok Ha Hst. set (r := it_resource t) in *. pose proof (completed_le_hashes o t Hok) as Hcm. fold r in Hcm.
  pose proof (tk_hashes _ _ (tt_tracks _ _ Hok)) as Hpre. fold r in Hpre.
  assert (Hwl : ∀ j, j ∈ wanted r → (j < length (i_map_hashes r))%nat) by (intros j Hj; by apply wanted_spec in Hj as (_ & _ & ?)).
  assert (Hnr : NoDup (i_map_hashes r)) by (destruct Hpre as [k Hk]; rewrite Hk in Hnd; by apply NoDup_app in Hnd as [? _]).
  assert (Hask : ∀ i, asked o (hashes_at (i_map_hashes r) (wanted r)) i ↔ i ∈ wanted r).
  { intros i. unfold asked. destruct (o_map_hashes o !! i) as [h|] eqn:Hh.
    - split; [|intros Hi; apply (elem_of_hashes_at _ _ i); try done; destruct (lookup_lt_is_Some_2 (i_map_hashes r) i (Hwl i Hi)) as [h' Hh'];
        pose proof (prefix_lookup_Some _ _ _ _ Hh' Hpre); congruence].
      intros Hin. unfold hashes_at in Hin. apply list_elem_of_omap in Hin as (j & Hj & Hjh).
      pose proof (prefix_lookup_Some _ _ _ _ Hjh Hpre) as Hoj. by rewrite (NoDup_lookup _ _ _ _ Hnd Hh Hoj).
    - split; [done|]. intros Hi. apply lookup_ge_None in Hh. specialize (Hwl i Hi). apply prefix_length in Hpre. lia. }
  assert (Hse : (consecutive_completed r ≤ search_end r)%nat).
  { unfold search_end. pose proof (ik_le _ (tk_ok _ _ (tt_tracks _ _ Hok))) as Hle. fold r in Hle. lia. }
  rewrite (filter_range_sub _ a (consecutive_completed r) (Nat.min (search_end r) (length (i_map_hashes r))) stop);
    [|lia|lia|intros i _ (_ & ? & ?)%Hask%wanted_spec; lia].
  unfold wanted at 2. apply filter_ext_in. intros i Hi%elem_of_range. rewrite Hask, wanted_spec.
  split; [tauto|]. intros ?. split_and!; done || lia.
Qed.
Context `{MP : Msgpack} `{LM : !MsgpackLaws MP}.

(** The sender's search range covers what the receiver can ask for. *)
Definition covers (s : OutboundTransfer) (t : InboundTransfer) : Prop :=
  let h := receiver_min_consecutive_height (ot_serving s) in
  let M := length (i_map_hashes (it_resource t)) in
  (h ≤ consecutive_completed (it_resource t))%nat ∧ (h < M)%nat ∧ (M ≤ h + 224)%nat.

(** The update that follows the first [M] hashes. *)
Definition hmu_frame (o : OutboundResource) (M : nat) : bytes :=
  encode_hashmap_update (o_resource_hash o) (Z.of_nat (M / STRIDE)) (concat (segment_entries o (M / STRIDE))).

Lemma serve_hashmap_spec o t a stop : sender_ok o → NoDup (o_map_hashes o) → it_ok o t →
  (a < length (i_map_hashes (it_resource t)) ≤ stop)%nat → (length (i_map_hashes (it_resource t)) < length (o_parts o))%nat →
  let M := length (i_map_hashes (it_resource t)) in
  serve_hashmap o (last_hash (it_resource t)) a stop =
    ((if decide (WINDOW_MAX < M)%nat then (M - 1 - WINDOW_MAX)%nat else 0%nat), HmuAnswer (hmu_frame o M)).
Proof.
  intros Hs Hnd Hok Ha Hlt M. subst M. set (r := it_resource t) in *. set (M := length (i_map_hashes r)) in *.
  pose proof (tk_hashes _ _ (tt_tracks _ _ Hok)) as Hpre. fold r in Hpre.
  assert (Hl : o_map_hashes o !! (M - 1)%nat = Some (last_hash r)).
  { unfold last_hash. rewrite last_lookup. destruct (lookup_lt_is_Some_2 (i_map_hashes r) (M - 1)) as [h Hh]; [lia|].
    replace (Nat.pred (length (i_map_hashes r))) with (M - 1)%nat by lia. rewrite Hh. cbn. by apply (prefix_lookup_Some _ _ _ _ Hh Hpre). }
  unfold serve_hashmap. rewrite (locate_spec _ _ (M - 1)) by (done || lia). replace (S (M - 1)) with M by lia.
  rewrite stride_is. cbv zeta. f_equal. rewrite (decide_False (P := STRIDE = 0%nat)) by lia.
  destruct (tt_stride _ _ Hok) as (k & Hk & HM). fold r M in HM. assert (M = STRIDE * k)%nat as HMk by lia.
  rewrite decide_False. 2:{ rewrite HMk, Nat.mul_comm, Nat.Div0.mod_mul. tauto. }
  unfold out_num_parts. rewrite segment_bytes by done. rewrite decide_False; [done|]. intros Hc. apply (f_equal length) in Hc.
  rewrite (length_concat_uniform MAPHASH_LEN) in Hc by (by apply segment_uniform).
  rewrite segment_length in Hc by done.
  assert (Hdiv : (M / STRIDE)%nat = k) by (rewrite HMk, Nat.mul_comm; by apply Nat.div_mul).
  rewrite Hdiv in Hc. unfold MAPHASH_LEN in Hc. cbn [length] in Hc. lia.
Qed.

Lemma request_served_spec s h sent idxs n now o st : ot_resource s = out_state o st → terminal st = false →
  ∃ st', ot_resource (request_served s h sent idxs n now) = out_state o st' ∧ terminal st' = false ∧
    receiver_min_consecutive_height (ot_serving (request_served s h sent idxs n now)) = h.
Proof.
  intros Hr Ht. unfold request_served. rewrite Hr. case_decide; [|by exists st].
  eexists. split; [reflexivity|]. split; [by case_match|done].
Qed.

(** The answer to a well-formed request, after parsing. *)
Definition answered (s : OutboundTransfer) (ex : bool) (last : bytes) (reqs : list bytes) (now : Z)
    : OutboundTransfer * list TransferAction :=
  let r := ot_resource s in
  let sv := ot_serving s in
  let start := receiver_min_consecutive_height sv in
  let stop := Nat.min (start + 224) (out_num_parts r) in
  let '(actions, sent, indices) := foldl (serve_part r reqs) ([], sent_parts sv, sent_part_indices sv) (range start stop) in
  let '(height, answer) := if ex then serve_hashmap r last start stop else (start, NoAnswer) in
  match answer with
  | CancelAnswer =>
      (mkOT (out_state r RFailed) (ot_feedback s) (mkServe height sent indices (req_hashlist sv) (last_request_parts sv)) (ot_clock s),
       actions ++ [SendCancel Icl (o_resource_hash r)])
  | HmuAnswer payload => (request_served s height sent indices (length actions) now, actions ++ [SendHmu payload])
  | NoAnswer => (request_served s height sent indices (length actions) now, actions)
  end.

Lemma handle_request_parse {E} s (ex : bool) last reqs now : terminal (ot_state s) = false →
  length (o_resource_hash (ot_resource s)) = 32%nat → length last = (if ex then MAPHASH_LEN else 0%nat) →
  Forall (λ h, length h = MAPHASH_LEN) reqs →
  handle_request s ([if ex then HASHMAP_IS_EXHAUSTED else HASHMAP_IS_NOT_EXHAUSTED] ++ last ++
    o_resource_hash (ot_resource s) ++ concat reqs) now = @Ok E _ (answered s ex last reqs now).
Proof.
  intros Hts Hh Hl Hu. set (H := o_resource_hash (ot_resource s)) in *.
  set (flag := if ex then HASHMAP_IS_EXHAUSTED else HASHMAP_IS_NOT_EXHAUSTED).
  unfold handle_request. cbn [app]. rewrite Hts.
  replace (negb ((flag =? HASHMAP_IS_NOT_EXHAUSTED) || (flag =? HASHMAP_IS_EXHAUSTED))) with false by (by destruct ex).
  replace (flag =? HASHMAP_IS_EXHAUSTED) with ex by (by destruct ex).
  set (pad := if ex then (1 + MAPHASH_LEN)%nat else 1%nat). assert (Hpad : pad = S (length last)) by (subst pad; destruct ex; rewrite Hl; done).
  pose proof (length_concat_uniform MAPHASH_LEN reqs Hu) as Hc.
  assert (Hlen : length (flag :: last ++ H ++ concat reqs) = (pad + 32 + length reqs * MAPHASH_LEN)%nat)
    by (cbn [length]; rewrite !length_app, Hc; lia).
  rewrite Hlen, decide_False by lia.
  rewrite (slice_at (flag :: last) H (concat reqs)) by (done || cbn [length]; lia). cbn [res_bind]. fold H.
  rewrite decide_False.
  2:{ intros [?|Hm]; [done|]. apply Hm. replace (pad + 32 + length reqs * MAPHASH_LEN - (pad + 32))%nat with (length reqs * MAPHASH_LEN)%nat by lia.
      apply Nat.Div0.mod_mul. }
  rewrite slice_from_ok by (rewrite Hlen; lia). cbn [res_bind].
  replace (drop (pad + 32) (flag :: last ++ H ++ concat reqs)) with (concat reqs).
  2:{ rewrite Hpad. cbn [Nat.add drop]. rewrite <- drop_drop, drop_app_length. by rewrite drop_app_length' by lia. }
  rewrite as_chunks_concat by (done || unfold MAPHASH_LEN; lia). rewrite guard_is. unfold answered.
  destruct (foldl _ _ _) as [[actions sent] idxs].
  replace (ex && bool_decide (MAPHASH_LEN < pad + 32 + length reqs * MAPHASH_LEN)%nat) with ex
    by (rewrite bool_decide_true, andb_true_r by (unfold MAPHASH_LEN; lia); done).
  destruct ex; cbn [res_bind].
  - rewrite (slice_at [flag] last (H ++ concat reqs)) by (done || cbn [length]; lia). cbn [res_bind].
    destruct (serve_hashmap _ _ _ _) as [height []]; done.
  - done.
Qed.

Lemma last_hash_length o t : sender_ok o → it_ok o t → (0 < length (i_map_hashes (it_resource t)))%nat →
  length (last_hash (it_resource t)) = MAPHASH_LEN.
Proof.
  intros Hs Hok Hn. unfold last_hash. destruct (last (i_map_hashes (it_resource t))) as [x|] eqn:Hx.
  - apply last_Some_elem_of in Hx. pose proof (prefix_uniform o _ Hs (tk_hashes _ _ (tt_tracks _ _ Hok))) as Hpu.
    rewrite Forall_forall in Hpu. by apply Hpu.
  - apply last_None in Hx. rewrite Hx in Hn. simpl in Hn. lia.
Qed.

Lemma handle_request_spec {E} o s t st now : good_sender o → NoDup (o_map_hashes o) → it_ok o t →
  ot_resource s = out_state o st → terminal st = false → covers s t →
  let r := it_resource t in
  let M := length (i_map_hashes r) in
  let ex := bool_decide (M < search_end r)%nat in
  ∃ s' st', handle_request s (request_frame r) now =
      @Ok E _ (s', omap (send_part o) (wanted r) ++ if ex then [SendHmu (hmu_frame o M)] else []) ∧
    ot_resource s' = out_state o st' ∧ terminal st' = false ∧
    receiver_min_consecutive_height (ot_serving s') =
      (if ex then if decide (WINDOW_MAX < M)%nat then (M - 1 - WINDOW_MAX)%nat else 0%nat
       else receiver_min_consecutive_height (ot_serving s)).
Proof.
  intros [Hs Hh32 Hn1] Hnd Hok Hr Ht (Hc1 & Hc2 & Hc3) r M ex. fold r in Hc1, Hc2, Hc3. fold M in Hc2, Hc3.
  pose proof (tt_tracks _ _ Hok) as Htr. fold r in Htr.
  assert (HMn : (M ≤ length (o_parts o))%nat).
  { pose proof (prefix_length _ _ (tk_hashes _ _ Htr)). rewrite map_hashes_length in * by done. done. }
  assert (Hfr : request_frame r = [if ex then HASHMAP_IS_EXHAUSTED else HASHMAP_IS_NOT_EXHAUSTED] ++ (if ex then last_hash r else []) ++
    o_resource_hash (ot_resource s) ++ concat (hashes_at (i_map_hashes r) (wanted r))).
  { unfold request_frame. rewrite (tk_hash _ _ Htr), Hr. done. }
  rewrite Hfr, handle_request_parse; cycle 1.
  { unfold ot_state. by rewrite Hr. } { by rewrite Hr. } { destruct ex; [apply (last_hash_length o); [done|done|fold r M; lia]|done]. }
  { eapply hashes_at_uniform, prefix_uniform; [done|apply Htr]. }
  unfold answered. set (h := receiver_min_consecutive_height (ot_serving s)) in *. rewrite Hr. unfold out_num_parts. cbn [out_state o_parts].
  destruct (serve_parts_spec (out_state o st) (hashes_at (i_map_hashes r) (wanted r)) (range h (Nat.min (h + 224) (length (o_parts o)))) []
    (sent_parts (ot_serving s)) (sent_part_indices (ot_serving s))) as (sent & idxs & ->); [by apply (map_hashes_length o)|].
  change (send_part (out_state o st)) with (send_part o).
  assert (Hw : filter (asked (out_state o st) (hashes_at (i_map_hashes r) (wanted r))) (range h (Nat.min (h + 224) (length (o_parts o)))) = wanted r)
    by (apply (asked_wanted o t); try done; fold r M; lia).
  rewrite Hw. cbn [app].
  destruct ex eqn:Hex.
  - apply bool_decide_eq_true in Hex. change (serve_hashmap (out_state o st)) with (serve_hashmap o). unfold r at 1.
    rewrite (serve_hashmap_spec o t) by (done || fold r M; unfold search_end in Hex; rewrite (tk_total _ _ Htr) in Hex; lia).
    fold r M. destruct (request_served_spec s (if decide (WINDOW_MAX < M)%nat then (M - 1 - WINDOW_MAX)%nat else 0%nat) sent idxs
      (length (omap (send_part o) (wanted r))) now o st Hr Ht) as (st' & H1 & H2 & H3).
    eexists _, st'. split; [reflexivity|]. by split_and!.
  - destruct (request_served_spec s h sent idxs (length (omap (send_part o) (wanted r))) now o st Hr Ht) as (st' & H1 & H2 & H3).
    eexists _, st'. split; [rewrite app_nil_r; reflexivity|]. by split_and!.
Qed.
End answering.

(** ** A stale report *)

(** Two hundred parts with distinct hashes. *)
Definition long_resource : OutboundResource :=
  let hashes := (λ i, [0; 0; Z.of_nat i / 256; Z.of_nat i mod 256]) <$> seq 0 200 in
  mkOut RTransferring [] [1; 2; 3; 4] (replicate 32 5) (replicate 32 6) (mkFlags false false false false false false)
    (replicate 200 [7]) hashes 200 200 1 1 None None window_new 0 SDU None 0.

(** The report of a receiver at 148 hashes raises the search range to 72; the
    report it sent earlier, at 74 hashes, arriving again, takes it back to 0. *)
Example stale_report_rewinds :
  fst (serve_hashmap long_resource [0; 0; 0; 147] 0 200) = 72%nat ∧ fst (serve_hashmap long_resource [0; 0; 0; 73] 72 200) = 0%nat.
Proof. split; vm_compute; reflexivity. Qed.
