(* ===== verification/Exchange.v ===== *)
(** * Complete resource exchanges

    Puts the two transfers of [Transfer] together: how a link session turns a
    received advertisement into a receiver ([rns-runtime/src/link_session.rs]),
    a lossless exchange that delivers every message in order, and the
    theorems about whole transfers. *)

From S2P Require Import Prelude F64 Wire Packet Token Channel Stream LinkChannel Msgpack ResourceAdv Resource Transfer.
From stdpp Require Import prelude list gmap.

Open Scope Z_scope.

(** ** Accepting an advertisement (link_session.rs) *)

(** [LinkSessionResourceError::InvalidAdvertisement], by cause. *)
Inductive AcceptError := SegmentOutOfRange | SingleSegmentIndex | RandomHashTruncated | AdvertisementRefused (e : ResourceError).

Definition resource_logical_id (a : ResourceAdvertisement) : bytes :=
  if 1 <? total_segments a then original_hash a else resource_hash a.

Definition validate_inbound_advertisement (a : ResourceAdvertisement) : res AcceptError () :=
  if (total_segments a =? 0) || (MAX_SEGMENTS <? total_segments a) || (segment_index a =? 0) ||
     (total_segments a <? segment_index a) then Err SegmentOutOfRange else
  if (total_segments a =? 1) && negb (segment_index a =? 1) then Err SingleSegmentIndex else
  Ok ().

Definition inbound_transfer_from_advertisement (a : ResourceAdvertisement) (rtt now : Z) : res AcceptError InboundTransfer :=
  let* _ := validate_inbound_advertisement a in
  if decide (length (random_hash a) < RANDOM_HASH_SIZE)%nat then Err RandomHashTruncated else
  let random := take RANDOM_HASH_SIZE (random_hash a) in
  let f := adv_flags a in
  let flags :=
    if (1 <? total_segments a) && (1 <? segment_index a)
    then mkFlags (f_encrypted f) (f_compressed f) (f_split f) (f_is_request f) (f_is_response f) false else f in
  map_err AdvertisementRefused
    (from_advertisement (Z.to_nat (num_parts a)) (transfer_size a) (data_size a) random (resource_hash a) flags
       (get_map_hashes a) rtt now).

(** ** A lossless exchange terminates *)

Section exchange.
Context `{DL : DigestLaws} `{LM : MsgpackLaws}.

(** A message of the sender's arrives: parts and hashmap updates are handed
    to the receiver as the link does, after the update's frame was parsed. *)
Definition deliver (t : InboundTransfer) (a : TransferAction) (now : Z) : res ResourceError (InboundTransfer * TransferAction) :=
  match a with
  | SendPart _ p => it_receive_part t p now
  | SendHmu b =>
      let* '(h, segment, hashes) := parse_hashmap_update b in
      if decide (h = i_resource_hash (it_resource t)) then hashmap_update t segment hashes now else Ok (t, ANone)
  | _ => Ok (t, ANone)
  end.

(** Deliver the sender's messages [q] in order, answering each request the
    receiver emits at once, until the receiver has every part.  The fuel
    bounds the number of messages; the clock shows any times. *)
Fixpoint pump (fuel : nat) (clock : nat → Z) (s : OutboundTransfer) (t : InboundTransfer) (q : list TransferAction)
    : res ResourceError (OutboundTransfer * InboundTransfer * bool) :=
  match fuel, q with
  | O, _ | _, [] => Ok (s, t, false)
  | S fuel, a :: q =>
      let* '(t, reply) := deliver t a (clock fuel) in
      match reply with
      | AComplete => Ok (s, t, true)
      | SendRequest b =>
          let* '(s, answers) := handle_request s b (clock fuel) in
          pump fuel clock s t (q ++ answers)
      | _ => pump fuel clock s t q
      end
  end.

(** Slots and hashes that are still to come. *)
Definition missing (o : OutboundResource) (t : InboundTransfer) : nat :=
  (length (filter (λ p, p = None) (i_parts (it_resource t))) + (length (o_parts o) - length (i_map_hashes (it_resource t))))%nat.

(** The messages in flight answer the receiver's last request. *)
Record in_flight (o : OutboundResource) (s : OutboundTransfer) (t : InboundTransfer) (l : list nat) : Prop := {
  fl_ok : it_ok o t;
  fl_state : it_state t = RTransferring;
  fl_open : in_is_complete (it_resource t) = false;
  fl_sender : ∃ st, ot_resource s = out_state o st ∧ terminal st = false;
  fl_nodup : NoDup l;
  fl_slots : ∀ i, i ∈ l → i ∈ wanted (it_resource t);
  fl_count : outstanding_parts (it_control t) = length l;
  fl_some : l = [] → waiting_for_hmu (it_control t) = true;
  fl_height : (receiver_min_consecutive_height (ot_serving s) ≤ consecutive_completed (it_resource t))%nat;
  fl_reach : (receiver_min_consecutive_height (ot_serving s) < length (i_map_hashes (it_resource t)))%nat;
  fl_guard : (length (i_map_hashes (it_resource t)) + (if waiting_for_hmu (it_control t) then STRIDE else 0) ≤
    receiver_min_consecutive_height (ot_serving s) + 224)%nat;
}.

Definition queue (o : OutboundResource) (t : InboundTransfer) (l : list nat) : list TransferAction :=
  omap (send_part o) l ++
  if waiting_for_hmu (it_control t) then [SendHmu (hmu_frame o (length (i_map_hashes (it_resource t))))] else [].

(** A request and the sender's answer. *)
Lemma request_answered o s t now : good_sender o → NoDup (o_map_hashes o) → it_ok o t → it_state t = RTransferring →
  in_is_complete (it_resource t) = false → waiting_for_hmu (it_control t) = false →
  (∃ st, ot_resource s = out_state o st ∧ terminal st = false) → covers s t →
  ∃ t' b s', request_next t now = @Ok ResourceError _ (t', SendRequest b) ∧
    handle_request s b now = @Ok ResourceError _ (s', queue o t' (wanted (it_resource t))) ∧
    in_flight o s' t' (wanted (it_resource t)) ∧ it_resource t' = it_resource t.
Proof.
  intros Hg Hnd Hok Hst Hc Hw (st & Hr & Ht) Hcov.
  destruct (request_next_spec (E:=ResourceError) o t now Hok) as [[_ [?|[?|?]]]|(t' & He & Hok' & _ & _ & _ & Hr' & Hout & _ & Hw')]; [congruence..|].
  destruct (handle_request_spec (E:=ResourceError) o s t st now Hg Hnd Hok Hr Ht Hcov) as (s' & st' & Hh & Hrs & Hts & Hht).
  cbv zeta in Hh, Hht. exists t', (request_frame (it_resource t)), s'. split; [done|].
  destruct Hcov as (Hc1 & Hc2 & Hc3). pose proof (ik_window _ (tk_ok _ _ (tt_tracks _ _ Hok))) as [Hwn Hwm _ _]. unfold WINDOW_MIN in Hwn.
  pose proof (in_complete_false o t Hok Hc) as Hlt.
  pose proof (ik_next _ (tk_ok _ _ (tt_tracks _ _ Hok))) as Hnext. rewrite (tk_total _ _ (tt_tracks _ _ Hok)) in Hnext.
  split_and!; [|split; try done|done].
  - rewrite Hh. unfold queue. rewrite Hw', Hr'. done.
  - unfold it_state. by rewrite Hr'.
  - by rewrite Hr'.
  - by exists st'.
  - unfold wanted. apply NoDup_filter. unfold range. apply NoDup_seq.
  - intros i. by rewrite Hr'.
  - intros Hnil. rewrite Hw'. apply bool_decide_eq_true. apply dec_stable. intros Hge.
    assert (Hin : consecutive_completed (it_resource t) ∈ wanted (it_resource t)).
    { apply wanted_spec. split; [by apply Hnext|].
      unfold search_end in *. rewrite (tk_total _ _ (tt_tracks _ _ Hok)) in *. lia. }
    rewrite Hnil in Hin. by apply elem_of_nil in Hin.
  - rewrite Hht, Hr'. case_bool_decide as Hx; [|done]. unfold search_end in Hx. case_decide; unfold WINDOW_MAX in *; lia.
  - rewrite Hht, Hr'. case_bool_decide; [|done]. case_decide; unfold WINDOW_MAX in *; lia.
  - rewrite Hht, Hr', Hw'. case_bool_decide; [|lia]. case_decide; unfold WINDOW_MAX in *; lia.
Qed.

Lemma completed_mono r i d n : in_ok r → i_parts r !! i = Some None →
  in_ok (in_completed (in_parts r (<[i := Some d]> (i_parts r))) n) → (consecutive_completed r ≤ n)%nat.
Proof.
  intros Hok Hi Hok'. apply dec_stable. intros Hn. pose proof (ik_le _ Hok) as Hle.
  pose proof (ik_next _ Hok') as Hx. cbn in Hx. destruct (ik_prefix _ Hok n) as [d' Hd]; [lia|].
  rewrite list_lookup_insert_ne in Hx by congruence. rewrite Hd in Hx. by discriminate Hx; lia.
Qed.

(** A part that is wanted goes to its slot. *)
Lemma part_taken o t i p now : sender_ok o → NoDup (o_map_hashes o) → it_ok o t → it_state t = RTransferring →
  i ∈ wanted (it_resource t) → o_parts o !! i = Some p →
  ∃ n, let r1 := in_completed (in_parts (it_resource t) (<[i := Some p]> (i_parts (it_resource t)))) n in
    if in_is_complete r1 then
      ∃ t', it_receive_part t p now = @Ok ResourceError _ (t', AComplete) ∧ it_ok o t' ∧ it_resource t' = r1
    else if decide (outstanding_parts (it_control t) ≤ 1)%nat then
      ∃ t2 w, it_receive_part t p now = request_next (E:=ResourceError) t2 now ∧ it_ok o t2 ∧ it_resource t2 = in_window r1 w ∧
        waiting_for_hmu (it_control t2) = waiting_for_hmu (it_control t) ∧ (consecutive_completed (it_resource t) ≤ n)%nat ∧
        outstanding_parts (it_control t2) = 0%nat
    else
      ∃ t', it_receive_part t p now = @Ok ResourceError _ (t', ANone) ∧ it_ok o t' ∧ it_resource t' = r1 ∧
        waiting_for_hmu (it_control t') = waiting_for_hmu (it_control t) ∧
        outstanding_parts (it_control t') = (outstanding_parts (it_control t) - 1)%nat ∧ (consecutive_completed (it_resource t) ≤ n)%nat.
Proof.
  intros Hs Hnd Hok Hst (He & Hwin & HM)%wanted_spec Hp. pose proof (tt_tracks _ _ Hok) as Htr. pose proof (tk_ok _ _ Htr) as Hin.
  assert (Hmi : i_map_hashes (it_resource t) !! i = Some (get_map_hash p (i_random_hash (it_resource t)))).
  { destruct (lookup_lt_is_Some_2 (i_map_hashes (it_resource t)) i HM) as [h Hh]. rewrite Hh.
    pose proof (prefix_lookup_Some _ _ _ _ Hh (tk_hashes _ _ Htr)) as Hx.
    rewrite (sk_hashes _ Hs), list_lookup_fmap, Hp in Hx. rewrite (tk_random _ _ Htr). by injection Hx as <-. }
  destruct (it_receive_part_spec (E:=ResourceError) o t p now Hs Hok) as [[_ Hf]|(_ & j & n & Hr & Hj & Hoj & _ & Hc)].
  { by eapply list_elem_of_lookup_2. }
  { exfalso. specialize (Hf Hst). destruct (in_receive_part_spec (E:=ResourceError) (it_resource t) p Hin) as [[_ Hn]|(j & n & Hx & _)]; [|congruence].
    destruct (Hn i Hwin Hmi) as [d Hd]. unfold empty_slot in He. congruence. }
  assert (j = i) as ->.
  { pose proof (prefix_lookup_Some _ _ _ _ Hmi (tk_hashes _ _ Htr)) as Hx.
    eapply (NoDup_lookup (o_map_hashes o)); [done| |exact Hx].
    rewrite (sk_hashes _ Hs), list_lookup_fmap, Hoj. by rewrite (tk_random _ _ Htr). }
  exists n. cbv zeta in Hc |- *. destruct (in_is_complete _); [done|]. case_decide.
  - destruct Hc as (t2 & w & ? & Hok2 & Hr2 & ? & _ & ?). exists t2, w. split_and!; [done..| |done].
    pose proof (tk_ok _ _ (tt_tracks _ _ Hok2)) as [Hl Hle Hpr Hnx Hwo]. rewrite Hr2 in *.
    eapply (completed_mono (it_resource t) i p); [done..|]. split; try done. apply Hin.
  - destruct Hc as (t' & ? & Hok2 & Hr2 & ? & ?). exists t'. split_and!; [done..|].
    pose proof (tk_ok _ _ (tt_tracks _ _ Hok2)) as Hx. rewrite Hr2 in Hx. by eapply completed_mono.
Qed.

Lemma filled_less (l : list (option bytes)) i d : l !! i = Some None →
  (length (filter (λ p, p = None) (<[i := Some d]> l)) < length (filter (λ p, p = None) l))%nat.
Proof.
  intros Hi. pose proof (lookup_lt_Some _ _ _ Hi) as Hl. rewrite <- (take_drop_middle l i None Hi) at 2.
  rewrite insert_take_drop by done. rewrite !filter_app, !length_app, filter_cons_False, filter_cons_True by (done || (intros ?; done)). cbn. lia.
Qed.

(** What one delivery leads to. *)
Definition delivered (o : OutboundResource) (s : OutboundTransfer) (t t' : InboundTransfer) (reply : TransferAction)
    (q : list TransferAction) (now : Z) : Prop :=
  (reply = AComplete ∧ in_is_complete (it_resource t') = true ∧ it_ok o t') ∨
  (missing o t' < missing o t)%nat ∧
  (reply = ANone ∧ (∃ l, q = queue o t' l ∧ in_flight o s t' l) ∨
   ∃ b s' ans l, reply = SendRequest b ∧ handle_request s b now = @Ok ResourceError _ (s', ans) ∧ q ++ ans = queue o t' l ∧
     in_flight o s' t' l).

Lemma part_delivered o s t i l now : good_sender o → NoDup (o_map_hashes o) → in_flight o s t (i :: l) →
  ∃ p q t' reply, queue o t (i :: l) = SendPart i p :: q ∧ it_receive_part t p now = @Ok ResourceError _ (t', reply) ∧
    delivered o s t t' reply q now.
Proof.
  intros Hg Hnd [Hok Hst Hc Hse Hdup Hsl Hcount Hsome Hh Hre Hgu]. pose proof (gs_ok _ Hg) as Hs.
  assert (Hiw : i ∈ wanted (it_resource t)) by (apply Hsl; set_solver). pose proof Hiw as (Hei & Hwin & HM)%wanted_spec.
  destruct (lookup_lt_is_Some_2 (o_parts o) i) as [p Hp].
  { pose proof (prefix_length _ _ (tk_hashes _ _ (tt_tracks _ _ Hok))). rewrite map_hashes_length in * by done. lia. }
  destruct (part_taken o t i p now Hs Hnd Hok Hst Hiw Hp) as (n & Hx). cbv zeta in Hx.
  set (r1 := in_completed _ n) in Hx. exists p, (queue o t l).
  assert (Hless : ∀ r2, i_parts r2 = i_parts r1 → i_map_hashes r2 = i_map_hashes r1 → ∀ t', it_resource t' = r2 → (missing o t' < missing o t)%nat).
  { intros r2 H1 H2 t' Hr2. unfold missing. rewrite Hr2, H1, H2. cbn. pose proof (filled_less _ i p Hei). lia. }
  assert (Hq : queue o t (i :: l) = SendPart i p :: queue o t l).
  { unfold queue. cbn [omap list_omap]. unfold send_part at 1. by rewrite Hp. }
  cbn [length] in Hcount. destruct (in_is_complete r1) eqn:Hcm.
  { destruct Hx as (t' & He & Hok' & Hr'). exists t', AComplete. split_and!; [done..|]. left. rewrite Hr'. done. }
  destruct (decide (outstanding_parts (it_control t) ≤ 1)%nat) as [Ho|Ho].
  - destruct l; [|cbn [length] in Hcount; lia]. destruct Hx as (t2 & w & He & Hok2 & Hr2 & Hw2 & Hn & Hz). rewrite He.
    assert (Hlt2 : (missing o t2 < missing o t)%nat) by (by apply (Hless (in_window r1 w))).
    assert (Hst2 : it_state t2 = RTransferring) by (unfold it_state; by rewrite Hr2).
    assert (Hc2 : in_is_complete (it_resource t2) = false) by (by rewrite Hr2).
    destruct (waiting_for_hmu (it_control t)) eqn:Hwt.
    + exists t2, ANone. split; [done|]. split.
      { unfold request_next. rewrite Hw2. by destruct (_ || _). }
      right. split; [done|]. left. split; [done|]. exists []. split; [unfold queue; by rewrite Hwt, Hw2, Hr2|].
      split; rewrite ?Hw2, ?Hr2; try done; [constructor|set_solver|cbn; lia].
    + destruct (request_answered o s t2 now Hg Hnd Hok2 Hst2 Hc2 Hw2 Hse) as (t' & b & s' & H1 & H2 & H3 & H4).
      { unfold covers. rewrite Hr2. cbn. lia. }
      exists t', (SendRequest b). split_and!; [done..|]. right. split; [unfold missing in *; by rewrite H4|]. right.
      exists b, s', (queue o t' (wanted (it_resource t2))), (wanted (it_resource t2)). split_and!; [done..| |done].
      unfold queue at 1. rewrite Hwt. done.
  - destruct Hx as (t' & He & Hok' & Hr' & Hw' & Hout & Hn). exists t', ANone. split_and!; [done..|]. right.
    split; [by apply (Hless r1)|]. left. split; [done|]. exists l. split; [unfold queue; by rewrite Hw', Hr'|].
    apply NoDup_cons in Hdup as [Hni Hdup].
    split; rewrite ?Hw', ?Hr'; try done.
    + unfold it_state. by rewrite Hr'.
    + intros j Hj. pose proof (Hsl j ltac:(set_solver)) as (Hej & Hwj & HMj)%wanted_spec. apply wanted_spec.
      assert (j ≠ i) by (by intros ->). assert (Hjp : i_parts r1 !! j = Some None) by (cbn; by rewrite list_lookup_insert_ne).
      split; [done|]. split; [|done]. split.
      * apply dec_stable. intros Hlt. destruct (ik_prefix _ (tk_ok _ _ (tt_tracks _ _ Hok')) j) as [d Hd]; [rewrite Hr'; lia|].
        rewrite Hr' in Hd. congruence.
      * unfold search_end in *. cbn. lia.
    + lia.
    + intros ->. cbn in *. lia.
    + cbn. lia.
Qed.

Lemma segment_bytes_ok o k : sender_ok o → bytes_ok (concat (segment_entries o k)).
Proof.
  intros Hs. unfold bytes_ok. apply Forall_concat. unfold segment_entries. apply Forall_take, Forall_drop.
  rewrite (sk_hashes _ Hs). apply Forall_fmap, Forall_true. intros p. cbn. unfold get_map_hash. apply Forall_take, digest_bytes.
Qed.

(** The update in flight is parsed back. *)
Lemma hmu_frame_parsed o t : good_sender o → it_ok o t → (length (i_map_hashes (it_resource t)) < length (o_parts o))%nat →
  ∃ k, length (i_map_hashes (it_resource t)) = (STRIDE * k)%nat ∧
    parse_hashmap_update (hmu_frame o (length (i_map_hashes (it_resource t)))) =
      Ok (o_resource_hash o, Z.of_nat k, concat (segment_entries o k)).
Proof.
  intros [Hs Hh _] Hok Hlt. destruct (tt_stride _ _ Hok) as (k & _ & Hk). exists k.
  assert (HM : length (i_map_hashes (it_resource t)) = (STRIDE * k)%nat) by lia. split; [done|]. unfold hmu_frame.
  rewrite HM, (Nat.mul_comm STRIDE k), Nat.div_mul by done. rewrite <- (app_nil_r (encode_hashmap_update _ _ _)).
  pose proof (tt_small _ _ Hok) as Hsm. unfold U32_MAX in Hsm.
  apply hashmap_update_roundtrip; [done| |by apply segment_bytes_ok|].
  - unfold usize_ok, USIZE_MAX, U64_MAX. lia.
  - unfold len. rewrite (length_concat_uniform MAPHASH_LEN) by (by apply segment_uniform).
    rewrite segment_length by done. unfold MAPHASH_LEN. lia.
Qed.

Lemma hmu_delivered o s t now : good_sender o → NoDup (o_map_hashes o) → in_flight o s t [] →
  ∃ t' reply, deliver t (SendHmu (hmu_frame o (length (i_map_hashes (it_resource t))))) now = Ok (t', reply) ∧
    delivered o s t t' reply [] now.
Proof.
  intros Hg Hnd [Hok Hst Hc Hse _ _ _ Hsome Hh Hre Hgu]. pose proof (gs_ok _ Hg) as Hs. specialize (Hsome eq_refl).
  pose proof (tt_waiting _ _ Hok Hsome) as HMn. destruct (hmu_frame_parsed o t Hg Hok HMn) as (k & HM & Hp).
  cbn [deliver]. rewrite Hp. cbn [res_bind]. rewrite decide_True by (by rewrite (tk_hash _ _ (tt_tracks _ _ Hok))).
  rewrite (hashmap_update_spec (E:=ResourceError) o t k now Hs Hok) by lia. cbv zeta.
  rewrite Hst, Hsome, (bool_decide_true (RTransferring = _)), (bool_decide_false (_ < _)%nat), bool_decide_true by (done || lia).
  cbn [andb]. pose proof (segment_length o k Hs) as Hsl. rewrite Hsome in Hgu.
  destruct (request_answered o s (extended o t k now) now Hg Hnd) as (t' & b & s' & H1 & H2 & H3 & H4); try done.
  { apply extended_ok; [done..|lia]. }
  { unfold covers. cbn [extended it_resource in_hashes i_map_hashes consecutive_completed]. rewrite length_app. lia. }
  exists t', (SendRequest b). split; [done|]. right. split.
  - unfold missing. rewrite H4. cbn [extended it_resource in_hashes i_map_hashes i_parts]. rewrite length_app. lia.
  - right. by eexists b, s', _, _.
Qed.

(** Enough fuel for what is missing: the receiver gets every part. *)
Lemma pump_completes o clock : good_sender o → NoDup (o_map_hashes o) → ∀ fuel s t l, in_flight o s t l →
  (missing o t ≤ fuel)%nat →
  ∃ s' t' st, pump fuel clock s t (queue o t l) = Ok (s', t', true) ∧ it_ok o t' ∧ in_is_complete (it_resource t') = true ∧
    ot_resource s' = out_state o st ∧ terminal st = false.
Proof.
  intros Hg Hnd. induction fuel as [|fuel IH]; intros s t l Hf Hm.
  { exfalso. destruct Hf as [Hok _ Hc _ _ _ _ _ _ _ _]. pose proof (in_complete_false o t Hok Hc) as Hlt.
    pose proof (ik_next _ (tk_ok _ _ (tt_tracks _ _ Hok))) as Hn. rewrite (tk_total _ _ (tt_tracks _ _ Hok)) in Hn.
    pose proof (filled_less _ _ [] (Hn Hlt)). unfold missing in Hm. lia. }
  assert (Hd : ∃ a q t' reply, queue o t l = a :: q ∧ deliver t a (clock fuel) = Ok (t', reply) ∧ delivered o s t t' reply q (clock fuel)).
  { destruct l as [|i l].
    - destruct (hmu_delivered o s t (clock fuel) Hg Hnd Hf) as (t' & reply & H1 & H2).
      eexists _, [], t', reply. split; [unfold queue; by rewrite (fl_some _ _ _ _ Hf eq_refl)|done].
    - destruct (part_delivered o s t i l (clock fuel) Hg Hnd Hf) as (p & q & t' & reply & H1 & H2 & H3).
      by exists (SendPart i p), q, t', reply. }
  destruct Hd as (a & q & t' & reply & Hq & He & Hd). rewrite Hq. cbn [pump]. rewrite He. cbn [res_bind].
  destruct Hd as [(-> & Hc & Hok)|[Hlt [(-> & l' & -> & Hf')|(b & s' & ans & l' & -> & Hh & Hq' & Hf')]]].
  - destruct (fl_sender _ _ _ _ Hf) as (st & ? & ?). by exists s, t', st.
  - apply (IH s t' l' Hf'). lia.
  - rewrite Hh. cbn [res_bind]. rewrite Hq'. apply (IH s' t' l' Hf'). lia.
Qed.
End exchange.

(** ** The advertisement of a built resource is accepted *)

Section advertising.
Context `{DL : DigestLaws} `{LB : Bzip2Laws} `{LM : MsgpackLaws}.

(** The receiver's hook undoes the sender's, which adds no more than a token does. *)
Definition seals (enc : option (nat → bytes → bytes)) (k : nat) (dec : option (bytes → res ResourceError bytes)) : Prop :=
  match enc, dec with
  | Some e, Some d => ∀ plain, d (e k plain) = Ok plain ∧ 0 < len (e k plain) ≤ 16 * (len plain / 16 + 1) + 48
  | None, None => True
  | _, _ => False
  end.

Lemma processed_len auto full : len (processed auto full).1 ≤ len full.
Proof.
  unfold processed, try_compress. repeat case_match; simplify_eq; cbn; unfold len; lia.
Qed.

Lemma blob_len data auto metadata enc rng k dec : length (rng k) = RANDOM_HASH_SIZE → seals enc k dec →
  metadata_wire (len <$> metadata) + len data ≤ MAX_EFFICIENT_SIZE →
  0 < len (blob_of data auto metadata enc rng k) ≤
    transfer_bound (len data) (metadata_wire (len <$> metadata)) (bool_decide (is_Some enc)).
Proof.
  intros Hr Hs Hfit. pose proof (processed_len auto (full_content metadata data)) as Hp. rewrite len_full in Hp.
  set (pr := (processed auto (full_content metadata data)).1) in *. pose proof (len_nonneg pr) as Hpn.
  assert (Hl : len (rng k ++ pr) = 4 + len pr) by (rewrite len_app; unfold len at 1; rewrite Hr; done).
  unfold blob_of, transfer_bound. fold pr. rewrite Z.min_l by lia. destruct enc as [e|].
  - destruct dec as [d|]; [|done]. rewrite bool_decide_true by done. destruct (Hs (rng k ++ pr)) as [_ [? Hu]].
    split; [done|]. rewrite Hl in Hu. etrans; [exact Hu|]. 
    assert ((4 + len pr) / 16 ≤ (len data + metadata_wire (len <$> metadata) + 4) / 16) by (apply Z.div_le_mono; lia). lia.
  - rewrite bool_decide_false by (by intros [? ?]). rewrite Hl. lia.
Qed.

Definition adv_of (o : OutboundResource) : ResourceAdvertisement :=
  adv_new (o_total_size o) (o_advertisement_data_size o) (Z.of_nat (out_num_parts o)) (o_resource_hash o) (o_random_hash o)
    (o_flags o) (o_map_hashes o) LINK_MDU.

Lemma attempt_within data auto metadata sdu enc rng k dec :
  (0 < sdu)%nat → length (rng k) = RANDOM_HASH_SIZE → bytes_ok (rng k) → seals enc k dec →
  metadata_wire (len <$> metadata) + len data ≤ MAX_EFFICIENT_SIZE →
  adv_within (adv_of (attempt data auto metadata sdu enc rng k)) (len data) (metadata_wire (len <$> metadata)) None
    (bool_decide (is_Some enc)) (Z.of_nat sdu).
Proof.
  intros Hsdu Hr Hrb Hse Hfit. pose proof (blob_len data auto metadata enc rng k dec Hr Hse Hfit) as Hb.
  set (mw := metadata_wire (len <$> metadata)) in *. set (e := bool_decide (is_Some enc)) in *.
  assert (Hmw : 0 ≤ mw) by (subst mw; destruct metadata as [m|]; simpl; [pose proof (len_nonneg m)|]; lia).
  pose proof (len_nonneg data) as Hd. pose proof (transfer_bound_range (len data) mw e Hd Hmw) as Ht.
  pose proof (length_chunks sdu (blob_of data auto metadata enc rng k) Hsdu) as Hc.
  pose proof (parts_bound_range (len data) mw e (Z.of_nat sdu) Hd Hmw ltac:(lia)) as Hpb.
  assert (Hn : Z.of_nat (length (chunks sdu (blob_of data auto metadata enc rng k))) ≤ parts_bound (len data) mw e (Z.of_nat sdu)).
  { unfold len in Hc at 1. rewrite Hc. apply div_ceil_mono; [apply Hb|lia]. }
  set (cs := chunks sdu (blob_of data auto metadata enc rng k)) in *.
  assert (Hhm : len (concat (take (Nat.min (length ((λ p, get_map_hash p (rng k)) <$> cs)) (hashmap_max_len LINK_MDU))
      ((λ p, get_map_hash p (rng k)) <$> cs))) = 4 * Z.min (Z.of_nat (length cs)) 74).
  { unfold len. rewrite (length_concat_uniform MAPHASH_LEN), length_take, length_fmap, stride_is by
      (apply Forall_take, Forall_fmap, Forall_true; intros; apply length_map_hash). unfold MAPHASH_LEN. lia. }
  pose proof (segments_of_range (len data) mw Hmw) as Hsg.
  split; cbn [adv_of adv_new with_metadata_size transfer_size data_size num_parts segment_index total_segments request_id random_hash hashmap attempt
    o_total_size o_advertisement_data_size o_random_hash o_map_hashes out_num_parts o_parts]; unfold out_num_parts; cbn [o_parts attempt]; fold cs;
    rewrite ?len_full; try done; try lia.
  - split; cbn [adv_of adv_new with_metadata_size transfer_size data_size num_parts segment_index total_segments request_id random_hash hashmap
      resource_hash original_hash attempt o_total_size o_advertisement_data_size o_random_hash o_resource_hash o_map_hashes];
      unfold out_num_parts; cbn [o_parts attempt]; fold cs; unfold usize_ok, USIZE_MAX, U64_MAX, MAX_EFFICIENT_SIZE in *; rewrite ?len_full; fold mw;
      try done; try lia.
    + split; [apply sha256_length|apply digest_bytes].
    + split; [apply sha256_length|apply digest_bytes].
    + unfold len. rewrite Hr. done.
    + split; [rewrite Hhm; lia|]. apply Forall_concat, Forall_take, Forall_fmap, Forall_true. intros p. apply Forall_take, digest_bytes.
  - unfold len. by rewrite Hr.
Qed.

Lemma div_ceil_anti a b c : 0 ≤ a → 0 < b ≤ c → div_ceil a c ≤ div_ceil a b.
Proof.
  intros Ha Hbc. unfold div_ceil. set (q := (a + b - 1) / b).
  assert (a ≤ b * q). { pose proof (Z.div_mod (a + b - 1) b ltac:(lia)). pose proof (Z.mod_pos_bound (a + b - 1) b ltac:(lia)). subst q. lia. }
  assert (0 ≤ q) by (apply Z.div_pos; lia).
  assert ((a + c - 1) / c < q + 1); [|lia]. apply Z.div_lt_upper_bound; nia.
Qed.

(** The receiver takes exactly the sender's resource, with the first hashes. *)
Lemma accepted_as o rtt now : sender_ok o → length (o_random_hash o) = RANDOM_HASH_SIZE →
  (length (o_parts o) ≠ 0)%nat → o_total_size o ≤ max_total_size →
  Z.of_nat (length (o_parts o)) ≤ Z.min (div_ceil (o_total_size o) MIN_PART_SIZE + 16) USIZE_MAX →
  ∃ t, inbound_transfer_from_advertisement (adv_of o) rtt now = Ok t ∧
    from_advertisement (length (o_parts o)) (o_total_size o) (o_advertisement_data_size o) (o_random_hash o) (o_resource_hash o)
      (o_flags o) (take STRIDE (o_map_hashes o)) rtt now = Ok t.
Proof.
  intros Hs Hr Hn Hsz Hpt.
  assert (Hh : get_map_hashes (adv_of o) = take STRIDE (o_map_hashes o)).
  { unfold get_map_hashes. cbn [adv_of adv_new with_metadata_size hashmap]. rewrite stride_is.
    rewrite as_chunks_concat; [|unfold MAPHASH_LEN; lia|by apply Forall_take, map_hashes_uniform].
    destruct (decide (length (o_map_hashes o) ≤ STRIDE)%nat); [rewrite !take_ge by lia|rewrite Nat.min_r by lia]; done. }
  unfold inbound_transfer_from_advertisement. rewrite Hh.
  change (validate_inbound_advertisement (adv_of o)) with (@Ok AcceptError () ()). cbn [res_bind].
  cbn [adv_of adv_new with_metadata_size random_hash transfer_size data_size num_parts total_segments segment_index resource_hash adv_flags].
  rewrite decide_False by lia. rewrite take_ge by lia. change (1 <? 1) with false. cbn [andb]. unfold out_num_parts. rewrite Nat2Z.id.
  unfold from_advertisement, inbound_new, with_sdu.
  rewrite (proj2 (Nat.eqb_neq _ _) Hn), (proj2 (Z.ltb_ge _ _) Hsz), (proj2 (Z.ltb_ge _ _) Hpt). cbn [res_bind map_err]. by eexists.
Qed.

Lemma attempt_advertised data auto metadata sdu enc rng k dec s rtt now :
  let o := attempt data auto metadata sdu enc rng k in
  (32 ≤ sdu)%nat → length (rng k) = RANDOM_HASH_SIZE → bytes_ok (rng k) → seals enc k dec →
  metadata_wire (len <$> metadata) + len data ≤ MAX_EFFICIENT_SIZE → NoDup (o_map_hashes o) → ot_resource s = o →
  create_advertisement s = Ok (adv_pack (adv_of o)) ∧ adv_unpack (adv_pack (adv_of o)) = Ok (adv_of o) ∧
  ∃ t, inbound_transfer_from_advertisement (adv_of o) rtt now = Ok t ∧
    from_advertisement (length (o_parts o)) (o_total_size o) (o_advertisement_data_size o) (o_random_hash o) (o_resource_hash o)
      (o_flags o) (take STRIDE (o_map_hashes o)) rtt now = Ok t.
Proof.
  intros o Hsdu Hr Hrb Hse Hfit Hnd Ho.
  pose proof (attempt_within data auto metadata sdu enc rng k dec ltac:(lia) Hr Hrb Hse Hfit) as Hw. fold o in Hw.
  pose proof (sizes_fit data metadata sdu ltac:(lia) Hfit) as Hsz. pose proof (len_nonneg data) as Hd.
  assert (Hm : ∀ n, len <$> metadata = Some n → 0 ≤ n) by (intros n; destruct metadata; intros [= <-]; apply len_nonneg).
  assert (Hck : check_advertisement (adv_of o) (Z.of_nat MTU) = Ok ()).
  { eapply (preflight_sound _ (len data) (len <$> metadata) None false); [| |exact Hm| |exact Hw]; [lia|done|]. by apply preflight_exact; [lia|..]. }
  split_and!.
  - unfold create_advertisement. rewrite Ho. change (o_request_id o) with (@None bytes). change (f_split (o_flags o)) with false. cbn [res_bind].
    match goal with |- context [check_advertisement ?a _] => change a with (adv_of o) end. by rewrite Hck.
  - rewrite adv_unpack_pack by apply Hw. by rewrite Hck.
  - pose proof (blob_len data auto metadata enc rng k dec Hr Hse Hfit) as Hb. set (blob := blob_of data auto metadata enc rng k) in *.
    assert (Hc : Z.of_nat (length (chunks sdu blob)) = div_ceil (len blob) (Z.of_nat sdu)) by (apply length_chunks; lia).
    pose proof (div_ceil_anti (len blob) 32 (Z.of_nat sdu) ltac:(lia) ltac:(lia)) as Ha.
    assert (Hmx : len blob ≤ max_total_size).
    { etrans; [apply Hb|]. unfold max_total_size, transfer_bound, MAX_EFFICIENT_SIZE in *. change (Z.of_nat RANDOM_HASH_SIZE) with 4.
      change (Z.of_nat TOKEN_OVERHEAD) with 48. unfold MAX_AES_BLOCK_PAD. cbv zeta. clear.
      assert (Hx : ∀ x, (Z.min x 1048575 + 4) / 16 < 65537) by (intros x; apply Z.div_lt_upper_bound; lia).
      specialize (Hx (len data + metadata_wire (len <$> metadata))). destruct (bool_decide _); lia. }
    apply accepted_as; try done.
    + split; [done|]. by apply NoDup_separate.
    + cbn. fold blob. intros Hz. pose proof (concat_chunks sdu blob ltac:(lia)) as Hcc. rewrite (nil_length_inv _ Hz) in Hcc.
      apply (f_equal len) in Hcc. change (0 = len blob) in Hcc. lia.
    + cbn [o attempt o_parts o_total_size]. fold blob. rewrite Hc. unfold MIN_PART_SIZE.
      apply Z.min_glb; [lia|]. etrans; [exact Ha|]. etrans; [apply div_ceil_le; lia|].
      unfold max_total_size, USIZE_MAX, U64_MAX, MAX_EFFICIENT_SIZE, MAX_AES_BLOCK_PAD in *. unfold RANDOM_HASH_SIZE, TOKEN_OVERHEAD in Hmx. lia.
Qed.
End advertising.

(** ** Whole transfers *)

Section whole.
Context `{DL : DigestLaws} `{LB : Bzip2Laws} `{LM : MsgpackLaws}.

(** The whole exchange over a channel that loses nothing: advertise, accept,
    request, serve until every part has arrived, assemble, prove. *)
Definition exchange (o : OutboundResource) (dec : option (bytes → res ResourceError bytes)) (rtt rtt' : Z) (clock : nat → Z)
    : res ResourceError (OutboundTransfer * InboundTransfer * bytes * bool) :=
  let fuel := (2 * out_num_parts o)%nat in
  let now := clock fuel in
  match tick (from_prebuilt o rtt now) now with
  | (s, SendAdvertisement adv) =>
      let* a := map_err (λ _, RInvalidAdvertisement) (adv_unpack adv) in
      let* t := map_err (λ _, RInvalidAdvertisement) (inbound_transfer_from_advertisement a rtt' now) in
      let* '(t, first) := request_next t now in
      match first with
      | SendRequest b =>
          let* '(s, q) := handle_request s b now in
          let* '(s, t, complete) := pump fuel clock s t q in
          if complete : bool then
            let '(t, result) := it_complete t dec in
            let* '(data, proof) := result in
            let '(s, verdict) := handle_proof s proof in
            let* ok := verdict in
            Ok (s, t, data, ok)
          else Err RIncomplete
      | _ => Err RIncomplete
      end
  | _ => Err RInvalidAdvertisement
  end.

(** What the construction and the two hooks guarantee, for every attempt. *)
Record transfer_setup (data : bytes) (metadata : option bytes) (link_sdu : option nat)
    (enc : option (nat → bytes → bytes)) (dec : option (bytes → res ResourceError bytes)) (rng : nat → bytes) : Prop := {
  ts_fits : metadata_wire (len <$> metadata) + len data ≤ MAX_EFFICIENT_SIZE;
  ts_sdu : (32 ≤ default SDU link_sdu)%nat;
  ts_random : ∀ k, length (rng k) = RANDOM_HASH_SIZE ∧ bytes_ok (rng k);
  ts_seals : ∀ k, seals enc k dec;
}.

Lemma setup_attempt data auto metadata link_sdu enc dec rng o : transfer_setup data metadata link_sdu enc dec rng →
  with_options data auto metadata link_sdu enc rng = Ok o →
  ∃ k, o = attempt data auto metadata (default SDU link_sdu) enc rng k ∧ carries o data auto metadata enc rng k.
Proof.
  intros [Hfit Hsdu _ _] Ho. destruct (with_options_ok data auto metadata link_sdu enc rng MAX_COLLISION_RETRIES ltac:(lia) Hfit)
    as (k & _ & Hk & _). unfold with_options in Ho. rewrite Hk in Ho. injection Ho as <-. exists k. split; [done|]. apply attempt_carries. lia.
Qed.

Lemma seals_undoes enc k dec plain : seals enc k dec → undoes enc k dec plain.
Proof. unfold seals, undoes. destruct enc, dec; try done. intros H. apply H. Qed.

(** The advertisement of a built resource, and the receiver it sets up. *)
Lemma setup_advertised data auto metadata link_sdu enc dec rng o rtt rtt' now : transfer_setup data metadata link_sdu enc dec rng →
  with_options data auto metadata link_sdu enc rng = Ok o → NoDup (o_map_hashes o) →
  ∃ s t, tick (from_prebuilt o rtt now) now = (s, SendAdvertisement (adv_pack (adv_of o))) ∧
    ot_resource s = out_state o RAdvertised ∧ receiver_min_consecutive_height (ot_serving s) = 0%nat ∧
    adv_unpack (adv_pack (adv_of o)) = Ok (adv_of o) ∧ inbound_transfer_from_advertisement (adv_of o) rtt' now = Ok t ∧
    good_sender o ∧ it_ok o t ∧ it_state t = RTransferring ∧ waiting_for_hmu (it_control t) = false ∧
    i_parts (it_resource t) = replicate (length (o_parts o)) None ∧ i_map_hashes (it_resource t) = take STRIDE (o_map_hashes o).
Proof.
  intros Hset Ho Hnd. destruct (setup_attempt _ _ _ _ _ _ _ _ Hset Ho) as (k & -> & Hc). set (o := attempt _ _ _ _ _ _ k) in *.
  destruct Hset as [Hfit Hsdu Hr Hse]. destruct (Hr k) as [Hrk Hrb].
  destruct (attempt_advertised data auto metadata (default SDU link_sdu) enc rng k dec (from_prebuilt o rtt now) rtt' now
    Hsdu Hrk Hrb (Hse k) Hfit Hnd eq_refl) as (H1 & H2 & t & H3 & H4). fold o in H1, H2, H3, H4.
  assert (Hs : sender_ok o) by (split; [done|by apply NoDup_separate]).
  destruct (from_advertisement_ok o _ _ _ _ _ Hs H4) as (Hok & Hst & Hw & Hp & Hm & Hn).
  eexists _, t. split; [unfold tick; rewrite H1; reflexivity|]. split_and!; try done. split; try done. apply sha256_length.
Qed.

Lemma missing_replicate o t : i_parts (it_resource t) = replicate (length (o_parts o)) None →
  (missing o t ≤ 2 * length (o_parts o))%nat.
Proof.
  intros Hp. unfold missing. rewrite Hp. pose proof (length_filter (λ p : option bytes, p = None) (replicate (length (o_parts o)) None)) as Hl.
  rewrite length_replicate in Hl. lia.
Qed.

(** The first request of a fresh receiver, and what it puts in flight. *)
Lemma first_request o s t now : good_sender o → NoDup (o_map_hashes o) → it_ok o t → it_state t = RTransferring →
  waiting_for_hmu (it_control t) = false → i_parts (it_resource t) = replicate (length (o_parts o)) None →
  i_map_hashes (it_resource t) = take STRIDE (o_map_hashes o) → ot_resource s = out_state o RAdvertised →
  receiver_min_consecutive_height (ot_serving s) = 0%nat →
  ∃ t' b s' l, request_next t now = @Ok ResourceError _ (t', SendRequest b) ∧
    handle_request s b now = @Ok ResourceError _ (s', queue o t' l) ∧ in_flight o s' t' l ∧ (missing o t' ≤ 2 * length (o_parts o))%nat.
Proof.
  intros Hg Hnd Hok Hst Hw Hparts Hmh Hs Hh. pose proof (gs_parts _ Hg) as Hn.
  assert (Hcc : consecutive_completed (it_resource t) = 0%nat).
  { destruct (consecutive_completed (it_resource t)) as [|c] eqn:Hcc; [done|].
    destruct (ik_prefix _ (tk_ok _ _ (tt_tracks _ _ Hok)) 0%nat) as [d Hd]; [lia|].
    rewrite Hparts in Hd. by apply lookup_replicate_1 in Hd as [? _]. }
  destruct (request_answered o s t now Hg Hnd Hok Hst) as (t1 & b & s1 & H1 & H2 & Hf & Hr1); [|done|by exists RAdvertised| |].
  - apply Nat.eqb_neq. rewrite Hcc, (tk_total _ _ (tt_tracks _ _ Hok)). lia.
  - unfold covers. rewrite Hh, Hcc. pose proof (map_hash_nonempty o t Hok Hn).
    rewrite Hmh, length_take in *. lia.
  - exists t1, b, s1, (wanted (it_resource t)). split_and!; try done. apply missing_replicate. by rewrite Hr1.
Qed.

(** C2.  A resource whose parts have distinct map hashes is transferred: over a
    channel that loses nothing the exchange terminates within two messages
    per part, the receiver ends with exactly the payload and the metadata,
    and the sender accepts its proof. *)
Theorem transfer_completes data auto metadata link_sdu enc dec rng o rtt rtt' clock :
  transfer_setup data metadata link_sdu enc dec rng →
  with_options data auto metadata link_sdu enc rng = Ok o → NoDup (o_map_hashes o) →
  ∃ s t, exchange o dec rtt rtt' clock = Ok (s, t, data, true) ∧ ot_state s = RComplete ∧ it_state t = RComplete ∧
    ∀ m, metadata = Some m → i_metadata (it_resource t) = Some m.
Proof.
  intros Hset Ho Hnd. set (now := clock (2 * out_num_parts o)%nat).
  destruct (setup_advertised data auto metadata link_sdu enc dec rng o rtt rtt' now Hset Ho Hnd)
    as (s0 & t0 & Htick & Hs0 & Hh0 & Hun & Hacc & Hg & Hok & Hst & Hw & Hparts & Hmh).
  destruct (setup_attempt _ _ _ _ _ _ _ _ Hset Ho) as (k & _ & Hc). destruct Hset as [Hfit _ Hr Hse]. destruct (Hr k) as [Hrk _].
  destruct (first_request o s0 t0 now Hg Hnd Hok Hst Hw Hparts Hmh Hs0 Hh0) as (t1 & b & s1 & l & H1 & H2 & Hf & Hm).
  destruct (pump_completes o clock Hg Hnd (2 * out_num_parts o) s1 t1 l Hf Hm) as (s2 & t2 & st & Hp & Hok2 & Hcm & Hs2 & Ht2).
  destruct (it_complete_spec o t2 data auto metadata enc rng k dec Hc Hok2 Hcm Hrk (seals_undoes _ _ _ _ (Hse k)) Hfit) as (t3 & Hit & Hst3 & Hm3).
  pose proof (handle_proof_ok s2 o data auto metadata enc rng k Hc) as Hhp.
  exists (set_ot_state s2 RComplete), t3. split_and!; try done.
  unfold exchange. fold now. rewrite Htick. cbn [map_err res_bind]. rewrite Hun. cbn [map_err res_bind]. rewrite Hacc. cbn [map_err res_bind].
  rewrite H1. cbn [res_bind]. rewrite H2. cbn [res_bind]. rewrite Hp. cbn [res_bind]. rewrite Hit. cbn [res_bind].
  rewrite Hhp by (rewrite ?Hs2; try done; unfold ot_state; by rewrite Hs2). done.
Qed.

(** C8.  For a resource whose parts have distinct map hashes, as the sender's
    collision guard makes them unless it runs out of attempts: whatever the
    network does (parts of the resource lost, repeated or out of order, hashmap segments in any order, any polls of the watchdog, at any
    times), the receiver never panics, every request and cancellation it
    sends fits a packet, a filled slot holds the sender's part of that
    index, and a receiver that has every part yields exactly the payload and
    the metadata, with a proof that any sender still waiting accepts. *)
Theorem transfer_safe data auto metadata link_sdu enc dec rng o rtt rtt' now s0 adv a t0 events :
  transfer_setup data metadata link_sdu enc dec rng →
  with_options data auto metadata link_sdu enc rng = Ok o → NoDup (o_map_hashes o) →
  tick (from_prebuilt o rtt now) now = (s0, SendAdvertisement adv) → adv_unpack adv = Ok a →
  inbound_transfer_from_advertisement a rtt' now = Ok t0 →
  ∃ t acts, it_run o t0 events = @Ok ResourceError _ (t, acts) ∧ Forall action_fits acts ∧
    (∀ i d, i_parts (it_resource t) !! i = Some (Some d) → o_parts o !! i = Some d) ∧
    (in_is_complete (it_resource t) = true →
     ∃ t' proof, it_complete t dec = (t', Ok (data, proof)) ∧ it_state t' = RComplete ∧
       (∀ m, metadata = Some m → i_metadata (it_resource t') = Some m) ∧
       ∀ s st, ot_resource s = out_state o st → terminal st = false →
         handle_proof s proof = (set_ot_state s RComplete, Ok true)).
Proof.
  intros Hset Ho Hnd Ht Ha Hi.
  destruct (setup_advertised data auto metadata link_sdu enc dec rng o rtt rtt' now Hset Ho Hnd)
    as (s0' & t0' & Htick & _ & _ & Hun & Hacc & Hg & Hok & _).
  rewrite Htick in Ht. injection Ht as _ <-. rewrite Hun in Ha. injection Ha as <-. rewrite Hacc in Hi. injection Hi as ->.
  destruct (setup_attempt _ _ _ _ _ _ _ _ Hset Ho) as (k & _ & Hc). destruct Hset as [Hfit _ Hr Hse]. destruct (Hr k) as [Hrk _].
  destruct (it_run_ok (E:=ResourceError) o events Hg t0 Hok) as (t & acts & Hrun & Hok' & Hfits).
  exists t, acts. split_and!; try done; [apply (tt_tracks _ _ Hok')|]. intros Hcm.
  destruct (it_complete_spec o t data auto metadata enc rng k dec Hc Hok' Hcm Hrk (seals_undoes _ _ _ _ (Hse k)) Hfit) as (t3 & Hit & Hst3 & Hm3).
  exists t3. eexists. split_and!; try done. intros s st Hs Hst.
  eapply handle_proof_ok; [done|by rewrite Hs..|unfold ot_state; by rewrite Hs].
Qed.
End whole.

(** ** Giving up *)

Section giving_up.
Context `{DL : DigestLaws} `{LM : MsgpackLaws}.

(** The watchdog polled at some times, nothing else happening. *)
Definition polls (times : list Z) : list (receiver_event * Z) := (λ now, (EvPoll, now)) <$> times.

(** Actions that are not idle. *)
Definition is_idle (a : TransferAction) : bool := match a with ANone => true | _ => false end.
Definition spent (acts : list TransferAction) : nat := length (filter (λ a, is_idle a = false) acts).

(** A failed receiver stays as it is. *)
Lemma failed_silent {E} o t events : it_state t = RFailed → it_run o t events = @Ok E _ (t, replicate (length events) ANone).
Proof.
  intros Hf. induction events as [|[e now] events IH]; [done|]. cbn [it_run length replicate].
  assert (He : it_event o t e now = @Ok E _ (t, ANone)).
  { destruct e as [i|k| |]; cbn [it_event].
    - destruct (get_part o i); [|done]. unfold it_receive_part. by rewrite Hf.
    - case_decide; [|done]. unfold hashmap_update. fold (it_state t). by rewrite Hf.
    - unfold it_check_timeout. by rewrite Hf.
    - unfold request_next. fold (it_state t). by rewrite Hf. }
  rewrite He. cbn [res_bind]. rewrite IH. done.
Qed.

Lemma spent_idle n : spent (replicate n ANone) = 0%nat.
Proof. induction n as [|n IH]; [done|]. unfold spent in *. cbn [replicate]. by rewrite filter_cons_False. Qed.

(** Every retry of the watchdog uses one of the retries left. *)
Lemma polls_spend {E} o times : good_sender o → ∀ t, it_ok o t → it_state t ≠ RFailed →
  ∃ t' acts, it_run o t (polls times) = @Ok E _ (t', acts) ∧
    (it_state t' = RFailed ∧ spent acts = S (retries_left (it_control t)) ∨
     it_state t' ≠ RFailed ∧ (spent acts + retries_left (it_control t'))%nat = retries_left (it_control t)).
Proof.
  intros Hg. induction times as [|now times IH]; intros t Hok Hf; [exists t, []; cbn; auto|].
  cbn [polls fmap list_fmap it_run it_event]. fold (polls times).
  assert (Hcons : ∀ a acts, is_idle a = false → spent (a :: acts) = S (spent acts)).
  { intros a acts Ha. unfold spent. by rewrite filter_cons_True. }
  destruct (it_check_timeout_spec (E:=E) o t now Hok) as
    [(t1 & He & Hok1 & Hr & Hc)|[(_ & _ & Hz & t1 & He & Hok1 & Hr)|(Hst & Hcm & t2 & m & Hm & He & Hok2 & Hr & Hw & Hm2)]].
  - rewrite He. cbn [res_bind]. destruct (IH t1 Hok1) as (t' & acts & Hrun & Hs); [unfold it_state; by rewrite Hr|].
    rewrite Hrun. cbn [res_bind]. exists t', (ANone :: acts). split; [done|].
    replace (spent (ANone :: acts)) with (spent acts) by (unfold spent; by rewrite filter_cons_False).
    by rewrite <- Hc.
  - rewrite He. cbn [res_bind]. rewrite failed_silent by (unfold it_state; by rewrite Hr). cbn [res_bind].
    eexists _, _. split; [reflexivity|]. left. split; [unfold it_state; by rewrite Hr|]. rewrite Hcons, spent_idle by done. lia.
  - rewrite He. destruct (request_next_spec (E:=E) o t2 now Hok2) as [[_ [Hn|[Hn|Hn]]]|(t1 & He1 & Hok1 & Hst1 & _ & _ & Hr1 & _ & Hrl & _)].
    + destruct Hn. unfold it_state. by rewrite Hr.
    + rewrite Hr in Hn. unfold in_is_complete in *. cbn in *. congruence.
    + congruence.
    + rewrite He1. cbn [res_bind]. destruct (IH t1 Hok1) as (t' & acts & Hrun & Hs).
      { unfold it_state in *. rewrite Hr1. congruence. }
      rewrite Hrun. cbn [res_bind]. eexists _, _. split; [reflexivity|]. rewrite Hcons by done. rewrite Hrl, Hm2 in Hs. rewrite Hm.
      destruct Hs as [[? ->]|[? ?]]; [left; auto|right; split; [done|lia]].
Qed.

(** What a receiver still waits for: its empty slots, and the hashmap segments
    it has not seen. *)
Definition to_come (o : OutboundResource) (t : InboundTransfer) : nat :=
  (length (filter (λ p, p = None) (i_parts (it_resource t))) +
   (length (o_parts o) - length (i_map_hashes (it_resource t)) + 73) / STRIDE)%nat.

(** The polls of a run that were not idle: the watchdog's requests and its
    giving up. *)
Definition retried (e : receiver_event) (a : TransferAction) : nat :=
  match e with EvPoll => if is_idle a then 0 else 1 | _ => 0 end.

Fixpoint retries (events : list (receiver_event * Z)) (acts : list TransferAction) : nat :=
  match events, acts with
  | (e, _) :: events, a :: acts => retried e a + retries events acts
  | _, _ => 0
  end.

(** The polls left before the receiver fails, if nothing new arrives. *)
Definition spare (t : InboundTransfer) : nat :=
  if decide (it_state t = RTransferring) then S (retries_left (it_control t)) else 0.

Lemma spare_le o t : it_ok o t → (spare t ≤ S MAX_RETRIES)%nat.
Proof. intros Hok. unfold spare. pose proof (tt_retries _ _ Hok). case_decide; lia. Qed.

Lemma to_come_le o t : it_ok o t →
  (to_come o t ≤ length (o_parts o) + (length (o_parts o) + 73) / STRIDE)%nat.
Proof.
  intros Hok. unfold to_come. pose proof (length_filter (λ p : option bytes, p = None) (i_parts (it_resource t))) as Hl.
  rewrite (ik_length _ (tk_ok _ _ (tt_tracks _ _ Hok))), (tk_total _ _ (tt_tracks _ _ Hok)) in Hl.
  assert ((length (o_parts o) - length (i_map_hashes (it_resource t)) + 73) / STRIDE ≤ (length (o_parts o) + 73) / STRIDE)%nat
    by (apply Nat.Div0.div_le_mono; lia). lia.
Qed.

Lemma request_keeps {E} o t now : it_ok o t → ∃ t' a, request_next t now = @Ok E _ (t', a) ∧
  it_ok o t' ∧ to_come o t' = to_come o t ∧ spare t' = spare t.
Proof.
  intros Hok. destruct (request_next_spec (E:=E) o t now Hok) as [[He _]|(t1 & He & Hok1 & _ & _ & _ & Hr & _ & Hrl & _)].
  - by exists t, ANone.
  - exists t1. eexists. unfold to_come, spare, it_state. rewrite Hr, Hrl. by split_and!.
Qed.

(** A new segment is one less to come. *)
Lemma segment_less n m k : (m = STRIDE * k)%nat → (m < n)%nat →
  S ((n - Nat.min (STRIDE * (k + 1)) n + 73) / STRIDE) = ((n - m + 73) / STRIDE)%nat.
Proof.
  intros -> Hlt. destruct (decide (STRIDE * (k + 1) ≤ n)%nat) as [Hle|Hgt].
  - rewrite Nat.min_l by done. replace (n - STRIDE * k + 73)%nat with (n - STRIDE * (k + 1) + 73 + 1 * STRIDE)%nat by lia.
    rewrite Nat.div_add by lia. lia.
  - rewrite Nat.min_r, Nat.sub_diag by lia. change ((0 + 73) / STRIDE)%nat with 0%nat.
    apply (Nat.div_unique _ _ 1 (n - STRIDE * k - 1)); lia.
Qed.

(** What an event does to the budget: a poll that is not idle uses up a retry,
    and only what is new refills them. *)
Definition spends {E} o t (e : receiver_event) (m : res E (InboundTransfer * TransferAction)) : Prop :=
  ∃ t' a, m = Ok (t', a) ∧ it_ok o t' ∧ (to_come o t' ≤ to_come o t)%nat ∧
    (retried e a + spare t' + S MAX_RETRIES * to_come o t' ≤ spare t + S MAX_RETRIES * to_come o t)%nat.

Lemma spends_idle {E} o t e : it_ok o t → spends (E:=E) o t e (Ok (t, ANone)).
Proof. intros Hok. exists t, ANone. split_and!; [done|done|done|]. destruct e; cbn; lia. Qed.

(** Progress, whatever is requested then. *)
Lemma spends_progress {E} o t t' e a : retried e a = 0%nat → it_ok o t' → it_state t = RTransferring →
  (to_come o t' < to_come o t)%nat → spends (E:=E) o t e (Ok (t', a)).
Proof.
  intros He Hok Hst Hlt. exists t', a. split_and!; [done|done|lia|]. rewrite He. pose proof (spare_le o t' Hok).
  unfold spare at 2. rewrite decide_True by done. unfold MAX_RETRIES in *. lia.
Qed.

Lemma part_spends {E} o t i now : good_sender o → it_ok o t → spends (E:=E) o t (EvPart i) (it_event o t (EvPart i) now).
Proof.
  intros [Hs _ _] Hok. cbn [it_event]. unfold get_part. destruct (o_parts o !! i) as [p|] eqn:Hp; [|by apply spends_idle].
  destruct (it_receive_part_spec (E:=E) o t p now Hs Hok) as [[-> _]|(Hst & j & n & _ & Hj & _ & _ & Hc)];
    [by eapply list_elem_of_lookup_2|by apply spends_idle|]. cbv zeta in Hc.
  assert (Hless : ∀ r, i_parts r = <[j := Some p]> (i_parts (it_resource t)) → i_map_hashes r = i_map_hashes (it_resource t) →
    ∀ t', it_resource t' = r → (to_come o t' < to_come o t)%nat).
  { intros r H1 H2 t' Hr. unfold to_come. rewrite Hr, H1, H2. pose proof (filled_less _ j p Hj). lia. }
  destruct (in_is_complete _).
  { destruct Hc as (t' & -> & Hok' & Hr). apply spends_progress; [done..|]. apply (Hless (it_resource t')); by rewrite ?Hr. }
  destruct (decide _).
  - destruct Hc as (t2 & w & -> & Hok2 & Hr & _). destruct (request_keeps (E:=E) o t2 now Hok2) as (t' & a & -> & Hok' & Ht & _).
    apply spends_progress; [done..|]. rewrite Ht.
    apply (Hless (it_resource t2)); by rewrite ?Hr.
  - destruct Hc as (t' & -> & Hok' & Hr & _). apply spends_progress; [done..|].
    apply (Hless (it_resource t')); by rewrite ?Hr.
Qed.

Lemma segment_spends {E} o t s now : good_sender o → it_ok o t → spends (E:=E) o t (EvHmu s) (it_event o t (EvHmu s) now).
Proof.
  intros [Hs _ _] Hok. cbn [it_event]. case_decide as Hlt; [|by apply spends_idle]. unfold out_num_parts in *.
  rewrite segment_bytes by done. rewrite (hashmap_update_spec (E:=E) o t s now Hs Hok Hlt).
  destruct (bool_decide (it_state t = _)) eqn:Hst; [apply bool_decide_eq_true in Hst|by apply spends_idle].
  destruct (waiting_for_hmu _); cbn [andb]; [|by apply spends_idle].
  case_bool_decide.
  { eexists _, _. split; [reflexivity|]. split; [by apply it_ok_failed|]. split; [done|].
    change (0 + 0 + S MAX_RETRIES * to_come o t ≤ spare t + S MAX_RETRIES * to_come o t)%nat. lia. }
  case_bool_decide as HM; [|by apply spends_idle].
  assert (Hl : (length (i_map_hashes (it_resource t)) + length (segment_entries o s))%nat = Nat.min (STRIDE * (s + 1)) (length (o_parts o)))
    by (rewrite segment_length by done; lia).
  assert (Hx : it_ok o (extended o t s now)) by (by apply extended_ok).
  destruct (request_keeps (E:=E) o _ now Hx) as (t' & a & -> & Hok' & Ht & _). apply spends_progress; [done..|].
  rewrite Ht. unfold to_come. cbn [extended it_resource in_hashes i_map_hashes i_parts]. rewrite length_app, Hl.
  pose proof (segment_less (length (o_parts o)) _ s HM ltac:(lia)). lia.
Qed.

Lemma poll_spends {E} o t now : it_ok o t → spends (E:=E) o t EvPoll (it_event o t EvPoll now).
Proof.
  intros Hok. cbn [it_event]. destruct (it_check_timeout_spec (E:=E) o t now Hok) as
    [(t' & -> & Hok' & Hr & Hc)|[(Hst & _ & Hz & t' & -> & Hok' & Hr)|(Hst & _ & t2 & m & Hm & -> & Hok2 & Hr & _ & Hm2)]].
  - exists t', ANone. unfold to_come, spare, it_state. rewrite Hr, Hc. split_and!; [done|done|done|]. cbn. lia.
  - eexists t', _. assert (He : to_come o t' = to_come o t) by (unfold to_come; by rewrite Hr).
    assert (spare t' = 0%nat) as Hz' by (unfold spare, it_state; by rewrite Hr).
    assert (spare t = 1%nat) as Hz2 by (unfold spare; by rewrite Hst, Hz).
    split_and!; [done|done|lia|]. rewrite He, Hz', Hz2. cbn [retried is_idle]. lia.
  - destruct (request_keeps (E:=E) o t2 now Hok2) as (t' & a & -> & Hok' & Ht & Hsp). exists t', a.
    assert (He : to_come o t2 = to_come o t) by (unfold to_come; by rewrite Hr).
    assert (Hsp2 : S (spare t2) = spare t).
    { unfold spare, it_state in *. rewrite Hr. cbn [in_window i_state]. rewrite !decide_True by done. lia. }
    split_and!; [done|done|lia|]. assert (retried EvPoll a ≤ 1)%nat by (cbn; by destruct (is_idle a); lia).
    rewrite Ht, He, Hsp. lia.
Qed.

Lemma event_spends {E} o t e now : good_sender o → it_ok o t → spends (E:=E) o t e (it_event o t e now).
Proof.
  intros Hg Hok. destruct e as [i|s| |]; [by apply part_spends|by apply segment_spends|by apply poll_spends|].
  destruct (request_keeps (E:=E) o t now Hok) as (t' & a & He & Hok' & Ht & Hsp). exists t', a.
  cbn [it_event]. split_and!; [done|done|lia|]. cbn. rewrite Ht, Hsp. lia.
Qed.

Lemma run_spends {E} o events : good_sender o → ∀ t, it_ok o t →
  ∃ t' acts, it_run o t events = @Ok E _ (t', acts) ∧ (to_come o t' ≤ to_come o t)%nat ∧
    (retries events acts + spare t' + S MAX_RETRIES * to_come o t' ≤ spare t + S MAX_RETRIES * to_come o t)%nat.
Proof.
  intros Hg. induction events as [|[e now] events IH]; intros t Hok; cbn [it_run]; [by exists t, []|].
  destruct (event_spends (E:=E) o t e now Hg Hok) as (t1 & a & He & Hok1 & Hle & Hs). rewrite He. cbn [res_bind].
  destruct (IH t1 Hok1) as (t' & acts & -> & Hle' & Hs'). cbn [res_bind]. exists t', (a :: acts).
  split; [done|]. split; [lia|]. cbn [retries]. lia.
Qed.

(** The sender ticked at some times, nothing else happening. *)
Fixpoint ticks (s : OutboundTransfer) (times : list Z) : OutboundTransfer * list TransferAction :=
  match times with
  | [] => (s, [])
  | now :: times => let '(s, a) := tick s now in let '(s, acts) := ticks s times in (s, a :: acts)
  end.

Definition is_advertisement (a : TransferAction) : bool := match a with SendAdvertisement _ => true | _ => false end.
Definition advertisements (acts : list TransferAction) : nat := length (filter is_advertisement acts).

(** Advertisements the sender may still emit when nothing is requested. *)
Definition adverts_left (s : OutboundTransfer) : nat :=
  if failed_state (ot_state s) then 0 else
  if advertised (ot_clock s) then MAX_ADV_RETRIES - s_retries (ot_clock s)
  else S (MAX_ADV_RETRIES - s_retries (ot_clock s)).

Lemma tick_spends s now : let '(s', a) := tick s now in
  (adverts_left s' + (if is_advertisement a then 1 else 0) ≤ adverts_left s)%nat ∧
  (failed_state (ot_state s) = true → s' = s ∧ a = AFailed TransferFailed) ∧
  (∀ why, a = AFailed why → failed_state (ot_state s') = true).
Proof.
  unfold tick. destruct (decide (ot_state s = RComplete)) as [Hc|Hc].
  { rewrite Hc. cbn. split_and!; [lia|done|done]. }
  destruct (failed_state (ot_state s)) eqn:Hf; [cbn; split_and!; [lia|done|done]|].
  destruct (advertised (ot_clock s)) eqn:Ha.
  - unfold ot_check_timeout. rewrite Hf. unfold adverts_left at 2. rewrite Hf, Ha.
    destruct (ot_state s) eqn:Hst; try done; repeat case_match; simplify_eq; cbn; unfold adverts_left, ot_state in *; cbn in *;
      rewrite ?Hst, ?Ha in *; cbn; split_and!; try done; unfold MAX_ADV_RETRIES in *; lia.
  - unfold adverts_left at 2. rewrite Hf, Ha. destruct (create_advertisement s); cbn; unfold adverts_left; cbn; rewrite ?Hf, ?Ha;
      split_and!; try done; lia.
Qed.

Lemma ticks_spend times : ∀ s, let '(s', acts) := ticks s times in
  (advertisements acts ≤ adverts_left s)%nat ∧
  (failed_state (ot_state s) = true → s' = s ∧ acts = replicate (length times) (AFailed TransferFailed)).
Proof.
  induction times as [|now times IH]; intros s; cbn [ticks]; [split; [cbn; lia|done]|].
  pose proof (tick_spends s now) as Ht. destruct (tick s now) as [s1 a]. destruct Ht as (Hl & Hf & _).
  specialize (IH s1). destruct (ticks s1 times) as [s2 acts]. destruct IH as [Hn Hs]. split.
  - unfold advertisements in *. destruct (is_advertisement a) eqn:Ha.
    + rewrite filter_cons_True by (by rewrite Ha). cbn. lia.
    + rewrite filter_cons_False by (rewrite Ha; tauto). lia.
  - intros Hx. destruct (Hf Hx) as [-> ->]. destruct (Hs Hx) as [-> ->]. done.
Qed.

(** C29.  Neither end retries for ever.  Whatever of the resource reaches a
    receiver, however often and in whatever order, its watchdog acts at most
    seventeen times (sixteen requests and giving up) per new part or new
    hashmap segment and seventeen times more; repeated parts and segments refill
    nothing, and there are no more new ones than parts and segments of the
    resource.  If nothing at all arrives it spends at most the retries it has
    left and is failed exactly when it has spent them and one more; a failed
    receiver ignores every event.  A sender nobody answers emits at most five
    advertisements, and once it failed every tick says so and changes
    nothing. *)
Theorem transfer_gives_up {E} o t events times s rtt t0 more :
  good_sender o → it_ok o t → it_state t = RTransferring →
  let '(s', acts') := ticks (from_prebuilt s rtt t0) more in
  (∃ t' acts, it_run o t events = @Ok E _ (t', acts) ∧ (to_come o t' ≤ to_come o t)%nat ∧
    (to_come o t ≤ length (o_parts o) + (length (o_parts o) + 73) / STRIDE)%nat ∧
    (retries events acts ≤ S MAX_RETRIES * S (to_come o t - to_come o t'))%nat) ∧
  (∃ t' acts, it_run o t (polls times) = @Ok E _ (t', acts) ∧ (spent acts ≤ S (retries_left (it_control t)) ≤ S MAX_RETRIES)%nat ∧
    (it_state t' = RFailed ↔ spent acts = S (retries_left (it_control t))) ∧
    (it_state t' = RFailed → it_run o t' events = @Ok E _ (t', replicate (length events) ANone))) ∧
  (advertisements acts' ≤ S MAX_ADV_RETRIES)%nat ∧
  (failed_state (ot_state s') = true → ticks s' times = (s', replicate (length times) (AFailed TransferFailed))).
Proof.
  intros Hg Hok Hst. pose proof (ticks_spend more (from_prebuilt s rtt t0)) as Hts.
  destruct (ticks (from_prebuilt s rtt t0) more) as [s' acts']. destruct Hts as [Hn _]. split; [|split; [|split]].
  - destruct (run_spends (E:=E) o events Hg t Hok) as (t' & acts & Hr & Hle & Hs). pose proof (spare_le o t Hok).
    exists t', acts. split_and!; [done|done|by apply to_come_le|]. unfold MAX_RETRIES in *. lia.
  - destruct (polls_spend (E:=E) o times Hg t Hok) as (t' & acts & Hr & Hs); [congruence|].
    pose proof (tt_retries _ _ Hok) as Hm. exists t', acts.
    split_and!; try done; [..|apply failed_silent]; destruct Hs as [[? ?]|[? ?]]; try lia; split; intros; try done; lia.
  - etrans; [exact Hn|]. unfold adverts_left. cbn [from_prebuilt from_resource ot_clock advertised s_retries]. case_match; lia.
  - intros Hf. pose proof (ticks_spend times s') as Hx. destruct (ticks s' times) as [s2 acts2].
    destruct Hx as [_ Hx]. destruct (Hx Hf) as [-> ->]. done.
Qed.
End giving_up.

(** ** Witnesses *)

#[local] Existing Instance toy_digest.
#[local] Existing Instance toy_bzip2.

(** Seventy bytes in parts of thirty-two, with a two-byte metadata record. *)
Definition demo_transfer_payload : bytes := Z.of_nat <$> seq 1 70.
Definition demo_nonce (_ : nat) : bytes := [9; 8; 7; 6].

Lemma demo_setup : transfer_setup demo_transfer_payload (Some [7; 8]) (Some 32%nat) None None demo_nonce.
Proof.
  split; [by vm_compute|cbn; lia|intros k|done]. split; [done|]. unfold bytes_ok, demo_nonce. repeat constructor; done.
Qed.

Definition demo_built : bool :=
  match with_options demo_transfer_payload false (Some [7; 8]) (Some 32%nat) None demo_nonce with
  | Ok o => bool_decide (NoDup (o_map_hashes o)) && Nat.eqb (out_num_parts o) 3
  | _ => false
  end.

Lemma demo_sender : ∃ o, with_options demo_transfer_payload false (Some [7; 8]) (Some 32%nat) None demo_nonce = Ok o ∧
  NoDup (o_map_hashes o) ∧ out_num_parts o = 3%nat.
Proof.
  assert (Hb : demo_built = true) by (vm_compute; reflexivity). unfold demo_built in Hb.
  destruct (with_options _ _ _ _ _ _) as [o|e|]; [|done..]. apply andb_true_iff in Hb as [H1 H2].
  exists o. split_and!; [done|by apply bool_decide_eq_true in H1|by apply Nat.eqb_eq].
Qed.

Lemma transfer_completes_witness : ∃ o s t, out_num_parts o = 3%nat ∧
  exchange o None 0 0 (λ n, Z.of_nat n) = Ok (s, t, demo_transfer_payload, true) ∧ i_metadata (it_resource t) = Some [7; 8].
Proof.
  destruct demo_sender as (o & Ho & Hn & H3).
  destruct (transfer_completes demo_transfer_payload false (Some [7; 8]) (Some 32%nat) None None demo_nonce o 0 0 (λ n, Z.of_nat n)
    demo_setup Ho Hn) as (s & t & He & _ & _ & Hm). exists o, s, t. split_and!; [done|done|by apply Hm].
Defined.

(** Parts out of order and repeated, with polls in between. *)
Definition demo_events : list (receiver_event * Z) :=
  [(EvAsk, 1); (EvPart 2, 2); (EvPart 2, 3); (EvPoll, 4); (EvPart 0, 5); (EvHmu 0, 6); (EvPart 1, 7)].

Lemma transfer_safe_witness : ∃ o t0 t acts, out_num_parts o = 3%nat ∧ it_run o t0 demo_events = @Ok ResourceError _ (t, acts) ∧
  Forall action_fits acts.
Proof.
  destruct demo_sender as (o & Ho & Hn & H3).
  destruct (setup_advertised demo_transfer_payload false (Some [7; 8]) (Some 32%nat) None None demo_nonce o 0 0 0 demo_setup Ho Hn)
    as (s & t0 & Ht & _ & _ & Hu & Ha & _).
  destruct (transfer_safe demo_transfer_payload false (Some [7; 8]) (Some 32%nat) None None demo_nonce o 0 0 0 s _ _ t0 demo_events
    demo_setup Ho Hn Ht Hu Ha) as (t & acts & Hr & Hf & _).
  by exists o, t0, t, acts.
Defined.

(** Three parts: a repeated one between polls, then silence. *)
Lemma transfer_gives_up_witness : ∃ o t t' acts, out_num_parts o = 3%nat ∧
  it_run o t (demo_events ++ polls [10 ^ 12; 2 * 10 ^ 12]) = @Ok ResourceError _ (t', acts) ∧
  (retries (demo_events ++ polls [10 ^ 12; 2 * 10 ^ 12]%Z) acts ≤ S MAX_RETRIES * S (to_come o t - to_come o t'))%nat.
Proof.
  destruct demo_sender as (o & Ho & Hn & H3).
  destruct (setup_advertised demo_transfer_payload false (Some [7; 8]) (Some 32%nat) None None demo_nonce o 0 0 0 demo_setup Ho Hn)
    as (s & t & _ & _ & _ & _ & _ & Hg & Hok & Hst & _).
  pose proof (transfer_gives_up (E:=ResourceError) o t (demo_events ++ polls [10 ^ 12; 2 * 10 ^ 12]) [] o 0 0 [0; 10 ^ 12] Hg Hok Hst) as Hx.
  destruct (ticks _ _) as [s' acts']. destruct Hx as [(t' & acts & Hr & _ & _ & Hs) _]. by exists o, t, t', acts.
Defined.
