(* ===== verification/RateLimit.v ===== *)
(** * Announce rate limiting

    Models [rns-transport/src/rate_limit.rs].  The violation counter is a
    [u32]; its increment panics on overflow as in a checked build.  [powi] on
    [2.0] is the exact power of two. *)

From S2P Require Import Prelude F64 Table.
From stdpp Require Import prelude list gmap.
From Stdlib Require Import SpecFloat.

Open Scope Z_scope.

Definition MAX_RATE_TIMESTAMPS : nat := 16.
Definition RATE_VIOLATION_THRESHOLD : f64 := f_of_Z 1.
Definition RATE_VIOLATIONS_BEFORE_PENALTY : Z := 3.
Definition RATE_PENALTY_BASE : f64 := f_of_Z 60.
Definition RATE_PENALTY_MAX : f64 := f_of_Z 3600.

(** [f64::MAX] *)
Definition F64_MAX : f64 := S754_finite false 9007199254740991 971.

(** [2.0_f64.powi(n)] *)
Definition pow2 (n : Z) : f64 := binary_normalize 53 1024 1 n false.

(** [n as i32] for a [u32]. *)
Definition as_i32 (n : Z) : Z := if n <? 2 ^ 31 then n else n - 2 ^ 32.

Record RateEntry := {
  timestamps : list f64;
  rate : f64;
  last : f64;
  violations : Z;
  blocked_until : f64;
}.

Record RateTable := { entries : gmap bytes RateEntry }.

Definition rate_table_new : RateTable := {| entries := ∅ |}.

Definition fresh_entry : RateEntry :=
  {| timestamps := []; rate := f_zero; last := f_zero; violations := 0; blocked_until := f_zero |}.

(** [violations += 1] *)
Definition incr_violations {E} (v : Z) : res E Z := if v + 1 <? 2 ^ 32 then Ok (v + 1) else Panic.

(** Drop the oldest samples beyond the limit. *)
Definition trim (ts : list f64) : list f64 := drop (length ts - MAX_RATE_TIMESTAMPS) ts.

(** The rate over the window, when its span is positive. *)
Definition window_rate (ts : list f64) (old : f64) : f64 :=
  match ts with
  | first :: _ :: _ =>
      let span := f_sub (List.last ts f_zero) first in
      if f_gt span f_zero then f_div (f_of_Z (len ts - 1)) span else old
  | _ => old
  end.

Definition penalty (v : Z) : f64 :=
  f_min (f_mul RATE_PENALTY_BASE (pow2 (as_i32 (v - RATE_VIOLATIONS_BEFORE_PENALTY)))) RATE_PENALTY_MAX.

(** [record] on one entry. *)
Definition record_entry {E} (e : RateEntry) (now : f64) : res E (RateEntry * f64) :=
  if f_gt (blocked_until e) now then Ok (e, F64_MAX) else
  let ts := trim (timestamps e ++ [now]) in
  let r := window_rate ts (rate e) in
  let* '(v, b) :=
    if f_gt r RATE_VIOLATION_THRESHOLD then
      let* v := incr_violations (violations e) in
      Ok (v, if RATE_VIOLATIONS_BEFORE_PENALTY <=? v then f_add now (penalty v) else blocked_until e)
    else Ok (violations e, blocked_until e) in
  Ok ({| timestamps := ts; rate := r; last := now; violations := v; blocked_until := b |}, r).

Definition record {E} (t : RateTable) (h : bytes) (now : f64) : res E (RateTable * f64) :=
  let* '(e, r) := record_entry (default fresh_entry (entries t !! h)) now in
  Ok ({| entries := <[h := e]> (entries t) |}, r).

Definition is_blocked (t : RateTable) (h : bytes) (now : f64) : bool :=
  match entries t !! h with Some e => f_gt (blocked_until e) now | None => false end.

Definition get_rate (t : RateTable) (h : bytes) : f64 :=
  match entries t !! h with Some e => rate e | None => f_zero end.

Definition last_announce (t : RateTable) (h : bytes) : option f64 := last <$> entries t !! h.

Definition rate_table_len (t : RateTable) : nat := size (entries t).

Definition cull (t : RateTable) (cutoff : f64) : RateTable :=
  {| entries := retain (λ _ e, f_gt (last e) cutoff) (entries t) |}.

(** [while len > MAX { remove(0) }] *)
Fixpoint trim_loop (fuel : nat) (ts : list f64) : list f64 :=
  match fuel with
  | O => ts
  | S fuel' => if decide (MAX_RATE_TIMESTAMPS < length ts)%nat then trim_loop fuel' (tail ts) else ts
  end.

(** [check_interface_rate] on an existing entry. *)
Definition check_entry {E} (e : RateEntry) (target : f64) (grace : Z) (pen : f64) (now : f64) : res E (RateEntry * bool) :=
  if f_le now (blocked_until e) then Ok (e, true) else
  let ts := timestamps e ++ [now] in
  let ts := trim_loop (length ts) ts in
  let current_rate := f_sub now (last e) in
  let* v := if f_lt current_rate target then incr_violations (violations e)
            else Ok (Z.max 0 (violations e - 1)) in
  if grace <? v then
    Ok ({| timestamps := ts; rate := rate e; last := last e; violations := v;
           blocked_until := f_add (f_add (last e) target) pen |}, true)
  else
    Ok ({| timestamps := ts; rate := rate e; last := now; violations := v; blocked_until := blocked_until e |}, false).

Definition check_interface_rate {E} (t : RateTable) (h : bytes) (target : f64) (grace : Z) (pen : f64) (now : f64)
  : res E (RateTable * bool) :=
  match entries t !! h with
  | Some e =>
      let* '(e', b) := check_entry e target grace pen now in
      Ok ({| entries := <[h := e']> (entries t) |}, b)
  | None =>
      Ok ({| entries := <[h := {| timestamps := [now]; rate := f_zero; last := now; violations := 0;
                                  blocked_until := f_zero |}]> (entries t) |}, false)
  end.

(** ** Properties *)

(** The sample window is bounded and the counter is a [u32]. *)
Definition rate_entry_ok (e : RateEntry) : Prop :=
  (length (timestamps e) ≤ MAX_RATE_TIMESTAMPS)%nat ∧ u32 (violations e).

Definition rate_table_ok (t : RateTable) : Prop := map_Forall (λ _ e, rate_entry_ok e) (entries t).

Lemma trim_length ts : (length (trim ts) ≤ MAX_RATE_TIMESTAMPS)%nat.
Proof. unfold trim. rewrite length_drop. lia. Qed.

Lemma trim_loop_eq fuel ts : (length ts ≤ MAX_RATE_TIMESTAMPS + fuel)%nat → trim_loop fuel ts = trim ts.
Proof.
  revert ts. induction fuel as [|fuel IH]; intros ts Hl; cbn [trim_loop].
  - unfold trim. by replace (length ts - MAX_RATE_TIMESTAMPS)%nat with 0%nat by lia.
  - case_decide as H.
    + destruct ts as [|x ts]; [cbn [length] in H; lia|]. simpl tail. rewrite IH by (cbn [length] in Hl; lia).
      unfold trim. simpl length. replace (S (length ts) - MAX_RATE_TIMESTAMPS)%nat
        with (S (length ts - MAX_RATE_TIMESTAMPS)) by (cbn [length] in H; lia). done.
    + unfold trim. by replace (length ts - MAX_RATE_TIMESTAMPS)%nat with 0%nat by lia.
Qed.

Lemma incr_cases {E} v : u32 v →
  (@incr_violations E v = Ok (v + 1) ∧ u32 (v + 1)) ∨ (@incr_violations E v = Panic ∧ v = 2 ^ 32 - 1).
Proof.
  unfold u32, incr_violations. change (2 ^ 32) with 4294967296. intros Hv. destruct (Z.ltb_spec (v + 1) 4294967296); [left|right]; (split; [done|lia]).
Qed.

(** Every penalty is at most an hour. *)
Lemma penalty_bounded v : f_le (penalty v) RATE_PENALTY_MAX = true.
Proof. apply f_min_le. reflexivity. Qed.

(** Recording announces: while a destination is blocked the call reports
    the maximal rate and changes nothing; otherwise the sample is taken, at
    most 16 samples are kept (the latest), the reported rate is the stored
    one, the violation count rises exactly when that rate exceeds one
    announce per second, and from the third violation on a penalty of at most
    an hour, growing as 60 * 2^(violations - 3), starts now.  The only
    failure is the overflow of the 32-bit violation counter, and no other
    destination is affected. *)
Theorem rate_record_exact t h now h' :
  rate_table_ok t → h' ≠ h →
  let e := default fresh_entry (entries t !! h) in
  match @record Empty_set t h now with
  | Ok (t', r) => rate_table_ok t' ∧ entries t' !! h' = entries t !! h' ∧
      (if f_gt (blocked_until e) now then r = F64_MAX ∧ entries t' !! h = Some e else
       ∃ e', entries t' !! h = Some e' ∧ r = rate e' ∧ last e' = now ∧
         timestamps e' = trim (timestamps e ++ [now]) ∧
         (if f_gt r RATE_VIOLATION_THRESHOLD then violations e' = violations e + 1 else violations e' = violations e) ∧
         (if f_gt r RATE_VIOLATION_THRESHOLD && (3 <=? violations e')
          then blocked_until e' = f_add now (penalty (violations e')) ∧
               f_le (penalty (violations e')) RATE_PENALTY_MAX = true
          else blocked_until e' = blocked_until e))
  | Err _ => False
  | Panic => violations e = 2 ^ 32 - 1
  end.
Proof.
  intros Hok Hne e.
  assert (He : rate_entry_ok e).
  { unfold e. destruct (entries t !! h) as [e0|] eqn:H0; simpl; [by apply (Hok h)|]. split; simpl; [lia|unfold u32; simpl; lia]. }
  destruct He as [Hlen Hv]. unfold record. fold e. unfold record_entry.
  assert (Hins : ∀ x, rate_entry_ok x → rate_table_ok {| entries := <[h := x]> (entries t) |}).
  { intros x Hx. by apply map_Forall_insert_2. }
  destruct (f_gt (blocked_until e) now) eqn:Hb.
  - cbn [res_bind]. cbn [entries]. split_and!; [by apply Hins|by rewrite lookup_insert_ne|done|by rewrite lookup_insert_eq].
  - cbv zeta. set (ts := trim (timestamps e ++ [now])). set (r := window_rate ts (rate e)).
    assert (Hts : (length ts ≤ MAX_RATE_TIMESTAMPS)%nat) by apply trim_length.
    destruct (f_gt r RATE_VIOLATION_THRESHOLD) eqn:Hr.
    + destruct (incr_cases (E:=Empty_set) (violations e) Hv) as [[-> Hv']|[-> ->]]; cbn [res_bind]; [|done].
      cbn [entries]. split_and!; [by apply Hins|by rewrite lookup_insert_ne|].
      eexists. rewrite lookup_insert_eq. split; [done|]. cbn [rate last timestamps violations blocked_until]. rewrite Hr. cbn [andb].
      unfold RATE_VIOLATIONS_BEFORE_PENALTY. destruct (3 <=? violations e + 1); split_and!; try done. apply penalty_bounded.
    + cbn [res_bind entries]. split_and!; [by apply Hins|by rewrite lookup_insert_ne|].
      eexists. rewrite lookup_insert_eq. split; [done|]. cbn [rate last timestamps violations blocked_until]. rewrite Hr. by split_and!.
Qed.

Lemma rate_record_exact_witness :
  rate_table_ok rate_table_new ∧
  match @record Empty_set rate_table_new [1] (f_of_Z 5) with Ok (t', r) => rate_table_ok t' | _ => False end.
Proof.
  assert (Hok : rate_table_ok rate_table_new) by (intros k e He; discriminate).
  split; [exact Hok|].
  exact (proj1 (rate_record_exact rate_table_new [1] (f_of_Z 5) [2] Hok ltac:(discriminate))).
Defined.

(** Interface rate limiting: a first announce is never suppressed; an
    announce inside the penalty is suppressed without being recorded;
    otherwise too short an interval adds a violation and a long enough one
    forgives one, the announce is suppressed exactly when the violations
    exceed the grace count, and the penalty then ends at the last accepted
    announce plus target and penalty, leaving that anchor in place.  At most
    16 samples are kept. *)
Theorem interface_rate_exact t h target grace pen now :
  rate_table_ok t →
  match @check_interface_rate Empty_set t h target grace pen now, entries t !! h with
  | Ok (t', b), None => rate_table_ok t' ∧ b = false ∧ last_announce t' h = Some now
  | Ok (t', b), Some e => rate_table_ok t' ∧
      (if f_le now (blocked_until e) then b = true ∧ entries t' !! h = Some e else
       ∃ e', entries t' !! h = Some e' ∧ timestamps e' = trim (timestamps e ++ [now]) ∧ rate e' = rate e ∧
         (if f_lt (f_sub now (last e)) target then violations e' = violations e + 1
          else violations e' = Z.max 0 (violations e - 1)) ∧
         b = (grace <? violations e') ∧
         if b then last e' = last e ∧ blocked_until e' = f_add (f_add (last e) target) pen
         else last e' = now ∧ blocked_until e' = blocked_until e)
  | Panic, Some e => violations e = 2 ^ 32 - 1
  | _, _ => False
  end.
Proof.
  intros Hok. unfold check_interface_rate.
  assert (Hins : ∀ x, rate_entry_ok x → rate_table_ok {| entries := <[h := x]> (entries t) |}).
  { intros x Hx. by apply map_Forall_insert_2. }
  destruct (entries t !! h) as [e|] eqn:He.
  2:{ unfold last_announce. cbn [entries]. rewrite lookup_insert_eq. split_and!; [|done|done].
      apply Hins. split; simpl; [unfold MAX_RATE_TIMESTAMPS; lia|unfold u32; simpl; lia]. }
  pose proof (Hok h e He) as [Hlen Hv]. unfold check_entry.
  destruct (f_le now (blocked_until e)) eqn:Hb.
  { cbn [res_bind entries]. rewrite lookup_insert_eq. split_and!; [by apply Hins|done|done]. }
  cbv zeta. rewrite trim_loop_eq by lia.
  assert (Hts := trim_length (timestamps e ++ [now])).
  assert (Hgo : ∀ v, u32 v →
    let '(e', b) := if grace <? v then
        ({| timestamps := trim (timestamps e ++ [now]); rate := rate e; last := last e; violations := v;
            blocked_until := f_add (f_add (last e) target) pen |}, true)
      else ({| timestamps := trim (timestamps e ++ [now]); rate := rate e; last := now; violations := v;
               blocked_until := blocked_until e |}, false) in
    rate_entry_ok e' ∧ violations e' = v ∧ timestamps e' = trim (timestamps e ++ [now]) ∧ rate e' = rate e ∧
    b = (grace <? v) ∧ if b then last e' = last e ∧ blocked_until e' = f_add (f_add (last e) target) pen
         else last e' = now ∧ blocked_until e' = blocked_until e).
  { intros v Hu. by destruct (grace <? v). }
  destruct (f_lt (f_sub now (last e)) target).
  - destruct (incr_cases (E:=Empty_set) (violations e) Hv) as [[-> Hv']|[-> ->]]; cbn [res_bind]; [|done].
    specialize (Hgo _ Hv'). destruct (grace <? violations e + 1) eqn:Hg; cbn [res_bind entries]; rewrite lookup_insert_eq;
      destruct Hgo as (H1 & H2 & H3 & H4 & H5 & H6); (split; [by apply Hins|]); eexists; (split; [done|]);
      cbn [rate last timestamps violations blocked_until]; rewrite ?Hg; split_and!; done.
  - assert (Hv' : u32 (Z.max 0 (violations e - 1))) by (unfold u32 in *; lia). cbn [res_bind].
    specialize (Hgo _ Hv'). destruct (grace <? Z.max 0 (violations e - 1)) eqn:Hg; cbn [res_bind entries]; rewrite lookup_insert_eq;
      destruct Hgo as (H1 & H2 & H3 & H4 & H5 & H6); (split; [by apply Hins|]); eexists; (split; [done|]);
      cbn [rate last timestamps violations blocked_until]; rewrite ?Hg; split_and!; done.
Qed.

Lemma interface_rate_exact_witness :
  rate_table_ok rate_table_new ∧
  match @check_interface_rate Empty_set rate_table_new [1] (f_of_Z 5) 3 (f_of_Z 10) (f_of_Z 7) with
  | Ok (t', b) => rate_table_ok t' ∧ b = false ∧ last_announce t' [1] = Some (f_of_Z 7)
  | _ => False
  end.
Proof.
  assert (Hok : rate_table_ok rate_table_new) by (intros k e He; discriminate).
  split; [exact Hok|].
  exact (interface_rate_exact rate_table_new [1] (f_of_Z 5) 3 (f_of_Z 10) (f_of_Z 7) Hok).
Defined.
