(* ===== verification/Blackhole.v ===== *)
(** * Blackhole table

    Models [rns-transport/src/blackhole.rs]: identities whose packets are
    dropped, with an optional lifetime. *)

From S2P Require Import Prelude F64 Table.
From stdpp Require Import prelude list gmap strings.
From Stdlib Require Import Ascii String.

Open Scope Z_scope.

Inductive BlackholeReason := Manual | Malformed | ReasonRateLimit | ProtocolViolation.
#[export] Instance BlackholeReason_eq_dec : EqDecision BlackholeReason.
Proof. solve_decision. Defined.

Definition as_str (r : BlackholeReason) : string :=
  match r with
  | Manual => "manual"
  | Malformed => "malformed"
  | ReasonRateLimit => "rate_limit"
  | ProtocolViolation => "protocol_violation"
  end.

(** [to_ascii_lowercase] *)
Definition lower_ascii (c : ascii) : ascii :=
  let n := N_of_ascii c in if (65 <=? n)%N && (n <=? 90)%N then ascii_of_N (n + 32) else c.
Fixpoint to_ascii_lowercase (s : string) : string :=
  match s with
  | EmptyString => EmptyString
  | String c s' => String (lower_ascii c) (to_ascii_lowercase s')
  end.

Definition parse (s : string) : BlackholeReason :=
  let l := to_ascii_lowercase s in
  if String.eqb l "malformed" then Malformed
  else if String.eqb l "rate_limit" || String.eqb l "ratelimit" then ReasonRateLimit
  else if String.eqb l "protocol_violation" || String.eqb l "protocolviolation" then ProtocolViolation
  else Manual.

Record BlackholeEntry := {
  created : f64;
  ttl : option f64;
  reason : BlackholeReason;
  reason_label : option string;
  source : option bytes;
}.

Definition reason_str (e : BlackholeEntry) : string :=
  match reason_label e with Some l => l | None => as_str (reason e) end.

Record BlackholeTable := { entries : gmap bytes BlackholeEntry }.

Definition blackhole_new : BlackholeTable := {| entries := ∅ |}.

Definition insert_entry (t : BlackholeTable) (h : bytes) (e : BlackholeEntry) : BlackholeTable :=
  {| entries := <[h := e]> (entries t) |}.

Definition add_with_reason (t : BlackholeTable) (h : bytes) (l : option f64) (r : BlackholeReason) (now : f64) : BlackholeTable :=
  insert_entry t h {| created := now; ttl := l; reason := r; reason_label := None; source := None |}.

Definition add (t : BlackholeTable) (h : bytes) (l : option f64) (now : f64) : BlackholeTable :=
  add_with_reason t h l Manual now.

Definition add_with_reason_label (t : BlackholeTable) (h : bytes) (l : option f64) (r : BlackholeReason)
    (label : option string) (now : f64) : BlackholeTable :=
  insert_entry t h {| created := now; ttl := l; reason := r; reason_label := label; source := None |}.

Definition add_from_source (t : BlackholeTable) (h : bytes) (l : option f64) (r : BlackholeReason)
    (src : bytes) (at_ : f64) : BlackholeTable :=
  insert_entry t h {| created := at_; ttl := l; reason := r; reason_label := None; source := Some src |}.

Definition is_blackholed (t : BlackholeTable) (h : bytes) (now : f64) : bool :=
  match entries t !! h with
  | Some e =>
      match ttl e with
      | Some l => f_lt (f_sub now (created e)) l
      | None => true
      end
  | None => false
  end.

Definition remove (t : BlackholeTable) (h : bytes) : BlackholeTable * bool :=
  ({| entries := delete h (entries t) |}, bool_decide (is_Some (entries t !! h))).

Definition cull_expired (t : BlackholeTable) (now : f64) : BlackholeTable * nat :=
  let m := retain (λ _ e, match ttl e with Some l => f_lt (f_sub now (created e)) l | None => true end) (entries t) in
  ({| entries := m |}, (size (entries t) - size m)%nat).

Definition clear_system_entries (t : BlackholeTable) : BlackholeTable * nat :=
  let m := retain (λ _ e, match reason e with Manual => true | _ => false end) (entries t) in
  ({| entries := m |}, (size (entries t) - size m)%nat).

(** ** Properties *)

(** The other letter case of a name. *)
Fixpoint to_upper (s : string) : string :=
  match s with
  | EmptyString => EmptyString
  | String c s' =>
      let n := N_of_ascii c in
      String (if (97 <=? n)%N && (n <=? 122)%N then ascii_of_N (n - 32) else c) (to_upper s')
  end.

(** Blackholing is consistent: an identity is blocked exactly when it
    has an entry that a cull at the same instant keeps, culling never changes
    which identities are blocked and never drops an entry without a lifetime,
    an entry added without a lifetime blocks until removed, clearing system
    entries removes exactly the non-manual ones, and every reason is read
    back from its stable name in any letter case. *)
Theorem blackhole_consistent t h now r l src at_ :
  (is_blackholed t h now = bool_decide (is_Some (entries (cull_expired t now).1 !! h))) ∧
  is_blackholed (cull_expired t now).1 h now = is_blackholed t h now ∧
  (∀ e, entries t !! h = Some e → ttl e = None → entries (cull_expired t now).1 !! h = Some e) ∧
  (size (entries t) = size (entries (cull_expired t now).1) + (cull_expired t now).2)%nat ∧
  is_blackholed (add_with_reason_label t h None r l at_) h now = true ∧
  is_blackholed (add_from_source t h None r src at_) h now = true ∧
  is_blackholed (remove t h).1 h now = false ∧
  (∀ e, entries (clear_system_entries t).1 !! h = Some e ↔ entries t !! h = Some e ∧ reason e = Manual) ∧
  parse (as_str r) = r ∧
  parse (to_upper (as_str r)) = r.
Proof.
  set (p := λ (_ : bytes) e, match ttl e with Some l => f_lt (f_sub now (created e)) l | None => true end).
  assert (Hc : ∀ e, retain p (entries t) !! h = Some e ↔ entries t !! h = Some e ∧ p h e = true) by (intros; apply retain_Some).
  assert (Hb : is_blackholed t h now = bool_decide (is_Some (retain p (entries t) !! h))).
  { unfold is_blackholed. destruct (entries t !! h) as [e|] eqn:He.
    - fold (p h e). destruct (p h e) eqn:Hp.
      + rewrite bool_decide_true; [done|]. exists e. by apply Hc.
      + rewrite bool_decide_false; [done|]. intros [e' [[= <-] Hp']%Hc]. congruence.
    - rewrite bool_decide_false; [done|]. intros [e' [? _]%Hc]. done. }
  pose proof (retain_size p (entries t)) as Hsz.
  unfold cull_expired. cbn [fst snd entries]. fold p. split_and!.
  - exact Hb.
  - rewrite Hb. unfold is_blackholed. cbn [entries]. destruct (retain p (entries t) !! h) as [e|] eqn:He.
    + destruct (proj1 (Hc e) eq_refl) as [_ Hp]. rewrite bool_decide_true by done. exact Hp.
    + rewrite bool_decide_false; [done|]. by intros [? ?].
  - intros e He Hl. apply Hc. split; [done|]. unfold p. by rewrite Hl.
  - lia.
  - unfold is_blackholed. cbn. by rewrite lookup_insert_eq.
  - unfold is_blackholed. cbn. by rewrite lookup_insert_eq.
  - unfold is_blackholed. cbn. by rewrite lookup_delete_eq.
  - intros e. unfold clear_system_entries. cbn [fst entries]. rewrite retain_Some. destruct (reason e); split; intros [? ?]; done.
  - by destruct r.
  - by destruct r.
Qed.
