(* ===== verification/Actor.v ===== *)
(** * The transport actor: state, interfaces and sends

    Models the state of [TransportActor] of [rns-transport/src/actor/mod.rs]
    that packet forwarding reads or writes, the interface entries of
    [messages.rs] and the operations the handlers share: interface roles and
    hop adjustment, packet metrics, sending on one and on all interfaces,
    deregistering an interface with the link endpoints bound to it
    ([actor/link_endpoint.rs]).

    The actor runs one message at a time.  What it reads from outside during a
    message is an [Env]: clocks and the iteration order of its hash maps.  The
    fields that only path requests, recovery, persistence and RPC use are left
    out of the state.  Channel senders are handles into
    a heap of channels, so that clones of one sender share its capacity; what
    leaves the actor otherwise is logged in [events]. *)

From S2P Require Import Prelude F64 Wire Packet LinkSignalling Receipt Ifac Table Hashlist PathTable.
From S2P Require Import ReverseTable LinkTable Ownership LinkTransit Tunnel Identity Announce Ingress RateLimit Blackhole.
From stdpp Require Import prelude list gmap fin_maps functions.

Open Scope Z_scope.

(** ** Bounded channels (tokio [mpsc])

    [try_send] never waits: it enqueues, or reports a full or a closed
    channel, which stays as it was (callers below keep the old state then).
    [accepted] is the sequence of values that have been enqueued. *)

Inductive TrySend := SendOk | SendFull | SendClosed.
#[export] Instance TrySend_eq_dec : EqDecision TrySend. Proof. solve_decision. Defined.

Class Mpsc := {
  chan : Type → Type;
  try_send : ∀ {A}, chan A → A → chan A * TrySend;
  chan_closed : ∀ {A}, chan A → bool;
  accepted : ∀ {A}, chan A → list A;
}.

Class MpscLaws (M : Mpsc) : Prop := {
  try_send_ok : ∀ A (c : chan A) x, (try_send c x).2 = SendOk → accepted (try_send c x).1 = accepted c ++ [x];
}.

(** ** Interfaces (messages.rs) *)

Inductive InterfaceRole := Normal | SharedServer | LocalClient | SharedInstancePeer.
#[export] Instance InterfaceRole_eq_dec : EqDecision InterfaceRole. Proof. solve_decision. Defined.

(** [if_entry] holds the owner, the capacity and the access code settings;
    [if_online] is the driver's flag as it stands when the message is handled. *)
Record Iface := mkIface {
  if_entry : InterfaceEntry;
  if_mode : InterfaceMode;
  if_role : InterfaceRole;
  if_outbound : bool;
  if_bitrate : Z;
  if_tx : nat;
  if_announce_rate_target : option f64;
  if_announce_rate_grace : option Z;
  if_announce_rate_penalty : option f64;
  if_online : option bool;
  if_tx_drops : Z;
  if_tx_dropped_bytes : Z;
  if_protocol_violations : Z;
  if_ifac_violations : Z;
  if_packet_filter_hits : Z;
  if_ingress : IngressController;
}.

Definition owner_id (o : InterfaceOwner) : InterfaceOwnerId :=
  {| epoch := owner_epoch o; LinkTable.revision := owner_revision o |}.

#[export] Instance InterfaceOwnerId_eq_dec : EqDecision InterfaceOwnerId. Proof. solve_decision. Defined.

Definition owner_matches (i : InterfaceOwnerId) (o : InterfaceOwner) : bool :=
  owner_current o && bool_decide (i = owner_id o).

Definition interface_marked_offline (e : Iface) : bool :=
  match if_online e with Some online => negb online | None => false end.

(** ** Events for destinations (link_messages.rs) *)

(** [f32] measurements are only copied: their bit patterns. *)
Record PacketMetrics := mkMetrics { rssi : option Z; snr : option Z; q : option Z }.

Definition no_metrics : PacketMetrics := mkMetrics None None None.

Inductive DestinationEvent :=
| EvInboundPacket (owner : option InterfaceOwnerId) (raw : bytes) (iface : Z) (m : PacketMetrics)
| EvLinkRequest (owner : option InterfaceOwnerId) (raw : bytes) (iface : Z) (m : PacketMetrics)
| EvDeliveryProof (msg_id : bytes) (rtt : option Z).

(** ** Link endpoints *)

Inductive LinkEndpointRole := Initiator | Responder.
#[export] Instance LinkEndpointRole_eq_dec : EqDecision LinkEndpointRole. Proof. solve_decision. Defined.
#[export] Instance LinkEndpointRole_countable : Countable LinkEndpointRole.
Proof.
  refine (inj_countable' (λ r, match r with Initiator => true | Responder => false end)
            (λ b, if b : bool then Initiator else Responder) _). by intros [].
Defined.

Abbreviation endpoint_key := (bytes * LinkEndpointRole)%type.

Record LinkEndpointBinding := mkBinding {
  b_owner : option InterfaceOwnerId;
  b_link_id : bytes;
  b_interface_id : Z;
  b_role : LinkEndpointRole;
}.
#[export] Instance LinkEndpointBinding_eq_dec : EqDecision LinkEndpointBinding. Proof. solve_decision. Defined.

Inductive TerminalReason :=
| Unbound | InterfaceRemoved | InterfaceClosed | InterfaceOffline | InterfaceNotOutbound
| EgressQueueExhausted | TransportShutdown.

Record LinkEndpointQueuedPacket := mkQueued { qp_raw : bytes; qp_completion : option nat }.

Record LinkEndpointEntry := mkEndpoint {
  ep_binding : LinkEndpointBinding;
  ep_generation : nat;
  ep_publication : option nat;
  ep_lifecycle : nat;
  ep_egress : list LinkEndpointQueuedPacket;
  ep_unbind_after_drain : bool;
}.

Inductive LinkEndpointSendResult :=
| EpSent | EpQueued (depth : Z) | DroppedBackpressure | NotBound | RoleMismatch | InvalidPacket
| Terminated (reason : TerminalReason).

Inductive LinkEndpointDispatchOutcome :=
| DispatchSent (packet_hash : bytes) (dispatched_at : Z)
| DispatchRejected (r : LinkEndpointSendResult)
| DispatchExpired
| DispatchCancelled.

(** What leaves the actor other than through channels. *)
Inductive ReceiptUpdate := UpdSent | UpdDelivered (rtt : Z) | UpdTimedOut | UpdFailed | UpdCulled.

Inductive Event :=
| EvLifecycle (tx : nat) (b : LinkEndpointBinding) (reason : TerminalReason) (dropped : Z)
| EvCompletion (c : nat) (o : LinkEndpointDispatchOutcome)
| EvRetire (o : InterfaceOwnerId)
| EvOffline (id : Z)
| EvReceiptUpdate (tx : nat) (u : ReceiptUpdate)
| EvDirectProof (tx : nat) (msg_id : bytes) (rtt : option Z)
| EvCallback (c : callback * PacketReceipt).

(** ** Announce records the actor keeps *)

Record RecentAnnounce := mkRecent {
  ra_hops : Z;
  ra_app_data : option bytes;
  ra_timestamp : f64;
  ra_public_key : option bytes;
  ra_ratchet : option bytes;
  ra_packet_hash : option bytes;
  ra_is_path_response : bool;
  ra_retained : bool;
  ra_last_used : option f64;
  ra_name_hash : bytes;
}.

(** Of a discovery operation and of a retained announce admission, the parts
    that interface removal and announce handling read. *)
Record DiscoveryOperation := mkDiscovery { do_timeout : f64; do_requesters : list Z }.

Record PendingAnnounce := mkPending {
  pa_interface : Z;
  pa_raw : bytes;
  pa_cached : option (bytes * f64);
}.

(** What one message reads from outside the actor. *)
Record Env := mkEnv {
  now : f64;
  instant : Z;
  rate_clock : Clock;
  jitter : f64;
  iface_order : list Z;
  endpoint_order : list endpoint_key;
  dest_order : list bytes;
}.

(** ** The actor *)

(** [field_update eta g]: the update of field [g] of a record whose
    constructor applied to all its fields is [eta]. *)
Ltac field_update eta g :=
  let t := eval unfold eta in eta in
  lazymatch eval pattern g in t with
  | ?F _ => let u := eval cbv beta in (λ upd, F (λ a, upd (g a))) in exact u
  end.

Definition iface_eta (e : Iface) : Iface :=
  mkIface (if_entry e) (if_mode e) (if_role e) (if_outbound e) (if_bitrate e) (if_tx e)
    (if_announce_rate_target e) (if_announce_rate_grace e) (if_announce_rate_penalty e) (if_online e)
    (if_tx_drops e) (if_tx_dropped_bytes e) (if_protocol_violations e) (if_ifac_violations e)
    (if_packet_filter_hits e) (if_ingress e).

Definition upd_tx_drops : (Z → Z) → Iface → Iface := ltac:(field_update iface_eta if_tx_drops).
Definition upd_tx_dropped_bytes : (Z → Z) → Iface → Iface := ltac:(field_update iface_eta if_tx_dropped_bytes).
Definition upd_protocol_violations : (Z → Z) → Iface → Iface := ltac:(field_update iface_eta if_protocol_violations).
Definition upd_ifac_violations : (Z → Z) → Iface → Iface := ltac:(field_update iface_eta if_ifac_violations).
Definition upd_packet_filter_hits : (Z → Z) → Iface → Iface := ltac:(field_update iface_eta if_packet_filter_hits).
Definition upd_ingress : (IngressController → IngressController) → Iface → Iface :=
  ltac:(field_update iface_eta if_ingress).

(** Handlers have no error of their own; they may panic. *)
Abbreviation io A := (res Empty_set A).

Section actor.
Context `{Mpsc} `{Digest} `{Hkdf} `{Ed25519Signer}.

Record Actor := mkActor {
  path_table : PathTable;
  link_table : LinkTable;
  announce_table : AnnounceTable;
  held : gmap bytes AnnounceEntry;
  reverse_table : ReverseTable;
  tunnel_table : TunnelTable;
  packet_hashlist : PacketHashlist;
  rate_table : RateTable;
  blackhole_table : BlackholeTable;
  traffic : gmap Z (Z * Z);
  packet_metrics : gmap bytes PacketMetrics;
  packet_metrics_order : list bytes;
  receipt_table : gmap bytes PacketReceipt;
  receipt_msg_ids : gmap bytes bytes;
  receipt_proof_txs : gmap bytes nat;
  receipt_updates : gmap bytes nat;
  interfaces : gmap Z Iface;
  local_destinations : gset bytes;
  destination_channels : gmap bytes nat;
  local_link_routes : gmap bytes (nat * nat);
  pending_local_link_requests : gmap bytes (gmap Z InterfaceOwnerId);
  link_endpoints : gmap endpoint_key LinkEndpointEntry;
  path_requests : gmap bytes f64;
  discovery_path_requests : gmap bytes DiscoveryOperation;
  pending_announce_admissions : list PendingAnnounce;
  path_interface_suppressions : gmap (bytes * Z) f64;
  pending_local_path_requests : gmap bytes Z;
  recent_announces : gmap bytes RecentAnnounce;
  is_transport_enabled : bool;
  transport_identity_hash : option bytes;
  local_hops_delta : Z;
  is_shared_instance : bool;
  shared_instance_client_mode : bool;
  state_dirty : bool;
  channel_drops : Z;
  wires : nat → chan bytes;
  mailboxes : nat → chan DestinationEvent;
  events : list Event;
}.

Definition actor_eta (a : Actor) : Actor :=
  mkActor (path_table a) (link_table a) (announce_table a) (held a) (reverse_table a) (tunnel_table a)
    (packet_hashlist a) (rate_table a) (blackhole_table a) (traffic a) (packet_metrics a)
    (packet_metrics_order a) (receipt_table a) (receipt_msg_ids a) (receipt_proof_txs a) (receipt_updates a)
    (interfaces a) (local_destinations a) (destination_channels a) (local_link_routes a)
    (pending_local_link_requests a) (link_endpoints a) (path_requests a) (discovery_path_requests a)
    (pending_announce_admissions a) (path_interface_suppressions a) (pending_local_path_requests a)
    (recent_announces a) (is_transport_enabled a) (transport_identity_hash a) (local_hops_delta a)
    (is_shared_instance a) (shared_instance_client_mode a) (state_dirty a) (channel_drops a) (wires a)
    (mailboxes a) (events a).

Definition upd_path_table : (PathTable → PathTable) → Actor → Actor := ltac:(field_update actor_eta path_table).
Definition upd_link_table : (LinkTable → LinkTable) → Actor → Actor := ltac:(field_update actor_eta link_table).
Definition upd_announce_table : (AnnounceTable → AnnounceTable) → Actor → Actor :=
  ltac:(field_update actor_eta announce_table).
Definition upd_held : (gmap bytes AnnounceEntry → gmap bytes AnnounceEntry) → Actor → Actor :=
  ltac:(field_update actor_eta held).
Definition upd_reverse_table : (ReverseTable → ReverseTable) → Actor → Actor :=
  ltac:(field_update actor_eta reverse_table).
Definition upd_tunnel_table : (TunnelTable → TunnelTable) → Actor → Actor :=
  ltac:(field_update actor_eta tunnel_table).
Definition upd_packet_hashlist : (PacketHashlist → PacketHashlist) → Actor → Actor :=
  ltac:(field_update actor_eta packet_hashlist).
Definition upd_rate_table : (RateTable → RateTable) → Actor → Actor := ltac:(field_update actor_eta rate_table).
Definition upd_traffic : (gmap Z (Z * Z) → gmap Z (Z * Z)) → Actor → Actor := ltac:(field_update actor_eta traffic).
Definition upd_packet_metrics : (gmap bytes PacketMetrics → gmap bytes PacketMetrics) → Actor → Actor :=
  ltac:(field_update actor_eta packet_metrics).
Definition upd_packet_metrics_order : (list bytes → list bytes) → Actor → Actor :=
  ltac:(field_update actor_eta packet_metrics_order).
Definition upd_receipt_table : (gmap bytes PacketReceipt → gmap bytes PacketReceipt) → Actor → Actor :=
  ltac:(field_update actor_eta receipt_table).
Definition upd_receipt_msg_ids : (gmap bytes bytes → gmap bytes bytes) → Actor → Actor :=
  ltac:(field_update actor_eta receipt_msg_ids).
Definition upd_receipt_proof_txs : (gmap bytes nat → gmap bytes nat) → Actor → Actor :=
  ltac:(field_update actor_eta receipt_proof_txs).
Definition upd_receipt_updates : (gmap bytes nat → gmap bytes nat) → Actor → Actor :=
  ltac:(field_update actor_eta receipt_updates).
Definition upd_interfaces : (gmap Z Iface → gmap Z Iface) → Actor → Actor := ltac:(field_update actor_eta interfaces).
Definition upd_local_destinations : (gset bytes → gset bytes) → Actor → Actor :=
  ltac:(field_update actor_eta local_destinations).
Definition upd_destination_channels : (gmap bytes nat → gmap bytes nat) → Actor → Actor :=
  ltac:(field_update actor_eta destination_channels).
Definition upd_local_link_routes : (gmap bytes (nat * nat) → gmap bytes (nat * nat)) → Actor → Actor :=
  ltac:(field_update actor_eta local_link_routes).
Definition upd_pending_local_link_requests : (gmap bytes (gmap Z InterfaceOwnerId) → gmap bytes (gmap Z InterfaceOwnerId)) → Actor → Actor :=
  ltac:(field_update actor_eta pending_local_link_requests).
Definition upd_link_endpoints : (gmap endpoint_key LinkEndpointEntry → gmap endpoint_key LinkEndpointEntry) → Actor → Actor :=
  ltac:(field_update actor_eta link_endpoints).
Definition upd_path_requests : (gmap bytes f64 → gmap bytes f64) → Actor → Actor :=
  ltac:(field_update actor_eta path_requests).
Definition upd_discovery_path_requests : (gmap bytes DiscoveryOperation → gmap bytes DiscoveryOperation) → Actor → Actor :=
  ltac:(field_update actor_eta discovery_path_requests).
Definition upd_pending_announce_admissions : (list PendingAnnounce → list PendingAnnounce) → Actor → Actor :=
  ltac:(field_update actor_eta pending_announce_admissions).
Definition upd_path_interface_suppressions : (gmap (bytes * Z) f64 → gmap (bytes * Z) f64) → Actor → Actor :=
  ltac:(field_update actor_eta path_interface_suppressions).
Definition upd_pending_local_path_requests : (gmap bytes Z → gmap bytes Z) → Actor → Actor :=
  ltac:(field_update actor_eta pending_local_path_requests).
Definition upd_recent_announces : (gmap bytes RecentAnnounce → gmap bytes RecentAnnounce) → Actor → Actor :=
  ltac:(field_update actor_eta recent_announces).
Definition upd_is_shared_instance : (bool → bool) → Actor → Actor := ltac:(field_update actor_eta is_shared_instance).
Definition upd_shared_instance_client_mode : (bool → bool) → Actor → Actor :=
  ltac:(field_update actor_eta shared_instance_client_mode).
Definition upd_state_dirty : (bool → bool) → Actor → Actor := ltac:(field_update actor_eta state_dirty).
Definition upd_channel_drops : (Z → Z) → Actor → Actor := ltac:(field_update actor_eta channel_drops).
Definition upd_wires : ((nat → chan bytes) → (nat → chan bytes)) → Actor → Actor :=
  ltac:(field_update actor_eta wires).
Definition upd_mailboxes : ((nat → chan DestinationEvent) → (nat → chan DestinationEvent)) → Actor → Actor :=
  ltac:(field_update actor_eta mailboxes).
Definition upd_events : (list Event → list Event) → Actor → Actor := ltac:(field_update actor_eta events).

Definition emit (e : Event) (a : Actor) : Actor := upd_events (λ l, l ++ [e]) a.

(** *** Counters *)

Definition protocol_violation (a : Actor) (id : Z) : Actor :=
  upd_interfaces (alter (upd_protocol_violations (λ n, sat_add64 n 1)) id) a.

Definition ifac_violation (a : Actor) (id : Z) : Actor :=
  upd_interfaces (alter (upd_ifac_violations (λ n, sat_add64 n 1)) id) a.

Definition packet_filter_hit (a : Actor) (id : Z) : Actor :=
  upd_interfaces (alter (upd_packet_filter_hits (λ n, sat_add64 n 1)) id) a.

(** Byte counts of [TrafficCounter], received first, wrapping at 64 bits. *)
Definition wrap64 (n : Z) : Z := n mod 2 ^ 64.

Definition record_rx (a : Actor) (id n : Z) : Actor :=
  upd_traffic (λ m, let '(rx, tx) := default (0, 0) (m !! id) in <[id := (wrap64 (rx + n), tx)]> m) a.

Definition record_tx (a : Actor) (id n : Z) : Actor :=
  upd_traffic (λ m, let '(rx, tx) := default (0, 0) (m !! id) in <[id := (rx, wrap64 (tx + n))]> m) a.

Definition count_drop (a : Actor) : Actor := upd_channel_drops (λ n, wrap64 (n + 1)) a.

(** *** Roles and hop counts *)

Definition has_role (r : InterfaceRole) (a : Actor) (id : Z) : bool :=
  match interfaces a !! id with Some e => bool_decide (if_role e = r) | None => false end.

Definition is_local_client_interface : Actor → Z → bool := has_role LocalClient.
Definition is_shared_instance_peer_interface : Actor → Z → bool := has_role SharedInstancePeer.

Definition has_local_client_interfaces (a : Actor) : bool :=
  bool_decide (map_Exists (λ _ e, if_role e = LocalClient) (interfaces a)).

(** The iteration order of the map comes from the environment. *)
Definition interface_ids (env : Env) (a : Actor) (p : Z → Iface → bool) : list Z :=
  filter (λ id, match interfaces a !! id with Some e => p id e | None => false end = true) (iface_order env).

Definition local_client_interface_ids_except (env : Env) (a : Actor) (except : option Z) : list Z :=
  interface_ids env a (λ id e, negb (bool_decide (except = Some id)) && bool_decide (if_role e = LocalClient)).

Definition adjusted_inbound_hops (a : Actor) (raw_hops interface_id : Z) : Z :=
  let hops := Z.min (raw_hops + 1) 255 in
  if has_local_client_interfaces a then
    if is_local_client_interface a interface_id then Z.max (hops - 1) 0 else hops
  else if is_shared_instance_peer_interface a interface_id then Z.max (hops - 1) 0
  else hops.

Definition should_apply_delta (a : Actor) (h : PacketHeader) (interface_id : Z) : bool :=
  negb (local_hops_delta a =? 0) && negb (is_shared_instance a) && (Wire.hops h =? 0)
  && negb (bool_decide (destination_type (flags h) = Plain))
  && negb (bool_decide (destination_type (flags h) = Group))
  && negb (is_local_client_interface a interface_id)
  && negb (is_shared_instance_peer_interface a interface_id).

Definition set_byte1 {E} (raw : bytes) (v : Z) : res E bytes :=
  if decide (1 < length raw)%nat then Ok (<[1%nat := v]> raw) else Panic.

Definition mangle_hops {E} (a : Actor) (raw : bytes) (h : PacketHeader) (transport_insert : bool) : res E bytes :=
  match (if transport_insert then transport_identity_hash a else None) with
  | Some transport_id =>
      let fl := mkFlags Header2 (context_flag (flags h)) Transport (destination_type (flags h)) (packet_type (flags h)) in
      let new_header := mkHeader fl (local_hops_delta a) (Some transport_id) (Wire.destination_hash h) (context h) in
      let* rest := slice_from raw (header_size h) in
      Ok (header_pack new_header ++ rest)
  | None => set_byte1 raw (local_hops_delta a)
  end.

(** *** Packet metrics *)

Definition LOCAL_CLIENT_CACHE_MAXSIZE : nat := 512.

(** The loop drops an entry per turn; the length of the queue is fuel enough. *)
Fixpoint trim_metrics (fuel : nat) (m : gmap bytes PacketMetrics) (order : list bytes)
    : gmap bytes PacketMetrics * list bytes :=
  match fuel with
  | O => (m, order)
  | S fuel =>
      if Nat.ltb LOCAL_CLIENT_CACHE_MAXSIZE (length order) then
        match order with
        | old :: order => trim_metrics fuel (delete old m) order
        | [] => (m, order)
        end
      else (m, order)
  end.

Definition record_packet_metrics (a : Actor) (packet_hash : bytes) (ms : PacketMetrics) : Actor :=
  if bool_decide (rssi ms = None) && bool_decide (snr ms = None) && bool_decide (q ms = None) then a else
  let order :=
    if bool_decide (is_Some (packet_metrics a !! packet_hash)) then packet_metrics_order a
    else packet_metrics_order a ++ [packet_hash] in
  let m := <[packet_hash := ms]> (packet_metrics a) in
  let '(m, order) := trim_metrics (length order) m order in
  upd_packet_metrics (λ _, m) (upd_packet_metrics_order (λ _, order) a).

(** [use_destination]. *)
Definition with_last_used (t : f64) (r : RecentAnnounce) : RecentAnnounce :=
  mkRecent (ra_hops r) (ra_app_data r) (ra_timestamp r) (ra_public_key r) (ra_ratchet r) (ra_packet_hash r)
    (ra_is_path_response r) (ra_retained r) (Some t) (ra_name_hash r).

Definition use_destination (env : Env) (a : Actor) (dest_hash : bytes) : Actor * bool :=
  match recent_announces a !! dest_hash with
  | Some e =>
      (upd_state_dirty (λ _, true) (upd_recent_announces <[dest_hash := with_last_used (now env) e]> a), true)
  | None => (a, false)
  end.

Definition is_path_interface_suppressed (a : Actor) (dest : bytes) (interface_id : Z) (t : f64) : Actor * bool :=
  match path_interface_suppressions a !! (dest, interface_id) with
  | Some until =>
      if f_lt t until then (a, true)
      else (upd_path_interface_suppressions (delete (dest, interface_id)) a, false)
  | None => (a, false)
  end.

(** *** Terminating link endpoints (actor/link_endpoint.rs) *)

Definition reject (reason : TerminalReason) (l : list LinkEndpointQueuedPacket) : list Event :=
  omap (λ p, (λ c, EvCompletion c (DispatchRejected (Terminated reason))) <$> qp_completion p) l.

Definition notify_link_endpoint_terminal (a : Actor) (e : LinkEndpointEntry) (reason : TerminalReason)
    (extra_dropped : Z) : Actor :=
  upd_events (λ l, l ++ reject reason (ep_egress e) ++
    [EvLifecycle (ep_lifecycle e) (ep_binding e) reason (sat_add64 (len (ep_egress e)) extra_dropped)]) a.

(** Releasing a destination may end endpoints of a local link, each of which
    may release a destination: a turn removes an endpoint, so the number of
    endpoints is fuel enough ([terminate_fuel]). *)
Definition deregister_destination_with
    (terminate : Actor → endpoint_key → TerminalReason → Actor) (env : Env) (a : Actor) (hash : bytes) : Actor :=
  let a := upd_pending_local_link_requests (delete hash) a in
  let a := upd_local_destinations (λ s, s ∖ {[hash]}) a in
  let a := upd_destination_channels (delete hash) a in
  match local_link_routes a !! hash with
  | Some _ =>
      let a := upd_local_link_routes (delete hash) a in
      let keys := filter (λ k, k.1 = hash ∧ is_Some (link_endpoints a !! k)) (endpoint_order env) in
      foldl (λ a k, terminate a k InterfaceRemoved) a keys
  | None => a
  end.

Fixpoint terminate_with_fuel (fuel : nat) (env : Env) (a : Actor) (key : endpoint_key) (reason : TerminalReason)
    : Actor :=
  match fuel with
  | O => a
  | S fuel =>
      match link_endpoints a !! key with
      | Some e =>
          let a := upd_link_endpoints (delete key) a in
          let a := notify_link_endpoint_terminal a e reason 0 in
          if ep_unbind_after_drain e
          then deregister_destination_with (terminate_with_fuel fuel env) env a (b_link_id (ep_binding e))
          else a
      | None => a
      end
  end.

Definition terminate_link_endpoint (env : Env) (a : Actor) (key : endpoint_key) (reason : TerminalReason) : Actor :=
  terminate_with_fuel (size (link_endpoints a)) env a key reason.

Definition deregister_destination (env : Env) (a : Actor) (hash : bytes) : Actor :=
  deregister_destination_with (terminate_with_fuel (size (link_endpoints a)) env) env a hash.

(** The endpoint has been taken out of the table already. *)
Definition finish_link_endpoint_terminal (env : Env) (a : Actor) (e : LinkEndpointEntry) (reason : TerminalReason)
    (extra_dropped : Z) : Actor :=
  let a := notify_link_endpoint_terminal a e reason extra_dropped in
  if ep_unbind_after_drain e then deregister_destination env a (b_link_id (ep_binding e)) else a.

Definition terminate_link_endpoints_for_interface (env : Env) (a : Actor) (id : Z) (reason : TerminalReason) : Actor :=
  let keys := filter (λ k, b_interface_id ∘ ep_binding <$> link_endpoints a !! k = Some id) (endpoint_order env) in
  foldl (λ a k, terminate_link_endpoint env a k reason) a keys.

(** *** Removing an interface *)

Definition void_tunnel_interface (a : Actor) (id : Z) : Actor :=
  let '(t, voided) := Tunnel.void_interface (tunnel_table a) id in
  let a := upd_tunnel_table (λ _, t) a in
  if Nat.ltb 0 voided then upd_state_dirty (λ _, true) a else a.

Definition retire_recursive_discovery_interface (a : Actor) (id : Z) : Actor :=
  upd_discovery_path_requests (λ m,
    filter (λ kv, do_requesters kv.2 ≠ [])
      ((λ o, mkDiscovery (do_timeout o) (filter (λ i, i ≠ id) (do_requesters o))) <$> m)) a.

(** Compares the timestamps bit by bit. *)
Definition finish_cached_response (a : Actor) (cached : option (bytes * f64)) (raw : bytes) (id : Z) : Actor :=
  match cached with
  | None => a
  | Some (hash, timestamp) =>
      match at_get (announce_table a) hash with
      | Some e =>
          if block_rebroadcast e && bool_decide (attached_interface e = Some id)
             && bool_decide (packet_raw e = raw) && bool_decide (f_bits (ae_timestamp e) = f_bits timestamp)
          then
            let a := upd_announce_table (λ t, (at_remove t hash).1) a in
            match held a !! hash with
            | Some h => upd_announce_table (λ t, at_insert t hash h) (upd_held (delete hash) a)
            | None => a
            end
          else a
      | None => a
      end
  end.

Definition retire_announce_interface (a : Actor) (id : Z) : Actor :=
  let mine := filter (λ p, pa_interface p = id) (pending_announce_admissions a) in
  let retained := filter (λ p, pa_interface p ≠ id) (pending_announce_admissions a) in
  upd_pending_announce_admissions (λ _, retained)
    (foldl (λ a p, finish_cached_response a (pa_cached p) (pa_raw p) id) a mine).

Definition clear_shared_connection_state (a : Actor) : Actor :=
  let a := upd_path_table (λ _, path_table_new) a in
  let a := upd_link_table (λ _, link_table_new) a in
  let a := upd_announce_table (λ _, at_new) a in
  let a := upd_held (λ _, ∅) a in
  let a := upd_reverse_table (λ _, reverse_new) a in
  let a := upd_tunnel_table (λ _, tunnel_table_new) a in
  let a := upd_path_requests (λ _, ∅) a in
  let a := upd_packet_metrics (λ _, ∅) a in
  let a := upd_packet_metrics_order (λ _, []) a in
  let a := upd_receipt_proof_txs (λ _, ∅) a in
  let a := upd_discovery_path_requests (λ _, ∅) a in
  let a := upd_pending_local_path_requests (λ _, ∅) a in
  upd_state_dirty (λ _, true) a.

Definition deregister_interface_with_link_reason (env : Env) (a : Actor) (id : Z) (reason : TerminalReason) : Actor :=
  let a := terminate_link_endpoints_for_interface env a id reason in
  let a := match interfaces a !! id with
           | Some e => emit (EvRetire (owner_id (owner (if_entry e)))) a
           | None => a
           end in
  let a := upd_link_table (λ t, remove_interface t id) a in
  let role := if_role <$> interfaces a !! id in
  let a := match interfaces a !! id ≫= if_online with Some _ => emit (EvOffline id) a | None => a end in
  let a := void_tunnel_interface a id in
  let a := upd_path_table (λ t, (PathTable.drop_all_via t id).1) a in
  let a := upd_path_interface_suppressions (filter (λ kv, kv.1.2 ≠ id)) a in
  let a := upd_pending_local_path_requests (filter (λ kv, kv.2 ≠ id)) a in
  let a := retire_recursive_discovery_interface a id in
  let a := retire_announce_interface a id in
  let a := upd_interfaces (delete id) a in
  if bool_decide (role = Some SharedInstancePeer) then
    let a := upd_is_shared_instance (λ _, false) a in
    let a := upd_shared_instance_client_mode (λ _, true) a in
    clear_shared_connection_state a
  else a.

Definition deregister_interface (env : Env) (a : Actor) (id : Z) : Actor :=
  deregister_interface_with_link_reason env a id InterfaceRemoved.

(** *** Sending on an interface *)

Inductive InterfaceSendOutcome :=
| OutSent | OutFull | OutMissing | OutClosed | OutOffline | OutNotOutbound | OutTooLarge.

(** [Result::is_ok]. *)
Definition is_ok {E F A} (m : res E A) : res F bool :=
  match m with Ok _ => Ok true | Err _ => Ok false | Panic => Panic end.

Definition entry_link_ceiling (e : Iface) (id : Z) : res InterfaceCapacityError Z :=
  link_ceiling (packet_capacity (if_entry e)) id (active_ifac_bytes (if_entry e)).

(** The link id and payload offset of a request whose link id is a local
    destination. *)
Definition request_owner (a : Actor) (raw : bytes) (hdr : option (PacketHeader * nat))
    : io (option (bytes * nat)) :=
  match hdr with
  | Some (h, offset) =>
      if bool_decide (packet_type (flags h) = LinkRequest) then
        let* link_id := link_id_from_raw raw (header_type (flags h)) in
        Ok (if bool_decide (is_Some (destination_channels a !! link_id)) then Some (link_id, offset) else None)
      else Ok None
  | None => Ok None
  end.

(** The refusal of a request of a local initiator, if any. *)
Definition local_request_refusal (a : Actor) (id : Z) (e : Iface) (raw : bytes) (link_id : bytes) (offset : nat)
    : io (option InterfaceSendOutcome) :=
  let* data := slice_from raw offset in
  let* signal := res_ok (parse_request_signalling data) in
  match signal with
  | None => Ok (Some OutTooLarge)
  | Some signal =>
      let* has_ceiling := is_ok (entry_link_ceiling e id) in
      if negb (ls_mode signal =? DEFAULT_LINK_MODE) || (500 <? mtu_get (ls_mtu signal)) || negb has_ceiling
      then Ok (Some OutTooLarge)
      else
        match pending_local_link_requests a !! link_id with
        | Some owners =>
            if match owners !! id with
               | Some o => negb (owner_matches o (owner (if_entry e)))
               | None => 64 <=? Z.of_nat (size owners)
               end
            then Ok (Some OutMissing) else Ok None
        | None =>
            if 4096 <=? Z.of_nat (size (pending_local_link_requests a)) then Ok (Some OutFull) else Ok None
        end
  end.

(** The owner recorded for an admitted request: the first one stays. *)
Definition record_request_owner (a : Actor) (id : Z) (e : Iface) (link_id : bytes) : Actor :=
  let owners := default ∅ (pending_local_link_requests a !! link_id) in
  let o := default (owner_id (owner (if_entry e))) (owners !! id) in
  upd_pending_local_link_requests <[link_id := <[id := o]> owners]> a.

Definition try_send_to_interface (a : Actor) (id : Z) (raw : bytes) : io (Actor * InterfaceSendOutcome) :=
  match interfaces a !! id with
  | None => Ok (a, OutMissing)
  | Some e =>
      if negb (owner_current (owner (if_entry e))) then Ok (a, OutMissing) else
      if negb (accepts_clear_packet (if_entry e) (len raw)) then Ok (a, OutTooLarge) else
      if bool_decide (if_role e = LocalClient) && interface_marked_offline e then Ok (a, OutOffline) else
      if negb (if_outbound e) then Ok (a, OutNotOutbound) else
      let* hdr := res_ok (header_unpack raw) in
      let is_request :=
        match hdr with Some (h, _) => bool_decide (packet_type (flags h) = LinkRequest) | None => false end in
      let* has_ceiling := is_ok (entry_link_ceiling e id) in
      if is_request && negb has_ceiling then Ok (a, OutTooLarge) else
      let* ro := request_owner a raw hdr in
      let* refusal :=
        match ro with
        | Some (link_id, offset) => local_request_refusal a id e raw link_id offset
        | None => Ok None
        end in
      match refusal with
      | Some out => Ok (a, out)
      | None =>
          let* data :=
            match ifac_key (if_entry e) with
            | Some key => res_ok (try_ifac_sign raw key (Z.to_nat (ifac_size (if_entry e))))
            | None => Ok (Some raw)
            end in
          match data with
          | None => Ok (a, OutTooLarge)
          | Some data =>
              let '(c, sent) := try_send (wires a (if_tx e)) data in
              match sent with
              | SendOk =>
                  let a := upd_wires <[if_tx e := c]> a in
                  Ok (match ro with
                      | Some (link_id, _) => record_request_owner a id e link_id
                      | None => a
                      end, OutSent)
              | SendFull => Ok (a, OutFull)
              | SendClosed => Ok (a, OutClosed)
              end
          end
      end
  end.

(** A full queue is counted; a closed one or an interface marked offline is
    deregistered. *)
Definition count_tx_drop (e : Iface) (n : Z) : Iface :=
  upd_tx_drops (λ d, wrap64 (d + 1)) (upd_tx_dropped_bytes (λ d, sat_add64 d n) e).

Definition send_to_interface (env : Env) (a : Actor) (id : Z) (raw : bytes) : io (Actor * bool) :=
  let* '(a, out) := try_send_to_interface a id raw in
  match out with
  | OutSent => Ok (a, true)
  | OutFull => Ok (upd_interfaces (alter (λ e, count_tx_drop e (len raw)) id) a, false)
  | OutClosed => Ok (deregister_interface_with_link_reason env a id InterfaceClosed, false)
  | OutOffline => Ok (deregister_interface_with_link_reason env a id InterfaceOffline, false)
  | OutMissing | OutNotOutbound | OutTooLarge => Ok (a, false)
  end.

Fixpoint send_to_each (env : Env) (a : Actor) (ids : list Z) (frame : Actor → Z → io bytes) : io (Actor * bool) :=
  match ids with
  | [] => Ok (a, false)
  | id :: ids =>
      let* raw := frame a id in
      let* '(a, sent) := send_to_interface env a id raw in
      let* '(a, sent') := send_to_each env a ids frame in
      Ok (a, sent || sent')
  end.

Definition broadcast_on_interfaces (env : Env) (a : Actor) (raw : bytes) (except : option Z) : io (Actor * bool) :=
  let ids := interface_ids env a (λ id e, negb (bool_decide (except = Some id)) && if_outbound e) in
  let* delta_header := (if local_hops_delta a =? 0 then Ok None else res_ok (header_unpack raw)) in
  send_to_each env a ids (λ a id,
    match delta_header with
    | Some (h, _) => if should_apply_delta a h id then mangle_hops a raw h false else Ok raw
    | None => Ok raw
    end).

(** *** Delivery to a destination's mailbox *)

Definition try_deliver (a : Actor) (tx : nat) (ev : DestinationEvent) : Actor * TrySend :=
  let '(c, r) := try_send (mailboxes a tx) ev in
  (if decide (r = SendOk) then upd_mailboxes <[tx := c]> a else a, r).

Definition interface_owner_id (a : Actor) (id : Z) : option InterfaceOwnerId :=
  (λ e, owner_id (owner (if_entry e))) <$> interfaces a !! id.

(** Deliver to a local destination, counting a refusal. *)
Definition deliver_or_count (a : Actor) (dest : bytes) (ev : DestinationEvent) : Actor :=
  match destination_channels a !! dest with
  | Some tx => let '(a, r) := try_deliver a tx ev in if decide (r = SendOk) then a else count_drop a
  | None => a
  end.
End actor.
