(* ===== verification/ActorFacts.v ===== *)
(** * Facts about the transport actor's shared operations

    Lemmas on Actor.v: ending link endpoints terminates and touches nothing
    else; removing an interface leaves no link or path through it; sends are
    total; the state invariant [actor_ok], which all of them preserve. *)

From S2P Require Import Prelude F64 Wire Packet LinkSignalling Receipt Ifac Table Hashlist PathTable.
From S2P Require Import ReverseTable LinkTable Ownership LinkTransit Tunnel Identity Announce Ingress RateLimit Blackhole Actor.
From stdpp Require Import prelude list gmap fin_maps functions.

Open Scope Z_scope.

(** ** Lemmas *)

Section actor_facts.
Context `{Mpsc} `{Digest} `{Hkdf} `{Ed25519Signer}.
Implicit Types a : Actor.

(** What ending link endpoints and releasing destinations leave alone. *)
Definition routing a :=
  (path_table a, link_table a, (announce_table a, held a), reverse_table a, tunnel_table a, interfaces a,
   path_requests a, discovery_path_requests a, pending_announce_admissions a, path_interface_suppressions a,
   pending_local_path_requests a).

(** What removing an interface leaves alone, and sending too but for the
    queues. *)
Definition fixed a :=
  (packet_hashlist a, rate_table a, blackhole_table a, recent_announces a, receipt_table a, receipt_msg_ids a,
   receipt_updates a, is_transport_enabled a, transport_identity_hash a, local_hops_delta a, traffic a,
   channel_drops a, mailboxes a).

Definition core a := (fixed a, wires a).

Definition aside a := (receipt_proof_txs a, packet_metrics a, packet_metrics_order a, is_shared_instance a,
  shared_instance_client_mode a, state_dirty a).

Lemma terminate_keeps fuel env a key reason :
  routing (terminate_with_fuel fuel env a key reason) = routing a ∧
  core (terminate_with_fuel fuel env a key reason) = core a ∧
  aside (terminate_with_fuel fuel env a key reason) = aside a.
Proof.
  revert a key reason. induction fuel as [|fuel IH]; intros a key reason; [done|]. cbn [terminate_with_fuel].
  destruct (link_endpoints a !! key) as [e|]; [|done].
  destruct (ep_unbind_after_drain e); [|done].
  unfold deregister_destination_with. case_match; [|done].
  match goal with |- context [foldl _ ?b ?l] => generalize l; intros ks; set (a1 := b) end.
  assert (Ha : routing a1 = routing a ∧ core a1 = core a ∧ aside a1 = aside a) by done.
  clearbody a1. revert a1 Ha. induction ks as [|k ks IHk]; intros a1 Ha; [done|]. cbn [foldl].
  apply IHk. destruct (IH a1 k InterfaceRemoved) as (-> & -> & ->). done.
Qed.

Lemma terminate_size fuel env a key reason :
  (size (link_endpoints (terminate_with_fuel fuel env a key reason)) ≤ size (link_endpoints a))%nat.
Proof.
  revert a key reason. induction fuel as [|fuel IH]; intros a key reason; [done|]. cbn [terminate_with_fuel].
  destruct (link_endpoints a !! key) as [e|] eqn:Hk; [|done].
  assert (Hs : (size (delete key (link_endpoints a)) ≤ size (link_endpoints a))%nat)
    by (rewrite map_size_delete, Hk; lia).
  destruct (ep_unbind_after_drain e); [|done].
  unfold deregister_destination_with. case_match; [|done].
  match goal with |- context [foldl _ ?b ?l] => generalize l; intros ks; set (a1 := b) end.
  assert (Ha : (size (link_endpoints a1) ≤ size (link_endpoints a))%nat) by done.
  clearbody a1. revert a1 Ha. induction ks as [|k ks IHk]; intros a1 Ha; [done|]. cbn [foldl].
  apply IHk. etrans; [apply IH|done].
Qed.

(** More fuel than endpoints changes nothing. *)
Lemma terminate_fuel n m env a key reason :
  (size (link_endpoints a) ≤ n)%nat → (size (link_endpoints a) ≤ m)%nat →
  terminate_with_fuel n env a key reason = terminate_with_fuel m env a key reason.
Proof.
  revert m a key reason. induction n as [|n IH]; intros m a key reason Hn Hm.
  - destruct m; [done|]. cbn [terminate_with_fuel].
    assert (Hz : link_endpoints a = ∅) by (apply map_size_empty_inv; lia). by rewrite Hz, lookup_empty.
  - destruct m as [|m].
    + cbn [terminate_with_fuel].
      assert (Hz : link_endpoints a = ∅) by (apply map_size_empty_inv; lia). by rewrite Hz, lookup_empty.
    + cbn [terminate_with_fuel]. destruct (link_endpoints a !! key) as [e|] eqn:Hk; [|done].
      assert (Hs : (size (delete key (link_endpoints a)) = pred (size (link_endpoints a)))%nat)
        by (rewrite map_size_delete, Hk; done).
      destruct (ep_unbind_after_drain e); [|done].
      unfold deregister_destination_with. case_match; [|done].
      match goal with |- foldl _ ?b ?l = _ => generalize l; intros ks; set (a1 := b) end.
      assert (Ha : (size (link_endpoints a1) ≤ pred (size (link_endpoints a)))%nat) by (subst a1; simpl; lia).
      clearbody a1. revert a1 Ha. induction ks as [|k ks IHk]; intros a1 Ha; [done|]. cbn [foldl].
      rewrite (IH m) by lia. apply IHk. etrans; [apply terminate_size|done].
Qed.

Lemma finish_keeps env a e reason n :
  routing (finish_link_endpoint_terminal env a e reason n) = routing a ∧
  core (finish_link_endpoint_terminal env a e reason n) = core a ∧
  aside (finish_link_endpoint_terminal env a e reason n) = aside a.
Proof.
  unfold finish_link_endpoint_terminal. destruct (ep_unbind_after_drain e); [|done].
  unfold deregister_destination, deregister_destination_with. case_match; [|done].
  match goal with |- context [foldl _ ?b ?l] => generalize l; intros ks; set (a1 := b) end.
  assert (Ha : routing a1 = routing a ∧ core a1 = core a ∧ aside a1 = aside a) by done.
  clearbody a1. revert a1 Ha. induction ks as [|k ks IHk]; intros a1 Ha; [done|]. cbn [foldl].
  apply IHk. match goal with |- context [terminate_with_fuel ?n _ _ _ _] => generalize n; intros m end.
  destruct (terminate_keeps m env a1 k InterfaceRemoved) as (-> & -> & ->). done.
Qed.

Lemma terminate_interface_keeps env a id reason :
  routing (terminate_link_endpoints_for_interface env a id reason) = routing a ∧
  core (terminate_link_endpoints_for_interface env a id reason) = core a ∧
  aside (terminate_link_endpoints_for_interface env a id reason) = aside a.
Proof.
  unfold terminate_link_endpoints_for_interface.
  match goal with |- context [foldl _ _ ?l] => generalize l; intros ks end.
  remember a as a1 eqn:E in |- * at 1 3 5. assert (Ha : routing a1 = routing a ∧ core a1 = core a ∧ aside a1 = aside a) by (by subst).
  clear E. revert a1 Ha. induction ks as [|k ks IHk]; intros a1 Ha; [done|]. cbn [foldl].
  apply IHk. unfold terminate_link_endpoint.
  destruct (terminate_keeps (size (link_endpoints a1)) env a1 k reason) as (-> & -> & ->). done.
Qed.

(** Every queued or displaced announce has [P]. *)
Definition all_announces (P : AnnounceEntry → Prop) a : Prop :=
  map_Forall (λ _, P) (ann_entries (announce_table a)) ∧ map_Forall (λ _, P) (held a).

Lemma finish_cached_announces P a c raw id :
  all_announces P a → all_announces P (finish_cached_response a c raw id).
Proof.
  intros [Ht Hh]. unfold finish_cached_response. destruct c as [[h t]|]; [|done].
  case_match; [|done]. case_match; [|done]. cbv zeta.
  change (held (upd_announce_table (λ t, (at_remove t h).1) a)) with (held a).
  destruct (held a !! h) eqn:E; (split; [|try done]); cbn -[delete insert].
  - apply map_Forall_insert_2; [by apply (Hh h)|]. by apply map_Forall_delete.
  - by apply map_Forall_delete.
  - by apply map_Forall_delete.
Qed.

Lemma finish_cached_rest a c raw id :
  core (finish_cached_response a c raw id) = core a ∧ aside (finish_cached_response a c raw id) = aside a ∧
  interfaces (finish_cached_response a c raw id) = interfaces a ∧
  link_table (finish_cached_response a c raw id) = link_table a ∧
  path_table (finish_cached_response a c raw id) = path_table a ∧
  reverse_table (finish_cached_response a c raw id) = reverse_table a.
Proof. unfold finish_cached_response. repeat case_match; done. Qed.

Lemma retire_announce_rest a id :
  core (retire_announce_interface a id) = core a ∧ aside (retire_announce_interface a id) = aside a ∧
  interfaces (retire_announce_interface a id) = interfaces a ∧
  link_table (retire_announce_interface a id) = link_table a ∧
  path_table (retire_announce_interface a id) = path_table a ∧
  reverse_table (retire_announce_interface a id) = reverse_table a ∧
  ∀ P, all_announces P a → all_announces P (retire_announce_interface a id).
Proof.
  unfold retire_announce_interface. generalize (filter (λ p, pa_interface p = id) (pending_announce_admissions a)).
  intros ps. generalize (filter (λ p, pa_interface p ≠ id) (pending_announce_admissions a)). intros keep.
  match goal with |- context [foldl ?f a ps] => set (a' := foldl f a ps) end.
  assert (Ha : core a' = core a ∧ aside a' = aside a ∧ interfaces a' = interfaces a ∧ link_table a' = link_table a ∧
    path_table a' = path_table a ∧ reverse_table a' = reverse_table a ∧ ∀ P, all_announces P a → all_announces P a').
  { subst a'. revert a. induction ps as [|p ps IH]; intros a; [done|]. cbn [foldl].
    destruct (IH (finish_cached_response a (pa_cached p) (pa_raw p) id)) as (-> & -> & -> & -> & -> & -> & HP).
    destruct (finish_cached_rest a (pa_cached p) (pa_raw p) id) as (-> & -> & -> & -> & -> & ->).
    repeat split_and!; try done. intros P HA. by apply HP, finish_cached_announces. }
  clearbody a'. exact Ha.
Qed.

(** What a tunnel remembers about a destination; every path a tunnel remembers
    has [P]. *)
Definition tunnel_path (t : TunnelTable) (id d : bytes) : option TunnelPath :=
  u ← Tunnel.get t id; tunnel_paths u !! d.

Definition all_tunnel_paths (P : bytes → TunnelPath → Prop) a : Prop :=
  ∀ id d tp, tunnel_path (tunnel_table a) id d = Some tp → P d tp.

Lemma finish_cached_tunnels a c raw id : tunnel_table (finish_cached_response a c raw id) = tunnel_table a.
Proof. unfold finish_cached_response. by repeat case_match. Qed.

Lemma retire_announce_tunnels a id : tunnel_table (retire_announce_interface a id) = tunnel_table a.
Proof.
  unfold retire_announce_interface. generalize (filter (λ p, pa_interface p = id) (pending_announce_admissions a)).
  intros ps. generalize (filter (λ p, pa_interface p ≠ id) (pending_announce_admissions a)). intros keep.
  match goal with |- context [foldl ?f a ps] => set (a' := foldl f a ps) end.
  assert (Ha : tunnel_table a' = tunnel_table a); [|clearbody a'; exact Ha].
  subst a'. revert a. induction ps as [|p ps IH]; intros a; [done|]. cbn [foldl].
  by rewrite IH, finish_cached_tunnels.
Qed.

(** The tunnels remember no path they did not remember. *)
Definition tunnels_within (t t' : TunnelTable) : Prop :=
  ∀ id d tp, tunnel_path t' id d = Some tp → tunnel_path t id d = Some tp.

#[export] Instance tunnels_within_preorder : PreOrder tunnels_within.
Proof. split; [by intros t ? ?|]. intros t1 t2 t3 H12 H23 id d tp Hd. by apply H12, H23. Qed.

Lemma void_tunnel_within a id : tunnels_within (tunnel_table a) (tunnel_table (void_tunnel_interface a id)).
Proof.
  unfold void_tunnel_interface. destruct (Tunnel.void_interface (tunnel_table a) id) as [t n] eqn:Hv.
  unfold Tunnel.void_interface in Hv. injection Hv as <- _. intros k d tp.
  assert (Hk : tunnel_path {| by_interface := delete id (by_interface (tunnel_table a));
    Tunnel.entries := (λ e, if decide (Tunnel.interface_id e = Some id) then unbind e else e) <$> Tunnel.entries (tunnel_table a) |} k d
    = tunnel_path (tunnel_table a) k d); [|case_match; cbn -[tunnel_path]; by rewrite Hk].
  unfold tunnel_path, Tunnel.get. cbn -[lookup fmap]. rewrite lookup_fmap.
  destruct (Tunnel.entries (tunnel_table a) !! k) as [u|]; [|done]. cbn. by case_decide.
Qed.

(** The fields that removing an interface touches and forwarding reads. *)
Definition view a := (core a, interfaces a, link_table a, path_table a, announce_table a, held a, reverse_table a).

Definition view_with a (lt : LinkTable) (pt : PathTable) := 
  (core a, interfaces a, lt, pt, announce_table a, held a, reverse_table a).

Lemma void_tunnel_view a id : view (void_tunnel_interface a id) = view a.
Proof. unfold void_tunnel_interface. destruct (Tunnel.void_interface (tunnel_table a) id). by case_match. Qed.

Lemma terminate_interface_view env a id reason : view (terminate_link_endpoints_for_interface env a id reason) = view a.
Proof.
  destruct (terminate_interface_keeps env a id reason) as (Hr & Hc & _). unfold view. rewrite Hc.
  injection Hr as -> -> -> -> -> _ -> _ _ _ _ _. done.
Qed.

(** The state before the interface entry itself goes. *)
Lemma deregister_prefix env a id reason :
  ∃ a6, view_with a6 (link_table a6) (path_table a6)
        = view_with a (remove_interface (link_table a) id) (PathTable.drop_all_via (path_table a) id).1 ∧
    tunnels_within (tunnel_table a) (tunnel_table a6) ∧
    let a7 := upd_interfaces (delete id) (retire_announce_interface a6 id) in
    deregister_interface_with_link_reason env a id reason = a7 ∨
    deregister_interface_with_link_reason env a id reason =
      clear_shared_connection_state (upd_shared_instance_client_mode (λ _, true) (upd_is_shared_instance (λ _, false) a7)).
Proof.
  unfold deregister_interface_with_link_reason. cbv zeta.
  set (a1 := terminate_link_endpoints_for_interface env a id reason).
  assert (V1 : view a1 = view a) by (apply terminate_interface_view).
  assert (T1 : tunnel_table a1 = tunnel_table a)
    by (destruct (terminate_interface_keeps env a id reason) as (Hr & _); by injection Hr). clearbody a1.
  set (a2 := match interfaces a1 !! id with Some _ => _ | None => a1 end).
  assert (V2 : view a2 = view a) by (rewrite <- V1; subst a2; by case_match).
  assert (T2 : tunnel_table a2 = tunnel_table a) by (rewrite <- T1; subst a2; by case_match). clearbody a2. clear V1 T1 a1.
  set (a3 := match interfaces (upd_link_table _ _) !! id ≫= if_online with Some _ => _ | None => _ end).
  assert (V3 : view_with a3 (link_table a3) (path_table a3) = view_with a2 (remove_interface (link_table a2) id) (path_table a2))
    by (subst a3; by case_match).
  assert (T3 : tunnel_table a3 = tunnel_table a) by (rewrite <- T2; subst a3; by case_match). clearbody a3.
  set (a4 := void_tunnel_interface a3 id).
  assert (V4 : view a4 = view a3) by (apply void_tunnel_view).
  assert (T4 : tunnels_within (tunnel_table a) (tunnel_table a4)) by (rewrite <- T3; apply void_tunnel_within). clearbody a4.
  unfold view, view_with in *. rewrite !pair_eq in V2, V3, V4.
  destruct V2 as ((((((? & ?) & Hl) & Hp) & ?) & ?) & ?), V3 as ((((((? & ?) & ?) & ?) & ?) & ?) & ?),
    V4 as ((((((? & ?) & ?) & ?) & ?) & ?) & ?).
  match goal with |- context [retire_announce_interface ?x id] => exists x end. split.
  - rewrite <- Hl, <- Hp, !pair_eq. cbn -[core].
    repeat split; try congruence. trans (core a4); [done|congruence].
  - split; [exact T4|]. case_match; [by right|by left].
Qed.

(** Removing an interface: what it leaves, and that no link or path through it
    remains. *)
Lemma deregister_interface_spec env a id reason :
  let a' := deregister_interface_with_link_reason env a id reason in
  core a' = core a ∧ interfaces a' = delete id (interfaces a) ∧
  (∀ k e, LinkTable.get (link_table a') k = Some e →
     LinkTable.get (link_table a) k = Some e ∧ LinkTable.interface_id e ≠ id ∧ LinkTable.receiving_interface e ≠ id) ∧
  (∀ k e, PathTable.get (path_table a') k = Some e →
     PathTable.get (path_table a) k = Some e ∧ PathTable.interface_id e ≠ id) ∧
  (∀ P, all_announces P a → all_announces P a') ∧
  (reverse_table a' = reverse_table a ∨ reverse_table a' = reverse_new).
Proof.
  destruct (deregister_prefix env a id reason) as (a6 & V & _ & Hd). cbv zeta in *. unfold view_with in V.
  rewrite !pair_eq in V. destruct V as ((((((Hc & Hif) & Hl) & Hp) & Ha) & Hh) & Hrev).
  destruct (retire_announce_rest a6 id) as (Rc & _ & Ri & Rl & Rp & Rr & RP).
  assert (HP : ∀ P, all_announces P a → all_announces P (retire_announce_interface a6 id)).
  { intros P HA. apply RP. unfold all_announces. by rewrite Ha, Hh. }
  set (a7 := retire_announce_interface a6 id) in *. clearbody a7.
  destruct Hd as [-> | ->]; cbn.
  - split; [by etrans|]. rewrite Ri, Hif. split; [done|]. rewrite Rl, Hl, Rp, Hp. split; [|split; [|split; [exact HP|left; by rewrite Rr]]].
    + intros k e. unfold LinkTable.get, remove_interface, retain. cbn. intros [? Hf]%map_lookup_filter_Some.
      cbn in Hf. split; [done|]. lia.
    + intros k e. unfold PathTable.get, PathTable.drop_all_via, PathTable.with_entries, retain. cbn.
      intros [? Hf]%map_lookup_filter_Some. cbn in Hf. split; [done|]. lia.
  - split; [by etrans|]. rewrite Ri, Hif. split; [done|]. split; [|split; [|split; [|by right]]].
    + intros k e Hk. assert (LinkTable.get link_table_new k = None) by apply lookup_empty. by rewrite Hk in *.
    + intros k e Hk. assert (PathTable.get path_table_new k = None) by apply lookup_empty. by rewrite Hk in *.
    + intros P _. split; apply map_Forall_empty.
Qed.

Lemma deregister_tunnels env a id reason :
  tunnels_within (tunnel_table a) (tunnel_table (deregister_interface_with_link_reason env a id reason)).
Proof.
  destruct (deregister_prefix env a id reason) as (a6 & _ & Ht & Hd). cbv zeta in Hd.
  pose proof (retire_announce_tunnels a6 id) as Hr. set (a7 := retire_announce_interface a6 id) in *. clearbody a7.
  rewrite <- Hr in Ht. destruct Hd as [-> | ->]; [exact Ht|].
  intros k d tp Hk. change (tunnel_path tunnel_table_new k d = Some tp) in Hk. discriminate Hk.
Qed.

Lemma tunnels_within_all P a a' :
  tunnels_within (tunnel_table a) (tunnel_table a') → all_tunnel_paths P a → all_tunnel_paths P a'.
Proof. intros Ht HP id d tp Hd%Ht. by apply (HP id). Qed.
End actor_facts.

(** ** Sending: totality and effect *)

Lemma map_Forall_alter `{Countable K} {A} (P : A → Prop) f (m : gmap K A) i :
  map_Forall (λ _, P) m → (∀ x, P x → P (f x)) → map_Forall (λ _, P) (alter f i m).
Proof. intros Hm Hf k x [(-> & y & Hy & ->)|[_ Hy]]%lookup_alter_Some; [by apply Hf, (Hm k)|by apply (Hm k)]. Qed.

#[export] Instance sign_args_ok_dec p n : Decision (sign_args_ok p n).
Proof. unfold sign_args_ok. apply _. Defined.

Section send_facts.
Context `{M : Mpsc} `{D : Digest} `{!DigestLaws D} `{K : Hkdf} `{!HkdfLaws K}
  `{G : Ed25519Signer} `{!Ed25519SignerLaws G}.
Implicit Types a : Actor.

(** An interface as the registration builds it: a 64-byte access key, a
    capacity in range, a controller whose settings are representable. *)
Record iface_ok (e : Iface) : Prop := mkIfaceOk {
  io_key : ∀ k, ifac_key (if_entry e) = Some k → length k = 64%nat;
  io_size : 0 ≤ ifac_size (if_entry e);
  io_cap : cap_ok (packet_capacity (if_entry e));
  io_ctrl : ctrl_ok (if_ingress e);
}.

Definition ifaces_ok a : Prop := map_Forall (λ _, iface_ok) (interfaces a).

Lemma res_ok_total {E F A} (m : res E A) : m ≠ Panic → ∃ o, res_ok m = @Ok F _ o.
Proof. destruct m; eauto; done. Qed.

Lemma header_unpack_no_panic raw : bytes_ok raw → header_unpack raw ≠ Panic.
Proof. intros Hb Hp. pose proof (header_unpack_total raw Hb) as Hu. by rewrite Hp in Hu. Qed.

Lemma try_ifac_sign_no_panic packet key n : length key = 64%nat → try_ifac_sign packet key n ≠ Panic.
Proof.
  intros Hk. destruct (decide (sign_args_ok packet n)) as [Ha|Ha].
  - destruct (sign_form packet key n Hk Ha) as (? & ? & ? & ? & ? & ? & _ & _ & _ & _ & ->). done.
  - by destruct (sign_err packet key n Ha) as (? & -> & _).
Qed.

(** What reaches the driver: the packet, under the interface's access code. *)
Definition wire_image (e : Iface) (raw : bytes) : option bytes :=
  match ifac_key (if_entry e) with
  | Some key =>
      match try_ifac_sign raw key (Z.to_nat (ifac_size (if_entry e))) with Ok d => Some d | _ => None end
  | None => Some raw
  end.

Lemma wire_image_runs e raw : iface_ok e →
  (match ifac_key (if_entry e) with
   | Some key => res_ok (try_ifac_sign raw key (Z.to_nat (ifac_size (if_entry e))))
   | None => Ok (Some raw)
   end : io (option bytes)) = Ok (wire_image e raw).
Proof.
  intros Hi. unfold wire_image. destruct (ifac_key (if_entry e)) as [k|] eqn:Hk; [|done].
  pose proof (try_ifac_sign_no_panic raw k (Z.to_nat (ifac_size (if_entry e))) (io_key e Hi k Hk)).
  by destruct (try_ifac_sign _ _ _).
Qed.

(** The interface takes packets of this length at all. *)
Definition open_for (e : Iface) (n : Z) : Prop :=
  owner_current (owner (if_entry e)) = true ∧ accepts_clear_packet (if_entry e) n = true ∧
  interface_marked_offline e = false ∧ if_outbound e = true.

(** The outcomes of a send: only an admitted packet changes the state. *)
Inductive sends a id raw : Actor → InterfaceSendOutcome → Prop :=
| sends_refused out : out ≠ OutSent → sends a id raw a out
| sends_sent e data link_id :
    interfaces a !! id = Some e → owner_current (owner (if_entry e)) = true →
    accepts_clear_packet (if_entry e) (len raw) = true → if_outbound e = true →
    wire_image e raw = Some data → (try_send (wires a (if_tx e)) data).2 = SendOk →
    let a' := upd_wires <[if_tx e := (try_send (wires a (if_tx e)) data).1]> a in
    sends a id raw (match link_id with Some l => record_request_owner a' id e l | None => a' end) OutSent.

Lemma request_owner_total a raw hdr : raw ≠ [] → ∃ o, request_owner a raw hdr = Ok o ∧
  ∀ l off, o = Some (l, off) → ∃ h, hdr = Some (h, off).
Proof.
  intros Hne. unfold request_owner. destruct hdr as [[h off]|]; [|by exists None].
  case_bool_decide; [|by exists None]. unfold link_id_from_raw.
  rewrite get_hashable_part_total by done. cbn [res_bind]. rewrite truncated_hash_ok. cbn [res_bind].
  case_bool_decide; eexists; (split; [done|]); intros l o' [= <- <-]; eauto.
Qed.

Lemma local_refusal_total a id e raw l off :
  bytes_ok raw → (off ≤ length raw)%nat →
  ∃ o, local_request_refusal a id e raw l off = Ok o ∧ o ≠ Some OutSent.
Proof.
  intros Hb Ho. unfold local_request_refusal. rewrite slice_from_ok by done. cbn [res_bind].
  destruct (res_ok_total (F:=Empty_set) _ (parse_request_no_panic _ (bytes_ok_drop off raw Hb))) as [[s|] ->];
    cbn [res_bind]; [|eexists; by split].
  pose proof (link_ceiling_no_panic (packet_capacity (if_entry e)) id (active_ifac_bytes (if_entry e))) as Hl.
  unfold entry_link_ceiling. destruct (link_ceiling _ _ _); cbn [is_ok res_bind]; try done;
    repeat case_match; eexists; by split.
Qed.

Lemma try_send_total a id raw :
  ifaces_ok a → bytes_ok raw → raw ≠ [] →
  ∃ a' out, try_send_to_interface a id raw = Ok (a', out) ∧ sends a id raw a' out.
Proof.
  intros Hok Hb Hne. unfold try_send_to_interface.
  destruct (interfaces a !! id) as [e|] eqn:He; [|eexists _, _; split; [done|by constructor]].
  pose proof (Hok _ _ He) as Hi.
  destruct (owner_current (owner (if_entry e))) eqn:Hcur; cbn [negb]; [|eexists _, _; split; [done|by constructor]].
  destruct (accepts_clear_packet (if_entry e) (len raw)) eqn:Hacc; cbn [negb]; [|eexists _, _; split; [done|by constructor]].
  case_match; [eexists _, _; split; [done|by constructor]|].
  destruct (if_outbound e) eqn:Hout; cbn [negb]; [|eexists _, _; split; [done|by constructor]].
  pose proof (header_unpack_total raw Hb) as Hu.
  destruct (res_ok_total (F:=Empty_set) _ (header_unpack_no_panic raw Hb)) as [hdr Hhdr]. rewrite Hhdr. cbn [res_bind].
  pose proof (link_ceiling_no_panic (packet_capacity (if_entry e)) id (active_ifac_bytes (if_entry e))) as Hl.
  assert (∃ b, is_ok (entry_link_ceiling e id) = @Ok Empty_set _ b) as [b ->]
    by (unfold entry_link_ceiling; destruct (link_ceiling _ _ _); eauto; done).
  cbn [res_bind]. destruct (_ && negb b); [eexists _, _; split; [done|by constructor]|].
  destruct (request_owner_total a raw hdr Hne) as (ro & -> & Hro). cbn [res_bind].
  assert (∃ o, match ro with Some (l, off) => local_request_refusal a id e raw l off | None => Ok None end = Ok o ∧ o ≠ Some OutSent)
    as (o & -> & Ho).
  { destruct ro as [[l off]|]; [|by exists None]. destruct (Hro l off eq_refl) as [h Hh].
    apply local_refusal_total; [done|]. subst hdr. destruct (header_unpack raw) as [[h' off']| |]; [|done..].
    injection Hhdr as -> ->. tauto. }
  cbn [res_bind]. destruct o as [out|]; [eexists _, _; split; [done|by constructor; congruence]|].
  rewrite wire_image_runs by done. cbn [res_bind].
  destruct (wire_image e raw) as [data|] eqn:Hw; [|eexists _, _; split; [done|by constructor]].
  destruct (try_send (wires a (if_tx e)) data) as [c r] eqn:Hs.
  destruct r; (eexists _, _; split; [done|]); try by constructor.
  replace c with (try_send (wires a (if_tx e)) data).1 by by rewrite Hs.
  destruct ro as [[l off]|]; [apply (sends_sent a id raw e data (Some l))|apply (sends_sent a id raw e data None)];
    try done; by rewrite Hs.
Qed.

(** *** The state invariant

    Keys are 64 bytes, identifiers 16, the hop delta a byte; queued announces
    are within the hop limit.  [n] more announces cannot overflow a violation
    counter. *)
Definition id_ok (o : option bytes) : Prop := ∀ i, o = Some i → array_ok 16 i.
Definition key_ok (o : option bytes) : Prop := ∀ k, o = Some k → length k = 64%nat.
Definition queued_ok (e : AnnounceEntry) : Prop := 0 ≤ ae_hops e < PATHFINDER_M ∧ 0 ≤ local_rebroadcasts e < 2.

Record actor_ok (n : Z) a : Prop := mkActorOk {
  ok_ifaces : ifaces_ok a;
  ok_announces : all_announces queued_ok a;
  ok_rate : map_Forall (λ _ e, 0 ≤ violations e ∧ violations e + n ≤ U32_MAX) (RateLimit.entries (rate_table a));
  ok_headroom : 0 ≤ n ≤ U32_MAX;
  ok_recent : map_Forall (λ _ r, key_ok (ra_public_key r)) (recent_announces a);
  ok_receipts : map_Forall (λ _ r, key_ok (r_destination_public_key r)) (receipt_table a);
  ok_paths : map_Forall (λ _ e, id_ok (PathTable.next_hop e)) (PathTable.entries (path_table a));
  ok_tunnels : all_tunnel_paths (λ _ tp, id_ok (tp_next_hop tp)) a;
  ok_identity : id_ok (transport_identity_hash a);
  ok_delta : u8 (local_hops_delta a);
}.

Lemma fixed_eq a a' :
  fixed a' = fixed a →
  packet_hashlist a' = packet_hashlist a ∧ rate_table a' = rate_table a ∧ recent_announces a' = recent_announces a ∧
  receipt_table a' = receipt_table a ∧ transport_identity_hash a' = transport_identity_hash a ∧
  local_hops_delta a' = local_hops_delta a ∧ is_transport_enabled a' = is_transport_enabled a ∧
  mailboxes a' = mailboxes a.
Proof. unfold fixed. rewrite !pair_eq. tauto. Qed.

(** Only these parts matter for the invariant. *)
Lemma actor_ok_transfer n a a' :
  actor_ok n a → fixed a' = fixed a → ifaces_ok a' → (∀ P, all_announces P a → all_announces P a') →
  (∀ P, all_tunnel_paths P a → all_tunnel_paths P a') →
  (∀ k e, PathTable.get (path_table a') k = Some e → ∃ k' e', PathTable.get (path_table a) k' = Some e' ∧
     PathTable.next_hop e = PathTable.next_hop e') →
  actor_ok n a'.
Proof.
  intros [] (_ & Hr & Hre & Hrc & Hi & Hd & _)%fixed_eq Hif HP HT Hp. constructor;
    [done|auto|by rewrite Hr|done|by rewrite Hre|by rewrite Hrc| |auto|by rewrite Hi|by rewrite Hd].
  intros k e Hk. destruct (Hp k e Hk) as (k' & e' & Hk' & ->). by apply (ok_paths0 k').
Qed.

Lemma deregister_ok n env a id reason :
  actor_ok n a → actor_ok n (deregister_interface_with_link_reason env a id reason).
Proof.
  intros Hok. destruct (deregister_interface_spec env a id reason) as (Hc & Hif & _ & Hp & HP & _). cbv zeta in *.
  unfold core in Hc. apply pair_eq in Hc as [Hc _].
  apply (actor_ok_transfer n a); [done|done| |done|by intros P; apply tunnels_within_all, deregister_tunnels|].
  - unfold ifaces_ok. rewrite Hif. apply map_Forall_delete, (ok_ifaces n a Hok).
  - intros k e (Hk & _)%Hp. eauto.
Qed.

Lemma sends_ok n a id raw a' : actor_ok n a → sends a id raw a' OutSent → actor_ok n a' ∧ fixed a' = fixed a.
Proof.
  intros Hok Hs. inversion Hs; subst; [done|].
  assert (Ha : ∀ l, actor_ok n (match l with Some l => record_request_owner a'0 id e l | None => a'0 end) ∧
    fixed (match l with Some l => record_request_owner a'0 id e l | None => a'0 end) = fixed a); [|apply Ha].
  intros l. assert (fixed (match l with Some l => record_request_owner a'0 id e l | None => a'0 end) = fixed a) by by destruct l.
  split; [|done]. apply (actor_ok_transfer n a); try done; destruct l; try done; try apply (ok_ifaces n a Hok); eauto.
Qed.

Lemma send_total n env a id raw :
  actor_ok n a → bytes_ok raw → raw ≠ [] →
  ∃ a' b, send_to_interface env a id raw = Ok (a', b) ∧ actor_ok n a' ∧ fixed a' = fixed a ∧
    if b then sends a id raw a' OutSent else wires a' = wires a.
Proof.
  intros Hok Hb Hne. unfold send_to_interface.
  destruct (try_send_total a id raw (ok_ifaces n a Hok) Hb Hne) as (a1 & out & -> & Hs). cbn [res_bind].
  assert (Hd : ∀ r, actor_ok n (deregister_interface_with_link_reason env a id r) ∧
    fixed (deregister_interface_with_link_reason env a id r) = fixed a ∧
    wires (deregister_interface_with_link_reason env a id r) = wires a).
  { intros r. split; [by apply deregister_ok|]. destruct (deregister_interface_spec env a id r) as (Hc & _).
    by apply pair_eq in Hc. }
  destruct out; try (assert (a1 = a) as -> by (by inversion Hs)); [| |by eexists _, false|by eexists _, false|by eexists _, false|by eexists _, false|by eexists _, false].
  - eexists _, true. split; [done|]. destruct (sends_ok n a id raw a1 Hok Hs). auto.
  - eexists _, false. split; [done|]. split; [|done]. apply (actor_ok_transfer n a); try done; [|eauto].
    apply map_Forall_alter; [apply Hok|]. intros e []. by constructor.
Qed.

(** A frame is a nonempty byte string. *)
Definition frame_ok (raw : bytes) : Prop := bytes_ok raw ∧ raw ≠ [].

Lemma send_to_each_total n env ids frame a :
  actor_ok n a → (∀ a' id, actor_ok n a' → fixed a' = fixed a → ∃ raw, frame a' id = Ok raw ∧ frame_ok raw) →
  ∃ a' b, send_to_each env a ids frame = Ok (a', b) ∧ actor_ok n a' ∧ fixed a' = fixed a.
Proof.
  revert a. induction ids as [|id ids IH]; intros a Hok Hf; [by exists a, false|]. cbn [send_to_each].
  destruct (Hf a id Hok eq_refl) as (raw & -> & Hb & Hne). cbn [res_bind].
  destruct (send_total n env a id raw Hok Hb Hne) as (a1 & b & -> & Hok1 & Hfix & _). cbn [res_bind].
  destruct (IH a1 Hok1) as (a2 & b2 & -> & Hok2 & Hfix2).
  { intros a' i Ha' Hfa. apply Hf; [done|]. by rewrite Hfa. }
  cbn [res_bind]. eexists _, _. split; [done|]. split; [done|]. by rewrite Hfix2.
Qed.

Lemma put_byte1_ok (raw : bytes) v : bytes_ok raw → u8 v → bytes_ok (<[1%nat := v]> raw).
Proof. intros. by apply Forall_insert. Qed.

Lemma put_byte1_frame (raw : bytes) v : frame_ok raw → u8 v → frame_ok (<[1%nat := v]> raw).
Proof. intros [Hb Hne] Hv. split; [by apply put_byte1_ok|]. destruct raw as [|? []]; done. Qed.

Lemma broadcast_total n env a raw except :
  actor_ok n a → frame_ok raw →
  ∃ a' b, broadcast_on_interfaces env a raw except = Ok (a', b) ∧ actor_ok n a' ∧ fixed a' = fixed a.
Proof.
  intros Hok [Hb Hne]. unfold broadcast_on_interfaces. pose proof (header_unpack_total raw Hb) as Hu.
  assert (∃ o, (if local_hops_delta a =? 0 then Ok None else res_ok (header_unpack raw)) = @Ok Empty_set _ o ∧
    ∀ h off, o = Some (h, off) → (1 < length raw)%nat) as (o & -> & Ho).
  { destruct (local_hops_delta a =? 0); [by exists None|]. destruct (header_unpack raw) as [[h off]| |]; [|by exists None|done].
    eexists; split; [done|]. intros h' off' _. destruct Hu as (_ & -> & Hl & _). unfold header_size in Hl.
    case_decide; cbn in Hl; lia. }
  cbn [res_bind]. apply send_to_each_total; [done|]. intros a' id Ha' Hfa.
  destruct o as [[h off]|]; [|by eexists]. specialize (Ho h off eq_refl).
  destruct (should_apply_delta a' h id); [|by eexists]. unfold mangle_hops, set_byte1. rewrite decide_True by done.
  eexists; split; [done|]. apply put_byte1_frame; [done|]. apply (ok_delta n a' Ha').
Qed.

Lemma deliver_ok n a dest ev : actor_ok n a → actor_ok n (deliver_or_count a dest ev).
Proof.
  intros []. unfold deliver_or_count, try_deliver. case_match; [|done].
  destruct (try_send _ _) as [c []]; repeat case_decide; by constructor.
Qed.
End send_facts.
