(* ===== verification/Restore.v ===== *)
(** * Restoring the paths of a tunnel

    Models [restore_tunnel_paths] of [rns-transport/src/actor/outbound.rs] and
    the announce times of [actor/mod.rs] it compares: when a tunnel reappears
    on an interface, the paths it remembers are put back into the path table
    unless they have been superseded or have expired.  Waking the callers that
    wait for a path is left out, as it is where announces install paths. *)

From S2P Require Import Prelude F64 Wire Packet LinkSignalling Receipt Ifac Table Hashlist PathTable.
From S2P Require Import ReverseTable LinkTable Ownership LinkTransit Tunnel Identity Announce Ingress RateLimit Blackhole.
From S2P Require Import Actor ActorFacts.
From stdpp Require Import prelude gmap fin_maps functions list.

Open Scope Z_scope.

(** ** Announce times *)

Definition announce_timebase (random_blob : bytes) : Z := be_value (drop 5 random_blob).

Definition path_timebase_from_random_blobs (blobs : list bytes) : Z :=
  foldr Z.max 0 (announce_timebase <$> blobs).

Section restore.
Context `{Mpsc} `{Digest} `{Hkdf} `{Ed25519Signer}.
Implicit Types a : Actor.

(** Is the remembered path better than what the table holds? *)
Definition restore_due (env : Env) (existing : option PathEntry) (tp : TunnelPath) : bool :=
  match existing with
  | Some existing =>
      if (tp_hops tp <=? PathTable.hops existing) || f_gt (now env) (PathTable.expires existing) then
        path_timebase_from_random_blobs (random_blobs existing) <=? path_timebase_from_random_blobs (tp_random_blobs tp)
      else false
  | None => f_lt (now env) (tp_expires tp)
  end.

Definition restored_entry (env : Env) (interface_id : Z) (tp : TunnelPath) : PathEntry := {|
  PathTable.timestamp := now env; PathTable.next_hop := tp_next_hop tp; PathTable.hops := tp_hops tp;
  PathTable.expires := tp_expires tp; random_blobs := tp_random_blobs tp;
  PathTable.interface_id := interface_id; PathTable.packet_hash := tp_packet_hash tp |}.

(** One turn of the loop; the second component collects the paths to drop. *)
Definition restore_path (env : Env) (interface_id : Z) (s : Actor * list bytes) (p : bytes * TunnelPath)
    : Actor * list bytes :=
  if restore_due env (PathTable.get (path_table s.1) p.1) p.2 then
    (upd_state_dirty (λ _, true)
       (upd_path_table (λ t, PathTable.insert t p.1 (restored_entry env interface_id p.2)) s.1), s.2)
  else (s.1, s.2 ++ [p.1]).

Definition with_tunnel_paths (f : gmap bytes TunnelPath → gmap bytes TunnelPath) (u : TunnelEntry) : TunnelEntry := {|
  tunnel_id := tunnel_id u; Tunnel.interface_id := Tunnel.interface_id u;
  tunnel_paths := f (tunnel_paths u); Tunnel.expires := Tunnel.expires u |}.

(** What a caller does through [get_mut]. *)
Definition tunnel_get_mut (t : TunnelTable) (id : bytes) (f : TunnelEntry → TunnelEntry) : TunnelTable :=
  {| Tunnel.entries := alter f id (Tunnel.entries t); by_interface := by_interface t |}.

(** The code walks a hash map.  A turn reads and writes the entry of its own
    destination only, so every order of the walk has the result that
    [tunnel_paths_restored] states. *)
Definition restore_tunnel_paths (env : Env) (a : Actor) (tid : bytes) (interface_id : Z) : Actor :=
  match Tunnel.get (tunnel_table a) tid with
  | None => a
  | Some tunnel =>
      let '(a, deprecated_paths) :=
        foldl (restore_path env interface_id) (a, []) (map_to_list (tunnel_paths tunnel)) in
      if decide (deprecated_paths = []) then a
      else
        upd_state_dirty (λ _, true)
          (upd_tunnel_table (λ t,
             tunnel_get_mut t tid (with_tunnel_paths (λ m, foldl (λ m d, delete d m) m deprecated_paths))) a)
  end.

(** ** What it does, in any order *)

Lemma restore_path_tunnels env i s p : tunnel_table (restore_path env i s p).1 = tunnel_table s.1.
Proof. unfold restore_path. by case_match. Qed.

Lemma restore_path_other env i s p d :
  d ≠ p.1 → PathTable.get (path_table (restore_path env i s p).1) d = PathTable.get (path_table s.1) d.
Proof.
  intros Hne. unfold restore_path. case_match; [|done]. unfold PathTable.get, PathTable.insert. cbn -[insert lookup].
  by rewrite lookup_insert_ne.
Qed.

(** The verdict on one destination. *)
Definition restored (env : Env) (i : Z) (m : list (bytes * TunnelPath)) (before after : option PathEntry)
    (d : bytes) (dropped : Prop) : Prop :=
  ((d ∉ m.*1) ∧ after = before ∧ ¬ dropped) ∨
  ∃ tp, (d, tp) ∈ m ∧
    ((restore_due env before tp = true ∧ after = Some (restored_entry env i tp) ∧ ¬ dropped) ∨
     (restore_due env before tp = false ∧ after = before ∧ dropped)).

Lemma restore_loop env i m : NoDup m.*1 → ∀ s,
  (∀ d, d ∈ s.2 → d ∉ m.*1) →
  let s' := foldl (restore_path env i) s m in
  tunnel_table s'.1 = tunnel_table s.1 ∧
  ∀ d, d ∉ s.2 → restored env i m (PathTable.get (path_table s.1) d) (PathTable.get (path_table s'.1) d) d (d ∈ s'.2).
Proof.
  induction m as [|[k tp] m IH]; cbn [foldl]; intros Hnd s Hs.
  { split; [done|]. intros d Hd. left. split; [apply not_elem_of_nil|done]. }
  cbn in Hnd. apply NoDup_cons in Hnd as [Hk Hnd].
  assert (Hs1 : ∀ d, d ∈ (restore_path env i s (k, tp)).2 → (d ∉ m.*1) ∧ (d ∈ s.2 ∨ d = k)).
  { intros d. unfold restore_path. case_match; cbn; rewrite ?elem_of_app, ?list_elem_of_singleton.
    - intros Hd. split; [|by left]. specialize (Hs d Hd). cbn in Hs. by apply not_elem_of_cons in Hs as [_ ?].
    - intros [Hd| ->]; [|by split; [|right]]. split; [|by left]. specialize (Hs d Hd). cbn in Hs. by apply not_elem_of_cons in Hs as [_ ?]. }
  destruct (IH Hnd (restore_path env i s (k, tp)) (λ d Hd, proj1 (Hs1 d Hd))) as [Ht Hd].
  split; [by rewrite Ht, restore_path_tunnels|]. intros d Hds.
  destruct (decide (d = k)) as [-> |Hne].
  - right. exists tp. split; [by left|]. clear IH Hs1 Hs Ht.
    assert (Hkeep : ∀ s1, (k ∈ (foldl (restore_path env i) s1 m).2 ↔ k ∈ s1.2) ∧
      PathTable.get (path_table (foldl (restore_path env i) s1 m).1) k = PathTable.get (path_table s1.1) k).
    { clear -Hk. induction m as [|[k' tp'] m IH]; intros s1; [done|]. cbn in Hk. apply not_elem_of_cons in Hk as [Hne Hk].
      cbn [foldl]. destruct (IH Hk (restore_path env i s1 (k', tp'))) as [-> ->].
      rewrite restore_path_other by done. split; [|done]. unfold restore_path. case_match; cbn; [done|].
      rewrite elem_of_app, list_elem_of_singleton. tauto. }
    destruct (Hkeep (restore_path env i s (k, tp))) as [Hin Hget]. rewrite Hin, Hget. unfold restore_path. cbn [fst snd].
    destruct (restore_due env _ tp) eqn:Hdue; [left|right]; cbn -[insert lookup];
      rewrite ?elem_of_app, ?list_elem_of_singleton; split_and!; auto.
    unfold PathTable.get, PathTable.insert. cbn -[insert lookup]. by rewrite lookup_insert_eq.
  - assert (Hds1 : d ∉ (restore_path env i s (k, tp)).2) by (intros [_ [?| ->]]%Hs1; done).
    specialize (Hd d Hds1). rewrite (restore_path_other _ _ _ (k, tp) d Hne) in Hd.
    destruct Hd as [(Hm & Ha & Hdr)|(tp' & Hm & Ha)]; [left|right].
    + split; [|done]. cbn. by apply not_elem_of_cons.
    + exists tp'. split; [by right|done].
Qed.

Lemma delete_all_lookup (l : list bytes) (m : gmap bytes TunnelPath) d :
  foldl (λ m d, delete d m) m l !! d = if decide (d ∈ l) then None else m !! d.
Proof.
  revert m. induction l as [|k l IH]; intros m; [done|]. cbn [foldl]. rewrite IH.
  destruct (decide (d ∈ l)) as [Hl|Hl].
  - by rewrite decide_True by (by right).
  - destruct (decide (d = k)) as [-> |Hne].
    + by rewrite lookup_delete_eq, decide_True by (by left).
    + rewrite lookup_delete_ne by done. rewrite decide_False; [done|]. by intros [?|?]%elem_of_cons.
Qed.

Lemma restore_due_spec env before tp :
  restore_due env before tp = true ↔
  match before with
  | Some e =>
      (tp_hops tp ≤ PathTable.hops e ∨ f_gt (now env) (PathTable.expires e) = true) ∧
      path_timebase_from_random_blobs (random_blobs e) ≤ path_timebase_from_random_blobs (tp_random_blobs tp)
  | None => f_lt (now env) (tp_expires tp) = true
  end.
Proof.
  destruct before as [e|]; [|done]. unfold restore_due. rewrite <- !Z.leb_le.
  destruct (tp_hops tp <=? _), (f_gt _ _); cbn -[Z.leb]; intuition congruence.
Qed.

(** What the walk leaves alone. *)
Definition bystanders a :=
  (fixed a, interfaces a, announce_table a, held a, link_table a, wires a, reverse_table a, recent_announces a,
   link_endpoints a, local_destinations a).

Lemma restore_loop_rest env i m s : bystanders (foldl (restore_path env i) s m).1 = bystanders s.1.
Proof.
  revert s. induction m as [|p m IH]; intros s; [done|]. cbn [foldl]. rewrite IH. unfold restore_path. by case_match.
Qed.

Lemma restore_frame env a tid i :
  let a' := restore_tunnel_paths env a tid i in
  bystanders a' = bystanders a ∧
  delete tid (Tunnel.entries (tunnel_table a')) = delete tid (Tunnel.entries (tunnel_table a)) ∧
  by_interface (tunnel_table a') = by_interface (tunnel_table a).
Proof.
  cbv zeta. unfold restore_tunnel_paths. destruct (Tunnel.get (tunnel_table a) tid) as [u|]; [|done].
  pose proof (restore_loop env i (map_to_list (tunnel_paths u)) (NoDup_fst_map_to_list _) (a, [])
    ltac:(by intros ? ?%elem_of_nil)) as [Ht _].
  pose proof (restore_loop_rest env i (map_to_list (tunnel_paths u)) (a, [])) as Hr.
  destruct (foldl _ _ _) as [a1 gone]. cbn [fst snd] in *. rewrite <- Hr, <- Ht. clear Hr Ht.
  case_decide; [done|]. split; [done|]. split; [|done]. cbn -[delete alter]. apply delete_alter_eq.
Qed.

(** The result for one destination. *)
Lemma restore_lookup env a tid i d :
  let a' := restore_tunnel_paths env a tid i in
  match tunnel_path (tunnel_table a) tid d with
  | None =>
      PathTable.get (path_table a') d = PathTable.get (path_table a) d ∧ tunnel_path (tunnel_table a') tid d = None
  | Some tp =>
      if restore_due env (PathTable.get (path_table a) d) tp
      then PathTable.get (path_table a') d = Some (restored_entry env i tp) ∧
           tunnel_path (tunnel_table a') tid d = Some tp
      else PathTable.get (path_table a') d = PathTable.get (path_table a) d ∧
           tunnel_path (tunnel_table a') tid d = None
  end.
Proof.
  cbv zeta. unfold tunnel_path at 1, restore_tunnel_paths.
  destruct (Tunnel.get (tunnel_table a) tid) as [u|] eqn:Hu; cbn [mbind option_bind].
  2: { split; [done|]. unfold tunnel_path. by rewrite Hu. }
  pose proof (restore_loop env i (map_to_list (tunnel_paths u)) (NoDup_fst_map_to_list _) (a, [])
    ltac:(by intros ? ?%elem_of_nil)) as [Ht Hd]. specialize (Hd d (not_elem_of_nil d)).
  destruct (foldl _ _ _) as [a1 gone]. cbn [fst snd] in *.
  set (a2 := if decide (gone = []) then a1 else _).
  assert (Hp : path_table a2 = path_table a1) by (subst a2; by case_decide).
  assert (Hkeep : tunnel_path (tunnel_table a2) tid d = if decide (d ∈ gone) then None else tunnel_paths u !! d).
  { subst a2. unfold tunnel_path, Tunnel.get in Hu |- *. case_decide as Hg.
    - subst gone. by rewrite Ht, Hu.
    - cbn -[lookup alter]. rewrite lookup_alter_eq, Ht, Hu. cbn. apply delete_all_lookup. }
  clearbody a2. rewrite Hkeep, Hp. destruct Hd as [(Hno & Ha & Hg)|(tp & Hin & Hd)].
  - assert (tunnel_paths u !! d = None) as ->.
    { destruct (tunnel_paths u !! d) as [tp|] eqn:Hdu; [exfalso|done]. apply Hno.
      apply list_elem_of_fmap. exists (d, tp). split; [done|]. by apply elem_of_map_to_list. }
    split; [done|]. by case_decide.
  - apply elem_of_map_to_list in Hin. rewrite Hin.
    destruct Hd as [(-> & Ha & Hg)|(-> & Ha & Hg)]; rewrite Ha; split; try done; by case_decide.
Qed.

Lemma restore_within env a tid i :
  tunnels_within (tunnel_table a) (tunnel_table (restore_tunnel_paths env a tid i)).
Proof.
  intros k d tp. destruct (decide (k = tid)) as [-> |Hne].
  - pose proof (restore_lookup env a tid i d) as Hl. cbv zeta in Hl.
    destruct (tunnel_path (tunnel_table a) tid d); [case_match|]; destruct Hl as [_ ->]; done.
  - destruct (restore_frame env a tid i) as (_ & Hd & _). cbv zeta in Hd.
    unfold tunnel_path, Tunnel.get. intros Hk. rewrite <- Hk. f_equal.
    rewrite <- (lookup_delete_ne _ tid k) by done. by rewrite <- Hd, lookup_delete_ne by done.
Qed.

(** Binding a tunnel to an interface keeps what it remembers. *)
Lemma handle_tunnel_path t tid i x k d : tunnel_path (Tunnel.handle_tunnel t tid i x) k d = tunnel_path t k d.
Proof.
  unfold Tunnel.handle_tunnel, tunnel_path, Tunnel.get, Tunnel.insert.
  destruct (Tunnel.entries t !! tid) as [u|] eqn:Hu; cbn -[insert lookup];
    (destruct (decide (k = tid)) as [-> |]; [rewrite lookup_insert_eq, Hu|by rewrite lookup_insert_ne]); done.
Qed.

(** An expired path is put back over one that is still live, when it is no
    longer and at least as recent: the code asks for the expiry of a remembered
    path only where the table has none. *)
Lemma expired_path_restored env a tid i d tp e :
  tunnel_path (tunnel_table a) tid d = Some tp → PathTable.get (path_table a) d = Some e →
  f_lt (now env) (tp_expires tp) = false → f_gt (now env) (PathTable.expires e) = false →
  tp_hops tp ≤ PathTable.hops e →
  path_timebase_from_random_blobs (random_blobs e) ≤ path_timebase_from_random_blobs (tp_random_blobs tp) →
  PathTable.get (path_table (restore_tunnel_paths env a tid i)) d = Some (restored_entry env i tp).
Proof.
  intros Htp He _ _ Hh Ht. pose proof (restore_lookup env a tid i d) as Hl. cbv zeta in Hl. rewrite Htp, He in Hl.
  unfold restore_due at 1 in Hl. rewrite (proj2 (Z.leb_le _ _) Hh) in Hl. cbn -[Z.leb] in Hl.
  rewrite (proj2 (Z.leb_le _ _) Ht) in Hl. by destruct Hl.
Qed.

End restore.
