(* ===== verification/Forward.v ===== *)
(** * Forwarding of data packets and link requests

    Models [transport_forward_candidate], [rewrite_forwarded_transport_packet],
    [route_link_packet_via_link_table], [process_data] and
    [process_link_request] of [rns-transport/src/actor/inbound.rs].  A header
    passed to a handler carries the adjusted hop count.  A tunnel's paths are
    put back by Restore.v.  Path requests and cache requests are not modelled:
    the handlers end by naming the call ([Next]), as those of Learn.v do for
    the dissemination of an announce. *)

From S2P Require Import Prelude F64 Wire Packet LinkSignalling Receipt Ifac Table Hashlist PathTable.
From S2P Require Import ReverseTable LinkTable Ownership LinkTransit Tunnel Identity Announce Ingress RateLimit Blackhole.
From S2P Require Import Msgpack Actor Restore.
From stdpp Require Import prelude list gmap fin_maps functions strings.

Open Scope Z_scope.

(** The call a handler ends with, when it is not modelled here. *)
Inductive Next :=
| Done
| HandlePathRequest (payload : bytes) (interface_id : Z)
| HandleCacheRequest (raw : bytes) (h : PacketHeader) (interface_id : Z)
| DisseminateAnnounce (raw : bytes) (h : PacketHeader) (interface_id : Z).

Section forward.
Context `{Mpsc} `{Digest} `{Hkdf} `{Ed25519Signer} `{Ed25519} `{!Ed25519Keys}.

Definition tunnel_synthesize_dest_hash : io bytes :=
  hash_from_name_and_identity (string_bytes "rnstransport.tunnel.synthesize") None.

Definition path_request_dest_hash : io bytes :=
  hash_from_name_and_identity (string_bytes "rnstransport.path.request") None.

(** ** Whether and how to forward *)

Definition with_header (h : PacketHeader) (ht : HeaderType) (tt : TransportType) (tid : option bytes) : PacketHeader :=
  mkHeader (mkFlags ht (context_flag (flags h)) tt (destination_type (flags h)) (packet_type (flags h)))
    (Wire.hops h) tid (Wire.destination_hash h) (context h).

(** [if forwarded.len() >= 2 { forwarded[1] = v }] *)
Definition put_hops (raw : bytes) (v : Z) : bytes := <[1%nat := v]> raw.

Definition rewrite_forwarded_transport_packet (a : Actor) (raw : bytes) (h : PacketHeader) (path : PathEntry)
    (to_local_client : bool) : io (option bytes) :=
  let payload_offset := header_size h in
  if decide (length raw < payload_offset)%nat then Ok None else
  if 1 <? PathTable.hops path then
    match PathTable.next_hop path with
    | None => Ok None
    | Some next_hop =>
        let* rest := slice_from raw payload_offset in
        Ok (Some (header_pack (with_header h Header2 Transport (Some next_hop)) ++ rest))
    end
  else if (PathTable.hops path =? 1)
       || (to_local_client && negb (local_hops_delta a =? 0)
           && bool_decide (header_type (flags h) = Header2)) then
    let* rest := slice_from raw payload_offset in
    Ok (Some (header_pack (with_header h Header1 Broadcast None) ++ rest))
  else Ok (Some (put_hops raw (Wire.hops h))).

(** The packet names this instance in its transport id. *)
Definition addressed_to_us (a : Actor) (h : PacketHeader) : bool :=
  match Wire.transport_id h, transport_identity_hash a with
  | Some t, Some ours => bool_decide (t = ours)
  | _, _ => false
  end.

Definition transport_forward_candidate (env : Env) (a : Actor) (raw : bytes) (h : PacketHeader)
    (from_local_client for_local_client to_local_client : bool) : io (option (Z * bytes)) :=
  match PathTable.get_live (path_table a) (Wire.destination_hash h) (now env) with
  | None => Ok None
  | Some path =>
      let may_forward_for_shared_client := from_local_client || for_local_client in
      if may_forward_for_shared_client && bool_decide (is_Some (Wire.transport_id h)) && negb (addressed_to_us a h)
      then Ok None else
      if negb may_forward_for_shared_client && (negb (is_transport_enabled a) || negb (addressed_to_us a h))
      then Ok None else
      let* forwarded := rewrite_forwarded_transport_packet a raw h path to_local_client in
      match forwarded with
      | None => Ok None
      | Some forwarded =>
          let* forwarded :=
            if negb (local_hops_delta a =? 0) && from_local_client && negb to_local_client
            then set_byte1 forwarded (local_hops_delta a) else Ok forwarded in
          Ok (Some (PathTable.interface_id path, forwarded))
      end
  end.

(** A live path of the destination, or a pending proof for it, leads to a
    local client. *)
Definition path_to_local_client (env : Env) (a : Actor) (dest : bytes) : bool :=
  match PathTable.get_live (path_table a) dest (now env) with
  | Some path => is_local_client_interface a (PathTable.interface_id path)
  | None => false
  end.

Definition proof_to_local_client (a : Actor) (dest : bytes) : bool :=
  match ReverseTable.get (reverse_table a) dest with
  | Some e => is_local_client_interface a (ReverseTable.receiving_interface e)
  | None => false
  end.

(** ** Packets of links in transit *)

(** Contexts that repeat legitimately and bypass the hash list. *)
Definition skips_hashlist (c : PacketContext) : bool :=
  match c with
  | Keepalive | Resource | ResourceReq | ResourcePrf | CacheRequest | Channel => true
  | _ => false
  end.

(** The owner a link entry recorded is still registered under this id. *)
Definition owner_registered (a : Actor) (id : Z) (o : option InterfaceOwnerId) : bool :=
  match o, interfaces a !! id with
  | Some o, Some e => owner_current (owner (if_entry e)) && bool_decide (owner_id (owner (if_entry e)) = o)
  | _, _ => false
  end.

Definition link_registration_is_current (a : Actor) (e : LinkEntry) : bool :=
  owner_registered a (LinkTable.interface_id e) (interface_owner e)
  && owner_registered a (LinkTable.receiving_interface e) (receiving_owner e).

Definition proof_window_closed (env : Env) (e : LinkEntry) : bool :=
  f_ge (now env) (proof_timeout e) || negb (f_is_finite (proof_timeout e)).

(** Where a packet of a link goes: [None] when it came from outside the path,
    [Some None] when its hop count does not fit its side of the link. *)
Definition link_target (e : LinkEntry) (interface_id hops : Z) : option (option Z) :=
  if LinkTable.interface_id e =? LinkTable.receiving_interface e then
    if (hops =? LinkTable.remaining_hops e) || (hops =? taken_hops e)
    then Some (Some (LinkTable.interface_id e)) else Some None
  else if interface_id =? LinkTable.receiving_interface e then
    if hops =? taken_hops e then Some (Some (LinkTable.interface_id e)) else Some None
  else if interface_id =? LinkTable.interface_id e then
    if hops =? LinkTable.remaining_hops e then Some (Some (LinkTable.receiving_interface e)) else Some None
  else None.

(** The hop count of traffic leaving the instance for a local client's link. *)
Definition outgoing_hops (a : Actor) (from_local_client exempt : bool) (hops : Z) : Z :=
  if negb from_local_client || exempt || (local_hops_delta a =? 0) then hops else local_hops_delta a.

Definition with_link_timestamp (t : f64) (e : LinkEntry) : LinkEntry := {|
  LinkTable.timestamp := t; LinkTable.next_hop := LinkTable.next_hop e;
  LinkTable.interface_id := LinkTable.interface_id e; LinkTable.remaining_hops := LinkTable.remaining_hops e;
  LinkTable.destination_hash := LinkTable.destination_hash e; established := established e;
  validated := validated e; proof_timeout := proof_timeout e;
  LinkTable.receiving_interface := LinkTable.receiving_interface e; taken_hops := taken_hops e;
  interface_owner := interface_owner e; receiving_owner := receiving_owner e;
  requested_mode := requested_mode e; accepted_mtu_ceiling := accepted_mtu_ceiling e |}.

(** Both endpoints of the link are local clients of this instance. *)
Definition instance_local_link (a : Actor) (e : LinkEntry) : bool :=
  is_local_client_interface a (LinkTable.interface_id e)
  && is_local_client_interface a (LinkTable.receiving_interface e).

Definition route_link_packet_via_link_table (env : Env) (a : Actor) (raw : bytes) (h : PacketHeader)
    (interface_id : Z) : io (Actor * bool) :=
  let dest := Wire.destination_hash h in
  if negb (bool_decide (destination_type (flags h) = Link)) || bool_decide (dest ∈ local_destinations a)
  then Ok (a, false) else
  match LinkTable.get (link_table a) dest with
  | None => Ok (a, false)
  | Some e =>
      if negb (link_registration_is_current a e) || (accepted_mtu_ceiling e <? len raw) then Ok (a, true) else
      if negb (validated e) && proof_window_closed env e then Ok (a, true) else
      let from_local_client := is_local_client_interface a interface_id in
      let shared_client_path :=
        from_local_client || is_local_client_interface a (LinkTable.receiving_interface e)
        || is_local_client_interface a (LinkTable.interface_id e) in
      if negb (is_transport_enabled a) && negb shared_client_path then Ok (a, false) else
      match link_target e interface_id (Wire.hops h) with
      | None => Ok (a, false)
      | Some None => Ok (a, true)
      | Some (Some target_interface) =>
          let forwarded :=
            put_hops raw (outgoing_hops a from_local_client (instance_local_link a e) (Wire.hops h)) in
          let* '(a, fresh) :=
            if skips_hashlist (context h) then Ok (a, true)
            else
              let* pkt_hash := Packet.packet_hash raw (header_type (flags h)) in
              let '(l, fresh) := Hashlist.insert (packet_hashlist a) pkt_hash in
              Ok (upd_packet_hashlist (λ _, l) a, fresh) in
          if negb fresh then Ok (a, true) else
          let a := upd_link_table (λ t, LinkTable.get_mut t dest (with_link_timestamp (now env))) a in
          let* '(a, _) := send_to_interface env a target_interface forwarded in
          Ok (a, true)
      end
  end.

(** ** Data packets *)

Definition data_payload_offset (raw : bytes) (h : PacketHeader) : option nat :=
  let offset := match header_type (flags h) with Header1 => HEADER_MINSIZE | Header2 => HEADER_MAXSIZE end in
  if decide (offset ≤ length raw)%nat then Some offset else None.

(** Ordinary PLAIN broadcasts cross between local clients and the network. *)
Definition relay_plain_broadcast (env : Env) (a : Actor) (raw : bytes) (h : PacketHeader) (interface_id : Z)
    (control : bool) : io Actor :=
  if negb control && bool_decide (destination_type (flags h) = Plain)
     && bool_decide (transport_type (flags h) = Broadcast) then
    let* '(a, _) :=
      if is_local_client_interface a interface_id
      then broadcast_on_interfaces env a raw (Some interface_id)
      else send_to_each env a (local_client_interface_ids_except env a (Some interface_id)) (λ _ _, Ok raw) in
    Ok a
  else Ok a.

Definition handle_tunnel_synthesis (env : Env) (a : Actor) (raw : bytes) (h : PacketHeader) (interface_id : Z)
    : io (Actor * Next) :=
  match data_payload_offset raw h with
  | None => Ok (a, Done)
  | Some payload_start =>
      let* payload := slice_from raw payload_start in
      let* unpacked := synth_unpack payload in
      let* signed := match unpacked with Some d => is_signed d | None => Ok false end in
      match unpacked with
      | Some synthesis =>
          if signed then
            let tunnel_id := synth_tunnel_id synthesis in
            let a := upd_tunnel_table (λ t, Tunnel.handle_tunnel t tunnel_id interface_id (now env)) a in
            let a := upd_state_dirty (λ _, true) a in
            Ok (restore_tunnel_paths env a tunnel_id interface_id, Done)
          else Ok (protocol_violation a interface_id, Done)
      | None => Ok (protocol_violation a interface_id, Done)
      end
  end.

(** Deliver to a local destination; a refused event is counted. *)
Definition inbound_event (a : Actor) (raw : bytes) (interface_id : Z) (ms : PacketMetrics) : DestinationEvent :=
  EvInboundPacket (interface_owner_id a interface_id) raw interface_id ms.

Definition touch_path (env : Env) (a : Actor) (dest : bytes) : Actor :=
  upd_path_table (λ t, PathTable.get_live_mut t dest (now env) (λ p, PathTable.touch p (now env))) a.

Definition process_data (env : Env) (a : Actor) (raw : bytes) (h : PacketHeader) (interface_id : Z)
    (ms : PacketMetrics) : io (Actor * Next) :=
  let dest := Wire.destination_hash h in
  let from_local_client := is_local_client_interface a interface_id in
  let for_local_client := path_to_local_client env a dest in
  let to_local_client := for_local_client || proof_to_local_client a dest in
  let* path_request_dest := path_request_dest_hash in
  let* tunnel_synth_dest := tunnel_synthesize_dest_hash in
  let is_control_plain := bool_decide (dest = path_request_dest) || bool_decide (dest = tunnel_synth_dest) in
  let* a := relay_plain_broadcast env a raw h interface_id is_control_plain in
  let* '(a, routed) := route_link_packet_via_link_table env a raw h interface_id in
  if routed then Ok (a, Done) else
  if decide (dest = path_request_dest) then
    match data_payload_offset raw h with
    | Some payload_start =>
        let* payload := slice_from raw payload_start in
        Ok (a, HandlePathRequest payload interface_id)
    | None => Ok (a, Done)
    end
  else if decide (dest = tunnel_synth_dest) then handle_tunnel_synthesis env a raw h interface_id
  else if decide (context h = CacheRequest) then Ok (a, HandleCacheRequest raw h interface_id)
  else if decide (dest ∈ local_destinations a) then
    Ok (deliver_or_count a dest (inbound_event a raw interface_id ms), Done)
  else
    let* candidate := transport_forward_candidate env a raw h from_local_client for_local_client to_local_client in
    match candidate with
    | None => Ok (a, Done)
    | Some (target_interface, forwarded) =>
        let* pkt_hash := truncated_packet_hash raw (header_type (flags h)) in
        let a := upd_reverse_table (λ t, ReverseTable.insert_with_outbound t pkt_hash interface_id (Wire.hops h)
                                           (Some target_interface) (now env)) a in
        let* '(a, _) := send_to_interface env a target_interface forwarded in
        Ok (touch_path env a dest, Done)
    end.

(** ** Link requests *)

Definition process_link_request (env : Env) (a : Actor) (raw : bytes) (h : PacketHeader) (interface_id : Z)
    (ms : PacketMetrics) : io Actor :=
  let dest := Wire.destination_hash h in
  let from_local_client := is_local_client_interface a interface_id in
  let for_local_client := path_to_local_client env a dest in
  let to_local_client := for_local_client || proof_to_local_client a dest in
  if decide (dest ∈ local_destinations a) then
    Ok (deliver_or_count a dest (EvLinkRequest (interface_owner_id a interface_id) raw interface_id ms))
  else
    let* candidate := transport_forward_candidate env a raw h from_local_client for_local_client to_local_client in
    match candidate, PathTable.get_live (path_table a) dest (now env) with
    | Some (target_interface, forwarded), Some path =>
        let remaining_hops := PathTable.hops path in
        let next_hop := PathTable.next_hop path in
        let* link_id := link_id_from_raw raw (header_type (flags h)) in
        if LinkTable.contains (link_table a) link_id then Ok a else
        if MAX_TRANSIT_LINK_TABLE_ENTRIES <=? Z.of_nat (size (LinkTable.entries (link_table a))) then Ok a else
        match interfaces a !! interface_id, interfaces a !! target_interface with
        | Some ingress, Some egress =>
            let* body := slice_from raw (header_size h) in
            let* attenuated :=
              res_ok (attenuate_request body interface_id (if_entry ingress) target_interface (if_entry egress)) in
            match attenuated with
            | None => Ok a
            | Some (payload, requested_mode, accepted_mtu_ceiling) =>
                let interface_owner := Some (owner_id (owner (if_entry egress))) in
                let receiving_owner := Some (owner_id (owner (if_entry ingress))) in
                let* unpacked := res_ok (header_unpack forwarded) in
                match unpacked with
                | None => Ok a
                | Some (forwarded_header, _) =>
                    let forwarded := take (header_size forwarded_header) forwarded ++ payload in
                    let bitrate := if interface_marked_offline egress then None else Some (if_bitrate egress) in
                    let* '(a, sent) := send_to_interface env a target_interface forwarded in
                    if negb sent then Ok a else
                    let a := touch_path env a dest in
                    let proof_timeout := transit_link_proof_deadline (now env) remaining_hops bitrate in
                    let link_entry := {|
                      LinkTable.timestamp := now env; LinkTable.next_hop := next_hop;
                      LinkTable.interface_id := target_interface; LinkTable.remaining_hops := remaining_hops;
                      LinkTable.destination_hash := dest; established := false; validated := false;
                      proof_timeout := proof_timeout; LinkTable.receiving_interface := interface_id;
                      taken_hops := Wire.hops h; interface_owner := interface_owner;
                      receiving_owner := receiving_owner; requested_mode := requested_mode;
                      accepted_mtu_ceiling := accepted_mtu_ceiling |} in
                    Ok (upd_link_table (λ t, LinkTable.insert t link_id link_entry) a)
                end
            end
        | _, _ => Ok a
        end
    | _, _ => Ok a
    end.
End forward.
