(* ===== verification/ProofRoute.v ===== *)
(** * Routing of proofs

    Models [process_proof] and [validate_transit_lrproof] of
    [rns-transport/src/actor/inbound.rs]: delivery proofs of this node's own
    packets, link-request proofs of local and of transit links, and the return
    of data proofs along the reverse table. *)

From S2P Require Import Prelude F64 Wire Packet LinkSignalling Receipt Ifac Table Hashlist PathTable.
From S2P Require Import ReverseTable LinkTable Ownership LinkTransit Tunnel Identity Announce Ingress RateLimit Blackhole.
From S2P Require Import Msgpack Actor Forward.
From stdpp Require Import prelude list gmap fin_maps functions.

Open Scope Z_scope.

Inductive TransitProof := TransitValid | TransitInvalidSignature | TransitRefused.

Section proofs.
Context `{Mpsc} `{Digest} `{Hkdf} `{Ed25519Signer} `{Ed25519}.

(** ** Proofs of packets this node sent *)

Definition known_public_key (a : Actor) (dest : bytes) : option bytes :=
  recent_announces a !! dest ≫= ra_public_key.

(** The update of an observer and of the application after a valid proof. *)
Definition notify_receipt_update (a : Actor) (hash : bytes) (rtt : option Z) : Actor :=
  match receipt_updates a !! hash with
  | Some tx =>
      emit (EvReceiptUpdate tx (match rtt with Some r => UpdDelivered r | None => UpdFailed end))
        (upd_receipt_updates (delete hash) a)
  | None => a
  end.

Fixpoint deliver_to_all (a : Actor) (dests : list bytes) (ev : DestinationEvent) : Actor :=
  match dests with
  | [] => a
  | d :: dests => deliver_to_all (deliver_or_count a d ev) dests ev
  end.

Definition notify_delivery_proof (env : Env) (a : Actor) (hash : bytes) (rtt : option Z) : Actor :=
  match receipt_msg_ids a !! hash with
  | None => a
  | Some msg_id =>
      let a := upd_receipt_msg_ids (delete hash) a in
      match receipt_proof_txs a !! hash with
      | Some tx => emit (EvDirectProof tx msg_id rtt) (upd_receipt_proof_txs (delete hash) a)
      | None =>
          deliver_to_all a (filter (λ d, is_Some (destination_channels a !! d)) (dest_order env))
            (EvDeliveryProof msg_id rtt)
      end
  end.

Definition process_receipt_proof (env : Env) (a : Actor) (raw : bytes) (h : PacketHeader) (receipt : PacketReceipt)
    : io Actor :=
  let dest := Wire.destination_hash h in
  if decide (length raw < header_size h)%nat then Ok a else
  let* proof := slice_from raw (header_size h) in
  let receipt :=
    match r_destination_public_key receipt, r_destination_hash receipt with
    | None, Some d => set_destination_identity receipt d (known_public_key a d)
    | _, _ => receipt
    end in
  let* '(validated, receipt, fired) := validate_proof_from_destination receipt (instant env) proof in
  let a := upd_receipt_table <[dest := receipt]> a in
  let a := upd_events (λ l, l ++ (EvCallback <$> fired)) a in
  if negb validated then Ok a else
  let rtt := get_rtt receipt in
  let a := notify_receipt_update a dest rtt in
  let a := notify_delivery_proof env a dest rtt in
  Ok (upd_receipt_table (delete dest) a).

(** ** Link-request proofs *)

Definition try_local_delivery (a : Actor) (tx : nat) (ev : DestinationEvent) : Actor := (try_deliver a tx ev).1.

(** A local initiator adopts a proof only from a registration that admitted
    its request. *)
Definition process_local_lrproof (a : Actor) (raw : bytes) (h : PacketHeader) (interface_id : Z) (ms : PacketMetrics)
    : io Actor :=
  let dest := Wire.destination_hash h in
  let admitted :=
    match pending_local_link_requests a !! dest ≫= (.!! interface_id), interfaces a !! interface_id with
    | Some o, Some e => owner_matches o (owner (if_entry e))
    | _, _ => false
    end in
  let* body := slice_from raw (header_size h) in
  let* signal := res_ok (parse_proof_signalling body) in
  let signal_valid :=
    match signal with
    | Some s => (ls_mode s =? DEFAULT_LINK_MODE) && (mtu_get (ls_mtu s) <=? 500)
    | None => false
    end in
  if negb admitted || negb signal_valid then Ok a else
  match destination_channels a !! dest with
  | Some tx => Ok (try_local_delivery a tx (inbound_event a raw interface_id ms))
  | None => Ok a
  end.

Definition validate_transit_lrproof (a : Actor) (raw : bytes) (h : PacketHeader) (e : LinkEntry) : io TransitProof :=
  let payload_offset := header_size h in
  if decide (length raw < payload_offset)%nat then Ok TransitRefused else
  let* proof_data := slice_from raw payload_offset in
  if negb (bool_decide (length proof_data = 96%nat)) && negb (bool_decide (length proof_data = 99%nat))
  then Ok TransitRefused else
  let* signal := res_ok (parse_proof_signalling proof_data) in
  match signal with
  | None => Ok TransitRefused
  | Some signal =>
      if negb (ls_mode signal =? requested_mode e)
         || (accepted_mtu_ceiling e <? mtu_get (ls_mtu signal))
         || (validated e && negb (mtu_get (ls_mtu signal) =? accepted_mtu_ceiling e))
         || negb (link_registration_is_current a e)
      then Ok TransitRefused else
      let* sig := slice_to proof_data 64 in
      let* signature := copy_array 64 sig in
      let* responder_x25519_pub := slice proof_data 64 96 in
      let* signalling := (if decide (length proof_data = 99%nat) then slice proof_data 96 99 else Ok []) in
      match known_public_key a (LinkTable.destination_hash e) with
      | None => Ok TransitRefused
      | Some destination_public_key =>
          let* k := slice destination_public_key 32 64 in
          let* destination_ed25519 := copy_array 32 k in
          match public_key_from_bytes destination_ed25519 with
          | None => Ok TransitRefused
          | Some verify_key =>
              let signed_data :=
                Wire.destination_hash h ++ responder_x25519_pub ++ destination_ed25519 ++ signalling in
              Ok (if ed_verify verify_key signed_data signature then TransitValid else TransitInvalidSignature)
          end
      end
  end.

Definition with_validation (mtu : Z) (e : LinkEntry) : LinkEntry := {|
  LinkTable.timestamp := LinkTable.timestamp e; LinkTable.next_hop := LinkTable.next_hop e;
  LinkTable.interface_id := LinkTable.interface_id e; LinkTable.remaining_hops := LinkTable.remaining_hops e;
  LinkTable.destination_hash := LinkTable.destination_hash e; established := established e;
  validated := true; proof_timeout := proof_timeout e;
  LinkTable.receiving_interface := LinkTable.receiving_interface e; taken_hops := taken_hops e;
  interface_owner := interface_owner e; receiving_owner := receiving_owner e;
  requested_mode := requested_mode e; accepted_mtu_ceiling := mtu |}.

(** Forward a validated proof to the initiator's side.  [None]: the table did
    not claim the proof. *)
Definition relay_lrproof (env : Env) (a : Actor) (raw : bytes) (h : PacketHeader) (interface_id : Z)
    (from_local_client : bool) (e : LinkEntry) : io (Actor * bool) :=
  let dest := Wire.destination_hash h in
  if negb (validated e) && proof_window_closed env e then Ok (a, true) else
  if (Wire.hops h =? LinkTable.remaining_hops e) && (interface_id =? LinkTable.interface_id e) then
    let* verdict := validate_transit_lrproof a raw h e in
    match verdict with
    | TransitInvalidSignature => Ok (protocol_violation a interface_id, true)
    | TransitRefused => Ok (a, true)
    | TransitValid =>
        let* pkt_hash := Packet.packet_hash raw (header_type (flags h)) in
        let '(l, fresh) := Hashlist.insert (packet_hashlist a) pkt_hash in
        let a := upd_packet_hashlist (λ _, l) a in
        if negb fresh then Ok (a, true) else
        let forwarded :=
          put_hops raw (outgoing_hops a from_local_client (instance_local_link a e) (Wire.hops h)) in
        let* '(a, sent) := send_to_interface env a (LinkTable.receiving_interface e) forwarded in
        if negb sent then Ok (a, true) else
        let* a :=
          match LinkTable.get (link_table a) dest with
          | Some _ =>
              let* body := slice_from raw (header_size h) in
              match parse_proof_signalling body with
              | Ok signal =>
                  Ok (upd_link_table (λ t, LinkTable.get_mut t dest (with_validation (mtu_get (ls_mtu signal)))) a)
              | Err _ | Panic => Panic
              end
          | None => Ok a
          end in
        let a := if is_shared_instance a then a else (use_destination env a (LinkTable.destination_hash e)).1 in
        Ok (a, true)
    end
  else Ok (a, false).

(** Delivery to a pending local link, when the link table did not claim the
    proof; only a delivered proof enters the hash list. *)
Definition deliver_unclaimed_lrproof (a : Actor) (raw : bytes) (h : PacketHeader) (interface_id : Z) (ms : PacketMetrics)
    : io Actor :=
  match destination_channels a !! Wire.destination_hash h with
  | Some tx =>
      let '(a', r) := try_deliver a tx (inbound_event a raw interface_id ms) in
      if decide (r = SendOk) then
        let* pkt_hash := Packet.packet_hash raw (header_type (flags h)) in
        Ok (upd_packet_hashlist (λ l, (Hashlist.insert l pkt_hash).1) a')
      else Ok (count_drop a')
  | None => Ok a
  end.

Definition process_lrproof (env : Env) (a : Actor) (raw : bytes) (h : PacketHeader) (interface_id : Z)
    (ms : PacketMetrics) : io Actor :=
  let dest := Wire.destination_hash h in
  let from_local_client := is_local_client_interface a interface_id in
  let for_local_client_link :=
    match LinkTable.get (link_table a) dest with
    | Some e => is_local_client_interface a (LinkTable.receiving_interface e)
                || is_local_client_interface a (LinkTable.interface_id e)
    | None => false
    end in
  if decide (dest ∈ local_destinations a) then process_local_lrproof a raw h interface_id ms else
  let* '(a, claimed) :=
    if is_transport_enabled a || from_local_client || for_local_client_link then
      match LinkTable.get (link_table a) dest with
      | Some e => relay_lrproof env a raw h interface_id from_local_client e
      | None => Ok (a, false)
      end
    else Ok (a, false) in
  if claimed then Ok a else deliver_unclaimed_lrproof a raw h interface_id ms.

(** ** Proofs of forwarded data *)

(** The reverse entry is spent by the first proof that reaches it; the result
    tells whether the proof was sent on. *)
Definition route_via_reverse_table (env : Env) (a : Actor) (raw : bytes) (h : PacketHeader) (interface_id : Z)
    : io (Actor * bool) :=
  let dest := Wire.destination_hash h in
  let from_local_client := is_local_client_interface a interface_id in
  let proof_for_local_client := proof_to_local_client a dest in
  if is_transport_enabled a || from_local_client || proof_for_local_client then
    let proof_hops := outgoing_hops a from_local_client proof_for_local_client (Wire.hops h) in
    let '(t, entry) := ReverseTable.remove (reverse_table a) dest in
    let a := upd_reverse_table (λ _, t) a in
    match entry with
    | None => Ok (a, false)
    | Some entry =>
        if match outbound_interface entry with
           | Some expected_outbound => negb (interface_id =? expected_outbound)
           | None => false
           end
        then Ok (a, false)
        else
          let* '(a, _) := send_to_interface env a (ReverseTable.receiving_interface entry) (put_hops raw proof_hops) in
          Ok (a, true)
    end
  else Ok (a, false).

Definition process_proof (env : Env) (a : Actor) (raw : bytes) (h : PacketHeader) (interface_id : Z)
    (ms : PacketMetrics) : io Actor :=
  let dest := Wire.destination_hash h in
  match (if decide (context h = Lrproof) then None else receipt_table a !! dest) with
  | Some receipt => process_receipt_proof env a raw h receipt
  | None =>
      if decide (context h = Lrproof) then process_lrproof env a raw h interface_id ms else
      let* '(a, routed) := route_link_packet_via_link_table env a raw h interface_id in
      if routed then Ok a else
      let* '(a, returned) := route_via_reverse_table env a raw h interface_id in
      if returned then Ok a else
      Ok (deliver_or_count a dest (inbound_event a raw interface_id ms))
  end.
End proofs.
