(* ===== verification/Learn.v ===== *)
(** * Learning paths from announces

    Models [process_announce] of [rns-transport/src/actor/inbound.rs] up to the
    point where the path is installed, with [transport_announce_from_raw] of
    [actor/mod.rs].  What follows (waking path waiters, answering discovery
    requests, the disk cache, local clients and announce handlers) is named by
    [DisseminateAnnounce]; the remembered announce, which none of it reads, is
    updated before. *)

From S2P Require Import Prelude F64 Wire Packet LinkSignalling Receipt Ifac Table Hashlist PathTable.
From S2P Require Import ReverseTable LinkTable Ownership LinkTransit Tunnel Identity Announce Ingress RateLimit Blackhole.
From S2P Require Import Msgpack Actor ActorFacts Restore Forward.
From stdpp Require Import prelude list gmap fin_maps functions.

Open Scope Z_scope.

Definition PATHFINDER_R : Z := 1.
Definition LOCAL_REBROADCASTS_MAX : Z := 2.

Section learn.
Context `{Mpsc} `{Digest} `{Ed25519} `{!Ed25519Keys}.

Definition transport_announce_from_raw (a : Actor) (cached_raw destination_hash : bytes) (hops : Z)
    (ctx : PacketContext) : io bytes :=
  let* unpacked := res_ok (header_unpack cached_raw) in
  match unpacked, transport_identity_hash a with
  | Some (cached_header, payload_offset), Some transport_id =>
      let fl := mkFlags Header2 (context_flag (flags cached_header)) Transport Single Announce in
      let* rest := slice_from cached_raw payload_offset in
      Ok (header_pack (mkHeader fl hops (Some transport_id) destination_hash ctx) ++ rest)
  | _, _ => Ok cached_raw
  end.

(** ** Admission *)

(** The announce and its identity when the signature is valid and the identity
    is not blackholed. *)
Definition authenticate_announce (env : Env) (a : Actor) (raw : bytes) (h : PacketHeader) (data_offset : nat)
    (interface_id : Z) : io (Actor * option (AnnounceData * Identity)) :=
  if decide (length raw ≤ data_offset)%nat then Ok (protocol_violation a interface_id, None) else
  let* payload := slice_from raw data_offset in
  match ann_unpack payload (context_flag (flags h)) with
  | Panic => Panic
  | Err _ => Ok (protocol_violation a interface_id, None)
  | Ok ann =>
      match verify_signature ann (Wire.destination_hash h) with
      | Panic => Panic
      | Err _ => Ok (protocol_violation a interface_id, None)
      | Ok who =>
          if is_blackholed (blackhole_table a) (id_hash who) (now env) then Ok (a, None)
          else Ok (a, Some (ann, who))
      end
  end.

Definition answers_path_request (env : Env) (a : Actor) (dest : bytes) : bool :=
  bool_decide (is_Some (path_requests a !! dest))
  || match discovery_path_requests a !! dest with
     | Some o => f_lt (now env) (do_timeout o)
     | None => false
     end.

(** Ingress accounting; [true] when the announce has been held. *)
Definition account_ingress (env : Env) (a : Actor) (raw : bytes) (h : PacketHeader) (interface_id : Z)
    : io (Actor * bool) :=
  let dest := Wire.destination_hash h in
  match interfaces a !! interface_id with
  | None => Ok (a, false)
  | Some e =>
      let ctrl := received_announce (if_ingress e) (instant env) in
      let set c := upd_interfaces (alter (upd_ingress (λ _, c)) interface_id) a in
      if negb (is_local_client_interface a interface_id)
         && negb (bool_decide (is_Some (PathTable.get (path_table a) dest)))
         && negb (answers_path_request env a dest)
      then
        let* '(ctrl, limited) := should_ingress_limit ctrl (rate_clock env) in
        if limited then
          Ok (set (hold_announce ctrl {| ha_raw := raw; Ingress.destination_hash := dest; ha_hops := Wire.hops h;
                                         receiving_interface_id := interface_id |}), true)
        else Ok (set ctrl, false)
      else Ok (set ctrl, false)
  end.

(** Every validated announce is remembered, before the path decision. *)
Definition remember_announce (env : Env) (a : Actor) (h : PacketHeader) (ann : AnnounceData) (public_key : bytes)
    : Actor :=
  let dest := Wire.destination_hash h in
  match recent_announces a !! dest with
  | Some e =>
      let ratchet := match ann_ratchet ann with Some r => Some r | None => ra_ratchet e end in
      upd_recent_announces <[dest :=
        mkRecent (ra_hops e) (ann_app_data ann) (now env) (Some public_key) ratchet (ra_packet_hash e)
          (ra_is_path_response e) (ra_retained e) (ra_last_used e) (ra_name_hash e)]> a
  | None =>
      upd_state_dirty (λ _, true) (upd_recent_announces <[dest :=
        mkRecent (Wire.hops h) (ann_app_data ann) (now env) (Some public_key) (ann_ratchet ann) None
          (bool_decide (context h = PathResponse)) false None (ann_name_hash ann)]> a)
  end.

(** ** Rebroadcast policy *)

Definition announce_rate_blocked (env : Env) (a : Actor) (h : PacketHeader) (interface_id : Z) : io (Actor * bool) :=
  let dest := Wire.destination_hash h in
  let target :=
    if bool_decide (context h = PathResponse) then None
    else e ← interfaces a !! interface_id; t ← if_announce_rate_target e; Some (e, t) in
  let* '(a, blocked) :=
    match target with
    | Some (e, target) =>
        let* '(t, blocked) :=
          check_interface_rate (rate_table a) dest target (default 0 (if_announce_rate_grace e))
            (default f_zero (if_announce_rate_penalty e)) (now env) in
        Ok (upd_rate_table (λ _, t) a, blocked)
    | None => Ok (a, false)
    end in
  if blocked then Ok (a, true) else
  let* '(t, _) := RateLimit.record (rate_table a) dest (now env) in
  Ok (upd_rate_table (λ _, t) a, false).

(** [u8] addition in the comparison below. *)
Definition add_u8 (x y : Z) : io Z := if x + y <? 256 then Ok (x + y) else Panic.

Definition with_local_rebroadcasts (e : AnnounceEntry) (n : Z) : AnnounceEntry := {|
  ae_timestamp := ae_timestamp e; retransmit_timeout := retransmit_timeout e; ae_retries := ae_retries e;
  received_from := received_from e; ae_hops := ae_hops e; packet_raw := packet_raw e;
  local_rebroadcasts := n; block_rebroadcast := block_rebroadcast e;
  attached_interface := attached_interface e; source_interface := source_interface e |}.

(** Cancel the queued rebroadcast when a neighbour already carried it. *)
Definition cancel_rebroadcast (env : Env) (a : Actor) (h : PacketHeader) : io Actor :=
  let dest := Wire.destination_hash h in
  match (if is_transport_enabled a then at_get (announce_table a) dest else None) with
  | None => Ok a
  | Some existing =>
      let drop_entry a := upd_announce_table (λ t, (at_remove t dest).1) a in
      let* a :=
        if (0 <? Wire.hops h) && (Wire.hops h - 1 =? ae_hops existing) && (0 <? ae_retries existing) then
          let* n := (if local_rebroadcasts existing + 1 <? 2 ^ 32 then Ok (local_rebroadcasts existing + 1) else Panic) in
          if LOCAL_REBROADCASTS_MAX <=? n then Ok (drop_entry a)
          else Ok (upd_announce_table (λ t, {| ann_entries := alter (λ e, with_local_rebroadcasts e n) dest (ann_entries t) |}) a)
        else Ok a in
      if 0 <? Wire.hops h then
        let* next := add_u8 (ae_hops existing) 1 in
        if (Wire.hops h - 1 =? next) && (0 <? ae_retries existing) then
          match at_get (announce_table a) dest with
          | Some ae => if f_lt (now env) (retransmit_timeout ae) then Ok (drop_entry a) else Ok a
          | None => Ok a
          end
        else Ok a
      else Ok a
  end.

(** ** The path decision *)

Definition should_add_path (env : Env) (a : Actor) (h : PacketHeader) (random_hash : bytes) : bool :=
  let announce_emitted := announce_timebase random_hash in
  match PathTable.get (path_table a) (Wire.destination_hash h) with
  | None => true
  | Some existing =>
      let random_seen := PathTable.has_random_blob existing random_hash in
      let path_timebase := path_timebase_from_random_blobs (random_blobs existing) in
      if Wire.hops h <=? PathTable.hops existing then
        negb random_seen && (path_timebase <? announce_emitted)
      else if PathTable.is_expired existing (now env) || (path_timebase <? announce_emitted) then negb random_seen
      else if announce_emitted =? path_timebase then
        bool_decide (PathTable.get_state (path_table a) (Wire.destination_hash h) = Unresponsive)
      else false
  end.

Definition queue_rebroadcast (env : Env) (a : Actor) (raw : bytes) (h : PacketHeader) (interface_id : Z)
    (from_local_client : bool) : io Actor :=
  let dest := Wire.destination_hash h in
  let* rebroadcast_raw := transport_announce_from_raw a raw dest (Wire.hops h) CtxNone in
  let e := {|
    ae_timestamp := now env;
    retransmit_timeout := if from_local_client then now env else f_add (now env) (jitter env);
    ae_retries := if from_local_client then PATHFINDER_R else 0;
    received_from := default dest (Wire.transport_id h);
    ae_hops := Wire.hops h; packet_raw := rebroadcast_raw; local_rebroadcasts := 0;
    block_rebroadcast := false; attached_interface := None; source_interface := Some interface_id |} in
  Ok (upd_announce_table (λ t, at_insert t dest e) a).

(** [random_blobs] of the entry that is replaced, and the new blob. *)
Definition extend_blobs (blobs : list bytes) (blob : bytes) : list bytes :=
  if decide (blob ∈ blobs) then blobs
  else (if decide (MAX_RANDOM_BLOBS ≤ length blobs)%nat then tail blobs else blobs) ++ [blob].

Definition learned_entry (env : Env) (h : PacketHeader) (interface_id : Z) (mode : InterfaceMode)
    (blobs : list bytes) (announce_packet_hash : bytes) : PathEntry :=
  let e := path_entry_new (Wire.transport_id h) (Wire.hops h) interface_id mode (now env) in {|
    PathTable.timestamp := PathTable.timestamp e; PathTable.next_hop := PathTable.next_hop e;
    PathTable.hops := PathTable.hops e; PathTable.expires := PathTable.expires e; random_blobs := blobs;
    PathTable.interface_id := PathTable.interface_id e; PathTable.packet_hash := Some announce_packet_hash |}.

(** The tunnel on this interface keeps a copy of the path and is renewed. *)
Definition tunnel_copy (e : PathEntry) : TunnelPath := {|
  tp_timestamp := PathTable.timestamp e; tp_next_hop := PathTable.next_hop e; tp_hops := PathTable.hops e;
  tp_expires := PathTable.expires e; tp_random_blobs := random_blobs e; tp_packet_hash := PathTable.packet_hash e |}.

Definition install_tunnel_path (env : Env) (t : TunnelTable) (interface_id : Z) (dest : bytes) (e : PathEntry)
    : TunnelTable :=
  match by_interface t !! interface_id with
  | None => t
  | Some id =>
      {| by_interface := by_interface t;
         Tunnel.entries := alter (λ u, {|
           tunnel_id := tunnel_id u; Tunnel.interface_id := Tunnel.interface_id u;
           tunnel_paths := <[dest := tunnel_copy e]> (tunnel_paths u);
           Tunnel.expires := f_add (now env) (f_of_Z TUNNEL_TIMEOUT) |}) id (Tunnel.entries t) |}
  end.

Definition install_path (env : Env) (a : Actor) (raw : bytes) (h : PacketHeader) (interface_id : Z)
    (random_hash : bytes) (blobs : list bytes) : io Actor :=
  let dest := Wire.destination_hash h in
  let mode := match interfaces a !! interface_id with Some e => if_mode e | None => Gateway end in
  let* announce_packet_hash := Packet.packet_hash raw (header_type (flags h)) in
  let e := learned_entry env h interface_id mode (extend_blobs blobs random_hash) announce_packet_hash in
  let a := upd_path_table (λ t, PathTable.insert t dest e) a in
  let a := upd_tunnel_table (λ t, install_tunnel_path env t interface_id dest e) a in
  Ok (upd_state_dirty (λ _, true) a).

(** The remembered announce takes the metadata of the installed path. *)
Definition annotate_recent (a : Actor) (raw : bytes) (h : PacketHeader) (ratchet : option bytes) : io Actor :=
  let* announce_packet_hash := Packet.packet_hash raw (header_type (flags h)) in
  Ok (upd_recent_announces (alter (λ r,
        mkRecent (Wire.hops h) (ra_app_data r) (ra_timestamp r) (ra_public_key r) ratchet
          (Some announce_packet_hash) (bool_decide (context h = PathResponse)) (ra_retained r) (ra_last_used r)
          (ra_name_hash r)) (Wire.destination_hash h)) a).

(** From a validated announce on. *)
Definition learn_path (env : Env) (a : Actor) (raw : bytes) (h : PacketHeader) (interface_id : Z)
    (from_local_client : bool) (ann : AnnounceData) : io (Actor * Next) :=
  let dest := Wire.destination_hash h in
  let* '(a, rate_blocked) := announce_rate_blocked env a h interface_id in
  let* a := cancel_rebroadcast env a h in
  let blobs := match PathTable.get (path_table a) dest with Some e => random_blobs e | None => [] end in
  let '(a, suppressed) := is_path_interface_suppressed a dest interface_id (now env) in
  if negb suppressed && should_add_path env a h (ann_random_hash ann) then
    let* a :=
      if negb rate_blocked && (is_transport_enabled a || from_local_client)
         && negb (bool_decide (context h = PathResponse)) && (Wire.hops h <? PATHFINDER_M)
      then queue_rebroadcast env a raw h interface_id from_local_client else Ok a in
    let* a := install_path env a raw h interface_id (ann_random_hash ann) blobs in
    let* a := annotate_recent a raw h (ann_ratchet ann) in
    Ok (a, DisseminateAnnounce raw h interface_id)
  else Ok (a, Done).

Definition process_announce (env : Env) (a : Actor) (raw : bytes) (h : PacketHeader) (data_offset : nat)
    (interface_id : Z) : io (Actor * Next) :=
  let dest := Wire.destination_hash h in
  let from_local_client := is_local_client_interface a interface_id in
  if decide (dest ∈ local_destinations a) then Ok (a, Done) else
  let* '(a, authentic) := authenticate_announce env a raw h data_offset interface_id in
  match authentic with
  | None => Ok (a, Done)
  | Some (ann, who) =>
      let* '(a, held) := account_ingress env a raw h interface_id in
      if held then Ok (a, Done) else
      let known_public_key := recent_announces a !! dest ≫= ra_public_key in
      match validate_destination_binding ann dest who known_public_key with
      | Panic => Panic
      | Err _ => Ok (protocol_violation a interface_id, Done)
      | Ok _ =>
          let a := remember_announce env a h ann (get_public_key who) in
          if PATHFINDER_M <=? Wire.hops h then Ok (a, Done)
          else learn_path env a raw h interface_id from_local_client ann
      end
  end.

(** What a tunnel remembers after a path was installed. *)
Lemma install_tunnel_inv env t i dest e k d tp :
  tunnel_path (install_tunnel_path env t i dest e) k d = Some tp →
  tunnel_path t k d = Some tp ∨ (d = dest ∧ tp = tunnel_copy e).
Proof.
  unfold install_tunnel_path. destruct (by_interface t !! i) as [id|]; [|by left].
  unfold tunnel_path, Tunnel.get. cbn -[lookup alter insert].
  destruct (decide (k = id)) as [-> |]; [|rewrite lookup_alter_ne by done; by left].
  rewrite lookup_alter_eq. destruct (Tunnel.entries t !! id) as [u|]; [|done]. cbn -[lookup insert].
  intros [(-> & <-)|[_ Hd]]%lookup_insert_Some; [by right|by left].
Qed.
End learn.
