(* ===== verification/Inbound.v ===== *)
(** * Inbound packets: access control, filters, dispatch

    Models [on_inbound], [on_released_announce], [on_cached_announce] and
    [on_inbound_inner] of [rns-transport/src/actor/inbound.rs]: what a packet
    must pass before one of the handlers of Forward.v, ProofRoute.v and Learn.v
    sees it. *)

From S2P Require Import Prelude F64 Wire Packet LinkSignalling Receipt Ifac Table Hashlist PathTable.
From S2P Require Import ReverseTable LinkTable Ownership LinkTransit Tunnel Identity Announce Ingress RateLimit Blackhole.
From S2P Require Import Msgpack Actor Forward ProofRoute Learn.
From stdpp Require Import prelude list gmap fin_maps functions.

Open Scope Z_scope.

Inductive InboundOrigin := OriginWire | OriginHeldAnnounce | OriginCachedAnnounce.
#[export] Instance InboundOrigin_eq_dec : EqDecision InboundOrigin. Proof. solve_decision. Defined.

Record PacketIn := mkIn {
  in_raw : bytes;
  in_interface_id : Z;
  in_metrics : PacketMetrics;
}.

Section inbound.
Context `{Mpsc} `{Digest} `{Hkdf} `{Ed25519Signer} `{Ed25519} `{!Ed25519Keys}.

(** The wire budget of the interface: the clear limit for what follows, or the
    state in which the packet is dropped. *)
Definition wire_budget (a : Actor) (p : PacketIn) (origin : InboundOrigin) : io (Actor + Z) :=
  if decide (origin = OriginCachedAnnounce) then Ok (inr 500) else
  match interfaces a !! in_interface_id p with
  | None => Ok (inl a)
  | Some e =>
      if negb (owner_current (owner (if_entry e))) then Ok (inl a) else
      if max_wire_packet_bytes (packet_capacity (if_entry e)) <? len (in_raw p)
      then Ok (inl (protocol_violation a (in_interface_id p))) else
      match entry_clear_mtu (if_entry e) with
      | Ok n => Ok (inr n)
      | Err _ => Ok (inl a)
      | Panic => Panic
      end
  end.

(** Interface access control: the packet without its code, or the state in
    which it is dropped. *)
Definition strip_ifac (a : Actor) (p : PacketIn) (origin : InboundOrigin) : io (Actor + bytes) :=
  match (if decide (origin = OriginWire) then interfaces a !! in_interface_id p else None) with
  | Some e =>
      match ifac_key (if_entry e) with
      | Some key =>
          let* stripped := ifac_verify (in_raw p) key (Z.to_nat (ifac_size (if_entry e))) in
          match stripped with
          | Some raw => Ok (inr raw)
          | None => Ok (inl (ifac_violation a (in_interface_id p)))
          end
      | None =>
          let* flagged := has_ifac_flag (in_raw p) in
          if (flagged : bool) then Ok (inl (ifac_violation a (in_interface_id p))) else Ok (inr (in_raw p))
      end
  | None => Ok (inr (in_raw p))
  end.

Definition from_shared_owner (a : Actor) (interface_id : Z) : bool :=
  is_shared_instance a && is_shared_instance_peer_interface a interface_id.

(** Overheard packets addressed to another transport. *)
Definition for_another_transport (a : Actor) (h : PacketHeader) (interface_id : Z) : bool :=
  negb (bool_decide (packet_type (flags h) = Announce))
  && bool_decide (is_Some (Wire.transport_id h))
  && negb (bool_decide (Wire.transport_id h = transport_identity_hash a))
  && negb (from_shared_owner a interface_id).

(** PLAIN and GROUP packets travel one hop at most and are never announced. *)
Definition unroutable_type (a : Actor) (h : PacketHeader) (interface_id : Z) : bool :=
  negb (skips_hashlist (context h)) && negb (from_shared_owner a interface_id)
  && (bool_decide (destination_type (flags h) = Plain) || bool_decide (destination_type (flags h) = Group))
  && (bool_decide (packet_type (flags h) = Announce) || (1 <? Wire.hops h)).

(** A malformed link request reserves no hash. *)
Definition request_admissible (a : Actor) (raw : bytes) (h : PacketHeader) (data_offset : nat) (interface_id : Z)
    : io bool :=
  if negb (bool_decide (packet_type (flags h) = LinkRequest)) then Ok true else
  let* data := slice_from raw data_offset in
  let* signal := res_ok (parse_request_signalling data) in
  match signal, interfaces a !! interface_id with
  | Some signal, Some ingress =>
      let* has_ceiling := is_ok (entry_link_ceiling ingress interface_id) in
      Ok (has_ceiling && negb (bool_decide (Wire.destination_hash h ∈ local_destinations a)
                                && negb (ls_mode signal =? DEFAULT_LINK_MODE)))
  | _, _ => Ok false
  end.

(** Link traffic, link requests and link-request proofs enter the hash list
    later, once they are claimed. *)
Definition defers_hashlist (a : Actor) (h : PacketHeader) : bool :=
  LinkTable.contains (link_table a) (Wire.destination_hash h)
  || bool_decide (packet_type (flags h) = LinkRequest)
  || bool_decide (context h = Lrproof).

(** Deduplication; [false] when the packet is a duplicate to be dropped. *)
Definition deduplicate (a : Actor) (h : PacketHeader) (pkt_hash : bytes) : Actor * bool :=
  if negb (skips_hashlist (context h)) && negb (defers_hashlist a h) then
    let '(l, fresh) := Hashlist.insert (packet_hashlist a) pkt_hash in
    (upd_packet_hashlist (λ _, l) a,
     fresh || bool_decide (packet_type (flags h) = Announce) && bool_decide (destination_type (flags h) = Single))
  else (a, true).

Definition with_hops (h : PacketHeader) (n : Z) : PacketHeader :=
  mkHeader (flags h) n (Wire.transport_id h) (Wire.destination_hash h) (context h).

Definition dispatch (env : Env) (a : Actor) (raw : bytes) (h : PacketHeader) (data_offset : nat) (interface_id : Z)
    (ms : PacketMetrics) : io (Actor * Next) :=
  match packet_type (flags h) with
  | Announce => process_announce env a raw h data_offset interface_id
  | LinkRequest => let* a := process_link_request env a raw h interface_id ms in Ok (a, Done)
  | Proof => let* a := process_proof env a raw h interface_id ms in Ok (a, Done)
  | Data => process_data env a raw h interface_id ms
  end.

(** From the unmasked packet on. *)
Definition filter_and_dispatch (env : Env) (a : Actor) (raw : bytes) (p : PacketIn) : io (Actor * Next) :=
  let id := in_interface_id p in
  match header_unpack raw with
  | Panic => Panic
  | Err _ => Ok (protocol_violation a id, Done)
  | Ok (parsed, data_offset) =>
      if PATHFINDER_M <=? Wire.hops parsed then Ok (protocol_violation a id, Done) else
      if for_another_transport a parsed id then Ok (packet_filter_hit a id, Done) else
      if unroutable_type a parsed id then Ok (packet_filter_hit a id, Done) else
      let* admissible := request_admissible a raw parsed data_offset id in
      if negb admissible then Ok (a, Done) else
      let* pkt_hash := Packet.packet_hash raw (header_type (flags parsed)) in
      let a := record_packet_metrics a pkt_hash (in_metrics p) in
      let '(a, fresh) := deduplicate a parsed pkt_hash in
      if negb fresh then Ok (packet_filter_hit a id, Done) else
      let parsed := with_hops parsed (adjusted_inbound_hops a (Wire.hops parsed) id) in
      dispatch env a raw parsed data_offset id (in_metrics p)
  end.

Definition on_inbound_inner (env : Env) (a : Actor) (p : PacketIn) (origin : InboundOrigin) : io (Actor * Next) :=
  let id := in_interface_id p in
  let a := if decide (origin = OriginWire) then record_rx a id (len (in_raw p)) else a in
  let* budget := wire_budget a p origin in
  match budget with
  | inl a => Ok (a, Done)
  | inr clear_limit =>
      let* stripped := strip_ifac a p origin in
      match stripped with
      | inl a => Ok (a, Done)
      | inr raw =>
          if clear_limit <? len raw then Ok (protocol_violation a id, Done)
          else filter_and_dispatch env a raw p
      end
  end.

Definition on_inbound (env : Env) (a : Actor) (p : PacketIn) : io (Actor * Next) :=
  on_inbound_inner env a p OriginWire.

Definition on_released_announce (env : Env) (a : Actor) (ann : HeldAnnounce) : io (Actor * Next) :=
  on_inbound_inner env a (mkIn (ha_raw ann) (receiving_interface_id ann) no_metrics) OriginHeldAnnounce.

Definition on_cached_announce (env : Env) (a : Actor) (p : PacketIn) : io (Actor * Next) :=
  if 500 <? len (in_raw p) then Ok (a, Done) else
  let* unpacked := res_ok (header_unpack (in_raw p)) in
  match unpacked with
  | Some (h, _) =>
      if bool_decide (packet_type (flags h) = Announce) then on_inbound_inner env a p OriginCachedAnnounce
      else Ok (a, Done)
  | None => Ok (a, Done)
  end.
End inbound.
