(* ===== verification/RelayDemo.v ===== *)
(** * A concrete relay

    Bounded channels as lists, and a relay with three interfaces, a path and a
    known destination: the instances at which the theorems of Relay.v, Hops.v
    and Transit.v are evaluated. *)

From S2P Require Import Prelude F64 Wire Packet LinkSignalling Receipt Ifac Table Hashlist PathTable.
From S2P Require Import ReverseTable LinkTable Ownership LinkTransit Tunnel Identity Announce Ingress RateLimit Blackhole.
From S2P Require Import Msgpack Actor ActorFacts Restore Forward ProofRoute Learn Inbound.
From stdpp Require Import prelude list gmap fin_maps functions.

Open Scope Z_scope.

(** Queues of eight. *)
#[export] Instance toy_mpsc : Mpsc := {|
  chan := λ A : Type, (list A * bool)%type;
  try_send := λ A c x,
    if c.2 : bool then (c, SendClosed) else if Nat.leb 8 (length c.1) then (c, SendFull) else ((c.1 ++ [x], false), SendOk);
  chan_closed := λ A c, c.2;
  accepted := λ A c, c.1;
|}.

#[export] Instance toy_mpsc_laws : MpscLaws toy_mpsc.
Proof. split. intros A [l b] x. cbn -[Nat.leb]. destruct b; [done|]. by destruct (Nat.leb 8 (length l)). Qed.

#[export] Existing Instance toy_digest.
#[export] Existing Instance toy_ed.

Definition demo_env : Env :=
  mkEnv (f_of_Z 100) 100 (mkClock 100 100 100) f_zero [1; 2; 3] [] [].

(** Interface [n] writes to queue [n]. *)
Definition demo_iface (n : Z) (key : option bytes) : Iface :=
  mkIface (mkEntry (mkOwner 1 n (mkReg false n n 0)) (mkCap 1500 1600 true) key 8) Full Normal true 1000000
    (Z.to_nat n) None None None None 0 0 0 0 0 (ctrl_new 0).

Definition demo_transport : bytes := replicate 16 9.
Definition demo_dest : bytes := replicate 16 7.
Definition demo_key : bytes := replicate 32 1 ++ replicate 32 6.
Definition demo_link : bytes := replicate 16 4.

(** The destination is one hop beyond interface 2. *)
Definition demo_path : PathEntry := path_entry_new None 1 2 Full (f_of_Z 50).

Definition demo_recent : RecentAnnounce :=
  mkRecent 1 None (f_of_Z 50) (Some demo_key) None None false false None (replicate 10 2).

(** A link requested through the relay from interface 1 and not yet proved. *)
Definition demo_link_entry : LinkEntry := {|
  LinkTable.timestamp := f_of_Z 90; LinkTable.next_hop := None; LinkTable.interface_id := 2;
  LinkTable.remaining_hops := 1; LinkTable.destination_hash := demo_dest; established := false; validated := false;
  proof_timeout := f_of_Z 200; LinkTable.receiving_interface := 1; taken_hops := 4;
  interface_owner := Some {| epoch := 1; LinkTable.revision := 2 |};
  receiving_owner := Some {| epoch := 1; LinkTable.revision := 1 |};
  requested_mode := DEFAULT_LINK_MODE; accepted_mtu_ceiling := 500 |}.

Definition demo_relay : Actor := {|
  path_table := PathTable.insert path_table_new demo_dest demo_path;
  link_table := LinkTable.insert link_table_new demo_link demo_link_entry;
  announce_table := at_new; held := ∅; reverse_table := reverse_new; tunnel_table := tunnel_table_new;
  packet_hashlist := hashlist_new; rate_table := rate_table_new; blackhole_table := blackhole_new; traffic := ∅;
  packet_metrics := ∅; packet_metrics_order := []; receipt_table := ∅; receipt_msg_ids := ∅;
  receipt_proof_txs := ∅; receipt_updates := ∅;
  interfaces := {[1 := demo_iface 1 None; 2 := demo_iface 2 None; 3 := demo_iface 3 (Some (replicate 64 3))]};
  local_destinations := ∅; destination_channels := ∅; local_link_routes := ∅; pending_local_link_requests := ∅;
  link_endpoints := ∅; path_requests := ∅; discovery_path_requests := ∅; pending_announce_admissions := [];
  path_interface_suppressions := ∅; pending_local_path_requests := ∅;
  recent_announces := {[demo_dest := demo_recent]};
  is_transport_enabled := true; transport_identity_hash := Some demo_transport; local_hops_delta := 0;
  is_shared_instance := false; shared_instance_client_mode := false; state_dirty := false; channel_drops := 0;
  wires := λ _, ([], false); mailboxes := λ _, ([], false); events := [] |}.

Lemma demo_iface_ok n key : (∀ k, key = Some k → length k = 64%nat) → iface_ok (demo_iface n key).
Proof.
  intros Hk. split; [exact Hk|done| |apply ctrl_with_ok, default_times].
  split; (split; [done|]); unfold U32_MAX; cbn; lia.
Qed.

Lemma demo_relay_ok : actor_ok 1000 demo_relay.
Proof.
  split.
  - apply map_Forall_insert_2; [by apply demo_iface_ok|]. apply map_Forall_insert_2; [by apply demo_iface_ok|].
    apply map_Forall_singleton, demo_iface_ok. by intros k [= <-].
  - split; apply map_Forall_empty.
  - apply map_Forall_empty.
  - unfold U32_MAX. lia.
  - apply map_Forall_singleton. intros k [= <-]. reflexivity.
  - apply map_Forall_empty.
  - apply map_Forall_insert_2; [done|apply map_Forall_empty].
  - intros id d tp Hd. discriminate Hd.
  - intros i [= <-]. by apply (bool_decide_eq_true_1 _).
  - done.
Qed.

(** *** Packets *)

Definition demo_header (ty : PacketType) : PacketHeader :=
  mkHeader (mkFlags Header2 false Transport Single ty) 3 (Some demo_transport) demo_dest CtxNone.

Definition demo_data : bytes := header_pack (demo_header Data) ++ [1; 2; 3].
Definition demo_request : bytes := header_pack (demo_header LinkRequest) ++ replicate 64 5.

(** The responder's proof of [demo_link]. *)
Definition demo_proof_header : PacketHeader :=
  mkHeader (mkFlags Header1 false Broadcast Link Proof) 0 None demo_link Lrproof.
Definition demo_proof : bytes :=
  header_pack demo_proof_header ++
  ed_sign [6] (demo_link ++ replicate 32 8 ++ drop 32 demo_key) ++ replicate 32 8.

Definition arrives (id : Z) (raw : bytes) : PacketIn := mkIn raw id no_metrics.

(** The state and the call a reception ends with. *)
Definition after (m : io (Actor * Next)) : Actor := match m with Ok (a, _) => a | _ => demo_relay end.
Definition sent (a : Actor) (id : Z) : list bytes := accepted (wires a (Z.to_nat id)).

Example demo_forwards :
  sent (after (on_inbound demo_env demo_relay (arrives 1 demo_data))) 2 =
    [header_pack (mkHeader (mkFlags Header1 false Broadcast Single Data) 4 None demo_dest CtxNone) ++ [1; 2; 3]].
Proof. vm_compute. reflexivity. Qed.

Example demo_validates :
  validated <$> LinkTable.get (link_table (after (on_inbound demo_env demo_relay (arrives 2 demo_proof)))) demo_link
  = Some true.
Proof. vm_compute. reflexivity. Qed.

(** An announce of another destination, two hops away, and its path. *)
Definition demo_announced : bytes * bytes :=
  match create_at demo_identity [1; 2; 3] (Some [9]) None 1000 [0; 1; 2; 3; 4],
        hash_from_name_and_identity (E := Empty_set) [1; 2; 3] (Some (id_hash demo_identity)) with
  | Ok a, Ok dh =>
      (dh, header_pack (mkHeader (mkFlags Header1 false Broadcast Single Announce) 2 None dh CtxNone) ++ ann_pack a)
  | _, _ => ([], [])
  end.

Example demo_learns :
  (λ e, (PathTable.hops e, PathTable.interface_id e)) <$>
    PathTable.get (path_table (after (on_inbound demo_env demo_relay (arrives 1 demo_announced.2)))) demo_announced.1
  = Some (3, 1).
Proof. vm_compute. reflexivity. Qed.

(** A tunnel that lost its interface, the path it remembers, and the packet
    with which it reappears.  The two control destinations have to differ,
    which they do not under a digest that keeps a prefix: this one keeps the
    end. *)
Module Tunnelled.
#[export] Instance rev_digest : Digest := {|
  hasher := bytes; hasher_new := []; hasher_update h b := h ++ b;
  hasher_finalize h := take 32 (map (λ b, b mod 256) (reverse h) ++ replicate 32 0) |}.

Definition demo_remembered : bytes := replicate 16 11.
Definition demo_stored : TunnelPath := {|
  tp_timestamp := f_of_Z 20; tp_next_hop := Some (replicate 16 12); tp_hops := 5; tp_expires := f_of_Z 5000;
  tp_random_blobs := []; tp_packet_hash := None |}.

Definition demo_synthesis_data : TunnelSynthesisData := {|
  Tunnel.public_key := demo_key; Tunnel.interface_hash := replicate 32 2; Tunnel.random_hash := replicate 16 0;
  Tunnel.signature := ed_sign [6] (demo_key ++ replicate 32 2 ++ replicate 16 0) |}.

Definition demo_synthesis : bytes :=
  match tunnel_synthesize_dest_hash with
  | Ok dest =>
      header_pack (mkHeader (mkFlags Header1 false Broadcast Plain Data) 0 None dest CtxNone) ++
      synth_pack demo_synthesis_data
  | _ => []
  end.

Definition demo_tunnelled : Actor :=
  upd_tunnel_table (λ _, Tunnel.insert tunnel_table_new {|
    tunnel_id := synth_tunnel_id demo_synthesis_data; Tunnel.interface_id := None;
    tunnel_paths := {[demo_remembered := demo_stored]}; Tunnel.expires := f_of_Z 5000 |}) demo_relay.

Example demo_restores :
  (λ e, (PathTable.hops e, PathTable.interface_id e)) <$>
    PathTable.get (path_table (after (on_inbound demo_env demo_tunnelled (arrives 1 demo_synthesis)))) demo_remembered
  = Some (5, 1).
Proof. vm_compute. reflexivity. Qed.
End Tunnelled.
