(* ===== verification/RelaySafe.v ===== *)
(** * No packet can stop the actor

    Every handler of Forward.v, ProofRoute.v and Learn.v, and the filter chain
    of Inbound.v, returns on arbitrary bytes and keeps the state invariant of
    ActorFacts.v.  The counters of announce rate violations are 32 bits wide
    and checked, so the invariant carries the number of announces still
    certain to fit. *)

From S2P Require Import Prelude F64 Wire Packet LinkSignalling Receipt Ifac Table Hashlist PathTable.
From S2P Require Import ReverseTable LinkTable Ownership LinkTransit Tunnel Identity Announce Ingress RateLimit Blackhole.
From S2P Require Import Msgpack Actor ActorFacts Restore Forward ProofRoute Learn Inbound.
From stdpp Require Import prelude list gmap fin_maps functions strings.

Open Scope Z_scope.

(** A header as parsed from the packet, but for its hop count. *)
Record parsed (raw : bytes) (h : PacketHeader) : Prop := mkParsed {
  ps_bytes : bytes_ok raw;
  ps_header : header_ok h;
  ps_len : (header_size h ≤ length raw)%nat;
}.

Lemma header_size_min h : (19 ≤ header_size h)%nat.
Proof. unfold header_size. case_decide; cbn; lia. Qed.

Lemma parsed_frame raw h : parsed raw h → frame_ok raw ∧ (19 ≤ length raw)%nat.
Proof.
  intros [Hb _ Hl]. pose proof (header_size_min h). split; [|lia]. split; [done|]. intros ->. simpl in Hl. lia.
Qed.

Lemma unpack_parsed raw h off : bytes_ok raw → header_unpack raw = Ok (h, off) → parsed raw h ∧ off = header_size h.
Proof.
  intros Hb Hu. pose proof (header_unpack_total raw Hb) as Ht. rewrite Hu in Ht.
  destruct Ht as (Hh & -> & Hl & _). by split.
Qed.

Lemma parsed_with_hops raw h n : parsed raw h → u8 n → parsed raw (with_hops h n).
Proof. intros [? (? & ? & ? & ?) ?] ?. by constructor. Qed.

Lemma drop_parsed {E} raw h : parsed raw h → slice_from raw (header_size h) = @Ok E _ (drop (header_size h) raw).
Proof. intros []. by apply slice_from_ok. Qed.

Section safe.
Context `{M : Mpsc} `{D : Digest} `{!DigestLaws D} `{K : Hkdf} `{!HkdfLaws K}
  `{G : Ed25519Signer} `{!Ed25519SignerLaws G} `{Ed : Ed25519} `{!Ed25519Keys} `{!Ed25519KeysLaws H G}.
Implicit Types a : Actor.

Lemma packet_hash_total {E} raw ht : raw ≠ [] → ∃ x, Packet.packet_hash raw ht = @Ok E _ x ∧ length x = 32%nat.
Proof.
  intros Hne. exists (sha256 (hashable_bytes raw ht)). split; [|apply sha256_length].
  by apply packet_hash_sha256, get_hashable_part_total.
Qed.

Lemma truncated_hash_total {E} raw ht : raw ≠ [] → ∃ x, truncated_packet_hash raw ht = @Ok E _ x ∧ length x = 16%nat.
Proof.
  intros Hne. exists (take 16 (sha256 (hashable_bytes raw ht))). split; [|apply length_sha_take; lia].
  by apply truncated_packet_hash_sha256, get_hashable_part_total.
Qed.

Lemma link_id_total {E} raw ht : raw ≠ [] → ∃ x, link_id_from_raw raw ht = @Ok E _ x ∧ length x = 16%nat.
Proof.
  intros Hne. unfold link_id_from_raw. rewrite get_hashable_part_total by done. cbn [res_bind].
  rewrite truncated_hash_ok. eexists. split; [done|]. apply length_sha_take. lia.
Qed.

(** ** Forwarding *)

Lemma with_header_ok h ht tt tid :
  header_ok h → match tid with Some t => array_ok 16 t ∧ ht = Header2 | None => ht = Header1 end →
  header_ok (with_header h ht tt tid).
Proof. intros (? & ? & ? & _) Ht. by split_and!. Qed.

Lemma rewrite_total a raw h path tl :
  parsed raw h → id_ok (PathTable.next_hop path) →
  ∃ o, rewrite_forwarded_transport_packet a raw h path tl = Ok o ∧ ∀ f, o = Some f → frame_ok f ∧ (2 ≤ length f)%nat.
Proof.
  intros Hp Hn. pose proof Hp as [Hb Hh Hl]. unfold rewrite_forwarded_transport_packet.
  destruct (parsed_frame raw h Hp) as [Hf Hl19]. rewrite decide_False by lia.
  assert (Hnew : ∀ h', header_ok h' → frame_ok (header_pack h' ++ drop (header_size h) raw) ∧
    (2 ≤ length (header_pack h' ++ drop (header_size h) raw))%nat).
  { intros h' Hh'. pose proof (length_header_pack h' Hh') as Hlp. pose proof (header_size_min h').
    rewrite length_app. split; [|lia]. split; [by apply bytes_ok_app; split; [apply header_pack_ok|apply bytes_ok_drop]|].
    intros Hz%(f_equal length). rewrite length_app in Hz. simpl in Hz. lia. }
  destruct (1 <? PathTable.hops path).
  - destruct (PathTable.next_hop path) as [nh|]; [|by exists None].
    rewrite drop_parsed by done. cbn [res_bind]. eexists; split; [done|]. intros f <-%(inj Some).
    apply Hnew, with_header_ok; [done|]. split; [by apply Hn|done].
  - destruct (_ || _).
    + rewrite drop_parsed by done. cbn [res_bind]. eexists; split; [done|]. intros f <-%(inj Some).
      by apply Hnew, with_header_ok.
    + eexists; split; [done|]. intros f <-%(inj Some). unfold put_hops. split.
      * apply put_byte1_frame; [done|]. apply Hh.
      * rewrite length_insert. lia.
Qed.

Lemma candidate_total n env a raw h f1 f2 f3 :
  actor_ok n a → parsed raw h →
  ∃ o, transport_forward_candidate env a raw h f1 f2 f3 = Ok o ∧ ∀ t f, o = Some (t, f) → frame_ok f.
Proof.
  intros Ha Hp. unfold transport_forward_candidate.
  destruct (PathTable.get_live _ _ _) as [path|] eqn:Hlive; [|by exists None].
  assert (Hn : id_ok (PathTable.next_hop path)).
  { unfold PathTable.get_live in Hlive. destruct (PathTable.entries (path_table a) !! _) eqn:Hk; [|done].
    case_match; [|done]. simplify_eq. by apply (ok_paths n a Ha _ _ Hk). }
  destruct (_ && _ && negb _); [by exists None|]. destruct (negb _ && _); [by exists None|].
  destruct (rewrite_total a raw h path f3 Hp Hn) as (o & -> & Ho). cbn [res_bind].
  destruct o as [f|]; [|by exists None]. destruct (Ho f eq_refl) as [Hf Hl].
  destruct (negb (local_hops_delta a =? 0) && f1 && negb f3); cbn [res_bind].
  - unfold set_byte1. rewrite decide_True by lia. cbn [res_bind]. eexists; split; [done|]. intros t g [= <- <-].
    apply put_byte1_frame; [done|]. apply (ok_delta n a Ha).
  - eexists; split; [done|]. by intros t g [= <- <-].
Qed.

Lemma outgoing_hops_u8 n a b c x : actor_ok n a → u8 x → u8 (outgoing_hops a b c x).
Proof. intros Ha Hx. unfold outgoing_hops. case_match; [done|]. apply (ok_delta n a Ha). Qed.

Lemma route_link_total n env a raw h id :
  actor_ok n a → parsed raw h →
  ∃ a' b, route_link_packet_via_link_table env a raw h id = Ok (a', b) ∧ actor_ok n a' ∧ (b = false → a' = a).
Proof.
  intros Ha Hp. unfold route_link_packet_via_link_table. destruct (parsed_frame raw h Hp) as [Hf _].
  destruct (_ || _); [by eexists _, _|]. destruct (LinkTable.get _ _) as [e|]; [|by eexists _, _].
  destruct (_ || _); [by eexists _, _|]. destruct (_ && _); [by eexists _, _|]. cbv zeta.
  destruct (_ && _); [by eexists _, _|].
  destruct (link_target e id (Wire.hops h)) as [[t|]|]; [|by eexists _, _..].
  destruct (packet_hash_total (E:=Empty_set) raw (header_type (flags h)) (proj2 Hf)) as (x & -> & _). cbn [res_bind].
  set (pre := if skips_hashlist _ then _ else _).
  assert (∃ a1 fresh, pre = Ok (a1, fresh) ∧ actor_ok n a1 ∧ local_hops_delta a1 = local_hops_delta a) as (a1 & fresh & -> & Ha1 & Hd).
  { subst pre. case_match; [by eexists _, _|]. destruct (Hashlist.insert _ _) as [l fr].
    eexists _, _. split; [done|]. split; [|done]. destruct Ha; by constructor. }
  cbn [res_bind]. destruct fresh; cbn [negb]; [|by eexists _, _].
  assert (Ha2 : actor_ok n (upd_link_table (λ t0, LinkTable.get_mut t0 (Wire.destination_hash h) (with_link_timestamp (now env))) a1))
    by (destruct Ha1; by constructor).
  set (frame := put_hops raw _).
  assert (Hfr : frame_ok frame).
  { apply put_byte1_frame; [done|]. apply (outgoing_hops_u8 n); [done|]. apply (ps_header raw h Hp). }
  destruct (send_total n env _ t frame Ha2 (proj1 Hfr) (proj2 Hfr)) as (a3 & b & -> & Ha3 & _). cbn [res_bind].
  by eexists _, true.
Qed.

(** ** Data and link requests *)

Lemma plain_hash_total name : ∃ x, (hash_from_name_and_identity name None : io bytes) = Ok x.
Proof.
  unfold hash_from_name_and_identity. rewrite name_hash_ok. cbn [res_bind dest_compute_hash].
  rewrite truncated_hash_ok. eauto.
Qed.

Lemma plain_broadcast_total n env a raw h id c :
  actor_ok n a → frame_ok raw → ∃ a', relay_plain_broadcast env a raw h id c = Ok a' ∧ actor_ok n a'.
Proof.
  intros Ha Hf. unfold relay_plain_broadcast. destruct (_ && _); [|by eexists].
  destruct (is_local_client_interface a id).
  - destruct (broadcast_total n env a raw (Some id) Ha Hf) as (a' & b & -> & ? & _). by eexists.
  - destruct (send_to_each_total n env (local_client_interface_ids_except env a (Some id)) (λ _ _, Ok raw) a Ha)
      as (a' & b & -> & ? & _); by eexists.
Qed.

Lemma violation_ok n a id : actor_ok n a → actor_ok n (protocol_violation a id).
Proof.
  intros Ha. apply (actor_ok_transfer n a); try done; [|eauto].
  apply map_Forall_alter; [apply Ha|]. intros e []. by constructor.
Qed.

Lemma filter_hit_ok n a id : actor_ok n a → actor_ok n (packet_filter_hit a id).
Proof.
  intros Ha. apply (actor_ok_transfer n a); try done; [|eauto].
  apply map_Forall_alter; [apply Ha|]. intros e []. by constructor.
Qed.

Lemma ifac_violation_ok n a id : actor_ok n a → actor_ok n (ifac_violation a id).
Proof.
  intros Ha. apply (actor_ok_transfer n a); try done; [|eauto].
  apply map_Forall_alter; [apply Ha|]. intros e []. by constructor.
Qed.

Lemma payload_offset_ok raw h off : data_payload_offset raw h = Some off → (off ≤ length raw)%nat.
Proof. unfold data_payload_offset. case_decide; [|done]. by intros [= <-]. Qed.

Lemma synth_unpack_total {E} p : ∃ o, synth_unpack p = @Ok E _ o ∧ ∀ d, o = Some d → length (Tunnel.public_key d) = 64%nat.
Proof.
  destruct (decide (length p = 176%nat)) as [Hl|Hl].
  - rewrite synth_unpack_eq by done. eexists. split; [done|]. intros d [= <-]. simpl. rewrite length_take. lia.
  - unfold synth_unpack. destruct (Nat.eqb_spec (length p) 176); [done|]. by exists None.
Qed.

Lemma is_signed_total {E} d : length (Tunnel.public_key d) = 64%nat → ∃ b, is_signed d = @Ok E _ b.
Proof.
  intros Hl. unfold is_signed, identity_from_public_key. rewrite Hl. cbn [Nat.eqb negb].
  rewrite slice_from_ok by lia. cbn [res_bind]. rewrite copy_array_ok by (rewrite length_drop; lia).
  cbn [res_bind]. destruct (public_key_from_bytes _); eauto.
Qed.

Lemma handle_tunnel_ok n env a tid id :
  actor_ok n a →
  actor_ok n (upd_state_dirty (λ _, true) (upd_tunnel_table (λ t, Tunnel.handle_tunnel t tid id (now env)) a)).
Proof.
  intros Ha. apply (actor_ok_transfer n a); try done; [apply Ha| |eauto].
  intros P HP k d tp Hd. cbn -[tunnel_path] in Hd. rewrite handle_tunnel_path in Hd. by apply (HP k).
Qed.

Lemma restore_ok n env a tid id : actor_ok n a → actor_ok n (restore_tunnel_paths env a tid id).
Proof.
  intros Ha. destruct (restore_frame env a tid id) as (Hb & _ & _). pose proof (restore_within env a tid id) as Hw.
  pose proof (restore_lookup env a tid id) as Hl. cbv zeta in *. set (a' := restore_tunnel_paths env a tid id) in *.
  clearbody a'. unfold bystanders in Hb. rewrite !pair_eq in Hb.
  destruct Hb as (((((((((Hf & Hi) & Han) & Hh) & _) & _) & _) & _) & _) & _).
  pose proof (fixed_eq _ _ Hf) as (_ & Hr & Hre & Hrc & Hid & Hd & _).
  destruct Ha as [? ? ? ? ? ? HP HT ? ?]. constructor; [unfold ifaces_ok; by rewrite Hi|unfold all_announces; by rewrite Han, Hh|by rewrite Hr|done
    |by rewrite Hre|by rewrite Hrc| |by apply (tunnels_within_all _ a)|by rewrite Hid|by rewrite Hd].
  intros k e Hk. specialize (Hl k). change (PathTable.get (path_table a') k = Some e) in Hk.
  destruct (tunnel_path (tunnel_table a) tid k) as [tp|] eqn:Htp; [case_match|]; destruct Hl as [Hl _]; rewrite Hl in Hk.
  - injection Hk as <-. by apply (HT tid k).
  - by apply (HP k).
  - by apply (HP k).
Qed.

Lemma synthesis_total n env a raw h id :
  actor_ok n a → ∃ a' x, handle_tunnel_synthesis env a raw h id = Ok (a', x) ∧ actor_ok n a'.
Proof.
  intros Ha. unfold handle_tunnel_synthesis. destruct (data_payload_offset raw h) as [off|] eqn:Ho; [|by eexists _, _].
  rewrite slice_from_ok by (by eapply payload_offset_ok). cbn [res_bind].
  destruct (synth_unpack_total (E:=Empty_set) (drop off raw)) as (o & -> & Hl). cbn [res_bind].
  destruct o as [d|]; cbn [res_bind].
  - destruct (is_signed_total (E:=Empty_set) d (Hl d eq_refl)) as [b ->]. cbn [res_bind]. destruct b.
    + eexists _, _. split; [done|]. by apply restore_ok, handle_tunnel_ok.
    + eexists _, _. split; [done|]. by apply violation_ok.
  - eexists _, _. split; [done|]. by apply violation_ok.
Qed.

Lemma touch_ok n env a dest : actor_ok n a → actor_ok n (touch_path env a dest).
Proof.
  intros Ha. apply (actor_ok_transfer n a); try done; [apply Ha|].
  intros k e. unfold touch_path, PathTable.get, PathTable.get_live_mut. cbn -[lookup alter].
  case_match; [|eauto]. cbn -[lookup alter].
  intros [(-> & e' & He' & ->)|[_ He']]%lookup_alter_Some; eauto.
Qed.

Lemma process_data_total n env a raw h id ms :
  actor_ok n a → parsed raw h → ∃ a' x, process_data env a raw h id ms = Ok (a', x) ∧ actor_ok n a'.
Proof.
  intros Ha Hp. destruct (parsed_frame raw h Hp) as [Hf _]. unfold process_data, path_request_dest_hash, tunnel_synthesize_dest_hash.
  destruct (plain_hash_total (string_bytes "rnstransport.path.request")) as [d1 ->].
  destruct (plain_hash_total (string_bytes "rnstransport.tunnel.synthesize")) as [d2 ->]. cbn [res_bind].
  generalize (bool_decide (Wire.destination_hash h = d1) || bool_decide (Wire.destination_hash h = d2)). intros c.
  destruct (plain_broadcast_total n env a raw h id c Ha Hf) as (a1 & -> & Ha1). cbn [res_bind].
  destruct (route_link_total n env a1 raw h id Ha1 Hp) as (a2 & b & -> & Ha2 & _). cbn [res_bind].
  destruct b; [by eexists _, _|].
  case_decide. { destruct (data_payload_offset raw h) eqn:Ho; [|by eexists _, _].
    rewrite slice_from_ok by (by eapply payload_offset_ok). by eexists _, _. }
  case_decide; [by apply synthesis_total|]. case_decide; [by eexists _, _|].
  case_decide; [eexists _, _; split; [done|]; by apply deliver_ok|].
  match goal with |- context [transport_forward_candidate env a2 raw h ?x ?y ?z] =>
    destruct (candidate_total n env a2 raw h x y z Ha2 Hp) as (o & -> & Ho) end. cbn [res_bind].
  destruct o as [[t f]|]; [|by eexists _, _]. destruct (Ho t f eq_refl) as [Hfb Hfn].
  destruct (truncated_hash_total (E:=Empty_set) raw (header_type (flags h)) (proj2 Hf)) as (x & -> & _). cbn [res_bind].
  match goal with |- context [send_to_interface env ?b t f] =>
    assert (Ha3 : actor_ok n b) by (destruct Ha2; by constructor);
    destruct (send_total n env b t f Ha3 Hfb Hfn) as (a4 & s & -> & Ha4 & _) end. cbn [res_bind].
  eexists _, _. split; [done|]. by apply touch_ok.
Qed.

Lemma idx_bytes_ok {E} l i b : bytes_ok l → idx l i = @Ok E _ b → u8 b.
Proof. intros Hl. unfold idx. destruct (l !! i) eqn:Hi; [|done]. intros [= <-]. by eapply Forall_lookup_1. Qed.

Lemma sd_pack_bytes {E} d p : sd_pack d = @Ok E _ p → bytes_ok p.
Proof.
  unfold sd_pack. cbv zeta. pose proof (λ v, be_bytes_ok 4 v) as Hb.
  intros (b1 & ?%idx_bytes_ok & Hx)%res_bind_Ok_inv; [|apply Hb].
  apply res_bind_Ok_inv in Hx as (b2 & ?%idx_bytes_ok & Hx); [|apply Hb].
  apply res_bind_Ok_inv in Hx as (b3 & ?%idx_bytes_ok & [= <-]); [|apply Hb].
  rewrite !bytes_ok_cons. split_and!; try done. apply Forall_nil_2.
Qed.

Lemma attenuate_bytes_ok payload ii ing ei eg fwd m c :
  bytes_ok payload → attenuate_request payload ii ing ei eg = Ok (fwd, m, c) → bytes_ok fwd.
Proof.
  intros Hb. unfold attenuate_request. intros (s & _ & Hx)%res_bind_Ok_inv.
  destruct (_ || _); [done|]. apply res_bind_Ok_inv in Hx as (i & _ & Hx). apply res_bind_Ok_inv in Hx as (o & _ & Hx).
  cbv zeta in Hx. destruct (negb (ls_mode s =? DEFAULT_LINK_MODE)).
  - apply res_bind_Ok_inv in Hx as (t & _ & Hx). apply res_bind_Ok_inv in Hx as (ro & _ & Hx).
    apply res_bind_Ok_inv in Hx as (r & _ & Hx). destruct (negb _); [done|]. by injection Hx as <- _ _.
  - apply res_bind_Ok_inv in Hx as (f & Hf & Hx). unfold slice_to in Hf. case_decide; [|done].
    assert (Hfb : bytes_ok f) by (injection Hf as <-; by apply bytes_ok_take).
    destruct (_ && _); [|by injection Hx as <- _ _].
    apply res_bind_Ok_inv in Hx as (d & _ & Hx). apply res_bind_Ok_inv in Hx as (p & Hp & Hx).
    injection Hx as <- _ _. apply bytes_ok_app. split; [done|].
    by eapply sd_pack_bytes.
Qed.

Lemma attenuate_no_panic payload ii ing ei eg : bytes_ok payload → attenuate_request payload ii ing ei eg ≠ Panic.
Proof.
  intros Hb Hp. pose proof (attenuate_request_exact payload ii ing ei eg Hb) as Hx. cbv zeta in Hx. by rewrite Hp in Hx.
Qed.

(** A packed header and more is a frame. *)
Lemma retrailed_frame f h off payload :
  frame_ok f → header_unpack f = Ok (h, off) → bytes_ok payload → frame_ok (take (header_size h) f ++ payload).
Proof.
  intros [Hb Hne] Hu Hp. destruct (unpack_parsed f h off Hb Hu) as [[_ _ Hl] _]. pose proof (header_size_min h).
  split; [apply bytes_ok_app; split; [by apply bytes_ok_take|done]|].
  intros Hz%(f_equal length). rewrite length_app, length_take in Hz. simpl in Hz. lia.
Qed.

Lemma process_link_request_total n env a raw h id ms :
  actor_ok n a → parsed raw h → ∃ a', process_link_request env a raw h id ms = Ok a' ∧ actor_ok n a'.
Proof.
  intros Ha Hp. pose proof Hp as [Hb _ _]. destruct (parsed_frame raw h Hp) as [[_ Hne] _]. unfold process_link_request.
  case_decide; [eexists; split; [done|]; by apply deliver_ok|].
  match goal with |- context [transport_forward_candidate env a raw h ?x ?y ?z] =>
    destruct (candidate_total n env a raw h x y z Ha Hp) as (o & -> & Ho) end. cbn [res_bind].
  destruct o as [[t f]|]; [|by eexists]. specialize (Ho t f eq_refl).
  destruct (PathTable.get_live _ _ _) as [path|]; [|by eexists].
  destruct (link_id_total (E:=Empty_set) raw (header_type (flags h)) Hne) as (lid & -> & _). cbn [res_bind].
  destruct (LinkTable.contains _ _); [by eexists|]. destruct (_ <=? _); [by eexists|].
  destruct (interfaces a !! id) as [ingress|]; [|by eexists]. destruct (interfaces a !! t) as [egress|]; [|by eexists].
  rewrite drop_parsed by done. cbn [res_bind].
  pose proof (bytes_ok_drop (header_size h) raw Hb) as Hbody.
  pose proof (attenuate_no_panic _ id (if_entry ingress) t (if_entry egress) Hbody) as Hnp.
  destruct (attenuate_request _ _ _ _ _) as [[[payload m] c]| |] eqn:Hatt; cbn [res_ok res_bind]; [|by eexists|done].
  pose proof (attenuate_bytes_ok _ _ _ _ _ _ _ _ Hbody Hatt) as Hpay.
  pose proof (header_unpack_no_panic f (proj1 Ho)) as Hnf.
  destruct (header_unpack f) as [[fh foff]| |] eqn:Hfu; cbn [res_ok res_bind]; [|by eexists|done].
  destruct (retrailed_frame f fh foff payload Ho Hfu Hpay) as [Hfb Hfn]. cbv zeta.
  destruct (send_total n env a t _ Ha Hfb Hfn) as (a1 & b & -> & Ha1 & _). cbn [res_bind].
  destruct b; cbn [negb]; [|by eexists]. eexists. split; [done|].
  destruct (touch_ok n env a1 (Wire.destination_hash h) Ha1). by constructor.
Qed.

(** ** Proofs *)

Lemma validate_from_destination_total {E} r t proof :
  key_ok (r_destination_public_key r) →
  ∃ b r' f, validate_proof_from_destination r t proof = @Ok E _ (b, r', f) ∧
    r_destination_public_key r' = r_destination_public_key r.
Proof.
  intros Hk. unfold validate_proof_from_destination. destruct (r_destination_public_key r) as [k|] eqn:Hr; [|by eexists _, _, _].
  rewrite slice_from_ok by (rewrite (Hk k eq_refl); lia). cbn [res_bind].
  rewrite copy_array_ok by (rewrite length_drop, (Hk k eq_refl); lia). cbn [res_bind].
  destruct (public_key_from_bytes _) as [v|]; [|by eexists _, _, _].
  match goal with |- context [validate_proof r t proof ?g] =>
    destruct (validate_proof_cases (E:=E) r t proof g) as [[-> _]|[-> _]] end; [|by eexists _, _, _].
  unfold fire_delivery. destruct (cb_delivery _); cbn; eexists _, _, _; (split; [done|]); exact Hr.
Qed.

Lemma set_identity_key r d pk : key_ok pk → key_ok (r_destination_public_key r) →
  key_ok (r_destination_public_key (set_destination_identity r d pk)).
Proof. unfold set_destination_identity. cbn. intros. by case_match. Qed.

Lemma known_key_ok n a d : actor_ok n a → key_ok (known_public_key a d).
Proof.
  intros Ha. unfold known_public_key. destruct (recent_announces a !! d) eqn:Hd; [|done]. cbn.
  by apply (ok_recent n a Ha d).
Qed.

Lemma deliver_to_all_ok n ds a ev : actor_ok n a → actor_ok n (deliver_to_all a ds ev).
Proof. revert a. induction ds as [|d ds IH]; intros a Ha; [done|]. cbn. by apply IH, deliver_ok. Qed.

Lemma receipt_proof_total n env a raw h r :
  actor_ok n a → parsed raw h → receipt_table a !! Wire.destination_hash h = Some r →
  ∃ a', process_receipt_proof env a raw h r = Ok a' ∧ actor_ok n a'.
Proof.
  intros Ha Hp Hr. unfold process_receipt_proof. rewrite decide_False by (destruct Hp; lia).
  rewrite drop_parsed by done. cbn [res_bind].
  set (r1 := match r_destination_public_key r, r_destination_hash r with None, Some d => _ | _, _ => r end).
  assert (Hk : key_ok (r_destination_public_key r1)).
  { pose proof (ok_receipts n a Ha _ _ Hr) as Hk. subst r1. case_match; [done|]. case_match; [|by rewrite H0].
    apply set_identity_key; [by apply (known_key_ok n)|]. by rewrite H0. }
  destruct (validate_from_destination_total (E:=Empty_set) r1 (instant env) (drop (header_size h) raw) Hk)
    as (b & r2 & f & -> & Hr2). cbn [res_bind].
  set (a1 := upd_events _ _).
  assert (Ha1 : actor_ok n a1).
  { destruct Ha; constructor; try done. apply map_Forall_insert_2; [by rewrite Hr2|done]. }
  clearbody a1. destruct b; cbn [negb]; [|by eexists]. eexists. split; [done|].
  assert (Ha2 : actor_ok n (notify_delivery_proof env (notify_receipt_update a1 (Wire.destination_hash h) (get_rtt r2))
                              (Wire.destination_hash h) (get_rtt r2))).
  { assert (actor_ok n (notify_receipt_update a1 (Wire.destination_hash h) (get_rtt r2))) as Ha2
      by (unfold notify_receipt_update; case_match; [destruct Ha1; by constructor|done]).
    unfold notify_delivery_proof. case_match; [|done]. case_match.
    - destruct Ha2; by constructor.
    - apply deliver_to_all_ok. destruct Ha2; by constructor. }
  destruct Ha2; constructor; try done. by apply map_Forall_delete.
Qed.

Lemma parse_proof_no_panic data : bytes_ok data → parse_proof_signalling data ≠ Panic.
Proof. intros Hb Hp. pose proof (ls_parse_total data 96 Hb) as Hl. unfold parse_proof_signalling in Hp. by rewrite Hp in Hl. Qed.

Lemma parse_proof_length data s : bytes_ok data → parse_proof_signalling data = Ok s →
  length data = 96%nat ∨ length data = 99%nat.
Proof.
  intros Hb Hp. pose proof (ls_parse_total data 96 Hb) as Hl. unfold parse_proof_signalling in Hp. rewrite Hp in Hl.
  destruct Hl as (_ & _ & Hl). case_match; lia.
Qed.

(** What a link-request proof has to show a transit node: the mode that was
    requested, an MTU within the forwarded offer, current registrations on
    both sides, and the destination's signature over the link id, the
    responder's key and the signalling. *)
Definition proof_signed a (raw : bytes) (h : PacketHeader) (e : LinkEntry) (s : LinkSignalling) : Prop :=
  let proof := drop (header_size h) raw in
  parse_proof_signalling proof = Ok s ∧ ls_mode s = requested_mode e ∧
  mtu_get (ls_mtu s) ≤ accepted_mtu_ceiling e ∧
  (validated e = true → mtu_get (ls_mtu s) = accepted_mtu_ceiling e) ∧
  link_registration_is_current a e = true ∧
  ∃ key vk, known_public_key a (LinkTable.destination_hash e) = Some key ∧
    public_key_from_bytes (drop 32 key) = Some vk ∧
    ed_verify vk (Wire.destination_hash h ++ take 32 (drop 64 proof) ++ drop 32 key ++ drop 96 proof) (take 64 proof) = true.

Lemma validate_transit_cases n a raw h e :
  actor_ok n a → parsed raw h →
  ∃ v, validate_transit_lrproof a raw h e = Ok v ∧ (v = TransitValid ↔ ∃ s, proof_signed a raw h e s).
Proof.
  intros Ha Hp. pose proof Hp as [Hb _ Hl]. unfold validate_transit_lrproof. rewrite decide_False by lia.
  rewrite drop_parsed by done. cbn [res_bind]. pose proof (bytes_ok_drop (header_size h) raw Hb) as Hpb.
  unfold proof_signed. cbv zeta. set (proof := drop (header_size h) raw) in *. clearbody proof.
  pose proof (parse_proof_no_panic proof Hpb) as Hnp. pose proof (parse_proof_length proof) as Hpl.
  destruct (_ && _) eqn:Hlen.
  { apply andb_true_iff in Hlen as [H1%negb_true_iff%bool_decide_eq_false H2%negb_true_iff%bool_decide_eq_false].
    eexists; split; [done|]. split; [done|]. intros (s & Hs & _). destruct (Hpl s Hpb Hs); lia. }
  destruct (parse_proof_signalling proof) as [s|err|] eqn:Hs; cbn [res_ok res_bind]; [| |done].
  2:{ eexists; split; [done|]. split; [done|]. by intros (s & ? & _). }
  assert (Hl2 : length proof = 96%nat ∨ length proof = 99%nat) by by apply (Hpl s).
  destruct (_ || _) eqn:Hc.
  { eexists; split; [done|]. split; [done|]. intros (s' & [= <-] & Hm & Hc1 & Hc2 & Hcur & _). exfalso.
    rewrite Hm, Z.eqb_refl, Hcur, !orb_false_r in Hc. cbn [negb orb] in Hc.
    apply orb_true_iff in Hc as [Hc|[Hv Hc]%andb_true_iff]; [lia|]. specialize (Hc2 Hv). lia. }
  rewrite !orb_false_iff in Hc. destruct Hc as (((Hm%negb_false_iff & Hc1) & Hc2) & Hcur%negb_false_iff).
  rewrite slice_to_ok by lia. cbn [res_bind]. rewrite copy_array_ok by (rewrite length_take; lia). cbn [res_bind].
  rewrite slice_ok by lia. cbn [res_bind].
  replace (if decide (length proof = 99%nat) then slice proof 96 99 else Ok []) with (@Ok Empty_set _ (drop 96 proof)).
  2:{ clear Hlen. case_decide; [|by rewrite drop_ge by lia]. rewrite slice_ok, take_ge; [done| |lia].
      rewrite length_drop. lia. }
  cbn [res_bind]. change (take (96 - 64) (drop 64 proof)) with (take 32 (drop 64 proof)).
  pose proof (known_key_ok n a (LinkTable.destination_hash e) Ha) as Hk.
  destruct (known_public_key a (LinkTable.destination_hash e)) as [key|].
  2:{ eexists; split; [done|]. split; [done|]. by intros (? & _ & _ & _ & _ & _ & ? & ? & ? & _). }
  specialize (Hk key eq_refl). rewrite slice_ok by lia. cbn [res_bind].
  rewrite take_ge by (rewrite length_drop; lia). rewrite copy_array_ok by (rewrite length_drop; lia). cbn [res_bind].
  destruct (public_key_from_bytes (drop 32 key)) as [vk|] eqn:Hvk.
  2:{ eexists; split; [done|]. split; [done|]. intros (? & _ & _ & _ & _ & _ & ? & ? & [= <-] & ? & _). congruence. }
  eexists; split; [done|]. split.
  - case_match; [|done]. intros _. exists s. split_and!; try done; try lia.
    + intros Hv. rewrite Hv in Hc2. cbn [andb] in Hc2. lia.
    + by exists key, vk.
  - intros (? & [= <-] & _ & _ & _ & _ & ? & ? & [= <-] & Hvk' & Hver). rewrite Hvk in Hvk'. injection Hvk' as <-.
    by rewrite Hver.
Qed.

Lemma use_destination_ok n env a d : actor_ok n a → actor_ok n (use_destination env a d).1.
Proof.
  intros Ha. unfold use_destination. destruct (recent_announces a !! d) as [r|] eqn:Hr; [|done].
  pose proof (ok_recent n a Ha _ _ Hr) as Hk. destruct Ha; constructor; try done. by apply map_Forall_insert_2.
Qed.

Lemma relay_lrproof_total n env a raw h id lc e :
  actor_ok n a → parsed raw h → ∃ a' b, relay_lrproof env a raw h id lc e = Ok (a', b) ∧ actor_ok n a'.
Proof.
  intros Ha Hp. unfold relay_lrproof. destruct (parsed_frame raw h Hp) as [Hf _].
  destruct (_ && _); [by eexists _, _|]. destruct (_ && _); [|by eexists _, _].
  destruct (validate_transit_cases n a raw h e Ha Hp) as (v & -> & Hv). cbn [res_bind].
  destruct v; [|eexists _, _; split; [done|]; by apply violation_ok|by eexists _, _].
  destruct (proj1 Hv eq_refl) as (s & Hs & _).
  destruct (packet_hash_total (E:=Empty_set) raw (header_type (flags h)) (proj2 Hf)) as (x & -> & _). cbn [res_bind].
  destruct (Hashlist.insert (packet_hashlist a) x) as [l fresh].
  assert (Ha1 : actor_ok n (upd_packet_hashlist (λ _, l) a)) by (destruct Ha; by constructor).
  destruct fresh; cbn [negb]; [|by eexists _, _].
  set (frame := put_hops raw _).
  assert (Hfr : frame_ok frame).
  { apply put_byte1_frame; [done|]. apply (outgoing_hops_u8 n); [done|]. apply (ps_header raw h Hp). }
  destruct (send_total n env _ (LinkTable.receiving_interface e) frame Ha1 (proj1 Hfr) (proj2 Hfr))
    as (a3 & b & -> & Ha3 & _). cbn [res_bind]. destruct b; cbn [negb]; [|by eexists _, _].
  assert (∃ a4, match LinkTable.get (link_table a3) (Wire.destination_hash h) with
    | Some _ => let* body := slice_from raw (header_size h) in
        match parse_proof_signalling body with
        | Ok signal => Ok (upd_link_table (λ t, LinkTable.get_mut t (Wire.destination_hash h) (with_validation (mtu_get (ls_mtu signal)))) a3)
        | Err _ | Panic => Panic
        end
    | None => Ok a3 end = Ok a4 ∧ actor_ok n a4) as (a4 & -> & Ha4).
  { case_match; [|by eexists]. rewrite drop_parsed by done. cbn [res_bind]. rewrite Hs. eexists; split; [done|].
    destruct Ha3; by constructor. }
  cbn [res_bind]. eexists _, _. split; [done|]. case_match; [done|by apply use_destination_ok].
Qed.

Lemma process_lrproof_total n env a raw h id ms :
  actor_ok n a → parsed raw h → ∃ a', process_lrproof env a raw h id ms = Ok a' ∧ actor_ok n a'.
Proof.
  intros Ha Hp. unfold process_lrproof. destruct (parsed_frame raw h Hp) as [Hf _]. case_decide.
  { unfold process_local_lrproof. rewrite drop_parsed by done. cbn [res_bind].
    pose proof (parse_proof_no_panic _ (bytes_ok_drop (header_size h) raw (ps_bytes _ _ Hp))) as Hnp.
    destruct (parse_proof_signalling _); cbn [res_ok res_bind]; [| |done];
      (destruct (negb _ || _); [by eexists|]); (destruct (destination_channels a !! _); [|by eexists]);
      (eexists; split; [done|]); unfold try_local_delivery, try_deliver;
      destruct (try_send _ _) as [c r]; cbn; case_decide; destruct Ha; by constructor. }
  match goal with |- context [res_bind ?m _] => assert (∃ a1 b, m = Ok (a1, b) ∧ actor_ok n a1) as (a1 & b & -> & Ha1) end.
  { case_match; [|by eexists _, _]. case_match; [by apply relay_lrproof_total|by eexists _, _]. }
  cbn [res_bind]. destruct b; [by eexists|]. unfold deliver_unclaimed_lrproof, try_deliver.
  destruct (destination_channels a1 !! _); [|by eexists]. destruct (try_send _ _) as [c r].
  destruct (packet_hash_total (E:=Empty_set) raw (header_type (flags h)) (proj2 Hf)) as (x & -> & _). cbn [res_bind].
  repeat case_decide; eexists; (split; [done|]); destruct Ha1; by constructor.
Qed.

Lemma route_reverse_total n env a raw h id :
  actor_ok n a → parsed raw h → ∃ a' b, route_via_reverse_table env a raw h id = Ok (a', b) ∧ actor_ok n a'.
Proof.
  intros Ha Hp. unfold route_via_reverse_table. destruct (parsed_frame raw h Hp) as [Hf _].
  destruct (_ || _); [|by eexists _, _]. destruct (ReverseTable.remove _ _) as [t entry].
  assert (Ha1 : actor_ok n (upd_reverse_table (λ _, t) a)) by (destruct Ha; by constructor).
  destruct entry as [entry|]; [|by eexists _, _].
  match goal with |- context [if ?b then Ok (_, false) else _] => destruct b end; [by eexists _, _|].
  set (frame := put_hops raw _).
  assert (Hfr : frame_ok frame).
  { apply put_byte1_frame; [done|]. apply (outgoing_hops_u8 n); [done|]. apply (ps_header raw h Hp). }
  destruct (send_total n env _ (ReverseTable.receiving_interface entry) frame Ha1 (proj1 Hfr) (proj2 Hfr))
    as (a3 & b & -> & Ha3 & _). by eexists _, _.
Qed.

Lemma process_proof_total n env a raw h id ms :
  actor_ok n a → parsed raw h → ∃ a', process_proof env a raw h id ms = Ok a' ∧ actor_ok n a'.
Proof.
  intros Ha Hp. unfold process_proof.
  destruct (if decide (context h = Lrproof) then None else _) as [r|] eqn:Hr.
  { apply receipt_proof_total; [done|done|]. by case_decide. }
  case_decide; [by apply process_lrproof_total|].
  destruct (route_link_total n env a raw h id Ha Hp) as (a1 & b & -> & Ha1 & _). cbn [res_bind].
  destruct b; [by eexists|].
  destruct (route_reverse_total n env a1 raw h id Ha1 Hp) as (a2 & b & -> & Ha2). cbn [res_bind].
  destruct b; [by eexists|]. eexists. split; [done|]. by apply deliver_ok.
Qed.

(** ** Announces *)

Lemma actor_ok_weaken n m a : actor_ok n a → 0 ≤ m ≤ n → actor_ok m a.
Proof.
  intros [] Hm. constructor; try done; [|lia]. intros k e He. destruct (ok_rate k e He). cbn in *. lia.
Qed.

Lemma ann_unpack_total data hr :
  match ann_unpack data hr with Ok x => ann_ok x | Err _ => True | Panic => False end.
Proof.
  destruct (decide (length data < if hr then MIN_ANNOUNCE_SIZE + RATCHET_SIZE else MIN_ANNOUNCE_SIZE)%nat) as [Hl|Hl].
  - unfold ann_unpack. by rewrite decide_True.
  - destruct (ann_split data hr) as (x & Hok & Hr & Hp & Hn); [lia|].
    by rewrite <- Hp, <- Hr, ann_unpack_pack, Hn by done.
Qed.

Lemma from_public_key_no_panic key : from_public_key key ≠ Panic.
Proof.
  unfold from_public_key. destruct (Nat.eqb_spec (length key) 64) as [Hl|]; [|done]. cbn [negb].
  rewrite slice_to_ok by lia. cbn [res_bind]. rewrite copy_array_ok by (rewrite length_take; lia). cbn [res_bind].
  rewrite slice_from_ok by lia. cbn [res_bind]. rewrite copy_array_ok by (rewrite length_drop; lia). cbn [res_bind].
  destruct (public_key_from_bytes _); [|done]. cbn [ok_or res_bind]. unfold compute_hash.
  by rewrite truncated_hash_ok.
Qed.

(** A verified announce: its key parses to the identity, which signed it. *)
Lemma verify_signature_cases ann dest :
  verify_signature ann dest ≠ Panic ∧
  ∀ who, verify_signature ann dest = Ok who ↔
    from_public_key (ann_public_key ann) = Ok who ∧
    id_verify who (signed_data ann dest) (ann_signature ann) = true.
Proof.
  unfold verify_signature. pose proof (from_public_key_no_panic (ann_public_key ann)).
  destruct (from_public_key _) as [w| |] eqn:Hk; cbn [map_err res_bind]; [| |done].
  - destruct (id_verify w _ _) eqn:Hv; cbn [negb]; (split; [done|]); intros who; split; try done.
    + intros [= <-]. done.
    + intros [[= <-] ?]. congruence.
    + intros [[= <-] ?]. congruence.
  - split; [done|]. intros who. by split; [|intros []].
Qed.

Lemma binding_no_panic ann dest who known : validate_destination_binding ann dest who known ≠ Panic.
Proof.
  unfold validate_destination_binding. rewrite truncated_hash_ok. cbn [res_bind]. repeat case_match; done.
Qed.

(** An announce dropped during authentication. *)
Ltac rejected := eexists _, None; split; [done|]; split; [done|]; split; [by auto|done].

Lemma authenticate_total n env a raw h off id :
  actor_ok n a → ∃ a' o, authenticate_announce env a raw h off id = Ok (a', o) ∧ actor_ok n a' ∧
    (o = None ∨ a' = a) ∧
    ∀ ann who, o = Some (ann, who) →
      (off ≤ length raw)%nat ∧ ann_unpack (drop off raw) (context_flag (flags h)) = Ok ann ∧ ann_ok ann ∧
      from_public_key (ann_public_key ann) = Ok who ∧
      id_verify who (signed_data ann (Wire.destination_hash h)) (ann_signature ann) = true ∧
      is_blackholed (blackhole_table a) (id_hash who) (now env) = false.
Proof.
  intros Ha. unfold authenticate_announce. pose proof (violation_ok n a id Ha).
  case_decide; [rejected|]. rewrite slice_from_ok by lia. cbn [res_bind].
  pose proof (ann_unpack_total (drop off raw) (context_flag (flags h))) as Hu.
  destruct (ann_unpack (drop off raw) _) as [ann| |] eqn:Hann; [|rejected|done].
  destruct (verify_signature_cases ann (Wire.destination_hash h)) as [Hnp Hv].
  destruct (verify_signature ann _) as [who| |]; [|rejected|done].
  destruct (is_blackholed _ _ _) eqn:Hb; [rejected|].
  eexists _, _. split; [done|]. split; [done|]. split; [by right|]. intros ? ? [= <- <-].
  destruct (proj1 (Hv who) eq_refl). split_and!; try done. lia.
Qed.

Lemma received_announce_ok c t : ctrl_ok c → ctrl_ok (received_announce c t).
Proof.
  intros Hc. destruct (ingress_step_ok c (OpReceivedAnnounce t) Hc) as (c' & [= <-] & ? & _). done.
Qed.

Lemma set_ingress_ok n a id c :
  actor_ok n a → ctrl_ok c → actor_ok n (upd_interfaces (alter (upd_ingress (λ _, c)) id) a).
Proof.
  intros Ha Hc. apply (actor_ok_transfer n a); try done; [|eauto].
  apply map_Forall_alter; [apply Ha|]. intros e []. by constructor.
Qed.

Lemma account_ingress_total n env a raw h id :
  actor_ok n a → ∃ a' b, account_ingress env a raw h id = Ok (a', b) ∧ actor_ok n a' ∧
    path_table a' = path_table a ∧ recent_announces a' = recent_announces a.
Proof.
  intros Ha. unfold account_ingress. destruct (interfaces a !! id) as [e|] eqn:He; [|by eexists _, _].
  pose proof (received_announce_ok _ (instant env) (io_ctrl e (ok_ifaces n a Ha _ _ He))) as Hc. cbv zeta.
  destruct (_ && _).
  - destruct (limit_ok (E:=Empty_set) _ (rate_clock env) Hc) as (c' & b & -> & Hc' & _). cbn [res_bind].
    destruct b; eexists _, _; (split; [done|]); (split; [|done]); apply set_ingress_ok; try done.
    by apply hold_announce_ok.
  - eexists _, _. split; [done|]. split; [|done]. by apply set_ingress_ok.
Qed.

Lemma remember_ok n env a h ann pk : actor_ok n a → length pk = 64%nat → actor_ok n (remember_announce env a h ann pk).
Proof.
  intros Ha Hpk. unfold remember_announce.
  assert (Hk : key_ok (Some pk)) by (by intros k [= <-]).
  case_match; destruct Ha; constructor; try done; by apply map_Forall_insert_2.
Qed.

Lemma incr_headroom {E} v : 0 ≤ v → v + 1 ≤ U32_MAX → incr_violations v = @Ok E _ (v + 1).
Proof. unfold incr_violations, U32_MAX. intros. by rewrite (proj2 (Z.ltb_lt _ _)) by lia. Qed.

Lemma record_entry_headroom {E} e t : 0 ≤ violations e → violations e + 1 ≤ U32_MAX →
  ∃ e' r, record_entry e t = @Ok E _ (e', r) ∧ 0 ≤ violations e' ≤ violations e + 1.
Proof.
  intros H0 H1. unfold record_entry. destruct (f_gt (blocked_until e) t); [eexists _, _; split; [done|lia]|]. cbv zeta.
  destruct (f_gt _ _); [rewrite incr_headroom by done|]; cbn [res_bind]; eexists _, _; (split; [done|]); simpl; lia.
Qed.

Lemma check_entry_headroom {E} e tg g p t : 0 ≤ violations e → violations e + 1 ≤ U32_MAX →
  ∃ e' b, check_entry e tg g p t = @Ok E _ (e', b) ∧ 0 ≤ violations e' ≤ violations e + 1.
Proof.
  intros H0 H1. unfold check_entry. destruct (f_le t (blocked_until e)); [eexists _, _; split; [done|lia]|]. cbv zeta.
  destruct (f_lt _ tg); [rewrite incr_headroom by done|]; cbn [res_bind];
    destruct (g <? _); eexists _, _; (split; [done|]); simpl; lia.
Qed.

Definition rate_room (n : Z) (t : RateTable) : Prop :=
  map_Forall (λ _ e, 0 ≤ violations e ∧ violations e + n ≤ U32_MAX) (RateLimit.entries t).

Lemma rate_room_insert n t d e e' :
  rate_room n t → 1 ≤ n ≤ U32_MAX → (RateLimit.entries t !! d = Some e ∨ violations e = 0) →
  0 ≤ violations e' ≤ violations e + 1 →
  rate_room (n - 1) {| RateLimit.entries := <[d := e']> (RateLimit.entries t) |}.
Proof.
  intros Ht Hn He He'. apply map_Forall_insert_2.
  - destruct He as [He|He]; [destruct (Ht d e He); cbn in *; lia|lia].
  - intros k x Hx. destruct (Ht k x Hx). cbn in *. lia.
Qed.

Lemma record_room {E} n t d x :
  rate_room n t → 1 ≤ n ≤ U32_MAX → ∃ t' r, RateLimit.record t d x = @Ok E _ (t', r) ∧ rate_room (n - 1) t'.
Proof.
  intros Ht Hn. unfold RateLimit.record. set (e := default fresh_entry (RateLimit.entries t !! d)).
  assert (He : RateLimit.entries t !! d = Some e ∨ violations e = 0)
    by (subst e; destruct (RateLimit.entries t !! d); auto).
  assert (0 ≤ violations e ∧ violations e + 1 ≤ U32_MAX) as [H0 H1].
  { destruct He as [He|He]; [destruct (Ht d e He); cbn in *; lia|lia]. }
  destruct (record_entry_headroom (E:=E) e x H0 H1) as (e' & r & -> & Hv). cbn [res_bind].
  eexists _, _. split; [done|]. by eapply rate_room_insert.
Qed.

Lemma check_room {E} n t d tg g p x :
  rate_room n t → 1 ≤ n ≤ U32_MAX →
  ∃ t' b, check_interface_rate t d tg g p x = @Ok E _ (t', b) ∧ rate_room (n - 1) t'.
Proof.
  intros Ht Hn. unfold check_interface_rate. destruct (RateLimit.entries t !! d) as [e|] eqn:He.
  - destruct (Ht d e He) as [H0 H1]. cbn in H0, H1.
    destruct (check_entry_headroom (E:=E) e tg g p x) as (e' & b & -> & Hv); [lia..|]. cbn [res_bind].
    eexists _, _. split; [done|]. eapply rate_room_insert; eauto.
  - eexists _, _. split; [done|]. apply (rate_room_insert n t d fresh_entry); [done|lia|by right|simpl; lia].
Qed.

Lemma set_rate_ok n m a t : actor_ok n a → 0 ≤ m ≤ n → rate_room m t → actor_ok m (upd_rate_table (λ _, t) a).
Proof. intros [] Hm Ht. constructor; try done. lia. Qed.

Lemma rate_blocked_total n env a h id :
  actor_ok n a → 2 ≤ n → ∃ a' b, announce_rate_blocked env a h id = Ok (a', b) ∧ actor_ok (n - 2) a' ∧
    path_table a' = path_table a ∧ recent_announces a' = recent_announces a.
Proof.
  intros Ha Hn. pose proof (ok_headroom n a Ha) as Hh. unfold announce_rate_blocked.
  set (target := if bool_decide _ then None else _).
  assert (∃ a1 b, match target with
    | Some (e, target) =>
        let* '(t, blocked) := check_interface_rate (rate_table a) (Wire.destination_hash h) target
          (default 0 (if_announce_rate_grace e)) (default f_zero (if_announce_rate_penalty e)) (now env) in
        Ok (upd_rate_table (λ _, t) a, blocked)
    | None => Ok (a, false) end = @Ok Empty_set _ (a1, b) ∧ actor_ok (n - 1) a1 ∧
    path_table a1 = path_table a ∧ recent_announces a1 = recent_announces a) as (a1 & b & -> & Ha1 & Hp1 & Hr1).
  { destruct target as [[e tg]|]; [|eexists _, _; split; [done|]; split; [apply (actor_ok_weaken n); [done|lia]|done]].
    destruct (check_room (E:=Empty_set) n (rate_table a) (Wire.destination_hash h) tg (default 0 (if_announce_rate_grace e))
      (default f_zero (if_announce_rate_penalty e)) (now env) (ok_rate n a Ha)) as (t & b & -> & Ht); [lia|].
    cbn [res_bind]. eexists _, _. split; [done|]. split; [|done]. apply (set_rate_ok n); [done|lia|done]. }
  cbn [res_bind]. destruct b.
  - eexists _, _. split; [done|]. split; [|done]. apply (actor_ok_weaken (n - 1)); [done|lia].
  - destruct (record_room (E:=Empty_set) (n - 1) (rate_table a1) (Wire.destination_hash h) (now env) (ok_rate _ a1 Ha1))
      as (t & r & -> & Ht); [lia|]. cbn [res_bind]. eexists _, _. split; [done|]. split; [|done].
    apply (set_rate_ok (n - 1)); [done|lia|]. by replace (n - 2) with (n - 1 - 1) by lia.
Qed.

Lemma with_announces_ok n a f :
  actor_ok n a → (map_Forall (λ _, queued_ok) (ann_entries (announce_table a)) →
                  map_Forall (λ _, queued_ok) (ann_entries (f (announce_table a)))) →
  actor_ok n (upd_announce_table f a).
Proof. intros [? [Hq Hh] ? ? ? ? ? ? ?] Hf. constructor; try done. split; [by apply Hf|done]. Qed.

Lemma cancel_rebroadcast_total n env a h :
  actor_ok n a → ∃ a', cancel_rebroadcast env a h = Ok a' ∧ actor_ok n a' ∧
    path_table a' = path_table a ∧ recent_announces a' = recent_announces a.
Proof.
  intros Ha. unfold cancel_rebroadcast.
  destruct (if is_transport_enabled a then _ else None) as [ex|] eqn:Hex; [|by eexists].
  assert (Hq : queued_ok ex).
  { destruct (is_transport_enabled a); [|done]. by apply (proj1 (ok_announces n a Ha) _ _ Hex). }
  destruct Hq as [Hhops Hreb]. cbv zeta. unfold PATHFINDER_M in Hhops.
  assert (Hdrop : ∀ a0, actor_ok n a0 → actor_ok n (upd_announce_table (λ t, (at_remove t (Wire.destination_hash h)).1) a0)).
  { intros a0 Ha0. apply with_announces_ok; [done|]. intros Hq. by apply map_Forall_delete. }
  match goal with |- context [res_bind ?m _] => assert (∃ a1, m = Ok a1 ∧ actor_ok n a1 ∧
    path_table a1 = path_table a ∧ recent_announces a1 = recent_announces a) as (a1 & -> & Ha1 & Hp1 & Hr1) end.
  { destruct (_ && _); [|by eexists]. rewrite (proj2 (Z.ltb_lt _ _)) by lia. cbn [res_bind].
    destruct (Z.leb_spec LOCAL_REBROADCASTS_MAX (local_rebroadcasts ex + 1)) as [|Hl].
    - eexists. split; [done|]. by split; [apply Hdrop|].
    - eexists. split; [done|]. split; [|done]. apply with_announces_ok; [done|]. intros Hq. apply map_Forall_alter; [done|].
      intros e [? _]. split; [done|]. unfold LOCAL_REBROADCASTS_MAX in Hl. simpl. lia. }
  cbn [res_bind]. destruct (0 <? Wire.hops h); [|by eexists].
  unfold add_u8. rewrite (proj2 (Z.ltb_lt _ _)) by lia. cbn [res_bind].
  destruct (_ && _); [|by eexists]. destruct (at_get (announce_table a1) _) as [ae|]; [|by eexists].
  destruct (f_lt _ _); [|by eexists]. eexists. split; [done|]. split; [by apply Hdrop|]. split; [exact Hp1|exact Hr1].
Qed.

Lemma transport_announce_total a raw dest hp ctx :
  bytes_ok raw → ∃ x, transport_announce_from_raw a raw dest hp ctx = Ok x.
Proof.
  intros Hb. unfold transport_announce_from_raw. pose proof (header_unpack_no_panic raw Hb).
  destruct (header_unpack raw) as [[h off]| |] eqn:Hu; cbn [res_ok res_bind]; [| |done].
  - destruct (transport_identity_hash a); [|by eexists].
    destruct (unpack_parsed raw h off Hb Hu) as [[_ _ Hl] ->]. rewrite slice_from_ok by done. by eexists.
  - by eexists.
Qed.

Lemma queue_rebroadcast_total n env a raw h id lc :
  actor_ok n a → bytes_ok raw → 0 ≤ Wire.hops h < PATHFINDER_M →
  ∃ a', queue_rebroadcast env a raw h id lc = Ok a' ∧ actor_ok n a' ∧
    path_table a' = path_table a ∧ recent_announces a' = recent_announces a.
Proof.
  intros Ha Hb Hh. unfold queue_rebroadcast.
  destruct (transport_announce_total a raw (Wire.destination_hash h) (Wire.hops h) CtxNone Hb) as [x ->].
  cbn [res_bind]. eexists. split; [done|]. split; [|done]. apply with_announces_ok; [done|].
  intros Hq. apply map_Forall_insert_2; [|done]. by split.
Qed.

Lemma install_path_total n env a raw h id rh blobs :
  actor_ok n a → parsed raw h →
  ∃ a' x, install_path env a raw h id rh blobs = Ok a' ∧ actor_ok n a' ∧ recent_announces a' = recent_announces a ∧
    Packet.packet_hash raw (header_type (flags h)) = @Ok Empty_set _ x ∧
    path_table a' = PathTable.insert (path_table a) (Wire.destination_hash h)
      (learned_entry env h id (match interfaces a !! id with Some e => if_mode e | None => Gateway end) (extend_blobs blobs rh) x).
Proof.
  intros Ha Hp. destruct (parsed_frame raw h Hp) as [[_ Hne] _]. unfold install_path.
  destruct (packet_hash_total (E:=Empty_set) raw (header_type (flags h)) Hne) as (x & Hx & _). rewrite Hx. cbn [res_bind].
  eexists _, x. split; [done|]. split; [|done].
  assert (Hth : id_ok (Wire.transport_id h)).
  { intros t Ht. destruct Hp as [_ (_ & _ & _ & Hth) _]. rewrite Ht in Hth. apply Hth. }
  destruct Ha as [? ? ? ? ? ? HP HT ? ?]; constructor; try done.
  - by apply map_Forall_insert_2.
  - intros k d tp [Hd|[-> ->]]%install_tunnel_inv; [by apply (HT k d)|done].
Qed.

Lemma annotate_total n a raw h r :
  actor_ok n a → parsed raw h → ∃ a', annotate_recent a raw h r = Ok a' ∧ actor_ok n a' ∧ path_table a' = path_table a.
Proof.
  intros Ha Hp. destruct (parsed_frame raw h Hp) as [[_ Hne] _]. unfold annotate_recent.
  destruct (packet_hash_total (E:=Empty_set) raw (header_type (flags h)) Hne) as (x & -> & _). cbn [res_bind].
  eexists. split; [done|]. split; [|done]. destruct Ha; constructor; try done. by apply map_Forall_alter.
Qed.

Lemma suppressed_ok n a d id t : actor_ok n a → actor_ok n (is_path_interface_suppressed a d id t).1.
Proof. intros []. unfold is_path_interface_suppressed. repeat case_match; by constructor. Qed.

Lemma learn_path_total n env a raw h id lc ann :
  actor_ok n a → 2 ≤ n → parsed raw h → ∃ a' x, learn_path env a raw h id lc ann = Ok (a', x) ∧ actor_ok (n - 2) a'.
Proof.
  intros Ha Hn Hp. unfold learn_path.
  destruct (rate_blocked_total n env a h id Ha Hn) as (a1 & b & -> & Ha1 & _). cbn [res_bind].
  destruct (cancel_rebroadcast_total _ env a1 h Ha1) as (a2 & -> & Ha2 & _). cbn [res_bind].
  pose proof (suppressed_ok _ a2 (Wire.destination_hash h) id (now env) Ha2) as Ha3.
  destruct (is_path_interface_suppressed a2 _ id _) as [a3 sup]. cbn [fst] in Ha3.
  destruct (negb sup && _); [|by eexists _, _].
  match goal with |- context [res_bind (if ?c then _ else _) _] => destruct c eqn:Hc end.
  - destruct (queue_rebroadcast_total _ env a3 raw h id lc Ha3 (ps_bytes _ _ Hp)) as (a4 & -> & Ha4 & _).
    { apply andb_true_iff in Hc as [_ Hc%Z.ltb_lt]. split; [apply (ps_header _ _ Hp)|done]. }
    cbn [res_bind]. destruct (install_path_total _ env a4 raw h id (ann_random_hash ann)
      (match PathTable.get (path_table a2) (Wire.destination_hash h) with Some e => random_blobs e | None => [] end) Ha4 Hp)
      as (a5 & x & -> & Ha5 & _). cbn [res_bind].
    destruct (annotate_total _ a5 raw h (ann_ratchet ann) Ha5 Hp) as (a6 & -> & Ha6 & _). by eexists _, _.
  - cbn [res_bind]. destruct (install_path_total _ env a3 raw h id (ann_random_hash ann)
      (match PathTable.get (path_table a2) (Wire.destination_hash h) with Some e => random_blobs e | None => [] end) Ha3 Hp)
      as (a5 & x & -> & Ha5 & _). cbn [res_bind].
    destruct (annotate_total _ a5 raw h (ann_ratchet ann) Ha5 Hp) as (a6 & -> & Ha6 & _). by eexists _, _.
Qed.

Lemma process_announce_total n env a raw h off id :
  actor_ok n a → 2 ≤ n → parsed raw h → ∃ a' x, process_announce env a raw h off id = Ok (a', x) ∧ actor_ok (n - 2) a'.
Proof.
  intros Ha Hn Hp. assert (Hw : ∀ a0, actor_ok n a0 → actor_ok (n - 2) a0) by (intros a0 Ha0; apply (actor_ok_weaken n); [done|lia]).
  unfold process_announce. case_decide; [eexists _, _; by split; [|apply Hw]|].
  destruct (authenticate_total n env a raw h off id Ha) as (a1 & o & -> & Ha1 & _ & Ho). cbn [res_bind].
  destruct o as [[ann who]|]; [|eexists _, _; by split; [|apply Hw]].
  destruct (Ho ann who eq_refl) as (_ & _ & _ & Hwho & _).
  destruct (account_ingress_total n env a1 raw h id Ha1) as (a2 & b & -> & Ha2 & _). cbn [res_bind].
  destruct b; [eexists _, _; by split; [|apply Hw]|].
  match goal with |- context [validate_destination_binding ann ?d who ?k] =>
    pose proof (binding_no_panic ann d who k); destruct (validate_destination_binding ann d who k) end; [| |done].
  - assert (Hr : actor_ok n (remember_announce env a2 h ann (get_public_key who))).
    { apply remember_ok; [done|]. destruct (from_public_key_inv _ _ Hwho) as (Hl & -> & _). done. }
    destruct (_ <=? _); [eexists _, _; by split; [|apply Hw]|]. by apply learn_path_total.
  - eexists _, _. split; [done|]. by apply Hw, violation_ok.
Qed.

(** ** The filter chain *)

Lemma metrics_ok n a x ms : actor_ok n a → actor_ok n (record_packet_metrics a x ms).
Proof.
  intros []. unfold record_packet_metrics. destruct (_ && _); [by constructor|]. cbv zeta.
  destruct (trim_metrics _ _ _). by constructor.
Qed.

Lemma deduplicate_ok n a h x : actor_ok n a → actor_ok n (deduplicate a h x).1.
Proof. intros []. unfold deduplicate. destruct (_ && _); [|by constructor]. destruct (Hashlist.insert _ _). by constructor. Qed.

Lemma adjusted_hops_u8 a x id : 0 ≤ x → u8 (adjusted_inbound_hops a x id).
Proof. intros. unfold adjusted_inbound_hops, u8. repeat case_match; lia. Qed.

Lemma admissible_total a raw h id : parsed raw h → ∃ b, request_admissible a raw h (header_size h) id = Ok b.
Proof.
  intros Hp. unfold request_admissible. destruct (negb _); [by eexists|]. rewrite drop_parsed by done. cbn [res_bind].
  destruct (res_ok_total (F:=Empty_set) _ (parse_request_no_panic _ (bytes_ok_drop (header_size h) raw (ps_bytes _ _ Hp)))) as [o ->].
  cbn [res_bind]. destruct o as [s|]; [|by eexists]. destruct (interfaces a !! id) as [e|]; [|by eexists].
  pose proof (link_ceiling_no_panic (packet_capacity (if_entry e)) id (active_ifac_bytes (if_entry e))).
  unfold entry_link_ceiling. destruct (link_ceiling _ _ _); [by eexists..|done].
Qed.

Lemma dispatch_total n env a raw h off id ms :
  actor_ok n a → 2 ≤ n → parsed raw h → ∃ a' x, dispatch env a raw h off id ms = Ok (a', x) ∧ actor_ok (n - 2) a'.
Proof.
  intros Ha Hn Hp. assert (Hw : ∀ a0, actor_ok n a0 → actor_ok (n - 2) a0) by (intros a0 Ha0; apply (actor_ok_weaken n); [done|lia]).
  unfold dispatch. destruct (packet_type (flags h)).
  - destruct (process_data_total n env a raw h id ms Ha Hp) as (a' & x & -> & ?). eexists _, _. by split; [|apply Hw].
  - by apply process_announce_total.
  - destruct (process_link_request_total n env a raw h id ms Ha Hp) as (a' & -> & ?). eexists _, _. by split; [|apply Hw].
  - destruct (process_proof_total n env a raw h id ms Ha Hp) as (a' & -> & ?). eexists _, _. by split; [|apply Hw].
Qed.

Lemma filter_total n env a raw p :
  actor_ok n a → 2 ≤ n → bytes_ok raw →
  ∃ a' x, filter_and_dispatch env a raw p = Ok (a', x) ∧ actor_ok (n - 2) a'.
Proof.
  intros Ha Hn Hb. assert (Hw : ∀ a0, actor_ok n a0 → actor_ok (n - 2) a0) by (intros a0 Ha0; apply (actor_ok_weaken n); [done|lia]).
  unfold filter_and_dispatch. pose proof (header_unpack_no_panic raw Hb).
  destruct (header_unpack raw) as [[h off]| |] eqn:Hu; [|eexists _, _; split; [done|]; by apply Hw, violation_ok|done].
  destruct (unpack_parsed raw h off Hb Hu) as [Hp ->]. cbv zeta. destruct (parsed_frame raw h Hp) as [[_ Hne] _].
  destruct (_ <=? _); [eexists _, _; split; [done|]; by apply Hw, violation_ok|].
  destruct (for_another_transport _ _ _); [eexists _, _; split; [done|]; by apply Hw, filter_hit_ok|].
  destruct (unroutable_type _ _ _); [eexists _, _; split; [done|]; by apply Hw, filter_hit_ok|].
  destruct (admissible_total a raw h (in_interface_id p) Hp) as [b ->]. cbn [res_bind].
  destruct b; cbn [negb]; [|eexists _, _; by split; [|apply Hw]].
  destruct (packet_hash_total (E:=Empty_set) raw (header_type (flags h)) Hne) as (x & -> & _). cbn [res_bind].
  pose proof (deduplicate_ok n _ h x (metrics_ok n a x (in_metrics p) Ha)) as Hd.
  destruct (deduplicate _ h x) as [a1 fresh]. cbn [fst] in Hd. destruct fresh; cbn [negb].
  - apply dispatch_total; [done|done|]. apply parsed_with_hops; [done|]. apply adjusted_hops_u8. apply (ps_header _ _ Hp).
  - eexists _, _. split; [done|]. by apply Hw, filter_hit_ok.
Qed.

Lemma ifac_verify_bytes raw key n p :
  length key = 64%nat → bytes_ok raw → ifac_verify raw key n = Ok (Some p) → bytes_ok p.
Proof.
  intros Hk Hb Hv. destruct (decide (1 ≤ n ≤ 64 ∧ 2 + n < length raw ≤ MAX_IFAC_WIRE_BYTES)%nat) as [[Hn Hl]|Hx].
  - destruct raw as [|b l]; [simpl in Hl; lia|]. destruct (decide (Z.land b IFAC_FLAG = 0)) as [Hz|Hz].
    + rewrite verify_none in Hv; [done|]. right; right; right. by eexists _, _.
    + destruct (verify_some (b :: l) key n Hk Hb Hn Hl) as (q & Hq & _ & _ & [[Hv' _]|Hv']); [|congruence..].
      intros ? ? [= <- <-]. done.
  - rewrite verify_none in Hv; [done|]. lia.
Qed.

Lemma ifac_verify_no_panic raw key n : length key = 64%nat → bytes_ok raw → ifac_verify raw key n ≠ Panic.
Proof.
  intros Hk Hb. destruct (decide (1 ≤ n ≤ 64 ∧ 2 + n < length raw ≤ MAX_IFAC_WIRE_BYTES)%nat) as [[Hn Hl]|Hx].
  - destruct raw as [|b l]; [simpl in Hl; lia|]. destruct (decide (Z.land b IFAC_FLAG = 0)) as [Hz|Hz].
    + rewrite verify_none; [done|]. right; right; right. by eexists _, _.
    + destruct (verify_some (b :: l) key n Hk Hb Hn Hl) as (q & _ & _ & _ & [[-> _]| ->]); [|done..].
      intros ? ? [= <- <-]. done.
  - rewrite verify_none; [done|]. lia.
Qed.

Lemma strip_total n a p o :
  actor_ok n a → bytes_ok (in_raw p) →
  ∃ r, strip_ifac a p o = Ok r ∧ match r with inl a' => actor_ok n a' | inr raw => bytes_ok raw end.
Proof.
  intros Ha Hb. unfold strip_ifac. destruct (if decide (o = OriginWire) then _ else None) as [e|] eqn:He; [|by eexists].
  assert (Hi : iface_ok e) by (case_decide; [by apply (ok_ifaces n a Ha (in_interface_id p))|done]).
  destruct (ifac_key (if_entry e)) as [key|] eqn:Hk.
  - pose proof (ifac_verify_no_panic (in_raw p) key (Z.to_nat (ifac_size (if_entry e))) (io_key e Hi key Hk) Hb).
    destruct (ifac_verify _ _ _) as [[raw|]| |] eqn:Hv; [| |done..]; cbn [res_bind]; eexists; (split; [done|]).
    + eapply ifac_verify_bytes; [by apply (io_key e Hi)|done|done].
    + by apply ifac_violation_ok.
  - assert (∃ b, has_ifac_flag (in_raw p) = @Ok Empty_set _ b) as [b ->]
      by (unfold has_ifac_flag; destruct (in_raw p); by eexists).
    cbn [res_bind]. destruct b; eexists; (split; [done|]); [by apply ifac_violation_ok|done].
Qed.

Lemma inbound_total n env a p o :
  actor_ok n a → 2 ≤ n → bytes_ok (in_raw p) →
  ∃ a' x, on_inbound_inner env a p o = Ok (a', x) ∧ actor_ok (n - 2) a'.
Proof.
  intros Ha Hn Hb. assert (Hw : ∀ a0, actor_ok n a0 → actor_ok (n - 2) a0) by (intros a0 Ha0; apply (actor_ok_weaken n); [done|lia]).
  unfold on_inbound_inner. set (a1 := if decide (o = OriginWire) then _ else a).
  assert (Ha1 : actor_ok n a1) by (subst a1; case_decide; [destruct Ha; by constructor|done]). clearbody a1.
  assert (∃ r, wire_budget a1 p o = Ok r ∧ match r with inl a' => actor_ok n a' | inr _ => True end) as (r & -> & Hr).
  { unfold wire_budget. case_decide; [by eexists|]. destruct (interfaces a1 !! _) as [e|]; [|by eexists].
    destruct (negb _); [by eexists|]. destruct (_ <? _); [eexists; split; [done|]; by apply violation_ok|].
    pose proof (effective_clear_mtu_no_panic (packet_capacity (if_entry e)) (active_ifac_bytes (if_entry e))).
    assert (entry_clear_mtu (if_entry e) ≠ Panic) by (unfold entry_clear_mtu; case_match; done).
    destruct (entry_clear_mtu (if_entry e)); [by eexists..|done]. }
  cbn [res_bind]. destruct r as [a2|lim]; [eexists _, _; by split; [|apply Hw]|].
  destruct (strip_total n a1 p o Ha1 Hb) as (r & -> & Hs). cbn [res_bind].
  destruct r as [a2|raw]; [eexists _, _; by split; [|apply Hw]|].
  destruct (_ <? _); [eexists _, _; split; [done|]; by apply Hw, violation_ok|]. by apply filter_total.
Qed.
End safe.
