(* ===== verification/RelayFrame.v ===== *)
(** * What a packet can change

    Frames of the inbound handlers: which parts of the routing state each of
    them can touch.  [mild] relates two states between which no hash was
    forgotten, no link was added or validated and no path was learned; every
    step but link-request forwarding, transit proofs and announces is mild. *)

From S2P Require Import Prelude F64 Wire Packet LinkSignalling Receipt Ifac Table Hashlist PathTable.
From S2P Require Import ReverseTable LinkTable Ownership LinkTransit Tunnel Identity Announce Ingress RateLimit Blackhole.
From S2P Require Import Msgpack Actor ActorFacts Restore Forward ProofRoute Learn Inbound.
From stdpp Require Import prelude list gmap fin_maps functions.

Open Scope Z_scope.

(** Taking a computation that returned apart. *)
Ltac ok_inv H :=
  repeat match type of H with
  | res_bind _ _ = Ok _ => let E := fresh "E" in apply res_bind_Ok_inv in H as (? & E & H)
  | Ok _ = Ok _ => first [injection H as <- <- | injection H as <-]
  | Ok _ = Panic => discriminate H
  | Panic = Ok _ => discriminate H
  | Err _ = Ok _ => discriminate H
  | (if ?b then _ else _) = Ok _ => destruct b eqn:?
  | match ?x with _ => _ end = Ok _ => destruct x eqn:?
  end.

Section frame.
Context `{M : Mpsc} `{D : Digest} `{K : Hkdf} `{G : Ed25519Signer} `{Ed : Ed25519} `{!Ed25519Keys}.
Implicit Types a : Actor.

Definition tables a := (packet_hashlist a, link_table a, path_table a, tunnel_table a).

Abbreviation tables_t := (PacketHashlist * LinkTable * PathTable * TunnelTable)%type.

(** [x] is the hash of the packet being handled. *)
Record mildly (x : bytes) (t t' : tables_t) : Prop := mkMild {
  mild_hash : Hashlist.contains t.1.1.1 x = true → t'.1.1.1 = t.1.1.1;
  mild_links : ∀ l e', LinkTable.get t'.1.1.2 l = Some e' →
    ∃ e, LinkTable.get t.1.1.2 l = Some e ∧ e' = with_link_timestamp (LinkTable.timestamp e') e;
  mild_paths : ∀ d e', PathTable.get t'.1.2 d = Some e' →
    ∃ e, PathTable.get t.1.2 d = Some e ∧ e' = PathTable.with_times e (PathTable.timestamp e') (PathTable.expires e');
  mild_tunnels : tunnels_within t.2 t'.2;
}.

Abbreviation mild x a a' := (mildly x (tables a) (tables a')).

#[export] Instance mildly_refl x : Reflexive (mildly x).
Proof. intros t. split; [done| | |done]; intros ? e' He'; exists e'; (split; [done|]); by destruct e'. Qed.

#[export] Instance mildly_trans x : Transitive (mildly x).
Proof.
  intros t1 t2 t3 [H1 L1 P1 T1] [H2 L2 P2 T2]. split; [| | |by etrans].
  - intros Hc. rewrite H2; [by apply H1|]. by rewrite H1.
  - intros l e3 (e2 & (e1 & ? & Heq)%L1 & ->)%L2. exists e1. split; [done|]. by rewrite Heq.
  - intros d e3 (e2 & (e1 & ? & Heq)%P1 & ->)%P2. exists e1. split; [done|]. by rewrite Heq.
Qed.

Lemma try_send_tables a id raw a' out : try_send_to_interface a id raw = Ok (a', out) → tables a' = tables a.
Proof. unfold try_send_to_interface. intros Hs. ok_inv Hs; try done; by repeat case_match. Qed.

Lemma deregister_mild x env a id r : mild x a (deregister_interface_with_link_reason env a id r).
Proof.
  destruct (deregister_interface_spec env a id r) as (Hc & _ & Hl & Hp & _). cbv zeta in *.
  unfold core in Hc. apply pair_eq in Hc as [(Hh & _)%fixed_eq _]. split; cbn.
  - done.
  - intros l e' (? & _)%Hl. exists e'. split; [done|]. by destruct e'.
  - intros l e' (? & _)%Hp. exists e'. split; [done|]. by destruct e'.
  - apply deregister_tunnels.
Qed.

Lemma send_mild x env a id raw a' b : send_to_interface env a id raw = Ok (a', b) → mild x a a'.
Proof.
  unfold send_to_interface. intros Hs. apply res_bind_Ok_inv in Hs as ([a1 out] & E & Hs).
  apply try_send_tables in E. rewrite <- E. destruct out; injection Hs as <- <-; try done; apply deregister_mild.
Qed.

(** The sender's fields outside the tables may have changed just before. *)
Ltac by_send :=
  match goal with Hs : send_to_interface _ _ _ _ = Ok _ |- _ => exact (send_mild _ _ _ _ _ _ _ Hs) end.

Lemma send_to_each_mild x env ids frame a a' b : send_to_each env a ids frame = Ok (a', b) → mild x a a'.
Proof.
  revert a b. induction ids as [|id ids IH]; intros a b; cbn [send_to_each]; [by intros [= <- <-]|].
  intros Hs. ok_inv Hs. etrans; [by eapply send_mild|by eapply IH].
Qed.

Lemma broadcast_mild x env a raw e a' b : broadcast_on_interfaces env a raw e = Ok (a', b) → mild x a a'.
Proof. unfold broadcast_on_interfaces. intros Hs. ok_inv Hs; by eapply send_to_each_mild. Qed.

Lemma try_deliver_tables a tx ev a' r : try_deliver a tx ev = (a', r) → tables a' = tables a.
Proof. unfold try_deliver. destruct (try_send _ _). intros [= <- <-]. by case_decide. Qed.

Lemma try_deliver_mild x a tx ev a' r : try_deliver a tx ev = (a', r) → mild x a a'.
Proof. by intros ->%try_deliver_tables. Qed.

Lemma deliver_tables a d ev : tables (deliver_or_count a d ev) = tables a.
Proof. unfold deliver_or_count, try_deliver. repeat case_match; simplify_eq; try done; by case_decide. Qed.

Lemma insert_known (l : PacketHashlist) x : Hashlist.contains l x = true → Hashlist.insert l x = (l, false).
Proof. unfold Hashlist.insert. by intros ->. Qed.

Lemma insert_mild x a : mild x a (upd_packet_hashlist (λ _, (Hashlist.insert (packet_hashlist a) x).1) a).
Proof.
  split; cbn; [| | |done].
  - intros Hc. by rewrite insert_known.
  - intros l e' ?. exists e'. split; [done|]. by destruct e'.
  - intros l e' ?. exists e'. split; [done|]. by destruct e'.
Qed.

Lemma touch_mild x env a d : mild x a (touch_path env a d).
Proof.
  split; cbn; [done| | |done].
  - intros l e' ?. exists e'. split; [done|]. by destruct e'.
  - unfold PathTable.get, PathTable.get_live_mut. cbn -[lookup alter]. intros k e'.
    destruct (PathTable.get_live _ _ _); cbn -[lookup alter]; [|intros; exists e'; split; [done|by destruct e']].
    intros [(-> & e & He & ->)|[_ He]]%lookup_alter_Some; eexists; (split; [done|]); [done|by destruct e'].
Qed.

Lemma timestamp_mild x a d t :
  mild x a (upd_link_table (λ t', LinkTable.get_mut t' d (with_link_timestamp t)) a).
Proof.
  split; cbn; [done| | |done].
  - unfold LinkTable.get, LinkTable.get_mut. cbn -[lookup alter]. intros k e'.
    intros [(-> & e & He & ->)|[_ He]]%lookup_alter_Some; eexists; (split; [done|]); [done|by destruct e'].
  - intros l e' ?. exists e'. split; [done|]. by destruct e'.
Qed.

Lemma insert_fst_mild x a l b : Hashlist.insert (packet_hashlist a) x = (l, b) → mild x a (upd_packet_hashlist (λ _, l) a).
Proof. intros Hi. pose proof (insert_mild x a) as Hm. by rewrite Hi in Hm. Qed.

Lemma admit_mild (c : bool) a x a' b :
  (if c then Ok (a, true)
   else let '(l, fresh) := Hashlist.insert (packet_hashlist a) x in
        Ok (upd_packet_hashlist (λ _, l) a, fresh)) = @Ok Empty_set _ (a', b) → mild x a a'.
Proof. intros Ha. ok_inv Ha; [done|by eapply insert_fst_mild]. Qed.

Lemma route_link_mild env a raw h id a' b x :
  Packet.packet_hash raw (header_type (flags h)) = @Ok Empty_set _ x →
  route_link_packet_via_link_table env a raw h id = Ok (a', b) → mild x a a'.
Proof.
  intros Hx. unfold route_link_packet_via_link_table. rewrite Hx. cbn [res_bind]. cbv zeta. intros Hr.
  ok_inv Hr; try done; simplify_eq; try (by eapply admit_mild).
  etrans; [by eapply admit_mild|]. etrans; [apply timestamp_mild|]. by eapply send_mild.
Qed.

Lemma relay_plain_mild env a raw h id c a' x : relay_plain_broadcast env a raw h id c = Ok a' → mild x a a'.
Proof.
  unfold relay_plain_broadcast. intros Hr. ok_inv Hr; [|done]. simplify_eq. case_match;
    [by eapply broadcast_mild|by eapply send_to_each_mild].
Qed.

Lemma route_link_unrouted env a raw h id a' : route_link_packet_via_link_table env a raw h id = Ok (a', false) → a' = a.
Proof. unfold route_link_packet_via_link_table. cbv zeta. intros Hr. ok_inv Hr; congruence. Qed.

(** A data packet is mild, or restores a tunnel in the state it came upon. *)
Lemma process_data_cases env a raw h id ms a' nx x :
  Packet.packet_hash raw (header_type (flags h)) = @Ok Empty_set _ x →
  process_data env a raw h id ms = Ok (a', nx) →
  mild x a a' ∨ (tunnel_synthesize_dest_hash = Ok (Wire.destination_hash h) ∧
                 handle_tunnel_synthesis env a raw h id = Ok (a', nx)).
Proof.
  intros Hx. unfold process_data. cbv zeta. intros Hr.
  apply res_bind_Ok_inv in Hr as (d1 & _ & Hr). apply res_bind_Ok_inv in Hr as (d2 & E2 & Hr).
  apply res_bind_Ok_inv in Hr as (a1 & R1 & Hr). apply res_bind_Ok_inv in Hr as ([a2 routed] & R2 & Hr).
  assert (Hm : mild x a a2) by (etrans; [by eapply relay_plain_mild|by eapply route_link_mild]).
  destruct routed; [left; by injection Hr as <- <-|].
  case_decide; [left; ok_inv Hr; by simplify_eq|].
  case_decide as Hd.
  { right. split; [congruence|]. apply route_link_unrouted in R2 as ->. rewrite (bool_decide_eq_true_2 _ Hd), orb_true_r in R1.
    by injection R1 as <-. }
  left. etrans; [exact Hm|]. ok_inv Hr; simplify_eq; try done.
  - by rewrite deliver_tables.
  - etrans; [|by apply touch_mild]. by_send.
Qed.

(** ** Requests, proofs, announces *)

Lemma deliver_all_tables a ds ev : tables (deliver_to_all a ds ev) = tables a.
Proof. revert a. induction ds as [|d ds IH]; intros a; [done|]. cbn. by rewrite IH, deliver_tables. Qed.

Lemma notify_tables env a d r : tables (notify_delivery_proof env (notify_receipt_update a d r) d r) = tables a.
Proof.
  trans (tables (notify_receipt_update a d r)); [|unfold notify_receipt_update; by case_match].
  unfold notify_delivery_proof. repeat case_match; rewrite ?deliver_all_tables; done.
Qed.

Lemma receipt_proof_tables env a raw h r a' : process_receipt_proof env a raw h r = Ok a' → tables a' = tables a.
Proof.
  unfold process_receipt_proof. cbv zeta. intros Hr. ok_inv Hr; simplify_eq; try done.
  etrans; [apply notify_tables|done].
Qed.

Lemma local_lrproof_tables a raw h id ms a' : process_local_lrproof a raw h id ms = Ok a' → tables a' = tables a.
Proof.
  unfold process_local_lrproof. cbv zeta. intros Hr. ok_inv Hr; simplify_eq; try done.
  unfold try_local_delivery, try_deliver. by repeat case_match.
Qed.

Lemma reverse_mild env a raw h id a' b x : route_via_reverse_table env a raw h id = Ok (a', b) → mild x a a'.
Proof.
  unfold route_via_reverse_table. cbv zeta. intros Hr. ok_inv Hr; simplify_eq; try done.
  by_send.
Qed.

Lemma unclaimed_mild a raw h id ms a' x :
  Packet.packet_hash raw (header_type (flags h)) = @Ok Empty_set _ x →
  deliver_unclaimed_lrproof a raw h id ms = Ok a' → mild x a a'.
Proof.
  intros Hx. unfold deliver_unclaimed_lrproof. rewrite Hx. cbn [res_bind]. cbv zeta.
  intros Hr. ok_inv Hr; simplify_eq; try done.
  - etrans; [by eapply try_deliver_mild|apply insert_mild].
  - etrans; [by eapply try_deliver_mild|done].
Qed.

Lemma use_destination_tables env a d : tables (use_destination env a d).1 = tables a.
Proof. unfold use_destination. by case_match. Qed.

Lemma validate_link_step a raw h d a' :
  match LinkTable.get (link_table a) d with
  | Some _ =>
      let* body := slice_from raw (header_size h) in
      match parse_proof_signalling body with
      | Ok signal => Ok (upd_link_table (λ t, LinkTable.get_mut t d (with_validation (mtu_get (ls_mtu signal)))) a)
      | Err _ | Panic => Panic
      end
  | None => Ok a
  end = @Ok Empty_set _ a' →
  a' = a ∨ ∃ s, parse_proof_signalling (drop (header_size h) raw) = Ok s ∧
    a' = upd_link_table (λ t, LinkTable.get_mut t d (with_validation (mtu_get (ls_mtu s)))) a.
Proof.
  destruct (LinkTable.get _ d); [|intros [= <-]; by left].
  intros Hr. apply res_bind_Ok_inv in Hr as (body & Hs & Hr). right.
  assert (Hb : body = drop (header_size h) raw).
  { unfold slice_from in Hs. case_decide; [by injection Hs as <-|done]. }
  subst body. ok_inv Hr. eauto.
Qed.

(** A proof that was neither refused nor a replay. *)
Lemma relay_lrproof_frame env a raw h id loc e a' b x :
  Packet.packet_hash raw (header_type (flags h)) = @Ok Empty_set _ x →
  relay_lrproof env a raw h id loc e = Ok (a', b) →
  mild x a a' ∨
  ∃ a1 s, mild x a a1 ∧ parse_proof_signalling (drop (header_size h) raw) = Ok s ∧
    tables a' = tables (upd_link_table (λ t, LinkTable.get_mut t (Wire.destination_hash h)
      (with_validation (mtu_get (ls_mtu s)))) a1) ∧
    validate_transit_lrproof a raw h e = Ok TransitValid ∧
    (validated e = true ∨ proof_window_closed env e = false) ∧
    Wire.hops h = LinkTable.remaining_hops e ∧ id = LinkTable.interface_id e.
Proof.
  intros Hx. unfold relay_lrproof. rewrite Hx. cbn [res_bind]. cbv zeta. intros Hr.
  ok_inv Hr; simplify_eq; try (by left).
  - left. by eapply insert_fst_mild.
  - left. etrans; [by eapply insert_fst_mild|]. by_send.
  - match goal with Hm : send_to_interface _ _ _ _ = Ok (?a1, _) |- _ =>
      assert (Hs : mild x a a1) by (etrans; [by eapply insert_fst_mild|by_send]) end.
    match goal with |- context [if is_shared_instance ?a2 then _ else _] =>
      assert (Hu : tables (if is_shared_instance a2 then a2 else (use_destination env a2 (LinkTable.destination_hash e)).1)
        = tables a2) by (destruct (is_shared_instance a2); [done|apply use_destination_tables]) end.
    rewrite Hu. match goal with Hv : match LinkTable.get _ _ with Some _ => _ | None => _ end = _ |- _ =>
      apply validate_link_step in Hv as [-> | (s & Hsig & ->)] end; [by left|right].
    eexists _, s. split; [exact Hs|]. repeat split_and; [done|done|done| |lia|lia].
    destruct (validated e); [by left|by right].
Qed.

(** ** What each packet can change *)

(** A link entry that is new, or newly validated. *)
Inductive link_change (env : Env) a (raw : bytes) (h : PacketHeader) (id : Z) (l : bytes) (e' : LinkEntry) : Prop :=
| lc_requested path :
    packet_type (flags h) = LinkRequest → link_id_from_raw raw (header_type (flags h)) = @Ok Empty_set _ l →
    LinkTable.get (link_table a) l = None → validated e' = false →
    PathTable.get_live (path_table a) (Wire.destination_hash h) (now env) = Some path →
    LinkTable.interface_id e' = PathTable.interface_id path →
    LinkTable.remaining_hops e' = PathTable.hops path →
    LinkTable.destination_hash e' = Wire.destination_hash h →
    LinkTable.receiving_interface e' = id → taken_hops e' = Wire.hops h →
    link_change env a raw h id l e'
| lc_validated e s t :
    packet_type (flags h) = Proof → context h = Lrproof → Wire.destination_hash h = l →
    LinkTable.get (link_table a) l = Some e →
    validate_transit_lrproof a raw h e = Ok TransitValid →
    (validated e = true ∨ proof_window_closed env e = false) →
    Wire.hops h = LinkTable.remaining_hops e → id = LinkTable.interface_id e →
    parse_proof_signalling (drop (header_size h) raw) = Ok s →
    e' = with_validation (mtu_get (ls_mtu s)) (with_link_timestamp t e) →
    link_change env a raw h id l e'.

(** A path entry that is new or replaced: the announce it was learned from. *)
Record path_change (env : Env) a (raw : bytes) (h : PacketHeader) (off : nat) (id : Z) (d : bytes) (e' : PathEntry)
    (ann : AnnounceData) (who : Identity) : Prop := mkPathChange {
  pc_type : packet_type (flags h) = Announce;
  pc_dest : Wire.destination_hash h = d;
  pc_parsed : ann_unpack (drop off raw) (context_flag (flags h)) = Ok ann;
  pc_signed : verify_signature ann d = Ok who;
  pc_owner : validate_destination_binding ann d who (known_public_key a d) = Ok tt;
  pc_welcome : is_blackholed (blackhole_table a) (id_hash who) (now env) = false;
  pc_foreign : d ∉ local_destinations a;
  pc_hops : Wire.hops h < PATHFINDER_M;
  pc_fresh : should_add_path env a h (ann_random_hash ann) = true;
  pc_entry : PathTable.next_hop e' = Wire.transport_id h ∧ PathTable.hops e' = Wire.hops h ∧
    PathTable.interface_id e' = id ∧ ann_random_hash ann ∈ random_blobs e';
}.

(** A path entry put back from what a tunnel remembers: the synthesis packet
    that announced the tunnel's return. *)
Record path_restored (env : Env) a (raw : bytes) (h : PacketHeader) (id : Z) (d : bytes) (e' : PathEntry)
    (syn : TunnelSynthesisData) (tp : TunnelPath) : Prop := mkPathRestored {
  pr_type : packet_type (flags h) = Data;
  pr_dest : tunnel_synthesize_dest_hash = Ok (Wire.destination_hash h);
  pr_payload : ∃ off, data_payload_offset raw h = Some off ∧ @synth_unpack Empty_set (drop off raw) = Ok (Some syn);
  pr_signed : is_signed syn = @Ok Empty_set _ true;
  pr_known : tunnel_path (tunnel_table a) (synth_tunnel_id syn) d = Some tp;
  pr_due : restore_due env (PathTable.get (path_table a) d) tp = true;
  pr_entry : e' = restored_entry env id tp;
}.

Definition links_kept env a raw h id (t t' : LinkTable) : Prop :=
  ∀ l e', LinkTable.get t' l = Some e' →
    (∃ e, LinkTable.get t l = Some e ∧ e' = with_link_timestamp (LinkTable.timestamp e') e) ∨
    link_change env a raw h id l e'.

Definition paths_kept env a raw h off id (t t' : PathTable) : Prop :=
  ∀ d e', PathTable.get t' d = Some e' →
    (∃ e, PathTable.get t d = Some e ∧ e' = PathTable.with_times e (PathTable.timestamp e') (PathTable.expires e')) ∨
    (∃ ann who, path_change env a raw h off id d e' ann who) ∨
    ∃ syn tp, path_restored env a raw h id d e' syn tp.

(** What the tunnels remember is what they remembered, or the copy of a path
    just learned. *)
Definition tunnels_kept env a raw h off id (t t' : TunnelTable) : Prop :=
  ∀ k d tp, tunnel_path t' k d = Some tp →
    tunnel_path t k d = Some tp ∨ ∃ e ann who, path_change env a raw h off id d e ann who ∧ tp = tunnel_copy e.

(** The frame of a dispatched packet with hash [x]. *)
Record framed env raw h off id (x : bytes) a a' : Prop := mkFramed {
  fr_hash : Hashlist.contains (packet_hashlist a) x = true → packet_hashlist a' = packet_hashlist a;
  fr_links : links_kept env a raw h id (link_table a) (link_table a');
  fr_paths : paths_kept env a raw h off id (path_table a) (path_table a');
  fr_tunnels : tunnels_kept env a raw h off id (tunnel_table a) (tunnel_table a');
}.

Lemma mild_framed env raw h off id x a a' : mild x a a' → framed env raw h off id x a a'.
Proof.
  intros [Hh Hl Hp Ht]. split; [done| | |intros k d tp Hk; left; by apply Ht]; intros ? e' He; left; [by apply Hl|by apply Hp].
Qed.

Lemma synthesis_framed env a raw h off id a' nx x :
  packet_type (flags h) = Data → tunnel_synthesize_dest_hash = Ok (Wire.destination_hash h) →
  handle_tunnel_synthesis env a raw h id = Ok (a', nx) → framed env raw h off id x a a'.
Proof.
  intros Hty Hdest. unfold handle_tunnel_synthesis. destruct (data_payload_offset raw h) as [o|] eqn:Ho;
    [|intros [= <- <-]; by apply mild_framed].
  assert (Hl : (o ≤ length raw)%nat) by (unfold data_payload_offset in Ho; case_decide; [by injection Ho as <-|done]).
  rewrite slice_from_ok by done. cbn [res_bind]. intros Hr.
  apply res_bind_Ok_inv in Hr as ([syn|] & Hu & Hr); apply res_bind_Ok_inv in Hr as (signed & Hs & Hr);
    [|injection Hr as <- <-; by apply mild_framed].
  destruct signed; [|injection Hr as <- <-; by apply mild_framed]. injection Hr as <- <-.
  set (a1 := upd_state_dirty _ _). set (tid := synth_tunnel_id syn) in *.
  assert (Ht : ∀ k d, tunnel_path (tunnel_table a1) k d = tunnel_path (tunnel_table a) k d)
    by (intros; apply handle_tunnel_path).
  assert (H1 : packet_hashlist a1 = packet_hashlist a ∧ link_table a1 = link_table a ∧ path_table a1 = path_table a) by done.
  clearbody a1. destruct H1 as (H1h & H1l & H1p).
  destruct (restore_frame env a1 tid id) as (Hb & _ & _). pose proof (restore_within env a1 tid id) as Hw.
  pose proof (restore_lookup env a1 tid id) as Hd. cbv zeta in *. set (a' := restore_tunnel_paths env a1 tid id) in *.
  clearbody a'. unfold bystanders in Hb. rewrite !pair_eq in Hb.
  destruct Hb as (((((((((Hf & _) & _) & _) & Hlt) & _) & _) & _) & _) & _). apply fixed_eq in Hf as (Hh & _). split.
  - congruence.
  - intros l e'. rewrite Hlt, H1l. intros He. left. exists e'. split; [done|]. by destruct e'.
  - intros d e' He. specialize (Hd d). rewrite Ht, H1p in Hd.
    assert (Hkeep : PathTable.get (path_table a') d = PathTable.get (path_table a) d →
      ∃ e, PathTable.get (path_table a) d = Some e ∧
        e' = PathTable.with_times e (PathTable.timestamp e') (PathTable.expires e')).
    { intros <-. exists e'. split; [done|]. by destruct e'. }
    destruct (tunnel_path (tunnel_table a) tid d) as [tp|] eqn:Htp; [|left; apply Hkeep, Hd].
    destruct (restore_due _ _ _) eqn:Hdue; [right; right|left; apply Hkeep, Hd].
    destruct Hd as [Hd _]. rewrite He in Hd. injection Hd as ->. exists syn, tp. split; eauto.
  - intros k d tp Hk. left. rewrite <- Ht. by apply Hw.
Qed.

Lemma process_data_framed env a raw h off id ms a' nx x :
  packet_type (flags h) = Data → Packet.packet_hash raw (header_type (flags h)) = @Ok Empty_set _ x →
  process_data env a raw h id ms = Ok (a', nx) → framed env raw h off id x a a'.
Proof.
  intros Hty Hx [Hm|[Hd Hs]]%(process_data_cases _ _ _ _ _ _ _ _ _ Hx); [by apply mild_framed|].
  by eapply synthesis_framed.
Qed.

Lemma link_change_touched env a raw h id l e t :
  link_change env a raw h id l e → link_change env a raw h id l (with_link_timestamp t e).
Proof.
  intros [path|e0 s t0 ? ? ? ? ? ? ? ? ? ->]; [by eapply lc_requested|].
  by eapply (lc_validated _ _ _ _ _ _ _ e0 s t).
Qed.

Lemma framed_mild env raw h off id x a a1 a' :
  packet_type (flags h) = Proof → framed env raw h off id x a a1 → mild x a1 a' → framed env raw h off id x a a'.
Proof.
  intros Hty [Fh Fl Fp Ft] [Hh Hl Hp Ht]. cbn in *. split; [| | |intros k d tp Hk; by apply Ft, Ht].
  - intros Hc. rewrite Hh; [by apply Fh|]. by rewrite (Fh Hc).
  - intros l e' (e1 & [(e & ? & Heq)|Hch]%Fl & ->)%Hl; [left|right; by apply link_change_touched].
    exists e. split; [done|]. by rewrite Heq.
  - intros d e' (e1 & [(e & ? & Heq)|[(ann & who & [])|(? & ? & [])]]%Fp & ->)%Hp; [left| |congruence].
    + exists e. split; [done|]. by rewrite Heq.
    + right. left. by exists ann, who.
Qed.

Lemma relay_framed env a raw h off id loc e a' b x :
  packet_type (flags h) = Proof → context h = Lrproof →
  Packet.packet_hash raw (header_type (flags h)) = @Ok Empty_set _ x →
  LinkTable.get (link_table a) (Wire.destination_hash h) = Some e →
  relay_lrproof env a raw h id loc e = Ok (a', b) → framed env raw h off id x a a'.
Proof.
  intros Hty Hc Hx He [Hm|(a1 & s & [Mh Ml Mp Mt] & Hsig & Ht & Hv & Hw & Hh & Hi)]%(relay_lrproof_frame _ _ _ _ _ _ _ _ _ _ Hx);
    [by apply mild_framed|].
  unfold tables in Ht. rewrite !pair_eq in Ht. destruct Ht as (((Th & Tl) & Tp) & Tt). cbn in *.
  split; [by rewrite Th|intros l e'; rewrite Tl|intros d e' Hd; rewrite Tp in Hd; left; by apply Mp
    |intros k d tp Hk; rewrite Tt in Hk; left; by apply Mt].
  unfold LinkTable.get, LinkTable.get_mut. cbn -[lookup alter].
  intros [(<- & e1 & He1 & ->)|[_ He1]]%lookup_alter_Some; [right|left; by apply Ml].
  apply Ml in He1 as (e0 & He0 & ->). rewrite He in He0. injection He0 as <-. by eapply lc_validated.
Qed.

Lemma lrproof_framed env a raw h off id ms a' x :
  packet_type (flags h) = Proof → context h = Lrproof →
  Packet.packet_hash raw (header_type (flags h)) = @Ok Empty_set _ x →
  process_lrproof env a raw h id ms = Ok a' → framed env raw h off id x a a'.
Proof.
  intros Hty Hc Hx. unfold process_lrproof. cbv zeta. intros Hr.
  case_decide; [by apply mild_framed; rewrite (local_lrproof_tables _ _ _ _ _ _ Hr)|].
  apply res_bind_Ok_inv in Hr as ([a1 claimed] & E & Hr).
  assert (Hf : framed env raw h off id x a a1).
  { destruct (_ || _) in E; [|injection E as <- _; by apply mild_framed].
    destruct (LinkTable.get (link_table a) (Wire.destination_hash h)) as [e|] eqn:He;
      [by eapply relay_framed|injection E as <- _; by apply mild_framed]. }
  destruct claimed; [by injection Hr as <-|]. eapply framed_mild; [done|done|]. by eapply unclaimed_mild.
Qed.

Lemma process_proof_framed env a raw h off id ms a' x :
  packet_type (flags h) = Proof →
  Packet.packet_hash raw (header_type (flags h)) = @Ok Empty_set _ x →
  process_proof env a raw h id ms = Ok a' → framed env raw h off id x a a'.
Proof.
  intros Hty Hx. unfold process_proof. cbv zeta. intros Hr.
  destruct (if decide (context h = Lrproof) then None else receipt_table a !! _) as [r|].
  { apply mild_framed. by rewrite (receipt_proof_tables _ _ _ _ _ _ Hr). }
  destruct (decide (context h = Lrproof)); [by eapply lrproof_framed|]. apply mild_framed.
  ok_inv Hr; simplify_eq; try (by eapply route_link_mild);
    (etrans; [by eapply route_link_mild|]); (etrans; [by eapply reverse_mild|]); [done|].
  by rewrite deliver_tables.
Qed.

Lemma candidate_target env a raw h x y z p target fwd :
  transport_forward_candidate env a raw h x y z = Ok (Some (target, fwd)) →
  PathTable.get_live (path_table a) (Wire.destination_hash h) (now env) = Some p → target = PathTable.interface_id p.
Proof. unfold transport_forward_candidate. cbv zeta. intros Hr Hp. rewrite Hp in Hr. ok_inv Hr; by simplify_eq. Qed.

Lemma link_request_framed env a raw h off id ms a' x :
  packet_type (flags h) = LinkRequest →
  process_link_request env a raw h id ms = Ok a' → framed env raw h off id x a a'.
Proof.
  intros Hty. unfold process_link_request. cbv zeta. intros Hr.
  ok_inv Hr; simplify_eq; try (by apply mild_framed).
  - apply mild_framed. by rewrite deliver_tables.
  - apply mild_framed. by_send.
  - match goal with Hs : send_to_interface _ _ _ _ = Ok (?a1, _) |- _ =>
      assert (Hm : mild x a (touch_path env a1 (Wire.destination_hash h)))
        by (etrans; [by_send|apply touch_mild]) end.
    match goal with Hc : transport_forward_candidate _ _ _ _ _ _ _ = _, Hp : PathTable.get_live _ _ _ = _ |- _ =>
      pose proof (candidate_target _ _ _ _ _ _ _ _ _ _ Hc Hp) as Ht end.
    destruct Hm as [Mh Ml Mp Mt]. cbn in *. split; [done| |intros d e' ?; left; by apply Mp|intros k d tp ?; left; by apply Mt].
    intros lid e'. unfold LinkTable.get, LinkTable.insert. cbn -[lookup insert].
    intros [(<- & <-)|[_ He]]%lookup_insert_Some; [right|left; by apply Ml].
    eapply lc_requested; try done. unfold LinkTable.contains in *. apply eq_None_not_Some.
    by eapply bool_decide_eq_false.
Qed.

(** ** Announces *)

Lemma authenticate_facts env a raw h off id a' r :
  authenticate_announce env a raw h off id = Ok (a', r) →
  tables a' = tables a ∧ recent_announces a' = recent_announces a ∧
  ∀ ann who, r = Some (ann, who) →
    ann_unpack (drop off raw) (context_flag (flags h)) = Ok ann ∧
    verify_signature ann (Wire.destination_hash h) = Ok who ∧
    is_blackholed (blackhole_table a) (id_hash who) (now env) = false.
Proof.
  unfold authenticate_announce. case_decide as Hl; [by intros [= <- <-]|].
  rewrite slice_from_ok by lia. cbn [res_bind]. intros Hr.
  ok_inv Hr; simplify_eq; (split; [done|]); (split; [done|]); try done. by intros ? ? [= <- <-].
Qed.

Lemma ingress_tables env a raw h id a' b : account_ingress env a raw h id = Ok (a', b) →
  tables a' = tables a ∧ recent_announces a' = recent_announces a.
Proof. unfold account_ingress. cbv zeta. intros Hr. ok_inv Hr; by simplify_eq. Qed.

Lemma remember_tables env a h ann key : tables (remember_announce env a h ann key) = tables a.
Proof. unfold remember_announce. by case_match. Qed.

Lemma rate_tables env a h id a' b : announce_rate_blocked env a h id = Ok (a', b) → tables a' = tables a.
Proof.
  unfold announce_rate_blocked. cbv zeta. intros Hr.
  apply res_bind_Ok_inv in Hr as ([a1 blocked] & E & Hr).
  assert (Ht : tables a1 = tables a) by (ok_inv E; by simplify_eq). ok_inv Hr; exact Ht.
Qed.

Lemma cancel_tables env a h a' : cancel_rebroadcast env a h = Ok a' → tables a' = tables a.
Proof.
  unfold cancel_rebroadcast. cbv zeta. destruct (if is_transport_enabled a then _ else _) as [e|];
    [|by intros [= <-]].
  intros Hr. apply res_bind_Ok_inv in Hr as (a1 & E & Hr).
  assert (Ht : tables a1 = tables a) by (ok_inv E; by simplify_eq). ok_inv Hr; exact Ht.
Qed.

Lemma suppressed_tables a d id t : tables (is_path_interface_suppressed a d id t).1 = tables a.
Proof. unfold is_path_interface_suppressed. by repeat case_match. Qed.

Lemma queue_tables env a raw h id b a' : queue_rebroadcast env a raw h id b = Ok a' → tables a' = tables a.
Proof. unfold queue_rebroadcast. cbv zeta. intros Hr. by ok_inv Hr. Qed.

Lemma annotate_tables a raw h r a' : annotate_recent a raw h r = Ok a' → tables a' = tables a.
Proof. unfold annotate_recent. intros Hr. by ok_inv Hr. Qed.

Lemma should_add_path_ext env a a' h blob : path_table a' = path_table a → should_add_path env a' h blob = should_add_path env a h blob.
Proof. unfold should_add_path. by intros ->. Qed.

Lemma extend_blobs_new blobs blob : blob ∈ extend_blobs blobs blob.
Proof. unfold extend_blobs. case_decide; [done|]. apply elem_of_app. right. by apply list_elem_of_singleton. Qed.

Lemma install_tables env a raw h id blob blobs a' : install_path env a raw h id blob blobs = Ok a' →
  ∃ e, tables a' = (packet_hashlist a, link_table a, PathTable.insert (path_table a) (Wire.destination_hash h) e,
      install_tunnel_path env (tunnel_table a) id (Wire.destination_hash h) e) ∧
    PathTable.next_hop e = Wire.transport_id h ∧ PathTable.hops e = Wire.hops h ∧ PathTable.interface_id e = id ∧
    blob ∈ random_blobs e.
Proof.
  unfold install_path. cbv zeta. intros Hr. ok_inv Hr. simplify_eq. eexists. split; [done|].
  repeat split; try done. apply extend_blobs_new.
Qed.

Lemma learn_path_tables env a raw h id loc ann a' nx :
  learn_path env a raw h id loc ann = Ok (a', nx) →
  tables a' = tables a ∨
  ∃ e, tables a' = (packet_hashlist a, link_table a, PathTable.insert (path_table a) (Wire.destination_hash h) e,
      install_tunnel_path env (tunnel_table a) id (Wire.destination_hash h) e) ∧
    should_add_path env a h (ann_random_hash ann) = true ∧
    PathTable.next_hop e = Wire.transport_id h ∧ PathTable.hops e = Wire.hops h ∧ PathTable.interface_id e = id ∧
    ann_random_hash ann ∈ random_blobs e.
Proof.
  unfold learn_path. intros Hr. apply res_bind_Ok_inv in Hr as ([a1 rb] & E1%rate_tables & Hr).
  apply res_bind_Ok_inv in Hr as (a2 & E2%cancel_tables & Hr). cbv zeta in Hr.
  pose proof (suppressed_tables a2 (Wire.destination_hash h) id (now env)) as E3.
  destruct (is_path_interface_suppressed _ _ _ _) as [a3 sup]. cbn in E3.
  assert (Ht : tables a3 = tables a) by congruence. clear E1 E2 E3.
  destruct (negb sup && _) eqn:Hs; [|injection Hr as <- <-; by left]. right.
  apply andb_prop in Hs as [_ Hs].
  apply res_bind_Ok_inv in Hr as (a4 & E4 & Hr).
  assert (Ht4 : tables a4 = tables a).
  { destruct (_ && _) in E4; [by rewrite (queue_tables _ _ _ _ _ _ _ E4)|by injection E4 as <-]. }
  apply res_bind_Ok_inv in Hr as (a5 & (e & E5 & He)%install_tables & Hr).
  apply res_bind_Ok_inv in Hr as (a6 & E6%annotate_tables & [= <- <-]).
  unfold tables in Ht, Ht4. rewrite !pair_eq in Ht, Ht4. destruct Ht as ((_ & Hp) & _), Ht4 as (((-> & ->) & ->) & ->) in E5.
  exists e. split; [congruence|]. split; [|done]. by rewrite <- (should_add_path_ext env a a3).
Qed.

Lemma announce_framed env a raw h off id a' nx x :
  packet_type (flags h) = Announce →
  process_announce env a raw h off id = Ok (a', nx) → framed env raw h off id x a a'.
Proof.
  intros Hty. unfold process_announce. cbv zeta. intros Hr.
  case_decide as Hloc; [injection Hr as <- <-; by apply mild_framed|].
  apply res_bind_Ok_inv in Hr as ([a1 auth] & (E1 & R1 & Hauth)%authenticate_facts & Hr).
  destruct auth as [[ann who]|]; [|injection Hr as <- <-; apply mild_framed; by rewrite E1].
  destruct (Hauth ann who eq_refl) as (Hu & Hv & Hb).
  apply res_bind_Ok_inv in Hr as ([a2 held] & (E2 & R2)%ingress_tables & Hr).
  rewrite R1 in R2. assert (Ht : tables a2 = tables a) by congruence.
  destruct held; [injection Hr as <- <-; apply mild_framed; by rewrite Ht|].
  destruct (validate_destination_binding _ _ _ _) as [[]| |] eqn:Hbind; [|injection Hr as <- <-; apply mild_framed; by rewrite <- Ht|done].
  pose proof (remember_tables env a2 h ann (get_public_key who)) as E3. rewrite Ht in E3.
  destruct (PATHFINDER_M <=? Wire.hops h) eqn:Hh; [injection Hr as <- <-; apply mild_framed; by rewrite E3|].
  apply learn_path_tables in Hr as [Hr|(e & Hr & Hs & He)]; [apply mild_framed; by rewrite Hr, E3|].
  unfold tables in Hr, E3. rewrite !pair_eq in Hr, E3. destruct Hr as (((Rh & Rl) & Rp) & Rt), E3 as (((Eh & El) & Ep) & Et).
  assert (Hpc : path_change env a raw h off id (Wire.destination_hash h) e ann who).
  { split; try done; [unfold known_public_key; by rewrite <- R2|by apply Z.leb_gt|].
    by rewrite (should_add_path_ext env a _ h _ Ep) in Hs. }
  split; [by rewrite Rh, Eh|rewrite Rl, El|rewrite Rp, Ep|rewrite Rt, Et].
  - intros l e' ?. left. exists e'. split; [done|]. by destruct e'.
  - intros d e'. unfold PathTable.get, PathTable.insert. cbn -[lookup insert].
    intros [(<- & <-)|[_ Hd]]%lookup_insert_Some; [right; left|left; exists e'; split; [done|by destruct e']]. by exists ann, who.
  - intros k d tp [Hk|[-> ->]]%install_tunnel_inv; [by left|right]. by exists e, ann, who.
Qed.
End frame.
