(* ===== verification/Relay.v ===== *)
(** * What a relay does with a packet

    The whole inbound path of Inbound.v at once, from the frames of
    RelayFrame.v and the totality of RelaySafe.v: a packet is dropped with only
    counters to show for it, or it is dispatched, and then the links, paths and
    hashes that change are those its kind allows. *)

From S2P Require Import Prelude F64 Wire Packet LinkSignalling Receipt Ifac Table Hashlist PathTable.
From S2P Require Import ReverseTable LinkTable Ownership LinkTransit Tunnel Identity Announce Ingress RateLimit Blackhole.
From S2P Require Import Msgpack Actor ActorFacts Restore Forward ProofRoute Learn Inbound RelayDemo RelaySafe RelayFrame.
From stdpp Require Import prelude list gmap fin_maps functions.

Open Scope Z_scope.

Section relay.
Context `{M : Mpsc} `{D : Digest} `{K : Hkdf} `{G : Ed25519Signer} `{Ed : Ed25519} `{EK : !Ed25519Keys}.
Implicit Types a : Actor.

(** The messages that reach the inbound path, and a run over several. *)
Inductive Message :=
| MsgInbound (p : PacketIn)
| MsgReleased (ann : HeldAnnounce)
| MsgCached (p : PacketIn).

Definition message_raw (m : Message) : bytes :=
  match m with MsgInbound p | MsgCached p => in_raw p | MsgReleased ann => ha_raw ann end.

Definition handle (env : Env) a (m : Message) : io (Actor * Next) :=
  match m with
  | MsgInbound p => on_inbound env a p
  | MsgReleased ann => on_released_announce env a ann
  | MsgCached p => on_cached_announce env a p
  end.

Fixpoint run a (ms : list (Env * Message)) : io (Actor * list Next) :=
  match ms with
  | [] => Ok (a, [])
  | (env, m) :: ms =>
      let* '(a, nx) := handle env a m in
      let* '(a, nxs) := run a ms in
      Ok (a, nx :: nxs)
  end.

(** What a dropped packet leaves alone: everything but the interface counters,
    the traffic counters, the hash list and the packet metrics. *)
Definition effects a :=
  (tables a, (announce_table a, held a), reverse_table a, (rate_table a, blackhole_table a),
   (receipt_table a, recent_announces a), (local_destinations a, destination_channels a, link_endpoints a),
   (wires a, mailboxes a, events a)).

Definition steady a :=
  (link_table a, path_table a, (announce_table a, held a), (reverse_table a, tunnel_table a),
   (rate_table a, blackhole_table a), (receipt_table a, recent_announces a),
   (local_destinations a, destination_channels a, link_endpoints a), (wires a, mailboxes a, events a)).

Lemma effects_steady a a' : effects a' = effects a → steady a' = steady a ∧ packet_hashlist a' = packet_hashlist a.
Proof. unfold effects, steady, tables. rewrite !pair_eq. tauto. Qed.

(** What dispatch reads of a state to validate proofs and announces. *)
Definition reads a :=
  (interfaces a, link_table a, path_table a, recent_announces a, blackhole_table a, local_destinations a).

(** Does this packet go through deduplication? *)
Definition deduplicated a (h : PacketHeader) : bool :=
  negb (skips_hashlist (context h)) && negb (defers_hashlist a h)
  && negb (bool_decide (packet_type (flags h) = Announce) && bool_decide (destination_type (flags h) = Single)).

(** A packet that reaches its handler in state [a1]. *)
Record accepted a (p : PacketIn) (o : InboundOrigin) (raw : bytes) (h : PacketHeader) (off : nat) (x : bytes) a1
    : Prop := mkAccepted {
  ac_raw : strip_ifac a p o = Ok (inr raw);
  ac_parse : header_unpack raw = Ok (h, off);
  ac_hops : Wire.hops h < PATHFINDER_M;
  ac_foreign : for_another_transport a h (in_interface_id p) = false;
  ac_type : unroutable_type a h (in_interface_id p) = false;
  ac_hash : Packet.packet_hash raw (header_type (flags h)) = @Ok Empty_set _ x;
  ac_reads : reads a1 = reads a;
  ac_steady : steady a1 = steady a;
  ac_list : packet_hashlist a1 = packet_hashlist a ∨ packet_hashlist a1 = (Hashlist.insert (packet_hashlist a) x).1;
  ac_fresh : deduplicated a h = true →
    Hashlist.contains (packet_hashlist a) x = false ∧
    packet_hashlist a1 = (Hashlist.insert (packet_hashlist a) x).1;
}.

(** The header a handler sees. *)
Definition seen_header a (p : PacketIn) (h : PacketHeader) : PacketHeader :=
  with_hops h (adjusted_inbound_hops a (Wire.hops h) (in_interface_id p)).

Lemma metrics_keep a x ms :
  reads (record_packet_metrics a x ms) = reads a ∧ effects (record_packet_metrics a x ms) = effects a.
Proof. unfold record_packet_metrics. repeat case_match; done. Qed.

Lemma dispatch_framed env a raw h off id ms a' nx x :
  Packet.packet_hash raw (header_type (flags h)) = @Ok Empty_set _ x →
  dispatch env a raw h off id ms = Ok (a', nx) → framed env raw h off id x a a'.
Proof.
  intros Hx. unfold dispatch. destruct (packet_type (flags h)) eqn:Hty; intros Hr.
  - by eapply process_data_framed.
  - by eapply announce_framed.
  - apply res_bind_Ok_inv in Hr as (a1 & Hr & [= <- <-]). by eapply link_request_framed.
  - apply res_bind_Ok_inv in Hr as (a1 & Hr & [= <- <-]). by eapply process_proof_framed.
Qed.

Lemma insert_fresh l x : (Hashlist.insert l x).2 = negb (Hashlist.contains l x).
Proof. unfold Hashlist.insert. destruct (Hashlist.contains l x); [done|]. by case_match. Qed.

Lemma insert_contains l x : Hashlist.contains (Hashlist.insert l x).1 x = true.
Proof.
  unfold Hashlist.insert. destruct (Hashlist.contains l x) eqn:Hc; [done|].
  apply contains_spec. case_match; cbn; set_solver.
Qed.

Lemma dedup_cases a h x a' fresh : deduplicate a h x = (a', fresh) →
  reads a' = reads a ∧ steady a' = steady a ∧
  (packet_hashlist a' = packet_hashlist a ∨ packet_hashlist a' = (Hashlist.insert (packet_hashlist a) x).1) ∧
  (fresh = false → effects a' = effects a) ∧
  (fresh = true → deduplicated a h = true → Hashlist.contains (packet_hashlist a) x = false ∧
    packet_hashlist a' = (Hashlist.insert (packet_hashlist a) x).1).
Proof.
  unfold deduplicate, deduplicated. destruct (negb (skips_hashlist _) && _) eqn:Hd; cbn [andb].
  - pose proof (insert_fresh (packet_hashlist a) x) as Hf. destruct (Hashlist.insert _ x) as [l b] eqn:Hi.
    cbn in Hf. intros [= <- <-]. split; [done|]. split; [done|]. split; [by right|]. subst b.
    destruct (Hashlist.contains (packet_hashlist a) x) eqn:Hc; cbn [negb orb]; (split; [intros Hfr|intros Hfr Hn]);
      try done; [|by rewrite Hfr in Hn].
    unfold Hashlist.insert in Hi. rewrite Hc in Hi. by injection Hi as <-.
  - intros [= <- <-]. split; [done|]. split; [done|]. split; [by left|]. by split.
Qed.

Lemma adjusted_ext a a' n id : interfaces a' = interfaces a → adjusted_inbound_hops a' n id = adjusted_inbound_hops a n id.
Proof.
  unfold adjusted_inbound_hops, has_local_client_interfaces, is_local_client_interface,
    is_shared_instance_peer_interface, has_role. by intros ->.
Qed.

Lemma filter_cases env a raw p o a' nx :
  strip_ifac a p o = Ok (inr raw) → filter_and_dispatch env a raw p = Ok (a', nx) →
  (nx = Done ∧ effects a' = effects a) ∨
  ∃ h off x a1, accepted a p o raw h off x a1 ∧
    dispatch env a1 raw (seen_header a p h) off (in_interface_id p) (in_metrics p) = Ok (a', nx).
Proof.
  intros Hs. unfold filter_and_dispatch. cbv zeta.
  destruct (header_unpack raw) as [[h off]| |] eqn:Hu; [|intros [= <- <-]; by left|done].
  destruct (Z.leb_spec PATHFINDER_M (Wire.hops h)) as [|Hh]; [intros [= <- <-]; by left|].
  destruct (for_another_transport _ _ _) eqn:Hfor; [intros [= <- <-]; by left|].
  destruct (unroutable_type _ _ _) eqn:Hty; [intros [= <- <-]; by left|].
  intros Hr. apply res_bind_Ok_inv in Hr as (adm & _ & Hr). destruct adm; cbn [negb] in Hr; [|injection Hr as <- <-; by left].
  apply res_bind_Ok_inv in Hr as (x & Hx & Hr).
  destruct (metrics_keep a x (in_metrics p)) as [Mr Me]. pose proof (effects_steady _ _ Me) as [Ms Mh].
  set (am := record_packet_metrics a x (in_metrics p)) in *. clearbody am.
  assert (Hd : ∀ h', defers_hashlist am h' = defers_hashlist a h').
  { intros h'. unfold defers_hashlist. unfold steady in Ms. rewrite !pair_eq in Ms. by destruct Ms as [[[[[[[-> _] _] _] _] _] _] _]. }
  destruct (deduplicate am h x) as [a1 fresh] eqn:Hdd. apply dedup_cases in Hdd as (Dr & Dd & Dl & De & Df).
  destruct fresh; cbn [negb] in Hr.
  - right. exists h, off, x, a1. split.
    + split; try done; [by rewrite Dr|by rewrite Dd|by rewrite <- Mh|].
      intros Hdp. rewrite <- Mh. apply Df; [done|]. unfold deduplicated in *. by rewrite Hd.
    + unfold seen_header. rewrite <- (adjusted_ext a a1); [done|].
      unfold reads in Dr, Mr. rewrite !pair_eq in Dr, Mr.
      destruct Dr as (((((-> & _) & _) & _) & _) & _), Mr as (((((-> & _) & _) & _) & _) & _). done.
  - left. injection Hr as <- <-. split; [done|]. change (effects a1 = effects a). by rewrite De.
Qed.

Lemma strip_ext a a' p o raw :
  interfaces a' = interfaces a → strip_ifac a p o = Ok (inr raw) → strip_ifac a' p o = Ok (inr raw).
Proof.
  unfold strip_ifac. intros ->. destruct (if decide (o = OriginWire) then _ else None) as [e|]; [|done].
  destruct (ifac_key (if_entry e)).
  - intros Hr. apply res_bind_Ok_inv in Hr as ([r|] & -> & [= <-]). done.
  - intros Hr. apply res_bind_Ok_inv in Hr as (b & -> & Hr). by destruct b.
Qed.

(** Everything on_inbound does: drop, or dispatch. *)
Lemma inner_cases env a p o a' nx :
  on_inbound_inner env a p o = Ok (a', nx) →
  (nx = Done ∧ effects a' = effects a) ∨
  ∃ raw h off x a1, accepted a p o raw h off x a1 ∧
    dispatch env a1 raw (seen_header a p h) off (in_interface_id p) (in_metrics p) = Ok (a', nx).
Proof.
  unfold on_inbound_inner. cbv zeta. set (a0 := if decide (o = OriginWire) then _ else a).
  assert (H0 : effects a0 = effects a ∧ reads a0 = reads a) by (subst a0; by case_decide).
  intros Hr. apply res_bind_Ok_inv in Hr as (budget & Hb & Hr).
  destruct budget as [ad|limit].
  { injection Hr as <- <-. left. split; [done|]. destruct H0 as [<- _]. unfold wire_budget in Hb.
    ok_inv Hb; by simplify_eq. }
  clear Hb. apply res_bind_Ok_inv in Hr as ([ad|raw] & Hs & Hr).
  { injection Hr as <- <-. left. split; [done|]. destruct H0 as [<- _]. unfold strip_ifac in Hs.
    ok_inv Hs; by simplify_eq. }
  destruct (_ <? _); [injection Hr as <- <-; left; split; [done|apply H0]|].
  destruct (filter_cases _ _ _ _ _ _ _ Hs Hr) as [[-> He]|(h & off & x & a1 & Hac & Hd)];
    [left; split; [done|]; etrans; [done|apply H0]|].
  right. exists raw, h, off, x, a1. subst a0. case_decide; [|by split]. split; [|done]. destruct Hac; split; try done.
  by apply (strip_ext (record_rx a (in_interface_id p) (len (in_raw p)))).
Qed.
End relay.

Section relay_claims.
Context `{M : Mpsc} `{D : Digest} `{DL : !DigestLaws D} `{K : Hkdf} `{KL : !HkdfLaws K}
  `{G : Ed25519Signer} `{GL : !Ed25519SignerLaws G} `{Ed : Ed25519} `{EK : !Ed25519Keys} `{EKL : !Ed25519KeysLaws EK G}.
Implicit Types a : Actor.

Lemma handle_total n env a m :
  actor_ok n a → 2 ≤ n → bytes_ok (message_raw m) → ∃ a' x, handle env a m = Ok (a', x) ∧ actor_ok (n - 2) a'.
Proof.
  intros Ha Hn Hb. destruct m as [p|ann|p]; cbn in Hb |- *; try by apply inbound_total.
  assert (Hw : actor_ok (n - 2) a) by (apply (actor_ok_weaken n); [done|lia]).
  unfold on_cached_announce. destruct (_ <? _); [by eexists _, _|].
  pose proof (header_unpack_no_panic (in_raw p) Hb) as Hnp.
  destruct (header_unpack (in_raw p)) as [[h off]| |]; cbn [res_ok res_bind]; [|by eexists _, _|done].
  case_bool_decide; [by apply inbound_total|by eexists _, _].
Qed.

(** C3.  No input brings a relay down: from any well-formed state, every
    sequence of messages on the inbound path (packets from the wire, announces
    released from the ingress queue, announces from the cache), with arbitrary
    bytes, on arbitrary interfaces and with arbitrary clocks, is handled
    without a panic, and the state stays well-formed: keys and addresses have
    their lengths, interfaces their limits, counters their ranges.  [n] bounds
    how far the rate limiter's 32-bit counters are from their maximum, of which
    a message can use up two. *)
Theorem inbound_never_panics ms : ∀ n a,
  actor_ok n a → 2 * Z.of_nat (length ms) ≤ n → Forall (λ m, bytes_ok (message_raw m.2)) ms →
  ∃ a' nxs, run a ms = Ok (a', nxs) ∧ length nxs = length ms ∧ actor_ok (n - 2 * Z.of_nat (length ms)) a'.
Proof.
  induction ms as [|[env m] ms IH]; intros n a Ha Hn Hms; cbn [run length] in *.
  - exists a, []. split; [done|]. split; [done|]. by replace (n - 2 * Z.of_nat 0) with n by lia.
  - apply Forall_cons_1 in Hms as [Hm Hms]. destruct (handle_total n env a m Ha ltac:(lia) Hm) as (a1 & x & -> & Ha1).
    cbn [res_bind]. destruct (IH (n - 2) a1 Ha1 ltac:(lia) Hms) as (a' & nxs & -> & Hl & Ha').
    cbn [res_bind]. exists a', (x :: nxs). split; [done|]. split; [by cbn; rewrite Hl|].
    by replace (n - 2 * Z.of_nat (S (length ms))) with (n - 2 - 2 * Z.of_nat (length ms)) by lia.
Qed.

Lemma registration_ext a a' e : interfaces a' = interfaces a →
  link_registration_is_current a' e = link_registration_is_current a e.
Proof. unfold link_registration_is_current, owner_registered. by intros ->. Qed.

Lemma validate_ext a a' raw h e : reads a' = reads a →
  validate_transit_lrproof a' raw h e = validate_transit_lrproof a raw h e.
Proof.
  unfold reads. rewrite !pair_eq. intros (((((Hi & _) & _) & Hr) & _) & _).
  unfold validate_transit_lrproof. rewrite (registration_ext a a' e Hi). unfold known_public_key. by rewrite Hr.
Qed.

(** The packet a relay has accepted, as its handlers see it. *)
Definition received a (p : PacketIn) (o : InboundOrigin) (raw : bytes) (h : PacketHeader) (off : nat) : Prop :=
  strip_ifac a p o = Ok (inr raw) ∧ header_unpack raw = Ok (h, off).

Lemma accepted_received a p o raw h off x a1 : accepted a p o raw h off x a1 → received a p o raw h off.
Proof. by intros []. Qed.

Lemma steady_tables a a' : steady a' = steady a →
  link_table a' = link_table a ∧ path_table a' = path_table a ∧ tunnel_table a' = tunnel_table a.
Proof. unfold steady. rewrite !pair_eq. tauto. Qed.

(** The header keeps its parse when the hop count is adjusted. *)
Lemma accepted_parsed n a p o raw h off x a1 :
  actor_ok n a → bytes_ok (in_raw p) → accepted a p o raw h off x a1 → parsed raw (seen_header a p h).
Proof.
  intros Ha Hb Hac. destruct (strip_total n a p o Ha Hb) as (r & Hst & Hbr).
  rewrite (ac_raw _ _ _ _ _ _ _ _ Hac) in Hst. injection Hst as <-.
  destruct (unpack_parsed raw h off Hbr (ac_parse _ _ _ _ _ _ _ _ Hac)) as [Hp _].
  apply parsed_with_hops; [done|]. apply adjusted_hops_u8, (ps_header _ _ Hp).
Qed.

(** C4.  A link in transit changes its terms only by its responder's signature.
    After a packet, every link in the table is one of three: a link that was
    there, with at most a new timestamp; a link that was there and that a
    link-request proof validated, from the interface the request went to, with
    the hop count of the path it took, inside the proof window, whose signature
    over the link id and the responder's keys verifies under the key the
    destination announced, and whose signed MTU became the link's; or a link
    that was not there, entered unvalidated by a link request with that link id
    for a destination with a live path. *)
Theorem link_validated_signed n env a p o a' nx l e' :
  actor_ok n a → bytes_ok (in_raw p) → on_inbound_inner env a p o = Ok (a', nx) →
  LinkTable.get (link_table a') l = Some e' →
  (∃ e, LinkTable.get (link_table a) l = Some e ∧ e' = with_link_timestamp (LinkTable.timestamp e') e) ∨
  (∃ e raw h off s, LinkTable.get (link_table a) l = Some e ∧ received a p o raw h off ∧
     packet_type (flags h) = Proof ∧ context h = Lrproof ∧
     Wire.destination_hash h = l ∧ proof_signed a raw (seen_header a p h) e s ∧
     in_interface_id p = LinkTable.interface_id e ∧
     adjusted_inbound_hops a (Wire.hops h) (in_interface_id p) = LinkTable.remaining_hops e ∧
     (validated e = true ∨ proof_window_closed env e = false) ∧
     e' = with_validation (mtu_get (ls_mtu s)) (with_link_timestamp (LinkTable.timestamp e') e)) ∨
  (LinkTable.get (link_table a) l = None ∧ validated e' = false ∧
   ∃ raw h off path, received a p o raw h off ∧ packet_type (flags h) = LinkRequest ∧
     link_id_from_raw raw (header_type (flags h)) = @Ok Empty_set _ l ∧
     PathTable.get_live (path_table a) (Wire.destination_hash h) (now env) = Some path ∧
     LinkTable.interface_id e' = PathTable.interface_id path ∧
     LinkTable.destination_hash e' = Wire.destination_hash h ∧ LinkTable.receiving_interface e' = in_interface_id p).
Proof.
  intros Ha Hb Hr Hl. destruct (inner_cases _ _ _ _ _ _ Hr) as [[_ He]|(raw & h & off & x & a1 & Hac & Hd)].
  { apply effects_steady in He as [(Ht & _)%steady_tables _]. rewrite Ht in Hl. left. exists e'.
    split; [done|]. by destruct e'. }
  pose proof (accepted_received _ _ _ _ _ _ _ _ Hac) as Hrec.
  pose proof (accepted_parsed n _ _ _ _ _ _ _ _ Ha Hb Hac) as Hp.
  destruct (steady_tables _ _ (ac_steady _ _ _ _ _ _ _ _ Hac)) as (Htl & Htp & _).
  pose proof (dispatch_framed _ _ _ _ _ _ _ _ _ x (ac_hash _ _ _ _ _ _ _ _ Hac : Packet.packet_hash raw
    (header_type (flags (seen_header a p h))) = _) Hd) as [_ Fl _ _].
  apply Fl in Hl. rewrite Htl in Hl. destruct Hl as [Hl|Hc]; [by left|right].
  destruct Hc as [path Hty Hid Hnone Hval Hpath Hi Hh Hdest Hin _|e s t Hty Hcx Hdest Hget Hval Hw Hh Hi Hs ->].
  { right. rewrite Htl in Hnone. rewrite Htp in Hpath. do 2 (split; [done|]). by exists raw, h, off, path. }
  left. rewrite Htl in Hget. exists e, raw, h, off, s.
  rewrite (validate_ext a a1) in Hval by apply Hac.
  destruct (validate_transit_cases n a raw _ e Ha Hp) as (v & Hv' & Hiff). rewrite Hval in Hv'. injection Hv' as <-.
  destruct (proj1 Hiff eq_refl) as (s' & Hsig).
  assert (s' = s) as -> by (destruct Hsig as [Hs' _]; cbn in *; congruence).
  done.
Qed.

Lemma path_change_ext env a a' raw h off id d e ann who : reads a' = reads a →
  path_change env a' raw h off id d e ann who → path_change env a raw h off id d e ann who.
Proof.
  unfold reads. rewrite !pair_eq. intros (((((_ & _) & Hp) & Hr) & Hb) & Hl) []. split; try done.
  - unfold known_public_key. by rewrite <- Hr.
  - by rewrite <- Hb.
  - by rewrite <- Hl.
  - by rewrite <- (should_add_path_ext env a a').
Qed.

Lemma path_restored_ext env a a' raw h id d e syn tp : steady a' = steady a →
  path_restored env a' raw h id d e syn tp → path_restored env a raw h id d e syn tp.
Proof. intros (_ & Hp & Ht)%steady_tables []. split; try done; [by rewrite <- Ht|by rewrite <- Hp]. Qed.

(** C7.  Paths come only from what their owners signed.  When a packet leaves
    a path that was not in the table with the same next hop, interface, hop
    count and blobs, it is one of two.  An announce of that destination, signed
    by an identity whose hash and name give the destination, that is not
    blackholed and holds the key known for it, from fewer than 128 hops away,
    accepted by the path decision; the path records the interface and hop count
    it came with, and its random blob.  Or a tunnel synthesis packet whose
    signature verifies, for a tunnel that remembers exactly this path, which is
    due for restoration.  And what a tunnel remembers is only what it
    remembered before, or the copy of a path that such an announce has just
    taught. *)
Theorem path_learned_signed env a p o a' nx :
  on_inbound_inner env a p o = Ok (a', nx) →
  (∀ d e', PathTable.get (path_table a') d = Some e' →
    (∃ e, PathTable.get (path_table a) d = Some e ∧
       e' = PathTable.with_times e (PathTable.timestamp e') (PathTable.expires e')) ∨
    ∃ raw h off, received a p o raw h off ∧
      ((∃ ann who, path_change env a raw (seen_header a p h) off (in_interface_id p) d e' ann who) ∨
       ∃ syn tp, path_restored env a raw (seen_header a p h) (in_interface_id p) d e' syn tp)) ∧
  ∀ k d tp, tunnel_path (tunnel_table a') k d = Some tp →
    tunnel_path (tunnel_table a) k d = Some tp ∨
    ∃ raw h off e ann who, received a p o raw h off ∧
      path_change env a raw (seen_header a p h) off (in_interface_id p) d e ann who ∧ tp = tunnel_copy e.
Proof.
  intros Hr. destruct (inner_cases _ _ _ _ _ _ Hr) as [[_ He]|(raw & h & off & x & a1 & Hac & Hdis)].
  { apply effects_steady in He as [(_ & Hp & Ht)%steady_tables _]. split.
    - intros d e'. rewrite Hp. intros Hd. left. exists e'. split; [done|]. by destruct e'.
    - intros k d tp. rewrite Ht. by left. }
  pose proof (accepted_received _ _ _ _ _ _ _ _ Hac) as Hrec. pose proof (ac_steady _ _ _ _ _ _ _ _ Hac) as Hst.
  pose proof (ac_reads _ _ _ _ _ _ _ _ Hac) as Hre.
  destruct (steady_tables _ _ Hst) as (_ & Htp & Htt).
  pose proof (dispatch_framed _ _ _ _ _ _ _ _ _ x (ac_hash _ _ _ _ _ _ _ _ Hac : Packet.packet_hash raw
    (header_type (flags (seen_header a p h))) = _) Hdis) as [_ _ Fp Ft]. split.
  - intros d e' Hd%Fp. rewrite Htp in Hd. destruct Hd as [Hd|Hd]; [by left|right]. exists raw, h, off. split; [done|].
    destruct Hd as [(ann & who & Hc)|(syn & tp & Hc)]; [left; exists ann, who|right; exists syn, tp];
      [by eapply path_change_ext|by eapply path_restored_ext].
  - intros k d tp Hk%Ft. rewrite Htt in Hk. destruct Hk as [Hk|(e & ann & who & Hc & Htc)]; [by left|right].
    exists raw, h, off, e, ann, who. split; [done|]. split; [by eapply path_change_ext|done].
Qed.

Lemma deduplicated_inv a h : deduplicated a h = true →
  LinkTable.get (link_table a) (Wire.destination_hash h) = None ∧ packet_type (flags h) ≠ LinkRequest ∧ context h ≠ Lrproof.
Proof.
  unfold deduplicated, defers_hashlist, LinkTable.contains, LinkTable.get.
  rewrite !andb_true_iff, !negb_true_iff, !orb_false_iff, !bool_decide_eq_false, <- eq_None_not_Some. tauto.
Qed.

Lemma deduplicated_ext a a' h :
  LinkTable.get (link_table a') (Wire.destination_hash h) = None → deduplicated a h = true → deduplicated a' h = true.
Proof.
  unfold deduplicated, defers_hashlist. intros Hg. unfold LinkTable.get in Hg.
  rewrite !andb_true_iff, !negb_true_iff, !orb_false_iff. unfold LinkTable.contains.
  rewrite Hg. rewrite (bool_decide_eq_false_2 (is_Some None)) by (by intros []). tauto.
Qed.

(** C6.  A packet that goes through deduplication has an effect once: of two
    receptions of packets with the same hash, on any interfaces and at any
    times, one in the state the other left, at most one is acted upon; the
    other changes no table, no queue and no link, and only shows in counters.
    Exempt, and not covered, are the contexts that repeat by design
    (keepalives, resource parts, requests and proofs, cache requests, channel
    packets), link requests, link-request proofs, packets of links in transit
    and announces of SINGLE destinations. *)
Theorem duplicate_dropped env env2 a p p2 o o2 a1 a2 nx nx2 raw raw2 h h2 off off2 x :
  on_inbound_inner env a p o = Ok (a1, nx) → on_inbound_inner env2 a1 p2 o2 = Ok (a2, nx2) →
  received a p o raw h off → received a1 p2 o2 raw2 h2 off2 →
  Packet.packet_hash raw (header_type (flags h)) = @Ok Empty_set _ x →
  Packet.packet_hash raw2 (header_type (flags h2)) = @Ok Empty_set _ x →
  deduplicated a h = true → deduplicated a h2 = true →
  (nx = Done ∧ effects a1 = effects a) ∨ (nx2 = Done ∧ effects a2 = effects a1).
Proof.
  intros H1 H2 [Hs Hu] [Hs2 Hu2] Hx Hx2 Hd Hd2.
  destruct (inner_cases _ _ _ _ _ _ H1) as [?|(r & h' & off' & x' & a' & Hac & Hdis)]; [by left|right].
  destruct (inner_cases _ _ _ _ _ _ H2) as [?|(r2 & h2' & off2' & x2 & a2' & Hac2 & _)]; [done|exfalso].
  destruct Hac as [Hr Hh _ _ _ Hxx _ Hst _ Hf], Hac2 as [Hr2 Hh2 _ _ _ Hxx2 _ _ _ Hf2].
  assert (r = raw ∧ r2 = raw2) as [-> ->] by (split; congruence).
  assert (h' = h ∧ h2' = h2) as [-> ->] by (split; congruence).
  assert (x' = x ∧ x2 = x) as [-> ->] by (split; congruence).
  destruct (Hf Hd) as [_ Hl].
  pose proof (dispatch_framed _ _ _ _ _ _ _ _ _ x (Hx : Packet.packet_hash raw
    (header_type (flags (seen_header a p h))) = _) Hdis) as [Fh Fl _ _].
  rewrite Hl in Fh. specialize (Fh (insert_contains _ _)).
  destruct Hf2 as [Hf2 _]; [|rewrite Fh, insert_contains in Hf2; done].
  apply deduplicated_inv in Hd as (_ & Hty & Hcx), Hd2 as Hd2'. destruct Hd2' as (Hg & _).
  eapply deduplicated_ext; [|done]. destruct (LinkTable.get (link_table a1) _) as [e|] eqn:He; [exfalso|done].
  apply Fl in He as [(e0 & He0 & _)|[]]; [|done..].
  destruct (steady_tables _ _ Hst) as (Ht & _). rewrite Ht in He0. congruence.
Qed.

(** C16.  Interface access control is a gate: a packet from the wire that does
    not carry a valid code on an interface with a key, or carries a code flag
    on one without, is dropped and leaves every table, queue and link alone. *)
Theorem access_gate n env a p e :
  actor_ok n a → 2 ≤ n → bytes_ok (in_raw p) → interfaces a !! in_interface_id p = Some e →
  match ifac_key (if_entry e) with
  | Some key => ∀ raw, ifac_verify (in_raw p) key (Z.to_nat (ifac_size (if_entry e))) ≠ Ok (Some raw)
  | None => has_ifac_flag (in_raw p) = @Ok Empty_set _ true
  end →
  ∃ a', on_inbound env a p = Ok (a', Done) ∧ effects a' = effects a.
Proof.
  intros Ha Hn Hb He Hbad. destruct (inbound_total n env a p OriginWire Ha Hn Hb) as (a' & nx & Hr & _).
  exists a'. destruct (inner_cases _ _ _ _ _ _ Hr) as [[-> ?]|(raw & h & off & x & a1 & [Hs _ _ _ _ _ _ _ _ _] & _)];
    [done|exfalso].
  unfold strip_ifac in Hs. rewrite decide_True, He in Hs by done. destruct (ifac_key (if_entry e)).
  - apply res_bind_Ok_inv in Hs as ([r|] & Hv & Hs); [|done]. by apply (Hbad r).
  - rewrite Hbad in Hs. done.
Qed.
End relay_claims.

(** ** Witnesses *)

(** A data packet, garbage, and a packet that is not an announce in the
    announce cache. *)
Lemma inbound_never_panics_witness :
  ∃ a' nxs, run demo_relay [(demo_env, MsgInbound (arrives 1 demo_data)); (demo_env, MsgInbound (arrives 3 [255; 0; 1]));
                            (demo_env, MsgCached (arrives 2 demo_data))] = Ok (a', nxs) ∧
    length nxs = 3%nat ∧ actor_ok 994 a'.
Proof.
  apply (inbound_never_panics [_; _; _] 1000 demo_relay demo_relay_ok); [cbn; lia|].
  repeat constructor; apply (bool_decide_eq_true_1 _); vm_compute; reflexivity.
Defined.

Lemma link_validated_signed_witness :
  let m := on_inbound_inner demo_env demo_relay (arrives 2 demo_proof) OriginWire in
  ∃ nx, m = Ok (after m, nx) ∧ actor_ok 1000 demo_relay ∧
    ∃ raw h off s, received demo_relay (arrives 2 demo_proof) OriginWire raw h off ∧
      proof_signed demo_relay raw (seen_header demo_relay (arrives 2 demo_proof) h) demo_link_entry s.
Proof.
  cbv zeta. exists Done. assert (Hr : on_inbound_inner demo_env demo_relay (arrives 2 demo_proof) OriginWire =
    Ok (after (on_inbound_inner demo_env demo_relay (arrives 2 demo_proof) OriginWire), Done)) by (vm_compute; reflexivity).
  split; [exact Hr|]. split; [exact demo_relay_ok|].
  assert (Hb : bytes_ok demo_proof) by (apply (bool_decide_eq_true_1 _); vm_compute; reflexivity).
  set (a' := after _) in *.
  assert (Hl : ∃ e', LinkTable.get (link_table a') demo_link = Some e' ∧ validated e' = true)
    by (vm_compute; eexists; split; reflexivity).
  destruct Hl as (e' & Hl & Hv).
  destruct (link_validated_signed 1000 demo_env demo_relay (arrives 2 demo_proof) OriginWire a' Done demo_link e'
    demo_relay_ok Hb Hr Hl) as [(e & He & Heq)|[(e & raw & h & off & s & He & Hrec & _ & _ & _ & Hs & _)|(_ & Hno & _)]].
  - exfalso. assert (e = demo_link_entry) as -> by (vm_compute in He; injection He as <-; reflexivity).
    rewrite Heq in Hv. discriminate Hv.
  - assert (e = demo_link_entry) as -> by (vm_compute in He; injection He as <-; reflexivity).
    exists raw, h, off, s. exact (conj Hrec Hs).
  - exfalso. rewrite Hv in Hno. discriminate Hno.
Defined.

(** The same packet again, from the other side. *)
Lemma duplicate_dropped_witness :
  let m := on_inbound_inner demo_env demo_relay (arrives 1 demo_data) OriginWire in
  let m' := on_inbound_inner demo_env (after m) (arrives 2 demo_data) OriginWire in
  length (sent (after m) 2) = 1%nat ∧ effects (after m') = effects (after m).
Proof.
  cbv zeta. set (m := on_inbound_inner demo_env demo_relay (arrives 1 demo_data) OriginWire).
  set (m' := on_inbound_inner demo_env (after m) (arrives 2 demo_data) OriginWire).
  assert (Hs : length (sent (after m) 2) = 1%nat) by (vm_compute; reflexivity).
  assert (H1 : m = Ok (after m, Done)) by (vm_compute; reflexivity).
  assert (H2 : m' = Ok (after m', Done)) by (vm_compute; reflexivity).
  assert (Hx : Packet.packet_hash demo_data Header2 = @Ok Empty_set _ (sha256 (hashable_bytes demo_data Header2)))
    by (vm_compute; reflexivity).
  assert (R1 : received demo_relay (arrives 1 demo_data) OriginWire demo_data (demo_header Data) 35)
    by (split; vm_compute; reflexivity).
  assert (R2 : received (after m) (arrives 2 demo_data) OriginWire demo_data (demo_header Data) 35)
    by (split; vm_compute; reflexivity).
  split; [exact Hs|].
  destruct (duplicate_dropped demo_env demo_env demo_relay (arrives 1 demo_data) (arrives 2 demo_data) OriginWire
    OriginWire (after m) (after m') Done Done demo_data demo_data (demo_header Data) (demo_header Data) 35 35 _
    H1 H2 R1 R2 Hx Hx eq_refl eq_refl) as [[_ He]|[_ He]]; [exfalso|exact He].
  assert (Hw : sent (after m) 2 = sent demo_relay 2)
    by (unfold effects in He; rewrite !pair_eq in He; unfold sent; by destruct He as [_ [[-> _] _]]).
  rewrite Hw in Hs. discriminate Hs.
Defined.

(** A packet without a code on an interface with a key. *)
Lemma access_gate_witness :
  ∃ a', on_inbound demo_env demo_relay (arrives 3 demo_data) = Ok (a', Done) ∧ effects a' = effects demo_relay.
Proof.
  apply (access_gate 1000 demo_env demo_relay (arrives 3 demo_data) (demo_iface 3 (Some (replicate 64 3))) demo_relay_ok).
  - lia.
  - apply (bool_decide_eq_true_1 _). vm_compute. reflexivity.
  - reflexivity.
  - intros raw H. vm_compute in H. discriminate H.
Defined.

Lemma path_learned_signed_witness :
  let m := on_inbound_inner demo_env demo_relay (arrives 1 demo_announced.2) OriginWire in
  ∃ nx e', m = Ok (after m, nx) ∧ PathTable.get (path_table (after m)) demo_announced.1 = Some e' ∧
    ∃ raw h off ann who, path_change demo_env demo_relay raw (seen_header demo_relay (arrives 1 demo_announced.2) h) off 1
      demo_announced.1 e' ann who.
Proof.
  cbv zeta. set (m := on_inbound_inner demo_env demo_relay (arrives 1 demo_announced.2) OriginWire).
  assert (Hm : ∃ nx, m = Ok (after m, nx)) by (vm_compute; eexists; reflexivity). destruct Hm as [nx Hm].
  assert (He : ∃ e', PathTable.get (path_table (after m)) demo_announced.1 = Some e')
    by (vm_compute; eexists; reflexivity). destruct He as [e' He].
  exists nx, e'. split; [exact Hm|]. split; [exact He|].
  destruct (proj1 (path_learned_signed demo_env demo_relay (arrives 1 demo_announced.2) OriginWire (after m) nx Hm)
    demo_announced.1 e' He) as [(e & Hno & _)|(raw & h & off & [Hs Hu] & [(ann & who & Hc)|(syn & tp & [Hty _ _ _ _ _ _])])].
  - exfalso. vm_compute in Hno. discriminate Hno.
  - exists raw, h, off, ann, who. exact Hc.
  - exfalso. vm_compute in Hs. injection Hs as <-. vm_compute in Hu. injection Hu as <- <-. discriminate Hty.
Defined.
