(* ===== verification/Hops.v ===== *)
(** * The frames a relay sends on

    What [rewrite_forwarded_transport_packet] and the in-place hop updates of
    [rns-transport/src/actor/inbound.rs] keep of a packet: addresses, type,
    context, payload, hash and link id; and that hop counts bound how often a
    packet can be forwarded. *)

From S2P Require Import Prelude F64 Wire Packet LinkSignalling Receipt Ifac Table Hashlist PathTable.
From S2P Require Import ReverseTable LinkTable Ownership LinkTransit Tunnel Identity Announce Ingress RateLimit Blackhole.
From S2P Require Import Msgpack Actor ActorFacts Restore Forward ProofRoute Learn Inbound RelayDemo RelaySafe RelayFrame Relay.
From stdpp Require Import prelude list gmap fin_maps functions.

Open Scope Z_scope.

(** What a packet carries end to end. *)
Definition essence (h : PacketHeader) :=
  (destination_type (flags h), packet_type (flags h), context_flag (flags h), Wire.destination_hash h, context h).

(** [raw'] is [raw] on its way: same contents, hop count [n]. *)
Record carries (raw : bytes) (h : PacketHeader) (raw' : bytes) (h' : PacketHeader) (n : Z) : Prop := mkCarries {
  ca_bytes : bytes_ok raw';
  ca_parse : header_unpack raw' = Ok (h', header_size h');
  ca_hops : Wire.hops h' = n;
  ca_essence : essence h' = essence h;
  ca_payload : drop (header_size h') raw' = drop (header_size h) raw;
}.

Lemma carries_trans r1 h1 r2 h2 r3 h3 n m : carries r1 h1 r2 h2 n → carries r2 h2 r3 h3 m → carries r1 h1 r3 h3 m.
Proof. intros [] []. split; try done; congruence. Qed.

Lemma hash_stable_essence h h' data : essence h' = essence h → hash_stable h' data = hash_stable h data.
Proof. unfold essence, hash_stable. rewrite !pair_eq. intros ((((-> & ->) & _) & ->) & ->). done. Qed.

(** Masking the access-code bit, a parsed packet is its packed header and its
    payload. *)
Lemma hashable_parsed {E} raw h off :
  bytes_ok raw → header_unpack raw = Ok (h, off) →
  get_hashable_part raw (header_type (flags h)) = @Ok E _ (hash_stable h (drop off raw)) ∧
  ∀ ht, hashable_bytes raw ht = hashable_bytes (header_pack h ++ drop off raw) ht.
Proof.
  intros Hb Hu. pose proof (header_unpack_total raw Hb) as Ht. rewrite Hu in Ht.
  destruct Ht as (Hh & -> & Hl & b0 & rest & Hr & Hp).
  assert (He : ∀ ht, hashable_bytes raw ht = hashable_bytes (header_pack h ++ drop (header_size h) raw) ht).
  { intros ht. rewrite Hp, Hr. unfold hashable_bytes.
    rewrite <- Z.land_assoc. change (Z.land 127 15) with 15. f_equal. by destruct ht. }
  split; [|done]. rewrite get_hashable_part_total by (by rewrite Hr).
  rewrite He. by rewrite (hashable_bytes_packed h).
Qed.

Section hashes.
Context `{DL : DigestLaws}.

Lemma packet_hash_parsed {E} raw h off :
  bytes_ok raw → header_unpack raw = Ok (h, off) →
  Packet.packet_hash raw (header_type (flags h)) = @Ok E _ (sha256 (hash_stable h (drop off raw))) ∧
  truncated_packet_hash raw (header_type (flags h)) = @Ok E _ (take 16 (sha256 (hash_stable h (drop off raw)))).
Proof.
  intros Hb Hu. destruct (hashable_parsed (E:=E) raw h off Hb Hu) as [Hg _].
  split; [by apply packet_hash_sha256|by apply truncated_packet_hash_sha256].
Qed.

(** The link id: the keys of the request count, the signalling does not. *)
Lemma link_id_parsed {E} raw h off :
  bytes_ok raw → header_unpack raw = Ok (h, off) → (off + 64 ≤ length raw)%nat →
  link_id_from_raw raw (header_type (flags h)) = @Ok E _ (take 16 (sha256 (hash_stable h (take 64 (drop off raw))))).
Proof.
  intros Hb Hu Hl. destruct (hashable_parsed (E:=E) raw h off Hb Hu) as [Hg _].
  pose proof (header_unpack_total raw Hb) as Ht. rewrite Hu in Ht. destruct Ht as (Hh & -> & _).
  rewrite <- (link_id_stable (E:=E) h (take 64 (drop (header_size h) raw)) (drop 64 (drop (header_size h) raw)) Hh)
    by (rewrite length_take, length_drop; lia).
  rewrite take_drop. unfold link_id_from_raw.
  rewrite Hg, hashable_part_packed by done. done.
Qed.

(** A packet on its way keeps its hash, and a link request its link id. *)
Lemma carries_hashes {E} raw h off raw' h' n :
  bytes_ok raw → header_unpack raw = Ok (h, off) → carries raw h raw' h' n →
  Packet.packet_hash raw' (header_type (flags h')) = @Ok E _ (sha256 (hash_stable h (drop off raw))) ∧
  truncated_packet_hash raw' (header_type (flags h')) = @Ok E _ (take 16 (sha256 (hash_stable h (drop off raw)))).
Proof.
  intros Hb Hu [Hb' Hu' _ He Hp]. destruct (unpack_parsed raw h off Hb Hu) as [_ ->].
  destruct (packet_hash_parsed (E:=E) raw' h' _ Hb' Hu') as [-> ->]. by rewrite Hp, (hash_stable_essence h h').
Qed.
End hashes.

(** ** Rewriting *)

Lemma put_hops_carries raw h off n :
  bytes_ok raw → header_unpack raw = Ok (h, off) → u8 n → carries raw h (put_hops raw n) (set_hops h n) n.
Proof.
  intros Hb Hu Hn. destruct (unpack_parsed raw h off Hb Hu) as [[_ _ Hl] ->]. pose proof (header_size_min h).
  destruct raw as [|b0 [|b1 rest]]; simpl in Hl; try lia.
  destruct (header_unpack_hops b0 b1 n rest h _ Hu) as [_ Hu'].
  split; [by apply put_byte1_ok|done|done|done|]. change (header_size (set_hops h n)) with (header_size h).
  destruct (header_size h) as [|[|k]]; [lia..|done].
Qed.

Lemma with_header_carries raw h off n h' :
  bytes_ok raw → header_unpack raw = Ok (h, off) → header_ok h' → essence h' = essence h → Wire.hops h' = n →
  carries raw h (header_pack h' ++ drop (header_size h) raw) h' n.
Proof.
  intros Hb Hu Hh He Hn. destruct (unpack_parsed raw h off Hb Hu) as [[_ _ Hl] ->].
  split; try done.
  - apply bytes_ok_app. split; [by apply header_pack_ok|by apply bytes_ok_drop].
  - by apply header_roundtrip.
  - rewrite <- (length_header_pack h' Hh). by rewrite drop_app_length.
Qed.

Section forwarding.
Context `{M : Mpsc} `{D : Digest} `{DL : !DigestLaws D} `{K : Hkdf} `{KL : !HkdfLaws K}
  `{G : Ed25519Signer} `{GL : !Ed25519SignerLaws G} `{Ed : Ed25519} `{EK : !Ed25519Keys} `{EKL : !Ed25519KeysLaws EK G}.
Implicit Types a : Actor.

Lemma rewrite_carries a raw h off n path tl f :
  bytes_ok raw → header_unpack raw = Ok (h, off) → u8 n → id_ok (PathTable.next_hop path) →
  rewrite_forwarded_transport_packet a raw (with_hops h n) path tl = Ok (Some f) →
  ∃ h', carries raw h f h' n ∧ Wire.transport_id h' =
    if 1 <? PathTable.hops path then PathTable.next_hop path
    else if (PathTable.hops path =? 1) || (tl && negb (local_hops_delta a =? 0)
              && bool_decide (header_type (flags h) = Header2)) then None
    else Wire.transport_id h.
Proof.
  intros Hb Hu Hn Hid. destruct (unpack_parsed raw h off Hb Hu) as [Hp Hoff].
  pose proof Hp as [_ (_ & Hd & Hc & _) Hl]. unfold rewrite_forwarded_transport_packet. cbv zeta.
  change (header_size (with_hops h n)) with (header_size h).
  change (header_type (flags (with_hops h n))) with (header_type (flags h)).
  rewrite decide_False, drop_parsed by (done || lia). cbn [res_bind].
  destruct (1 <? PathTable.hops path).
  - destruct (PathTable.next_hop path) as [nh|] eqn:Hnh; [|done]. intros Hf.
    set (h' := with_header (with_hops h n) Header2 Transport (Some nh)) in *. exists h'. split; [|done].
    assert (f = header_pack h' ++ drop (header_size h) raw) as -> by congruence.
    eapply with_header_carries; try done. split; [done|]. by split_and!; [| |split; [apply Hid|]].
  - set (h' := with_header (with_hops h n) Header1 Broadcast None).
    destruct (_ || _); intros Hf.
    + exists h'. split; [|done]. assert (f = header_pack h' ++ drop (header_size h) raw) as -> by congruence.
      eapply with_header_carries; try done.
    + exists (set_hops h n). split; [|done]. assert (f = put_hops raw n) as -> by (cbn in Hf; congruence).
      by eapply put_hops_carries.
Qed.

Lemma live_in_table (t : PathTable) d now path : PathTable.get_live t d now = Some path → PathTable.entries t !! d = Some path.
Proof. unfold PathTable.get_live. destruct (PathTable.entries t !! d); [|done]. case_match; naive_solver. Qed.

Definition paths_ok (t : PathTable) : Prop := map_Forall (λ _ e, id_ok (PathTable.next_hop e)) (PathTable.entries t).

(** A transit packet, without a hop delta in force. *)
Lemma candidate_carries env a raw h off n lc fl tl t f :
  paths_ok (path_table a) → bytes_ok raw → header_unpack raw = Ok (h, off) → u8 n → local_hops_delta a = 0 →
  transport_forward_candidate env a raw (with_hops h n) lc fl tl = Ok (Some (t, f)) →
  ∃ path h', PathTable.get_live (path_table a) (Wire.destination_hash h) (now env) = Some path ∧
    t = PathTable.interface_id path ∧ carries raw h f h' n ∧
    Wire.transport_id h' = if 1 <? PathTable.hops path then PathTable.next_hop path
                           else if PathTable.hops path =? 1 then None else Wire.transport_id h.
Proof.
  intros Ha Hb Hu Hn Hd. unfold transport_forward_candidate. cbv zeta.
  change (Wire.destination_hash (with_hops h n)) with (Wire.destination_hash h).
  destruct (PathTable.get_live _ _ _) as [path|] eqn:Hl; [|done].
  assert (Hid : id_ok (PathTable.next_hop path)) by (eapply Ha, live_in_table; eassumption).
  destruct (_ && _ && negb _); [done|]. destruct (negb _ && _); [done|]. intros Hr.
  apply res_bind_Ok_inv in Hr as ([g|] & Hg & Hr); [|done]. rewrite Hd in Hr. cbn [negb Z.eqb andb res_bind] in Hr.
  injection Hr as <- <-. destruct (rewrite_carries a raw h off n path tl g Hb Hu Hn Hid Hg) as (h' & Hc & Ht).
  exists path, h'. split; [done|]. split; [done|]. split; [done|]. rewrite Ht, Hd. cbn [Z.eqb negb].
  by rewrite andb_false_r, orb_false_r.
Qed.

(** ** Hop counts *)

(** [raw'] is what an ordinary relay (no local clients on either side, no hop
    delta) forwards for a packet [raw] it accepted. *)
Definition relayed raw raw' : Prop :=
  ∃ env a p o h off x a1 t,
    bytes_ok raw ∧ accepted a p o raw h off x a1 ∧ paths_ok (path_table a1) ∧
    local_hops_delta a1 = 0 ∧ has_local_client_interfaces a = false ∧
    is_shared_instance_peer_interface a (in_interface_id p) = false ∧
    transport_forward_candidate env a1 raw (seen_header a p h) false false false = Ok (Some (t, raw')).

Inductive relay_chain : nat → bytes → bytes → Prop :=
| chain_start raw : relay_chain 0 raw raw
| chain_hop k raw raw1 raw' : relay_chain k raw raw1 → relayed raw1 raw' → relay_chain (S k) raw raw'.

Lemma relayed_carries raw raw' : relayed raw raw' → ∀ h off, header_unpack raw = Ok (h, off) →
  ∃ h', carries raw h raw' h' (Wire.hops h + 1) ∧ Wire.hops h + 1 ≤ PATHFINDER_M.
Proof.
  intros (env & a & p & o & h0 & off0 & x & a1 & t & Hb & [_ Hu Hh _ _ _ _ _ _ _] & Hp & Hd & Hlc & Hsp & Hf) h off Hu'.
  rewrite Hu in Hu'. injection Hu' as <- <-.
  destruct (unpack_parsed raw h0 off0 Hb Hu) as [[_ (Hr & _) _] _]. unfold u8, PATHFINDER_M in *.
  assert (Hadj : adjusted_inbound_hops a (Wire.hops h0) (in_interface_id p) = Wire.hops h0 + 1)
    by (unfold adjusted_inbound_hops; rewrite Hlc, Hsp; lia).
  unfold seen_header in Hf. rewrite Hadj in Hf.
  destruct (candidate_carries env a1 raw h0 off0 (Wire.hops h0 + 1) false false false t raw' Hp Hb Hu)
    as (path & h' & _ & _ & Hc & _); [unfold u8; lia|done|done|].
  exists h'. split; [done|lia].
Qed.

End forwarding.

(** ** Witness *)

Lemma demo_paths_ok : paths_ok (path_table demo_relay).
Proof. exact (ok_paths 1000 demo_relay demo_relay_ok). Qed.

Definition demo_hash : bytes := sha256 (hashable_bytes demo_data Header2).
Definition demo_admitted : Actor := (deduplicate demo_relay (demo_header Data) demo_hash).1.
Definition demo_forwarded : bytes :=
  header_pack (mkHeader (mkFlags Header1 false Broadcast Single Data) 4 None demo_dest CtxNone) ++ [1; 2; 3].

Lemma demo_accepted : accepted demo_relay (arrives 1 demo_data) OriginWire demo_data (demo_header Data) 35 demo_hash demo_admitted.
Proof. split; try (vm_compute; reflexivity); [right|split]; vm_compute; reflexivity. Qed.

Lemma demo_hop : relayed demo_data demo_forwarded.
Proof.
  exists demo_env, demo_relay, (arrives 1 demo_data), OriginWire, (demo_header Data), 35%nat, demo_hash, demo_admitted, 2.
  split; [apply (bool_decide_eq_true_1 _); vm_compute; reflexivity|]. split; [exact demo_accepted|].
  split; [exact demo_paths_ok|]. split_and!; vm_compute; reflexivity.
Qed.

