(* ===== verification/Transit.v ===== *)
(** * Links and proofs through a relay

    The composition of the handlers over several packets: a link request goes
    on with its link id and keys while its MTU is clamped, and the proof of a
    forwarded packet retraces the packet's path. *)

From S2P Require Import Prelude F64 Wire Packet LinkSignalling Receipt Ifac Table Hashlist PathTable.
From S2P Require Import ReverseTable LinkTable Ownership LinkTransit Tunnel Identity Announce Ingress RateLimit Blackhole.
From S2P Require Import Msgpack Actor ActorFacts Restore Forward ProofRoute Learn Inbound RelayDemo RelaySafe RelayFrame Relay Hops.
From stdpp Require Import prelude list gmap fin_maps functions.

Open Scope Z_scope.

(** ** Replacing the payload of a frame *)

Lemma idx_retail {E A} (l p : list A) n i : (i < n ≤ length l)%nat → idx (E:=E) (take n l ++ p) i = idx l i.
Proof. intros. unfold idx. rewrite lookup_app_l by (rewrite length_take; lia). by rewrite lookup_take_lt by lia. Qed.
Lemma slice_retail {E A} (l p : list A) n a b : (a ≤ b ≤ n)%nat → (n ≤ length l)%nat →
  slice (E:=E) (take n l ++ p) a b = slice l a b.
Proof.
  intros. rewrite !slice_ok by (rewrite ?length_app, ?length_take; lia). f_equal.
  rewrite drop_app_le by (rewrite length_take; lia). rewrite take_app_le by (rewrite length_drop, length_take; lia).
  rewrite skipn_firstn_comm, take_take. f_equal. lia.
Qed.

Lemma header_unpack_retail raw h off p :
  header_unpack raw = Ok (h, off) → header_unpack (take off raw ++ p) = Ok (h, off).
Proof.
  unfold header_unpack. destruct (decide (length raw < HEADER_MINSIZE)%nat) as [|Hl]; [done|]. intros Hr.
  apply res_bind_Ok_inv in Hr as (b0 & H0 & Hr). apply res_bind_Ok_inv in Hr as (fo & Hfo & Hr).
  apply res_bind_Ok_inv in Hr as (fl & Hfl & Hr). apply res_bind_Ok_inv in Hr as (hp & Hhp & Hr).
  assert (Ho : (HEADER_MINSIZE ≤ off ≤ length raw)%nat ∧ (header_type fl = Header2 → off = HEADER_MAXSIZE)).
  { cbn in Hl |- *. destruct (header_type fl); [|case_decide as Hm; [done|cbn in Hm]];
      repeat (apply res_bind_Ok_inv in Hr as (? & _ & Hr)); injection Hr as _ <-; (split; [lia|done]). }
  destruct Ho as [[Ho1 Ho2] Ho3]. cbn in Ho1.
  rewrite decide_False by (rewrite length_app, length_take; cbn; lia).
  rewrite idx_retail, H0 by lia. cbn [res_bind]. rewrite Hfo. cbn [res_bind].
  replace (ok_or fo (Wire.TooShort (length (take off raw ++ p)))) with (@Ok HeaderError _ fl) by (destruct fo; [done|discriminate]).
  cbn [res_bind]. rewrite idx_retail, Hhp by lia. cbn [res_bind].
  destruct (header_type fl).
  - rewrite slice_retail, idx_retail by (cbn; lia). exact Hr.
  - specialize (Ho3 eq_refl). rewrite decide_False by (rewrite length_app, length_take; lia).
    case_decide; [done|]. change HEADER_MAXSIZE with 35%nat in Ho3.
    rewrite !slice_retail, idx_retail by (cbn; lia). exact Hr.
Qed.

(** ** Link requests *)

Section transit.
Context `{M : Mpsc} `{D : Digest} `{DL : !DigestLaws D} `{K : Hkdf} `{KL : !HkdfLaws K}
  `{G : Ed25519Signer} `{GL : !Ed25519SignerLaws G} `{Ed : Ed25519} `{EK : !Ed25519Keys} `{EKL : !Ed25519KeysLaws EK G}.
Implicit Types a : Actor.

(** The request [f] a relay sends on for [raw]: the same link id and keys,
    hop count [n], and the MTU the link may use from here on. *)
Record request_onward (raw : bytes) (h : PacketHeader) (off : nat) (n : Z) (l f : bytes) (mode mtu : Z) : Prop := mkOnward {
  ro_header : ∃ fh, header_unpack f = Ok (fh, header_size fh) ∧ Wire.hops fh = n ∧ essence fh = essence h ∧
    take 64 (drop (header_size fh) f) = take 64 (drop off raw) ∧
    link_id_from_raw f (header_type (flags fh)) = @Ok Empty_set _ l ∧
    ∃ s', parse_request_signalling (drop (header_size fh) f) = Ok s' ∧ ls_mode s' = mode ∧ mtu_get (ls_mtu s') = mtu;
  ro_offer : ∃ s, parse_request_signalling (drop off raw) = Ok s ∧ ls_mode s = mode ∧
    BASE_LINK_MTU ≤ mtu ≤ mtu_get (ls_mtu s);
}.

Lemma retrailed_onward raw h off n f0 fh0 l ii ing ei eg payload mode mtu :
  bytes_ok raw → header_unpack raw = Ok (h, off) → carries raw h f0 fh0 n →
  link_id_from_raw raw (header_type (flags h)) = @Ok Empty_set _ l →
  attenuate_request (drop (header_size h) raw) ii ing ei eg = Ok (payload, mode, mtu) →
  request_onward raw h off n l (take (header_size fh0) f0 ++ payload) mode mtu.
Proof.
  intros Hb Hu [Cb Cu Ch Ce Cp] Hl Hat. destruct (unpack_parsed raw h off Hb Hu) as [[_ _ Hlen] Hoff].
  pose proof (bytes_ok_drop (header_size h) raw Hb) as Hbd.
  pose proof (attenuate_request_exact _ ii ing ei eg Hbd) as Hex. cbv zeta in Hex. rewrite Hat in Hex.
  destruct Hex as (s & s' & i & o & Hs & _ & _ & _ & _ & -> & -> & Hge & Htk & Hs' & Hm' & Hmtu).
  pose proof (attenuate_bytes_ok _ _ _ _ _ _ _ _ Hbd Hat) as Hbp.
  destruct (unpack_parsed f0 fh0 _ Cb Cu) as [[_ _ Hlf] _].
  assert (Hd : drop (header_size fh0) (take (header_size fh0) f0 ++ payload) = payload)
    by (rewrite drop_app_length' by (rewrite length_take; lia); done).
  assert (H64 : (64 ≤ length (drop (header_size h) raw))%nat)
    by (destruct (parse_request_cases _ _ Hbd Hs) as [(_ & ? & _)|(_ & ? & _)]; lia).
  assert (H64' : (64 ≤ length payload)%nat)
    by (apply (f_equal length) in Htk; rewrite !length_take in Htk; lia).
  split.
  - exists fh0. split; [by eapply header_unpack_retail|]. rewrite Hd, Hoff. split_and!; try done.
    + rewrite (link_id_parsed _ fh0 (header_size fh0)); [| |by eapply header_unpack_retail|rewrite length_app, length_take; lia].
      * rewrite Hd, Htk. rewrite (link_id_parsed raw h off) in Hl by (done || rewrite Hoff; rewrite length_drop in H64; lia).
        rewrite <- Hl, Hoff. by rewrite (hash_stable_essence h fh0).
      * apply bytes_ok_app. split; [by apply bytes_ok_take|done].
    + exists s'. by rewrite Hmtu.
  - exists s. rewrite Hoff. split_and!; try done; lia.
Qed.

Lemma mild_no_link x a a' l :
  mildly x (tables a) (tables a') → LinkTable.get (link_table a) l = None → LinkTable.get (link_table a') l = None.
Proof.
  intros [_ Hl _] Hn. destruct (LinkTable.get (link_table a') l) as [e|] eqn:He; [|done].
  apply Hl in He as (e0 & He & _). cbn in He. congruence.
Qed.

Lemma send_no_link env a id raw a' b l :
  send_to_interface env a id raw = Ok (a', b) → LinkTable.get (link_table a) l = None →
  LinkTable.get (link_table a') l = None.
Proof. intros Hs. by eapply (mild_no_link []), send_mild. Qed.

Lemma res_ok_inv {E F A} (m : res E A) x : res_ok m = @Ok F _ (Some x) → m = Ok x.
Proof. destruct m; cbn; congruence. Qed.

(** C15.  A link request passes a relay: when handling a request adds a link to
    the table, the request was admitted to the queue of the interface of the
    destination's live path, as a frame with the received hop count, the same
    addresses and keys and therefore the same link id, offering the MTU that
    the entry records, at most the offered one and never below 500; the entry
    names that interface, where the request came from and both hop counts, and
    is not validated. *)
Theorem link_request_relayed env a raw h off n id ms a' l e :
  paths_ok (path_table a) → local_hops_delta a = 0 → bytes_ok raw → header_unpack raw = Ok (h, off) → u8 n →
  link_id_from_raw raw (header_type (flags h)) = @Ok Empty_set _ l → LinkTable.get (link_table a) l = None →
  process_link_request env a raw (with_hops h n) id ms = Ok a' → LinkTable.get (link_table a') l = Some e →
  ∃ path f a1,
    PathTable.get_live (path_table a) (Wire.destination_hash h) (now env) = Some path ∧
    request_onward raw h off n l f (requested_mode e) (accepted_mtu_ceiling e) ∧
    send_to_interface env a (PathTable.interface_id path) f = Ok (a1, true) ∧
    LinkTable.interface_id e = PathTable.interface_id path ∧ LinkTable.remaining_hops e = PathTable.hops path ∧
    LinkTable.receiving_interface e = id ∧ taken_hops e = n ∧
    LinkTable.destination_hash e = Wire.destination_hash h ∧ validated e = false.
Proof.
  intros Hp Hd Hb Hu Hn Hl Hnone Hr Hget. destruct (unpack_parsed raw h off Hb Hu) as [_ Hoff].
  unfold process_link_request in Hr. cbv zeta in Hr.
  change (Wire.destination_hash (with_hops h n)) with (Wire.destination_hash h) in Hr.
  change (header_type (flags (with_hops h n))) with (header_type (flags h)) in Hr.
  change (header_size (with_hops h n)) with (header_size h) in Hr. rewrite Hl in Hr. cbn [res_bind] in Hr.
  ok_inv Hr; simplify_eq.
  - exfalso. erewrite (mild_no_link [] a) in Hget; [done| |done]. by rewrite deliver_tables.
  - exfalso. erewrite send_no_link in Hget; done.
  - match goal with Hc : transport_forward_candidate _ _ _ _ _ _ _ = _ |- _ =>
      destruct (candidate_carries env a raw h _ n _ _ _ _ _ Hp Hb Hu Hn Hd Hc) as (path & fh & Hlive & -> & Hca & _) end.
    match goal with Hs : slice_from _ _ = Ok _ |- _ => unfold slice_from in Hs; case_decide; [injection Hs as <-|done] end.
    match goal with Hat : res_ok (attenuate_request _ _ _ _ _) = _ |- _ => apply res_ok_inv in Hat end.
    match goal with Hf : res_ok (header_unpack _) = _ |- _ => apply res_ok_inv in Hf; rewrite (ca_parse _ _ _ _ _ Hca) in Hf end.
    simplify_eq. unfold LinkTable.get in Hget. cbn -[lookup insert] in Hget.
    rewrite lookup_insert_eq in Hget. injection Hget as <-. eexists _, _, _.
    split; [done|]. split; [by eapply retrailed_onward|].
    match goal with Hs : send_to_interface _ _ _ _ = Ok (_, ?b) |- _ => destruct b; [|done]; split; [exact Hs|] end.
    done.
Qed.

(** ** Proofs of forwarded packets *)

(** No route for a proof is invented. *)
Definition reverse_kept (t t' : ReverseTable) : Prop :=
  ∀ k r, ReverseTable.get t' k = Some r → ReverseTable.get t k = Some r.

#[export] Instance reverse_kept_refl : Reflexive reverse_kept.
Proof. by intros t k r. Qed.

#[export] Instance reverse_kept_trans : Transitive reverse_kept.
Proof. intros t1 t2 t3 H1 H2 k r Hk. by apply H1, H2. Qed.

Lemma deregister_reverse env a id reason :
  reverse_kept (reverse_table a) (reverse_table (deregister_interface_with_link_reason env a id reason)).
Proof.
  destruct (deregister_interface_spec env a id reason) as (_ & _ & _ & _ & _ & [H1|H1]); intros k r Hk;
    rewrite H1 in Hk; [done|]. assert (Hn : ReverseTable.get reverse_new k = None) by apply lookup_empty.
  rewrite Hn in Hk. discriminate Hk.
Qed.

Lemma try_send_reverse a id raw a' out :
  try_send_to_interface a id raw = Ok (a', out) → reverse_table a' = reverse_table a.
Proof. unfold try_send_to_interface. intros Hs. ok_inv Hs; try done; by repeat case_match. Qed.

Lemma send_reverse env a id raw a' b :
  send_to_interface env a id raw = Ok (a', b) → reverse_kept (reverse_table a) (reverse_table a').
Proof.
  unfold send_to_interface. intros Hs. apply res_bind_Ok_inv in Hs as ([a1 out] & E & Hs).
  apply try_send_reverse in E. rewrite <- E. destruct out; injection Hs as <- <-; try done; apply deregister_reverse.
Qed.

Lemma not_link env a raw h id : destination_type (flags h) ≠ Link →
  route_link_packet_via_link_table env a raw h id = Ok (a, false).
Proof. intros Hn. unfold route_link_packet_via_link_table. by rewrite (bool_decide_eq_false_2 _ Hn). Qed.

Lemma not_plain env a raw h id c : destination_type (flags h) ≠ Plain → relay_plain_broadcast env a raw h id c = Ok a.
Proof. intros Hn. unfold relay_plain_broadcast. by rewrite (bool_decide_eq_false_2 _ Hn), andb_false_r. Qed.

Lemma synthesis_reverse env a raw h id a' nx :
  handle_tunnel_synthesis env a raw h id = Ok (a', nx) → reverse_table a' = reverse_table a.
Proof.
  unfold handle_tunnel_synthesis. intros Hr. ok_inv Hr; try done.
  match goal with |- context [restore_tunnel_paths env ?b ?t id] => destruct (restore_frame env b t id) as (Hb & _) end.
  unfold bystanders in Hb. rewrite !pair_eq in Hb. by destruct Hb as ((((_ & ->) & _) & _) & _).
Qed.

Lemma deliver_reverse a d ev : reverse_table (deliver_or_count a d ev) = reverse_table a.
Proof.
  unfold deliver_or_count, try_deliver. destruct (destination_channels a !! d); [|done].
  destruct (try_send _ _) as [c out]. by repeat case_decide.
Qed.

(** The one place a route for a proof comes from. *)
Lemma process_data_route env a raw h off n id ms a' nx k r :
  paths_ok (path_table a) → local_hops_delta a = 0 →
  bytes_ok raw → header_unpack raw = Ok (h, off) → u8 n → destination_type (flags h) = Single →
  truncated_packet_hash raw (header_type (flags h)) = @Ok Empty_set _ k →
  process_data env a raw (with_hops h n) id ms = Ok (a', nx) →
  ReverseTable.get (reverse_table a) k = None → ReverseTable.get (reverse_table a') k = Some r →
  ReverseTable.receiving_interface r = id ∧ ReverseTable.remaining_hops r = n ∧
  ∃ path f h' a1 b, PathTable.get_live (path_table a) (Wire.destination_hash h) (now env) = Some path ∧
    outbound_interface r = Some (PathTable.interface_id path) ∧ carries raw h f h' n ∧
    send_to_interface env (upd_reverse_table (λ t, ReverseTable.insert_with_outbound t k id n
      (Some (PathTable.interface_id path)) (now env)) a) (PathTable.interface_id path) f = Ok (a1, b) ∧
    a' = touch_path env a1 (Wire.destination_hash h).
Proof.
  intros Hp Hd Hb Hu Hn Hty Hk. unfold process_data. cbv zeta. intros Hr Hno Hget.
  change (Wire.destination_hash (with_hops h n)) with (Wire.destination_hash h) in Hr.
  change (header_type (flags (with_hops h n))) with (header_type (flags h)) in Hr. rewrite Hk in Hr. cbn [res_bind] in Hr.
  apply res_bind_Ok_inv in Hr as (? & _ & Hr). apply res_bind_Ok_inv in Hr as (? & _ & Hr).
  rewrite not_plain in Hr by (cbn; by rewrite Hty). cbn [res_bind] in Hr.
  rewrite not_link in Hr by (cbn; by rewrite Hty). cbn [res_bind] in Hr.
  ok_inv Hr; simplify_eq.
  - exfalso. match goal with Hs : handle_tunnel_synthesis _ _ _ _ _ = _ |- _ => apply synthesis_reverse in Hs; rewrite Hs in Hget end.
    congruence.
  - exfalso. rewrite deliver_reverse in Hget. congruence.
  - match goal with Hc : transport_forward_candidate _ _ _ _ _ _ _ = _ |- _ =>
      destruct (candidate_carries env a raw h _ n _ _ _ _ _ Hp Hb Hu Hn Hd Hc) as (path & h' & Hlive & -> & Hca & _) end.
    match goal with Hs : send_to_interface _ _ _ _ = Ok (?a1, ?b) |- _ => rename Hs into Hsend;
      change (ReverseTable.get (reverse_table a1) k = Some r) in Hget; pose proof (send_reverse _ _ _ _ _ _ Hsend k r Hget) as Hk1 end.
    unfold ReverseTable.get in Hk1. cbn -[lookup insert] in Hk1. rewrite lookup_insert_eq in Hk1. injection Hk1 as <-.
    split; [done|]. split; [done|]. by eexists path, _, h', _, _.
Qed.

Lemma deliver_wires a d ev : wires (deliver_or_count a d ev) = wires a.
Proof.
  unfold deliver_or_count, try_deliver. destruct (destination_channels a !! d); [|done].
  destruct (try_send _ _) as [c out]. by repeat case_decide.
Qed.

Lemma removed_route t k : ReverseTable.get (ReverseTable.remove t k).1 k = None.
Proof. apply lookup_delete_eq. Qed.

(** A proof that meets a route. *)
Lemma reverse_proof_step env a proof hp from ms a' r out :
  context hp ≠ Lrproof → destination_type (flags hp) ≠ Link → receipt_table a !! Wire.destination_hash hp = None →
  is_transport_enabled a = true → local_hops_delta a = 0 →
  ReverseTable.get (reverse_table a) (Wire.destination_hash hp) = Some r → outbound_interface r = Some out →
  process_proof env a proof hp from ms = Ok a' →
  let spent := upd_reverse_table (λ _, (ReverseTable.remove (reverse_table a) (Wire.destination_hash hp)).1) a in
  ReverseTable.get (reverse_table a') (Wire.destination_hash hp) = None ∧
  if from =? out
  then ∃ b, send_to_interface env spent (ReverseTable.receiving_interface r) (put_hops proof (Wire.hops hp)) = Ok (a', b)
  else wires a' = wires a.
Proof.
  intros Hctx Hnl Hrec Hten Hd Hget Hout Hpr. cbv zeta.
  set (k := Wire.destination_hash hp) in *.
  pose proof (removed_route (reverse_table a) k) as Hrm.
  unfold process_proof in Hpr. cbv zeta in Hpr. rewrite !(decide_False _ _ Hctx) in Hpr. fold k in Hpr. rewrite Hrec in Hpr.
  rewrite not_link in Hpr by done. cbn [res_bind] in Hpr.
  unfold route_via_reverse_table in Hpr. cbv zeta in Hpr. rewrite Hten in Hpr. cbn [orb] in Hpr. fold k in Hpr.
  destruct (ReverseTable.remove (reverse_table a) k) as [t o] eqn:Ho.
  assert (o = Some r) as -> by (unfold ReverseTable.remove in Ho; injection Ho as _ <-; exact Hget).
  cbn [fst] in Hrm |- *. rewrite Hout in Hpr. destruct (Z.eqb_spec from out) as [->|Hne]; cbn [negb res_bind] in Hpr.
  - assert (Hh : ∀ x y z, outgoing_hops a x y z = z)
      by (intros x y z; unfold outgoing_hops; by rewrite Hd, orb_true_r).
    rewrite Hh in Hpr. apply res_bind_Ok_inv in Hpr as ([a2 ret] & Hs & Hpr).
    apply res_bind_Ok_inv in Hs as ([a3 b] & Hs & [= <- <-]). injection Hpr as <-. split; [|by exists b].
    pose proof (send_reverse _ _ _ _ _ _ Hs k) as Hk. cbn [reverse_table upd_reverse_table] in Hk.
    destruct (ReverseTable.get (reverse_table a3) k) as [r'|] eqn:Hr'; [|done]. specialize (Hk r' eq_refl).
    change (ReverseTable.get t k = Some r') in Hk. congruence.
  - injection Hpr as <-. rewrite deliver_reverse, deliver_wires. done.
Qed.

(** C12.  A delivery proof retraces the path of its packet: when a relay
    records a route for the proof of a packet, it forwarded that packet, with
    nothing changed but the hop count, to the interface of the destination's
    live path, and the receiver computes the same proof address from it.  From
    then on a proof for that address is passed back to the interface the packet
    came from when it arrives on the interface the packet left by, and on no
    interface at all when it arrives elsewhere; either way the route is spent,
    so that a second proof is not passed on. *)
Theorem proof_retraces_path env a raw h off n id ms a1 nx k r :
  paths_ok (path_table a) → local_hops_delta a = 0 →
  bytes_ok raw → header_unpack raw = Ok (h, off) → u8 n → destination_type (flags h) = Single →
  truncated_packet_hash raw (header_type (flags h)) = @Ok Empty_set _ k →
  process_data env a raw (with_hops h n) id ms = Ok (a1, nx) →
  ReverseTable.get (reverse_table a) k = None → ReverseTable.get (reverse_table a1) k = Some r →
  ∃ path,
    PathTable.get_live (path_table a) (Wire.destination_hash h) (now env) = Some path ∧
    (∃ f h' a0 b, carries raw h f h' n ∧ truncated_packet_hash f (header_type (flags h')) = @Ok Empty_set _ k ∧
       send_to_interface env (upd_reverse_table (λ t, ReverseTable.insert_with_outbound t k id n
         (Some (PathTable.interface_id path)) (now env)) a) (PathTable.interface_id path) f = Ok (a0, b)) ∧
    ∀ env2 proof hp from ms2 a2,
      Wire.destination_hash hp = k → context hp ≠ Lrproof → destination_type (flags hp) ≠ Link →
      receipt_table a1 !! k = None → is_transport_enabled a1 = true → local_hops_delta a1 = 0 →
      process_proof env2 a1 proof hp from ms2 = Ok a2 →
      ReverseTable.get (reverse_table a2) k = None ∧
      let spent := upd_reverse_table (λ _, (ReverseTable.remove (reverse_table a1) k).1) a1 in
      if from =? PathTable.interface_id path
      then ∃ b, send_to_interface env2 spent id (put_hops proof (Wire.hops hp)) = Ok (a2, b)
      else wires a2 = wires a1.
Proof.
  intros Hp Hd Hb Hu Hn Hty Hk Hr Hno Hget.
  destruct (process_data_route env a raw h off n id ms a1 nx k r Hp Hd Hb Hu Hn Hty Hk Hr Hno Hget)
    as (Hid & _ & path & f & h' & a0 & b & Hlive & Hout & Hca & Hs & _).
  exists path. split; [done|]. split.
  { exists f, h', a0, b. split; [done|]. split; [|done].
    destruct (carries_hashes (E:=Empty_set) raw h off f h' n Hb Hu Hca) as [_ ->].
    by destruct (packet_hash_parsed (E:=Empty_set) raw h off Hb Hu) as [_ <-]. }
  intros env2 proof hp from ms2 a2 Hdst Hctx Hnl Hrec Hten Hd1 Hpr. cbv zeta. subst k id.
  by apply (reverse_proof_step env2 a1 proof hp from ms2 a2 r).
Qed.
End transit.

(** ** Witnesses *)

(** A request with 64 key bytes and no signalling, through the demo relay. *)
Lemma link_request_relayed_witness :
  ∃ a' e f a1, process_link_request demo_env demo_relay demo_request (with_hops (demo_header LinkRequest) 4) 1 no_metrics = Ok a' ∧
    validated e = false ∧ send_to_interface demo_env demo_relay 2 f = Ok (a1, true).
Proof.
  set (m := process_link_request demo_env demo_relay demo_request (with_hops (demo_header LinkRequest) 4) 1 no_metrics).
  set (l := take 16 (sha256 (hash_stable (demo_header LinkRequest) (replicate 64 5)))).
  assert (Hm : ∃ a' e, m = Ok a' ∧ LinkTable.get (link_table a') l = Some e)
    by (vm_compute; eexists _, _; split; reflexivity).
  destruct Hm as (a' & e & Hm & He).
  assert (Hb : bytes_ok demo_request) by (apply (bool_decide_eq_true_1 _); vm_compute; reflexivity).
  destruct (link_request_relayed demo_env demo_relay demo_request (demo_header LinkRequest) 35 4 1 no_metrics a' l e
    demo_paths_ok eq_refl Hb ltac:(vm_compute; reflexivity) ltac:(split; [discriminate|reflexivity])
    ltac:(vm_compute; reflexivity) ltac:(vm_compute; reflexivity) Hm He) as (path & f & a1 & Hp & _ & Hs & _ & _ & _ & _ & _ & Hv).
  exists a', e, f, a1. split; [exact Hm|]. split; [exact Hv|].
  assert (path = demo_path) as -> by (vm_compute in Hp; injection Hp as <-; vm_compute; reflexivity).
  exact Hs.
Defined.

(** The proof of a forwarded packet, from the right and from a wrong side. *)
Lemma proof_retraces_path_witness :
  let m := process_data demo_env demo_relay demo_data (with_hops (demo_header Data) 4) 1 no_metrics in
  let k := take 16 demo_hash in
  let hp := mkHeader (mkFlags Header1 false Broadcast Single Proof) 2 None k CtxNone in
  let proof := header_pack hp ++ replicate 64 1 in
  ∃ a1 nx, m = Ok (a1, nx) ∧
    (∀ a2, process_proof demo_env a1 proof hp 2 no_metrics = Ok a2 →
       ReverseTable.get (reverse_table a2) k = None ∧ ∃ a b, send_to_interface demo_env a 1 (put_hops proof 2) = Ok (a2, b)) ∧
    (∀ a2, process_proof demo_env a1 proof hp 3 no_metrics = Ok a2 → wires a2 = wires a1).
Proof.
  cbv zeta. set (k := take 16 demo_hash). set (hp := mkHeader _ 2 None k CtxNone).
  assert (Hm : ∃ a1 nx r, process_data demo_env demo_relay demo_data (with_hops (demo_header Data) 4) 1 no_metrics = Ok (a1, nx) ∧
    ReverseTable.get (reverse_table a1) k = Some r ∧ receipt_table a1 !! k = None ∧ is_transport_enabled a1 = true ∧
    local_hops_delta a1 = 0) by (vm_compute; eexists _, _, _; repeat split; reflexivity).
  destruct Hm as (a1 & nx & r & Hm & Hr & Hrec & Hten & Hd).
  assert (Hb : bytes_ok demo_data) by (apply (bool_decide_eq_true_1 _); vm_compute; reflexivity).
  destruct (proof_retraces_path demo_env demo_relay demo_data (demo_header Data) 35 4 1 no_metrics a1 nx k r
    demo_paths_ok eq_refl Hb ltac:(vm_compute; reflexivity) ltac:(split; [discriminate|reflexivity]) eq_refl
    ltac:(vm_compute; reflexivity) Hm ltac:(vm_compute; reflexivity) Hr) as (path & Hp & _ & Hback).
  assert (path = demo_path) as -> by (vm_compute in Hp; injection Hp as <-; vm_compute; reflexivity).
  exists a1, nx. split; [exact Hm|]. split; intros a2 H2.
  - destruct (Hback demo_env _ hp 2 no_metrics a2 eq_refl ltac:(discriminate) ltac:(discriminate) Hrec Hten Hd H2) as [Hn Hs].
    split; [exact Hn|]. destruct Hs as [b Hs]. eexists _, b. exact Hs.
  - exact (proj2 (Hback demo_env _ hp 3 no_metrics a2 eq_refl ltac:(discriminate) ltac:(discriminate) Hrec Hten Hd H2)).
Defined.
