(* ===== verification/Endpoint.v ===== *)
(** * Link endpoints: bounded egress queues of established links

    Models [actor/link_endpoint.rs] of [rns-transport], with the completions of
    [link_endpoint_dispatch.rs] and the messages of [actor/mod.rs] that reach
    it.  An endpoint is the actor's end of an established link: packets leave it
    through its interface, or through the mailbox of the other end when both
    ends belong to this actor, and wait in a queue while there is no room.  The
    end of an endpoint and the removal of its interface are in Actor.v.

    A completion is the reply channel of one tracked packet, named by a number.
    What a handler reads about completions and publications while it runs
    (cancellation, deadline, clock) may change under its feet; [EndpointEnv]
    gives the value at each point of the handler where it is read. *)

From S2P Require Import Prelude F64 Wire Packet LinkSignalling Receipt Ifac Table Hashlist PathTable.
From S2P Require Import ReverseTable LinkTable Ownership LinkTransit Tunnel Identity Announce Ingress RateLimit Blackhole.
From S2P Require Import Actor.
From stdpp Require Import prelude list gmap fin_maps functions.

Open Scope Z_scope.

(** The two ends of a link inside this actor; real interfaces count from one. *)
Definition LOCAL_LINK_INITIATOR_INTERFACE : Z := 2 ^ 64 - 1.
Definition LOCAL_LINK_RESPONDER_INTERFACE : Z := 2 ^ 64 - 2.
Definition LINK_ENDPOINT_EGRESS_QUEUE_CAPACITY : nat := 256.

Definition is_local_link (id : Z) : bool :=
  (id =? LOCAL_LINK_INITIATOR_INTERFACE) || (id =? LOCAL_LINK_RESPONDER_INTERFACE).

Record OutboundRequest := mkRequest { or_raw : bytes; or_destination_hash : bytes }.

Inductive LinkEndpointBindResult :=
| Bound
| AlreadyBound
| Conflict (interface_id : Z) (role : LinkEndpointRole)
| InterfaceUnavailable.

Inductive LinkEndpointUnbindResult := EpUnbound | EpNotBound | EpRoleMismatch.

(** ** Completions (link_endpoint_dispatch.rs) *)

(** What [terminal_before_admission] reads. *)
Record CompletionView := mkView {
  receiver_closed : bool;
  cancel_requested : bool;
  view_now : Z;
  view_deadline : Z;
}.

Definition terminal_before_admission (v : CompletionView) : option LinkEndpointDispatchOutcome :=
  if receiver_closed v || cancel_requested v then Some DispatchCancelled
  else if view_deadline v <=? view_now v then Some DispatchExpired
  else None.

(** The first argument of the views names the point of the handler that reads
    them: two points may see different values. *)
Record EndpointEnv := mkEndpointEnv {
  ee_env : Env;
  publication_state : nat → nat → Z;
  completion_view : nat → nat → CompletionView;
}.

Definition packet_terminal (v : EndpointEnv) (t : nat) (p : LinkEndpointQueuedPacket)
    : option (nat * LinkEndpointDispatchOutcome) :=
  c ← qp_completion p; o ← terminal_before_admission (completion_view v t c); Some (c, o).

Definition ep_eta (e : LinkEndpointEntry) : LinkEndpointEntry :=
  mkEndpoint (ep_binding e) (ep_generation e) (ep_publication e) (ep_lifecycle e) (ep_egress e) (ep_unbind_after_drain e).

Definition upd_publication : (option nat → option nat) → LinkEndpointEntry → LinkEndpointEntry :=
  ltac:(field_update ep_eta ep_publication).
Definition upd_egress :
    (list LinkEndpointQueuedPacket → list LinkEndpointQueuedPacket) → LinkEndpointEntry → LinkEndpointEntry :=
  ltac:(field_update ep_eta ep_egress).
Definition upd_unbind_after_drain : (bool → bool) → LinkEndpointEntry → LinkEndpointEntry :=
  ltac:(field_update ep_eta ep_unbind_after_drain).

#[export] Instance InterfaceSendOutcome_eq_dec : EqDecision InterfaceSendOutcome. Proof. solve_decision. Defined.

Definition terminal_reason_for_interface_outcome (out : InterfaceSendOutcome) : option TerminalReason :=
  match out with
  | OutSent | OutFull | OutTooLarge => None
  | OutMissing => Some InterfaceRemoved
  | OutClosed => Some InterfaceClosed
  | OutOffline => Some InterfaceOffline
  | OutNotOutbound => Some InterfaceNotOutbound
  end.

(** The interface itself has failed, not only this send. *)
Definition interface_failed (out : InterfaceSendOutcome) (id : Z) : bool :=
  match out with OutClosed | OutOffline => negb (is_local_link id) | _ => false end.

Section endpoint.
Context `{Mpsc} `{Digest} `{Hkdf} `{Ed25519Signer}.
Implicit Types a : Actor.

Definition complete (c : option nat) (o : LinkEndpointDispatchOutcome) (a : Actor) : Actor :=
  match c with Some c => emit (EvCompletion c o) a | None => a end.

(** [self.link_endpoints[&key]] and [get_mut(&key).expect(..)]. *)
Definition endpoint_at (a : Actor) (key : endpoint_key) : io LinkEndpointEntry :=
  match link_endpoints a !! key with Some e => Ok e | None => Panic end.

Definition set_endpoint (key : endpoint_key) (e : LinkEndpointEntry) (a : Actor) : Actor :=
  upd_link_endpoints <[key := e]> a.

(** Another role of this link is bound. *)
Definition other_role_bound (a : Actor) (link_id : bytes) : bool :=
  bool_decide (is_Some (link_endpoints a !! (link_id, Initiator)))
  || bool_decide (is_Some (link_endpoints a !! (link_id, Responder))).

(** *** Binding *)

Definition link_endpoint_interface_available (a : Actor) (b : LinkEndpointBinding) : io bool :=
  let id := b_interface_id b in
  let local := Ok (bool_decide (b_owner b = None) && bool_decide (is_Some (local_link_routes a !! b_link_id b))) in
  if id =? LOCAL_LINK_INITIATOR_INTERFACE then match b_role b with Initiator => local | Responder => Ok false end
  else if id =? LOCAL_LINK_RESPONDER_INTERFACE then
    match b_role b with Responder => local | Initiator => Ok false end
  else
    match interfaces a !! id with
    | None => Ok false
    | Some e =>
        if negb (match b_owner b with Some o => owner_matches o (owner (if_entry e)) | None => false end)
        then Ok false else
        let* has_ceiling := is_ok (entry_link_ceiling e id) in
        Ok (has_ceiling && if_outbound e && negb (chan_closed (wires a (if_tx e)))
              && negb (bool_decide (if_role e = LocalClient) && interface_marked_offline e))
    end.

Definition retire_unpublished_link_endpoint (v : EndpointEnv) (t : nat) (a : Actor) (key : endpoint_key) : Actor :=
  match link_endpoints a !! key ≫= ep_publication with
  | Some p => if publication_state v t p =? 2 then terminate_link_endpoint (ee_env v) a key Unbound else a
  | None => a
  end.

Definition bind_link_endpoint (v : EndpointEnv) (t : nat) (a : Actor) (b : LinkEndpointBinding)
    (lifecycle generation : nat) : io (Actor * LinkEndpointBindResult) :=
  let key := (b_link_id b, b_role b) in
  let a := retire_unpublished_link_endpoint v t a key in
  match link_endpoints a !! key with
  | Some existing =>
      Ok (a, if decide (ep_binding existing = b) then AlreadyBound
             else Conflict (b_interface_id (ep_binding existing)) (b_role (ep_binding existing)))
  | None =>
      let* available := link_endpoint_interface_available a b in
      if negb available then Ok (a, InterfaceUnavailable)
      else Ok (set_endpoint key (mkEndpoint b generation None lifecycle [] false) a, Bound)
  end.

Definition unbind_link_endpoint (v : EndpointEnv) (a : Actor) (link_id : bytes) (role : LinkEndpointRole)
    : Actor * LinkEndpointUnbindResult :=
  let key := (link_id, role) in
  match link_endpoints a !! key with
  | Some e =>
      (finish_link_endpoint_terminal (ee_env v) (upd_link_endpoints (delete key) a) e Unbound 0, EpUnbound)
  | None => (a, if other_role_bound a link_id then EpRoleMismatch else EpNotBound)
  end.

(** *** Sending one packet *)

Definition try_send_local (a : Actor) (tx : option nat) (target_interface : Z) (raw : bytes)
    : Actor * InterfaceSendOutcome :=
  match tx with
  | None => (a, OutMissing)
  | Some tx =>
      let ev := EvInboundPacket (interface_owner_id a target_interface) raw target_interface no_metrics in
      let '(a, r) := try_deliver a tx ev in
      match r with
      | SendOk => (record_rx a 0 (len raw), OutSent)
      | SendFull => (a, OutFull)
      | SendClosed => (a, OutClosed)
      end
  end.

(** A route holds the initiator's and the responder's mailbox. *)
Definition try_send_link_endpoint_raw (a : Actor) (id : Z) (link_id : bytes) (role : LinkEndpointRole) (raw : bytes)
    : io (Actor * InterfaceSendOutcome) :=
  let route := local_link_routes a !! link_id in
  if id =? LOCAL_LINK_INITIATOR_INTERFACE then
    match role with
    | Initiator => Ok (try_send_local a (snd <$> route) LOCAL_LINK_RESPONDER_INTERFACE raw)
    | Responder => Ok (a, OutMissing)
    end
  else if id =? LOCAL_LINK_RESPONDER_INTERFACE then
    match role with
    | Responder => Ok (try_send_local a (fst <$> route) LOCAL_LINK_INITIATOR_INTERFACE raw)
    | Initiator => Ok (a, OutMissing)
    end
  else try_send_to_interface a id raw.

(** The packet must be for this link and fit; it enters the hash list, so that
    its echo is recognised. *)
Definition prepare_link_endpoint_packet (a : Actor) (link_id : bytes) (id : Z) (request : OutboundRequest)
    : io (Actor * option bytes) :=
  let raw := or_raw request in
  let accepted_by_interface :=
    match interfaces a !! id with Some e => accepts_clear_packet (if_entry e) (len raw) | None => false end in
  if (Z.of_nat Wire.MTU <? len raw) || negb (is_local_link id) && negb accepted_by_interface then Ok (a, None) else
  if decide (or_destination_hash request ≠ link_id) then Ok (a, None) else
  let* unpacked := res_ok (header_unpack raw) in
  match unpacked with
  | None => Ok (a, None)
  | Some (h, _) =>
      if decide (Wire.destination_hash h ≠ link_id ∨ destination_type (flags h) ≠ Link) then Ok (a, None) else
      let a := record_tx a 0 (len raw) in
      let* x := Packet.packet_hash raw (header_type (flags h)) in
      let a := upd_packet_hashlist (λ l, (Hashlist.insert l x).1) a in
      if negb (is_local_link id) && should_apply_delta a h id then
        let* raw := mangle_hops a raw h false in Ok (a, Some raw)
      else Ok (a, Some raw)
  end.

Definition enqueue_link_endpoint_packet (v : EndpointEnv) (a : Actor) (key : endpoint_key) (raw : bytes)
    : io (Actor * LinkEndpointSendResult) :=
  let* e := endpoint_at a key in
  if Nat.leb LINK_ENDPOINT_EGRESS_QUEUE_CAPACITY (length (ep_egress e)) then
    Ok (terminate_link_endpoint (ee_env v) a key EgressQueueExhausted, Terminated EgressQueueExhausted)
  else
    let e := upd_egress (λ q, q ++ [mkQueued raw None]) e in
    Ok (set_endpoint key e a, EpQueued (len (ep_egress e))).

(** A send refused for good ends the endpoint, with its interface if that has
    failed. *)
Definition end_after_send (v : EndpointEnv) (a : Actor) (key : endpoint_key) (id : Z) (out : InterfaceSendOutcome)
    : io (Actor * LinkEndpointSendResult) :=
  match terminal_reason_for_interface_outcome out with
  | None => Panic
  | Some reason =>
      Ok (if interface_failed out id then deregister_interface_with_link_reason (ee_env v) a id reason
          else terminate_link_endpoint (ee_env v) a key reason, Terminated reason)
  end.

(** *** Draining a queue *)

(** [retain_mut]: cancelled and expired packets leave the queue. *)
Fixpoint prune (v : EndpointEnv) (t : nat) (a : Actor) (q : list LinkEndpointQueuedPacket)
    : Actor * list LinkEndpointQueuedPacket :=
  match q with
  | [] => (a, [])
  | p :: q =>
      match packet_terminal v t p with
      | Some (c, o) => prune v t (emit (EvCompletion c o) a) q
      | None => let '(a, q) := prune v t a q in (a, p :: q)
      end
  end.

(** [while let Some(packet) = entry.egress.front()]: [None] when the queue is
    empty, else the outcome that stopped it and what is left. *)
Fixpoint drain_loop (v : EndpointEnv) (t : nat) (a : Actor) (b : LinkEndpointBinding)
    (q : list LinkEndpointQueuedPacket) : io (Actor * list LinkEndpointQueuedPacket * option InterfaceSendOutcome) :=
  match q with
  | [] => Ok (a, [], None)
  | p :: q' =>
      match packet_terminal v t p with
      | Some (c, o) => drain_loop v t (emit (EvCompletion c o) a) b q'
      | None =>
          let* '(a, out) := try_send_link_endpoint_raw a (b_interface_id b) (b_link_id b) (b_role b) (qp_raw p) in
          match out with
          | OutSent =>
              match qp_completion p with
              | None => drain_loop v t a b q'
              | Some c =>
                  match header_unpack (qp_raw p) with
                  | Ok (h, _) =>
                      let* x := Packet.packet_hash (qp_raw p) (header_type (flags h)) in
                      drain_loop v t (emit (EvCompletion c (DispatchSent x (instant (ee_env v)))) a) b q'
                  | _ => Panic
                  end
              end
          | OutTooLarge => drain_loop v t (complete (qp_completion p) (DispatchRejected InvalidPacket) a) b q'
          | _ => Ok (a, q, Some out)
          end
      end
  end.

(** [Some reason] when the endpoint became terminal; reads at [t] and [t + 1]. *)
Definition drain_one_link_endpoint (v : EndpointEnv) (t : nat) (a : Actor) (key : endpoint_key)
    : io (Actor * option TerminalReason) :=
  match link_endpoints a !! key with
  | None => Ok (a, Some InterfaceRemoved)
  | Some e =>
      let a := upd_link_endpoints (delete key) a in
      if match ep_publication e with Some p => publication_state v t p =? 2 | None => false end then
        Ok (finish_link_endpoint_terminal (ee_env v) a e Unbound 0, Some Unbound)
      else
        let '(a, q) := prune v t a (ep_egress e) in
        let* '(a, q, stop) := drain_loop v (S t) a (ep_binding e) q in
        let e := upd_egress (λ _, q) e in
        match stop with
        | None =>
            Ok (if ep_unbind_after_drain e then finish_link_endpoint_terminal (ee_env v) a e Unbound 0
                else set_endpoint key e a, None)
        | Some OutFull => Ok (set_endpoint key e a, None)
        | Some out =>
            match terminal_reason_for_interface_outcome out with
            | None => Panic
            | Some reason =>
                let id := b_interface_id (ep_binding e) in
                let a := finish_link_endpoint_terminal (ee_env v) a e reason 0 in
                Ok (if interface_failed out id then deregister_interface_with_link_reason (ee_env v) a id reason
                    else a, Some reason)
            end
        end
  end.

Fixpoint drain_each (v : EndpointEnv) (t : nat) (a : Actor) (keys : list endpoint_key) : io Actor :=
  match keys with
  | [] => Ok a
  | k :: keys => let* '(a, _) := drain_one_link_endpoint v t a k in drain_each v (t + 2) a keys
  end.

(** The keys of the endpoints, in the iteration order of the map. *)
Definition endpoint_keys (v : EndpointEnv) (a : Actor) : list endpoint_key :=
  filter (λ k, is_Some (link_endpoints a !! k)) (endpoint_order (ee_env v)).

Definition drain_link_endpoint_egress (v : EndpointEnv) (a : Actor) : io Actor :=
  drain_each v 0 a (endpoint_keys v a).
(** *** Sending, reliably or not *)

(** The sends share the checks before the packet is prepared. *)
Definition send_link_endpoint (v : EndpointEnv) (a : Actor) (link_id : bytes) (role : LinkEndpointRole)
    (request : OutboundRequest) : io (Actor * LinkEndpointSendResult) :=
  let key := (link_id, role) in
  let a := retire_unpublished_link_endpoint v 0 a key in
  match link_endpoints a !! key with
  | None => Ok (a, if other_role_bound a link_id then RoleMismatch else NotBound)
  | Some e =>
      if ep_unbind_after_drain e then Ok (a, Terminated Unbound) else
      let id := b_interface_id (ep_binding e) in
      let* '(a, ended) :=
        (if decide (ep_egress e = []) then Ok (a, None) else drain_one_link_endpoint v 1 a key) in
      match ended with
      | Some reason => Ok (a, Terminated reason)
      | None =>
          let* e := endpoint_at a key in
          if Nat.leb LINK_ENDPOINT_EGRESS_QUEUE_CAPACITY (length (ep_egress e)) then
            Ok (terminate_link_endpoint (ee_env v) a key EgressQueueExhausted, Terminated EgressQueueExhausted)
          else
            let* '(a, prepared) := prepare_link_endpoint_packet a link_id id request in
            match prepared, link_endpoints a !! key with
            | None, _ => Ok (a, InvalidPacket)
            | Some _, None => Ok (a, NotBound)
            | Some raw, Some e =>
                if decide (ep_egress e = []) then
                  let* '(a, out) := try_send_link_endpoint_raw a id link_id role raw in
                  match out with
                  | OutTooLarge => Ok (a, InvalidPacket)
                  | OutSent => Ok (a, EpSent)
                  | OutFull => enqueue_link_endpoint_packet v a key raw
                  | _ => end_after_send v a key id out
                  end
                else enqueue_link_endpoint_packet v a key raw
            end
      end
  end.

(** The final packet of a link: the endpoint ends once it has left. *)
Definition send_link_endpoint_and_unbind (v : EndpointEnv) (a : Actor) (link_id : bytes) (role : LinkEndpointRole)
    (request : OutboundRequest) : io (Actor * LinkEndpointSendResult) :=
  let key := (link_id, role) in
  let* '(a, result) := send_link_endpoint v a link_id role request in
  match result, link_endpoints a !! key with
  | EpSent, Some e =>
      let a := notify_link_endpoint_terminal (upd_link_endpoints (delete key) a) e Unbound 0 in
      Ok (deregister_destination (ee_env v) a (b_link_id (ep_binding e)), result)
  | EpQueued _, Some e => Ok (set_endpoint key (upd_unbind_after_drain (λ _, true) e) a, result)
  | _, _ => Ok (a, result)
  end.

(** Realtime packets neither overtake the queue nor join it. *)
Definition send_link_endpoint_best_effort (v : EndpointEnv) (a : Actor) (link_id : bytes) (role : LinkEndpointRole)
    (request : OutboundRequest) : io (Actor * LinkEndpointSendResult) :=
  let key := (link_id, role) in
  let a := retire_unpublished_link_endpoint v 0 a key in
  match link_endpoints a !! key with
  | None => Ok (a, if other_role_bound a link_id then RoleMismatch else NotBound)
  | Some e =>
      if ep_unbind_after_drain e then Ok (a, Terminated Unbound) else
      if decide (ep_egress e ≠ []) then Ok (a, DroppedBackpressure) else
      let id := b_interface_id (ep_binding e) in
      let* '(a, prepared) := prepare_link_endpoint_packet a link_id id request in
      match prepared, link_endpoints a !! key with
      | None, _ => Ok (a, InvalidPacket)
      | Some _, None => Ok (a, NotBound)
      | Some raw, Some _ =>
          let* '(a, out) := try_send_link_endpoint_raw a id link_id role raw in
          match out with
          | OutTooLarge => Ok (a, InvalidPacket)
          | OutSent => Ok (a, EpSent)
          | OutFull => Ok (upd_interfaces (alter (λ e, count_tx_drop e (len raw)) id) a, DroppedBackpressure)
          | _ => end_after_send v a key id out
          end
      end
  end.

(** *** Tracked sends (handle_link_endpoint_dispatch) *)

Definition is_current_generation (e : LinkEndpointEntry) (b : LinkEndpointBinding) (generation : nat) : bool :=
  bool_decide (ep_binding e = b) && bool_decide (ep_generation e = generation).

(** The reply, unless nobody waits for it: a refusal, or the token's binding
    and generation. *)
Definition dispatch_bind (v : EndpointEnv) (a : Actor) (b : LinkEndpointBinding)
    (lifecycle generation publication : nat) (reply_closed : bool)
    : io (Actor * option (LinkEndpointBindResult + LinkEndpointBinding * nat)) :=
  if reply_closed || (publication_state v 0 publication =? 2) then Ok (a, None) else
  let* '(a, result) := bind_link_endpoint v 1 a b lifecycle generation in
  match result with
  | Bound =>
      let key := (b_link_id b, b_role b) in
      let* e := endpoint_at a key in
      let a := set_endpoint key (upd_publication (λ _, Some publication) e) a in
      Ok (retire_unpublished_link_endpoint v 2 a key, Some (inr (b, ep_generation e)))
  | _ => Ok (a, Some (inl result))
  end.

Definition dispatch_send (v : EndpointEnv) (a : Actor) (b : LinkEndpointBinding) (generation : nat)
    (request : OutboundRequest) (completion : nat) : io Actor :=
  let key := (b_link_id b, b_role b) in
  let reject r a := emit (EvCompletion completion (DispatchRejected r)) a in
  match terminal_before_admission (completion_view v 0 completion) with
  | Some o => Ok (emit (EvCompletion completion o) a)
  | None =>
      let a := retire_unpublished_link_endpoint v 0 a key in
      match link_endpoints a !! key with
      | None => Ok (reject NotBound a)
      | Some e =>
          if negb (is_current_generation e b generation) then Ok (reject NotBound a) else
          if ep_unbind_after_drain e then Ok (reject (Terminated Unbound) a) else
          let* '(a, ended) := drain_one_link_endpoint v 1 a key in
          match ended with
          | Some reason => Ok (reject (Terminated reason) a)
          | None =>
              let* e := endpoint_at a key in
              if Nat.leb LINK_ENDPOINT_EGRESS_QUEUE_CAPACITY (length (ep_egress e)) then
                Ok (reject (Terminated EgressQueueExhausted)
                      (terminate_link_endpoint (ee_env v) a key EgressQueueExhausted))
              else
                let* '(a, prepared) := prepare_link_endpoint_packet a (b_link_id b) (b_interface_id b) request in
                match prepared with
                | None => Ok (reject InvalidPacket a)
                | Some raw =>
                    let* e := endpoint_at a key in
                    let a := set_endpoint key (upd_egress (λ q, q ++ [mkQueued raw (Some completion)]) e) a in
                    let* '(a, _) := drain_one_link_endpoint v 3 a key in
                    Ok a
                end
          end
      end
  end.

(** *** Ending endpoints *)

Definition terminate_shared_peer_link_endpoints (env : Env) (a : Actor) : Actor :=
  foldl (λ a id, terminate_link_endpoints_for_interface env a id InterfaceOffline) a
    (interface_ids env a (λ _ e, bool_decide (if_role e = SharedInstancePeer))).

Definition shared_connection_lost (env : Env) (a : Actor) : Actor :=
  let a := terminate_shared_peer_link_endpoints env a in
  let a := upd_is_shared_instance (λ _, false) a in
  let a := upd_shared_instance_client_mode (λ _, true) a in
  clear_shared_connection_state a.

Definition terminate_all_link_endpoints (v : EndpointEnv) (a : Actor) (reason : TerminalReason) : Actor :=
  foldl (λ a k, terminate_link_endpoint (ee_env v) a k reason) a (endpoint_keys v a).

(** *** The messages that reach the endpoints *)

Inductive EndpointMessage :=
| BindLinkEndpoint (b : LinkEndpointBinding) (lifecycle generation : nat)
| UnbindLinkEndpoint (link_id : bytes) (role : LinkEndpointRole)
| SendLinkEndpoint (link_id : bytes) (role : LinkEndpointRole) (request : OutboundRequest)
| SendLinkEndpointExact (b : LinkEndpointBinding) (generation : nat) (request : OutboundRequest)
| SendLinkEndpointAndUnbind (link_id : bytes) (role : LinkEndpointRole) (request : OutboundRequest)
| SendLinkEndpointBestEffort (link_id : bytes) (role : LinkEndpointRole) (request : OutboundRequest)
| DispatchBind (b : LinkEndpointBinding) (lifecycle generation publication : nat) (reply_closed : bool)
| DispatchSend (b : LinkEndpointBinding) (generation : nat) (request : OutboundRequest) (completion : nat)
| DrainEgress
| SharedConnectionLost
| EndpointShutdown.

Inductive EndpointReply :=
| ReplyBind (r : LinkEndpointBindResult)
| ReplyUnbind (r : LinkEndpointUnbindResult)
| ReplySend (r : LinkEndpointSendResult)
| ReplyToken (r : option (LinkEndpointBindResult + LinkEndpointBinding * nat))
| NoReply.

Definition send_link_endpoint_exact (v : EndpointEnv) (a : Actor) (b : LinkEndpointBinding) (generation : nat)
    (request : OutboundRequest) : io (Actor * LinkEndpointSendResult) :=
  let key := (b_link_id b, b_role b) in
  let a := retire_unpublished_link_endpoint v 10 a key in
  if match link_endpoints a !! key with Some e => is_current_generation e b generation | None => false end
  then send_link_endpoint v a (b_link_id b) (b_role b) request
  else Ok (a, NotBound).

Definition handle_endpoint (v : EndpointEnv) (a : Actor) (m : EndpointMessage) : io (Actor * EndpointReply) :=
  match m with
  | BindLinkEndpoint b lifecycle generation =>
      let* '(a, r) := bind_link_endpoint v 0 a b lifecycle generation in Ok (a, ReplyBind r)
  | UnbindLinkEndpoint link_id role => let '(a, r) := unbind_link_endpoint v a link_id role in Ok (a, ReplyUnbind r)
  | SendLinkEndpoint link_id role q => let* '(a, r) := send_link_endpoint v a link_id role q in Ok (a, ReplySend r)
  | SendLinkEndpointExact b g q => let* '(a, r) := send_link_endpoint_exact v a b g q in Ok (a, ReplySend r)
  | SendLinkEndpointAndUnbind link_id role q =>
      let* '(a, r) := send_link_endpoint_and_unbind v a link_id role q in Ok (a, ReplySend r)
  | SendLinkEndpointBestEffort link_id role q =>
      let* '(a, r) := send_link_endpoint_best_effort v a link_id role q in Ok (a, ReplySend r)
  | DispatchBind b lifecycle generation publication closed =>
      let* '(a, r) := dispatch_bind v a b lifecycle generation publication closed in Ok (a, ReplyToken r)
  | DispatchSend b g q c => let* a := dispatch_send v a b g q c in Ok (a, NoReply)
  | DrainEgress => let* a := drain_link_endpoint_egress v a in Ok (a, NoReply)
  | SharedConnectionLost => Ok (shared_connection_lost (ee_env v) a, NoReply)
  | EndpointShutdown => Ok (terminate_all_link_endpoints v a TransportShutdown, NoReply)
  end.

(** Several messages, each with what it reads from outside. *)
Fixpoint run_endpoints (a : Actor) (ms : list (EndpointEnv * EndpointMessage)) : io (Actor * list EndpointReply) :=
  match ms with
  | [] => Ok (a, [])
  | (v, m) :: ms =>
      let* '(a, r) := handle_endpoint v a m in
      let* '(a, rs) := run_endpoints a ms in
      Ok (a, r :: rs)
  end.
End endpoint.
