(* ===== verification/EndpointSafe.v ===== *)
(** * Link endpoints: no panic, bounded queues, one outcome per packet

    Every message to the endpoints of Endpoint.v is handled without a panic
    and keeps the invariants of the actor and of the queues; the completion of
    a tracked packet is answered exactly once, or still waits in a queue. *)

From S2P Require Import Prelude F64 Wire Packet LinkSignalling Receipt Ifac Table Hashlist PathTable.
From S2P Require Import ReverseTable LinkTable Ownership LinkTransit Tunnel Identity Announce Ingress RateLimit Blackhole.
From S2P Require Import Actor ActorFacts Restore Forward Inbound RelaySafe RelayDemo Hops Endpoint.
From stdpp Require Import prelude list gmap fin_maps functions sorting.

Open Scope Z_scope.

(** The completions of a queue, and of an event. *)
Definition tracked (q : list LinkEndpointQueuedPacket) : list nat := omap qp_completion q.
Definition answers (e : Event) : option nat := match e with EvCompletion c _ => Some c | _ => None end.

(** A queued packet is a packet of this link, within the MTU. *)
Record packet_for (link_id raw : bytes) : Prop := mkPacketFor {
  pf_bytes : bytes_ok raw;
  pf_mtu : (length raw ≤ Wire.MTU)%nat;
  pf_header : ∃ h off, header_unpack raw = Ok (h, off) ∧ Wire.destination_hash h = link_id ∧
    destination_type (flags h) = Link;
}.

Record endpoint_ok (k : endpoint_key) (e : LinkEndpointEntry) : Prop := mkEndpointOk {
  eo_link : b_link_id (ep_binding e) = k.1;
  eo_role : b_role (ep_binding e) = k.2;
  eo_capacity : (length (ep_egress e) ≤ LINK_ENDPOINT_EGRESS_QUEUE_CAPACITY)%nat;
  eo_packets : Forall (λ p, packet_for k.1 (qp_raw p)) (ep_egress e);
}.

Lemma completions_rejected reason q : omap answers (reject reason q) = tracked q.
Proof. unfold reject, tracked. induction q as [|[raw [c|]] q IH]; [done|..]; cbn in *; by rewrite IH. Qed.

Lemma sublist_Forall {A} (P : A → Prop) l1 l2 : sublist l1 l2 → Forall P l2 → Forall P l1.
Proof. induction 1; intros Hl; [done|..]; apply Forall_cons in Hl as [? ?]; [constructor|]; auto. Qed.

Lemma suffix_sublist {A} (l1 l2 : list A) : suffix l1 l2 → sublist l1 l2.
Proof. intros [k ->]. by apply sublist_inserts_l. Qed.

Section endpoint_safe.
Context `{M : Mpsc} `{D : Digest} `{!DigestLaws D} `{K : Hkdf} `{!HkdfLaws K}
  `{G : Ed25519Signer} `{!Ed25519SignerLaws G}.
Implicit Types a : Actor.

Definition endpoints_ok a : Prop := map_Forall endpoint_ok (link_endpoints a).

(** *** The ledger of completions *)

Definition held_in (m : gmap endpoint_key LinkEndpointEntry) : list nat :=
  map_to_list m ≫= λ kv, tracked (ep_egress kv.2).
Definition answered a : list nat := omap answers (events a).

(** Every completion the actor owes or has answered. *)
Definition ledger a : list nat := answered a ++ held_in (link_endpoints a).

Lemma held_insert m k e : m !! k = None → held_in (<[k := e]> m) ≡ₚ tracked (ep_egress e) ++ held_in m.
Proof. intros Hk. unfold held_in. by rewrite map_to_list_insert. Qed.

Lemma held_delete m k e : m !! k = Some e → held_in m ≡ₚ tracked (ep_egress e) ++ held_in (delete k m).
Proof. intros Hk. rewrite <- held_insert by apply lookup_delete_eq. by rewrite insert_delete_id. Qed.

Lemma held_replace m k e e' : m !! k = Some e → tracked (ep_egress e') = tracked (ep_egress e) →
  held_in (<[k := e']> m) ≡ₚ held_in m.
Proof.
  intros Hk He. rewrite <- insert_delete_eq, held_insert, He by apply lookup_delete_eq. by rewrite <- held_delete.
Qed.

Lemma ledger_emit c o a : ledger (emit (EvCompletion c o) a) ≡ₚ c :: ledger a.
Proof. unfold ledger, answered. cbn. rewrite omap_app. cbn. by rewrite <- app_assoc, Permutation_middle. Qed.

Lemma ledger_complete c o a : ledger (complete c o a) ≡ₚ option_list c ++ ledger a.
Proof. destruct c; [apply ledger_emit|done]. Qed.

Lemma ledger_delete k e a : link_endpoints a !! k = Some e →
  ledger a ≡ₚ tracked (ep_egress e) ++ ledger (upd_link_endpoints (delete k) a).
Proof.
  intros Hk. unfold ledger, answered. cbn. rewrite (held_delete _ k e Hk). solve_Permutation.
Qed.

Lemma ledger_set k e a : link_endpoints a !! k = None → ledger (set_endpoint k e a) ≡ₚ tracked (ep_egress e) ++ ledger a.
Proof. intros Hk. unfold ledger, answered. cbn. rewrite held_insert by done. solve_Permutation. Qed.

Lemma ledger_replace k e e' a : link_endpoints a !! k = Some e → tracked (ep_egress e') = tracked (ep_egress e) →
  ledger (set_endpoint k e' a) ≡ₚ ledger a.
Proof. intros Hk He. unfold ledger, answered. cbn. by rewrite (held_replace _ k e e'). Qed.

Lemma ledger_notify e reason n a :
  ledger (notify_link_endpoint_terminal a e reason n) ≡ₚ tracked (ep_egress e) ++ ledger a.
Proof.
  unfold notify_link_endpoint_terminal, ledger, answered. cbn. rewrite !omap_app, completions_rejected. cbn.
  rewrite app_nil_r. solve_Permutation.
Qed.

(** *** Operations that only end endpoints *)

Record settles a a' : Prop := mkSettles {
  se_ok : ∀ n, actor_ok n a → actor_ok n a';
  se_endpoints : link_endpoints a' ⊆ link_endpoints a;
  se_ledger : ledger a' ≡ₚ ledger a;
}.

#[export] Instance settles_preorder : PreOrder settles.
Proof.
  split; [intros a; by split|]. intros a b c [] []. split; [auto|by etrans|by etrans].
Qed.

Lemma settles_endpoints a a' : settles a a' → endpoints_ok a → endpoints_ok a'.
Proof. intros [] Ha. intros k e Hk. apply Ha. by eapply lookup_weaken. Qed.

Lemma foldl_settles {A} (f : Actor → A → Actor) l a : (∀ a x, settles a (f a x)) → settles a (foldl f a l).
Proof. intros Hf. revert a. induction l as [|x l IH]; intros a; [done|]. cbn. etrans; [apply Hf|apply IH]. Qed.

(** What [actor_ok] reads, and the endpoints with their outcomes. *)
Definition books a := (fixed a, interfaces a, announce_table a, held a, path_table a, link_endpoints a, answered a,
  tunnel_table a).

Lemma books_settles a a' : books a' = books a → settles a a'.
Proof.
  unfold books. rewrite !pair_eq. intros (((((((Hf & Hi) & Ha) & Hh) & Hp) & He) & Hans) & Ht). split.
  - intros n Hn. apply (actor_ok_transfer n a); [done|done|by unfold ifaces_ok; rewrite Hi; apply Hn| |
      by unfold all_tunnel_paths; rewrite Ht|rewrite Hp; eauto].
    intros P. unfold all_announces. by rewrite Ha, Hh.
  - by rewrite He.
  - unfold ledger. by rewrite Hans, He.
Qed.

Lemma release_settles (f : Actor → endpoint_key → TerminalReason → Actor) env a hash :
  (∀ a k r, settles a (f a k r)) → settles a (deregister_destination_with f env a hash).
Proof.
  intros Hf. unfold deregister_destination_with. cbv zeta. case_match.
  - etrans; [|apply foldl_settles; intros; apply Hf]. by apply books_settles.
  - by apply books_settles.
Qed.

(** Notifying the end of an endpoint that has been taken out. *)
Lemma notify_settles a k e reason n : link_endpoints a !! k = Some e →
  settles a (notify_link_endpoint_terminal (upd_link_endpoints (delete k) a) e reason n).
Proof.
  intros Hk. split.
  - intros m []. by constructor.
  - cbn. apply delete_subseteq.
  - by rewrite ledger_notify, <- ledger_delete.
Qed.

Lemma terminate_fuel_settles fuel env a k reason : settles a (terminate_with_fuel fuel env a k reason).
Proof.
  revert a k reason. induction fuel as [|fuel IH]; intros a k reason; [done|]. cbn [terminate_with_fuel].
  destruct (link_endpoints a !! k) as [e|] eqn:Hk; [|done].
  pose proof (notify_settles a k e reason 0 Hk) as Hn. case_match; [|done].
  etrans; [exact Hn|]. by apply release_settles.
Qed.

Lemma terminate_settles env a k reason : settles a (terminate_link_endpoint env a k reason).
Proof. apply terminate_fuel_settles. Qed.

Lemma destination_settles env a hash : settles a (deregister_destination env a hash).
Proof. apply release_settles. intros. apply terminate_fuel_settles. Qed.

(** The endpoint is out of the table, with [q] left in its queue. *)
Lemma finish_settles env a e reason :
  (∀ n, actor_ok n a → actor_ok n (finish_link_endpoint_terminal env a e reason 0)) ∧
  link_endpoints (finish_link_endpoint_terminal env a e reason 0) ⊆ link_endpoints a ∧
  ledger (finish_link_endpoint_terminal env a e reason 0) ≡ₚ tracked (ep_egress e) ++ ledger a.
Proof.
  unfold finish_link_endpoint_terminal. cbv zeta. set (a1 := notify_link_endpoint_terminal a e reason 0).
  assert (∀ n, actor_ok n a → actor_ok n a1) as H1 by (intros n []; by constructor).
  assert (ledger a1 ≡ₚ tracked (ep_egress e) ++ ledger a) as H2 by apply ledger_notify.
  assert (link_endpoints a1 ⊆ link_endpoints a) as H3 by done.
  case_match; [|done]. destruct (destination_settles env a1 (b_link_id (ep_binding e))) as [S1 S2 S3].
  split_and!; [auto|by etrans|by rewrite S3].
Qed.

Lemma interface_settles env a id reason : settles a (terminate_link_endpoints_for_interface env a id reason).
Proof. apply foldl_settles. intros. apply terminate_settles. Qed.

Lemma cached_response_books a c raw id :
  link_endpoints (finish_cached_response a c raw id) = link_endpoints a ∧
  answered (finish_cached_response a c raw id) = answered a.
Proof. unfold finish_cached_response. repeat case_match; done. Qed.

Lemma retire_announce_books a id :
  link_endpoints (retire_announce_interface a id) = link_endpoints a ∧
  answered (retire_announce_interface a id) = answered a.
Proof.
  unfold retire_announce_interface. cbn.
  generalize (filter (λ p, pa_interface p = id) (pending_announce_admissions a)). intros ps.
  change (answered (upd_pending_announce_admissions ?f ?b)) with (answered b).
  revert a. induction ps as [|p ps IH]; intros a; [done|]. cbn [foldl].
  destruct (IH (finish_cached_response a (pa_cached p) (pa_raw p) id)) as [-> ->]. apply cached_response_books.
Qed.

(** What follows the removal of the shared instance's interface. *)
Lemma cleared_books a id :
  let a' := clear_shared_connection_state
    (upd_shared_instance_client_mode (λ _, true) (upd_is_shared_instance (λ _, false) (upd_interfaces (delete id) a))) in
  link_endpoints a' = link_endpoints a ∧ answered a' = answered a.
Proof.
  cbv zeta. match goal with |- link_endpoints ?b = _ ∧ _ =>
    assert (link_endpoints b = link_endpoints a ∧ events b = events a) as [? He]
      by (unfold clear_shared_connection_state; cbv zeta; cbn; split; reflexivity) end.
  unfold answered. by rewrite He.
Qed.

(** Removing an interface: the state before the interface entry itself goes. *)
Lemma removal_prefix env a id reason :
  let a1 := terminate_link_endpoints_for_interface env a id reason in
  ∃ a6, link_endpoints a6 = link_endpoints a1 ∧ answered a6 = answered a1 ∧
    let a7 := upd_interfaces (delete id) (retire_announce_interface a6 id) in
    deregister_interface_with_link_reason env a id reason = a7 ∨
    deregister_interface_with_link_reason env a id reason =
      clear_shared_connection_state (upd_shared_instance_client_mode (λ _, true) (upd_is_shared_instance (λ _, false) a7)).
Proof.
  cbv zeta. unfold deregister_interface_with_link_reason. set (a1 := terminate_link_endpoints_for_interface env a id reason).
  clearbody a1. set (a2 := match interfaces a1 !! id with Some _ => _ | None => a1 end).
  assert (B2 : link_endpoints a2 = link_endpoints a1 ∧ answered a2 = answered a1).
  { subst a2. case_match; [|done]. unfold answered. cbn. rewrite omap_app. cbn. by rewrite app_nil_r. }
  clearbody a2. cbv zeta. set (a3 := match _ ≫= if_online with Some _ => _ | None => _ end).
  assert (B3 : link_endpoints a3 = link_endpoints a2 ∧ answered a3 = answered a2).
  { subst a3. case_match; [|done]. unfold answered. cbn. rewrite omap_app. cbn. by rewrite app_nil_r. }
  clearbody a3. destruct B2 as [<- <-], B3 as [<- <-].
  assert (B4 : link_endpoints (void_tunnel_interface a3 id) = link_endpoints a3 ∧
    answered (void_tunnel_interface a3 id) = answered a3).
  { unfold void_tunnel_interface. destruct (Tunnel.void_interface (tunnel_table a3) id). by case_match. }
  destruct B4 as [<- <-]. set (a4 := void_tunnel_interface a3 id). clearbody a4.
  match goal with |- context [retire_announce_interface ?x id] => exists x end.
  split; [done|]. split; [done|]. case_match; [by right|by left].
Qed.

Lemma removal_books env a id reason :
  let a1 := terminate_link_endpoints_for_interface env a id reason in
  let a' := deregister_interface_with_link_reason env a id reason in
  link_endpoints a' = link_endpoints a1 ∧ answered a' = answered a1.
Proof.
  destruct (removal_prefix env a id reason) as (a6 & E1 & E2 & Hd). cbv zeta in *. rewrite <- E1, <- E2.
  destruct (retire_announce_books a6 id) as [<- <-]. destruct Hd as [-> | ->]; [done|apply cleared_books].
Qed.

Lemma removal_settles env a id reason : settles a (deregister_interface_with_link_reason env a id reason).
Proof.
  destruct (interface_settles env a id reason) as [S1 S2 S3]. destruct (removal_books env a id reason) as [B1 B2].
  split; [intros; by apply deregister_ok|by rewrite B1|].
  unfold ledger in *. by rewrite B1, B2.
Qed.
(** *** Sending and draining *)

Definition sound (n : Z) a : Prop := actor_ok n a ∧ endpoints_ok a.

(** A step to a sound state in which the actor has taken on [cs]. *)
Definition owes (n : Z) (cs : list nat) a a' : Prop := sound n a' ∧ ledger a' ≡ₚ cs ++ ledger a.

Lemma owes_trans n c1 c2 a b c : owes n c1 a b → owes n c2 b c → owes n (c1 ++ c2) a c.
Proof. intros [_ H1] [Hs H2]. split; [done|]. rewrite H2, H1. solve_Permutation. Qed.

Lemma settles_owes n a a' : settles a a' → sound n a → owes n [] a a'.
Proof. intros Hs [Hn He]. split; [|by apply Hs]. split; [by apply Hs|by eapply settles_endpoints]. Qed.

(** The same endpoints and outcomes. *)
Definition same_books a a' : Prop := link_endpoints a' = link_endpoints a ∧ events a' = events a.

Lemma same_books_owes n a a' : same_books a a' → actor_ok n a' → endpoints_ok a → owes n [] a a'.
Proof. intros [He Hv] Ha Ho. unfold owes, sound, endpoints_ok, ledger, answered. by rewrite He, Hv. Qed.

Lemma packet_nonempty l raw : packet_for l raw → raw ≠ [].
Proof. intros [Hb _ (h & off & Hu & _)]. by destruct (unpack_parsed raw h off Hb Hu) as [[[_ ?] _]%parsed_frame _]. Qed.

Lemma sends_books a id raw a' out : sends a id raw a' out → same_books a a'.
Proof. intros []; [done|]. by destruct link_id. Qed.

Lemma send_raw_total n a id l r raw :
  actor_ok n a → bytes_ok raw → raw ≠ [] →
  ∃ a' out, try_send_link_endpoint_raw a id l r raw = Ok (a', out) ∧ actor_ok n a' ∧ same_books a a' ∧
    (out ≠ OutSent → a' = a).
Proof.
  intros Ha Hb Hne. unfold try_send_link_endpoint_raw.
  assert (Hl : ∀ tx i, ∃ a' out, try_send_local a tx i raw = (a', out) ∧ actor_ok n a' ∧ same_books a a' ∧
    (out ≠ OutSent → a' = a)).
  { intros [tx|] i; [|by eexists _, _]. unfold try_send_local, try_deliver. destruct (try_send _ _) as [c []];
      (eexists _, _; split; [done|]); [|done..]. by destruct Ha. }
  assert (Hm : ∃ a' out, Ok (E:=Empty_set) (a, OutMissing) = Ok (a', out) ∧ actor_ok n a' ∧ same_books a a' ∧
    (out ≠ OutSent → a' = a)) by by eexists _, _.
  case_match; [|case_match].
  - destruct r; [|done]. destruct (Hl (snd <$> local_link_routes a !! l) LOCAL_LINK_RESPONDER_INTERFACE) as (a' & out & -> & ?).
    by eexists _, _.
  - destruct r; [done|]. destruct (Hl (fst <$> local_link_routes a !! l) LOCAL_LINK_INITIATOR_INTERFACE) as (a' & out & -> & ?).
    by eexists _, _.
  - destruct (try_send_total a id raw (ok_ifaces n a Ha) Hb Hne) as (a' & out & -> & Hs).
    exists a', out. split; [done|]. split; [|split; [by eapply sends_books|by inversion Hs]].
    destruct (decide (out = OutSent)) as [->|]; [by destruct (sends_ok n a id raw a' Ha Hs)|by inversion Hs; subst].
Qed.

Lemma mangled_packet n a l raw h off :
  actor_ok n a → packet_for l raw → header_unpack raw = Ok (h, off) →
  ∃ raw', mangle_hops a raw h false = @Ok Empty_set _ raw' ∧ packet_for l raw' ∧ raw' = <[1%nat := local_hops_delta a]> raw.
Proof.
  intros Ha [Hb Hm (h' & off' & Hu & Hd & Ht)] Hu'. rewrite Hu in Hu'. injection Hu' as -> ->.
  destruct (unpack_parsed raw h off Hb Hu) as [[_ Hl]%parsed_frame _]. unfold mangle_hops, set_byte1.
  rewrite decide_True by lia. eexists. split; [done|]. split; [|done].
  destruct (put_hops_carries raw h off (local_hops_delta a) Hb Hu (ok_delta n a Ha)) as [Cb Cp _ Ce _].
  unfold essence in Ce. rewrite !pair_eq in Ce. destruct Ce as ((((Ct & _) & _) & Cd) & _).
  split; [done|by rewrite length_insert|]. eexists _, _. split; [exact Cp|]. by rewrite Cd, Ct.
Qed.

Lemma prepare_total n a l id q :
  actor_ok n a → bytes_ok (or_raw q) →
  ∃ a' o, prepare_link_endpoint_packet a l id q = Ok (a', o) ∧ actor_ok n a' ∧ same_books a a' ∧
    ∀ raw, o = Some raw → packet_for l raw ∧ (raw = or_raw q ∨ raw = <[1%nat := local_hops_delta a]> (or_raw q)).
Proof.
  intros Ha Hb. unfold prepare_link_endpoint_packet.
  match goal with |- context [if ?c then _ else _] => destruct c eqn:Hc end; [by eexists _, None|].
  case_decide; [by eexists _, None|].
  pose proof (header_unpack_no_panic (or_raw q) Hb) as Hp.
  destruct (header_unpack (or_raw q)) as [[h off]| |] eqn:Hu; [|by eexists _, None|done]. cbn [res_ok res_bind].
  destruct (decide (Wire.destination_hash h ≠ l ∨ destination_type (flags h) ≠ Link)) as [|Hd]; [by eexists _, None|].
  apply orb_false_iff in Hc as [Hc%Z.ltb_ge _].
  assert (Hpf : packet_for l (or_raw q)).
  { split; [done|unfold len in Hc; lia|]. exists h, off. split; [done|]. split; apply dec_stable; tauto. }
  pose proof (packet_nonempty _ _ Hpf) as Hne.
  destruct (packet_hash_total (E:=Empty_set) (or_raw q) (header_type (flags h)) Hne) as (x & -> & _). cbn [res_bind].
  set (a1 := upd_packet_hashlist _ _). assert (Ha1 : actor_ok n a1) by (destruct Ha; by constructor).
  assert (Hs : same_books a a1) by done. assert (Hdelta : local_hops_delta a1 = local_hops_delta a) by done. clearbody a1.
  case_match.
  - destruct (mangled_packet n a1 l (or_raw q) h off Ha1 Hpf Hu) as (raw & -> & Hpf' & ->). cbn [res_bind].
    eexists _, _. split; [done|]. split; [done|]. split; [done|]. intros ? [= <-]. rewrite Hdelta in Hpf' |- *. auto.
  - eexists _, _. split; [done|]. split; [done|]. split; [done|]. intros ? [= <-]. auto.
Qed.

Lemma prune_spec n v t a q a' q' :
  actor_ok n a → prune v t a q = (a', q') →
  actor_ok n a' ∧ link_endpoints a' = link_endpoints a ∧ wires a' = wires a ∧ interfaces a' = interfaces a ∧
  sublist q' q ∧ tracked q' ++ ledger a' ≡ₚ tracked q ++ ledger a.
Proof.
  revert a a' q'. induction q as [|p q IH]; intros a a' q' Ha; cbn [prune]; [by intros [= <- <-]|].
  destruct (packet_terminal v t p) as [[c o]|] eqn:Hp.
  - intros Hr. assert (Ha1 : actor_ok n (emit (EvCompletion c o) a)) by (destruct Ha; by constructor).
    destruct (IH _ _ _ Ha1 Hr) as (? & ? & ? & ? & Hsub & Hl). split_and!; try done; [by constructor|].
    rewrite Hl, ledger_emit. unfold packet_terminal in Hp. unfold tracked. cbn.
    destruct (qp_completion p) as [c'|]; [|done]. cbn in Hp. destruct (terminal_before_admission _); [|done].
    injection Hp as <- _. solve_Permutation.
  - destruct (prune v t a q) as [a1 q1] eqn:Hr. intros [= <- <-].
    destruct (IH _ _ _ Ha Hr) as (? & ? & ? & ? & Hsub & Hl). split_and!; try done; [by constructor|].
    unfold tracked in *. cbn. destruct (qp_completion p); cbn; [by f_equiv|done].
Qed.
(** Answering a completion after a step that left the books alone. *)
Lemma answer_books n a a1 c o :
  actor_ok n a1 → same_books a a1 →
  actor_ok n (emit (EvCompletion c o) a1) ∧ link_endpoints (emit (EvCompletion c o) a1) = link_endpoints a ∧
  ledger (emit (EvCompletion c o) a1) ≡ₚ option_list (Some c) ++ ledger a.
Proof.
  intros Ha1 [He Hv]. split; [by destruct Ha1|]. split; [done|]. rewrite ledger_emit. unfold ledger, answered. by rewrite He, Hv.
Qed.

Lemma drain_loop_total n v t a b q :
  actor_ok n a → Forall (λ p, packet_for (b_link_id b) (qp_raw p)) q →
  ∃ a' q' stop, drain_loop v t a b q = Ok (a', q', stop) ∧ actor_ok n a' ∧ link_endpoints a' = link_endpoints a ∧
    q' `suffix_of` q ∧ tracked q' ++ ledger a' ≡ₚ tracked q ++ ledger a ∧
    match stop with None => q' = [] | Some out => out ≠ OutSent ∧ out ≠ OutTooLarge end.
Proof.
  revert a. induction q as [|p q IH]; intros a Ha Hq; [by exists a, [], None|].
  apply Forall_cons in Hq as [Hp Hq]. cbn [drain_loop].
  (* a turn that takes the head off and answers [c] *)
  assert (Hturn : ∀ a1, actor_ok n a1 → link_endpoints a1 = link_endpoints a →
    ledger a1 ≡ₚ option_list (qp_completion p) ++ ledger a →
    ∃ a' q' stop, drain_loop v t a1 b q = Ok (a', q', stop) ∧ actor_ok n a' ∧ link_endpoints a' = link_endpoints a ∧
      q' `suffix_of` p :: q ∧ tracked q' ++ ledger a' ≡ₚ tracked (p :: q) ++ ledger a ∧
      match stop with None => q' = [] | Some out => out ≠ OutSent ∧ out ≠ OutTooLarge end).
  { intros a1 Ha1 He Hl. destruct (IH a1 Ha1 Hq) as (a' & q' & stop & -> & ? & Hle & Hsuf & Hled & ?).
    eexists _, _, _. split; [done|]. split; [done|]. split; [congruence|]. split; [by apply suffix_cons_r|].
    split; [|done]. rewrite Hled, Hl. unfold tracked. cbn. destruct (qp_completion p); cbn; solve_Permutation. }
  destruct (packet_terminal v t p) as [[c o]|] eqn:Ht.
  { unfold packet_terminal in Ht. destruct (qp_completion p) as [c'|] eqn:Hc; [|done]. cbn in Ht.
    destruct (terminal_before_admission _); [|done]. injection Ht as <- _.
    destruct (answer_books n a a c' o Ha) as (? & ? & ?); [done|]. by apply Hturn. }
  destruct (send_raw_total n a (b_interface_id b) (b_link_id b) (b_role b) (qp_raw p) Ha (pf_bytes _ _ Hp)
    (packet_nonempty _ _ Hp)) as (a1 & out & -> & Ha1 & Hs & Hout). cbn [res_bind].
  destruct out; try (rewrite Hout in * by done; exists a, (p :: q); eexists; by split_and!).
  - destruct (qp_completion p) as [c|] eqn:Hc.
    + destruct (pf_header _ _ Hp) as (h & off & -> & _).
      destruct (packet_hash_total (E:=Empty_set) (qp_raw p) (header_type (flags h)) (packet_nonempty _ _ Hp)) as (x & -> & _).
      cbn [res_bind]. destruct (answer_books n a a1 c (DispatchSent x (instant (ee_env v))) Ha1 Hs) as (? & ? & ?). by apply Hturn.
    + destruct Hs as [He Hv]. apply Hturn; [done|done|]. unfold ledger, answered. by rewrite He, Hv.
  - rewrite Hout in * by done. unfold complete. destruct (qp_completion p) as [c|] eqn:Hc.
    + destruct (answer_books n a a c (DispatchRejected InvalidPacket) Ha) as (? & ? & ?); [done|]. by apply Hturn.
    + by apply Hturn.
Qed.
(** The endpoint [key] of [a] is out of the table in [b], with [e] in hand. *)
Record holding (n : Z) a (key : endpoint_key) b (e : LinkEndpointEntry) : Prop := mkHolding {
  ho_ok : actor_ok n b;
  ho_rest : link_endpoints b = delete key (link_endpoints a);
  ho_ledger : tracked (ep_egress e) ++ ledger b ≡ₚ ledger a;
}.

Lemma take_out n a key e :
  actor_ok n a → link_endpoints a !! key = Some e → holding n a key (upd_link_endpoints (delete key) a) e.
Proof. intros Ha Hk. split; [by destruct Ha|done|]. by rewrite <- ledger_delete. Qed.

Lemma holding_finish n a key b e env reason :
  holding n a key b e → endpoints_ok a → owes n [] a (finish_link_endpoint_terminal env b e reason 0).
Proof.
  intros [Ho Hr Hl] Ha. destruct (finish_settles env b e reason) as (F1 & F2 & F3). split.
  - split; [auto|]. intros k x Hk. eapply lookup_weaken in Hk; [|exact F2]. rewrite Hr in Hk.
    apply lookup_delete_Some in Hk as [_ Hk]. by apply Ha.
  - by rewrite F3, Hl.
Qed.

Lemma holding_set n a key b e :
  holding n a key b e → endpoints_ok a → endpoint_ok key e → owes n [] a (set_endpoint key e b).
Proof.
  intros [Ho Hr Hl] Ha He. split.
  - split; [by destruct Ho|]. apply map_Forall_insert_2; [done|]. rewrite Hr. by apply map_Forall_delete.
  - rewrite ledger_set; [done|]. rewrite Hr. apply lookup_delete_eq.
Qed.

Lemma endpoint_ok_shorter k e q : endpoint_ok k e → sublist q (ep_egress e) → endpoint_ok k (upd_egress (λ _, q) e).
Proof.
  intros [] Hs. split; [done|done| |].
  - etrans; [|exact eo_capacity0]. by apply sublist_length.
  - eapply sublist_Forall; done.
Qed.

Lemma drain_one_total n v t a key :
  sound n a →
  ∃ a' r, drain_one_link_endpoint v t a key = Ok (a', r) ∧ owes n [] a a' ∧
    ∀ e, link_endpoints a !! key = Some e → ep_unbind_after_drain e = false → r = None →
      ∃ q, link_endpoints a' !! key = Some (upd_egress (λ _, q) e).
Proof.
  intros [Ha Ho]. unfold drain_one_link_endpoint. destruct (link_endpoints a !! key) as [e|] eqn:Hk.
  2: { eexists _, _. split; [done|]. split; [by apply settles_owes|done]. }
  pose proof (Ho key e Hk) as He. pose proof (take_out n a key e Ha Hk) as Ht.
  set (a0 := upd_link_endpoints (delete key) a) in *. clearbody a0.
  match goal with |- context [if ?c then Ok _ else _] => destruct c end.
  { eexists _, _. split; [done|]. split; [by eapply holding_finish|done]. }
  destruct (prune v t a0 (ep_egress e)) as [a1 q1] eqn:Hp.
  destruct (prune_spec n v t a0 _ a1 q1 (ho_ok _ _ _ _ _ Ht) Hp) as (Ha1 & He1 & _ & _ & Hs1 & Hl1).
  assert (Hq1 : Forall (λ p, packet_for (b_link_id (ep_binding e)) (qp_raw p)) q1).
  { rewrite (eo_link _ _ He). eapply sublist_Forall; [exact Hs1|apply He]. }
  destruct (drain_loop_total n v (S t) a1 (ep_binding e) q1 Ha1 Hq1) as (a2 & q2 & stop & -> & Ha2 & He2 & Hs2 & Hl2 & Hstop).
  cbn [res_bind]. set (e' := upd_egress (λ _, q2) e).
  assert (He' : endpoint_ok key e').
  { apply endpoint_ok_shorter; [done|]. etrans; [by apply suffix_sublist|done]. }
  assert (Hh : holding n a key a2 e').
  { destruct Ht as [_ Hr Hl]. split; [done|by rewrite He2, He1|]. cbn. by rewrite Hl2, Hl1. }
  destruct stop as [out|].
  - destruct (terminal_reason_for_interface_outcome out) as [reason|] eqn:Hreason.
    + assert (Hf : owes n [] a (if interface_failed out (b_interface_id (ep_binding e'))
        then deregister_interface_with_link_reason (ee_env v) (finish_link_endpoint_terminal (ee_env v) a2 e' reason 0)
               (b_interface_id (ep_binding e')) reason
        else finish_link_endpoint_terminal (ee_env v) a2 e' reason 0)).
      { pose proof (holding_finish n a key a2 e' (ee_env v) reason Hh Ho) as Hfin. case_match; [|done].
        eapply (owes_trans n [] []); [exact Hfin|]. apply settles_owes; [apply removal_settles|apply Hfin]. }
      destruct out; try done; eexists _, _; (split; [done|]; split; [exact Hf|done]).
    + destruct out; try done; try tauto. eexists _, _. split; [done|]. split; [by apply holding_set|].
      intros ? [= <-] _ _. exists q2. apply lookup_insert_eq.
  - eexists _, _. split; [done|]. split; [|].
    + case_match; [by eapply holding_finish|by apply holding_set].
    + intros ? [= <-] Hu _. change (ep_unbind_after_drain e') with (ep_unbind_after_drain e). rewrite Hu.
      exists q2. apply lookup_insert_eq.
Qed.
(** *** The operations *)

Lemma owes_settle n cs a b c : owes n cs a b → settles b c → owes n cs a c.
Proof.
  intros Hab Hbc. replace cs with (cs ++ []) by apply app_nil_r. eapply owes_trans; [exact Hab|].
  apply settles_owes; [done|apply Hab].
Qed.

Lemma retire_settles v t a key : settles a (retire_unpublished_link_endpoint v t a key).
Proof. unfold retire_unpublished_link_endpoint. repeat case_match; try done. apply terminate_settles. Qed.

Lemma replace_owes n a k e e' :
  sound n a → link_endpoints a !! k = Some e → tracked (ep_egress e') = tracked (ep_egress e) → endpoint_ok k e' →
  owes n [] a (set_endpoint k e' a).
Proof.
  intros [Ha Ho] Hk Ht He. split; [|by eapply ledger_replace]. split; [by destruct Ha|]. by apply map_Forall_insert_2.
Qed.

Lemma enqueue_total n v a key raw :
  sound n a → is_Some (link_endpoints a !! key) → packet_for key.1 raw →
  ∃ a' r, enqueue_link_endpoint_packet v a key raw = Ok (a', r) ∧ owes n [] a a'.
Proof.
  intros Hs [e Hk] Hp. unfold enqueue_link_endpoint_packet, endpoint_at. rewrite Hk. cbn [res_bind].
  pose proof (proj2 Hs key e Hk) as [He1 He2 He3 He4]. destruct (Nat.leb_spec LINK_ENDPOINT_EGRESS_QUEUE_CAPACITY (length (ep_egress e))) as [|Hlt].
  - eexists _, _. split; [done|]. by apply settles_owes; [apply terminate_settles|].
  - eexists _, _. split; [done|]. eapply replace_owes; [done|done| |].
    + unfold tracked. cbn. rewrite omap_app. cbn. apply app_nil_r.
    + split; [done|done|cbn; rewrite length_app; cbn; lia|]. cbn. apply Forall_app. split; [done|]. constructor; [exact Hp|constructor].
Qed.

Lemma end_total n v a key id out :
  sound n a → out ≠ OutSent → out ≠ OutFull → out ≠ OutTooLarge →
  ∃ a' r, end_after_send v a key id out = Ok (a', r) ∧ owes n [] a a'.
Proof.
  intros Hs ???. unfold end_after_send. destruct (terminal_reason_for_interface_outcome out) as [r|] eqn:Hr.
  - eexists _, _. split; [done|]. case_match; apply settles_owes; try done; [apply removal_settles|apply terminate_settles].
  - by destruct out.
Qed.

Lemma owes_refl n cs a a' b : owes n cs a a' → owes n [] a' b → owes n cs a b.
Proof. intros H1 H2. rewrite <- (app_nil_r cs). by eapply owes_trans. Qed.

Lemma prepare_owes n a l id q :
  sound n a → bytes_ok (or_raw q) →
  ∃ a' o, prepare_link_endpoint_packet a l id q = Ok (a', o) ∧ owes n [] a a' ∧
    link_endpoints a' = link_endpoints a ∧ ∀ raw, o = Some raw → packet_for l raw.
Proof.
  intros Hs Hb. destruct (prepare_total n a l id q (proj1 Hs) Hb) as (a' & o & -> & Ha & Hbk & Hp).
  exists a', o. split; [done|]. split; [by apply same_books_owes; [..|apply Hs]|]. split; [apply Hbk|].
  intros raw Hr. by destruct (Hp raw Hr).
Qed.

Lemma send_raw_owes n a id l r raw :
  sound n a → packet_for l raw →
  ∃ a' out, try_send_link_endpoint_raw a id l r raw = Ok (a', out) ∧ owes n [] a a' ∧
    link_endpoints a' = link_endpoints a.
Proof.
  intros Hs Hp. destruct (send_raw_total n a id l r raw (proj1 Hs) (pf_bytes _ _ Hp) (packet_nonempty _ _ Hp))
    as (a' & out & -> & Ha & Hb & _).
  exists a', out. split; [done|]. split; [by apply same_books_owes; [..|apply Hs]|apply Hb].
Qed.

(** The endings of a send that keep the account. *)
Ltac reply := eexists _, _; split; [reflexivity|].
Ltac ends Ho :=
  match goal with |- context [end_after_send ?v ?b ?k ?i ?o] =>
    let Hx := fresh in
    destruct (end_total _ v b k i o (proj1 Ho)) as (? & ? & -> & Hx); [done..|];
    reply; eapply owes_refl; [exact Ho|exact Hx]
  end.

Lemma send_endpoint_total n v a l r q :
  sound n a → bytes_ok (or_raw q) → ∃ a' x, send_link_endpoint v a l r q = Ok (a', x) ∧ owes n [] a a'.
Proof.
  intros Hs Hb. unfold send_link_endpoint.
  pose proof (settles_owes n _ _ (retire_settles v 0 a (l, r)) Hs) as H1.
  set (a1 := retire_unpublished_link_endpoint v 0 a (l, r)) in *. clearbody a1.
  destruct (link_endpoints a1 !! (l, r)) as [e|] eqn:Hk; [|by reply].
  destruct (ep_unbind_after_drain e) eqn:Hu; [by reply|].
  assert (∃ a2 o, (if decide (ep_egress e = []) then Ok (a1, None) else drain_one_link_endpoint v 1 a1 (l, r)) = Ok (a2, o) ∧
    owes n [] a a2 ∧ (o = None → is_Some (link_endpoints a2 !! (l, r)))) as (a2 & o & -> & H2 & Hk2).
  { case_decide; [by reply|]. destruct (drain_one_total n v 1 a1 (l, r) (proj1 H1)) as (a2 & o & -> & Hd & Hx).
    reply. split; [by eapply owes_refl|]. intros ->. by destruct (Hx e Hk Hu eq_refl) as [? ->]. }
  cbn [res_bind]. destruct o as [reason|]; [by reply|]. destruct (Hk2 eq_refl) as [e2 He2].
  unfold endpoint_at. rewrite He2. cbn [res_bind]. case_match.
  { reply. eapply owes_settle; [done|apply terminate_settles]. }
  destruct (prepare_owes n a2 l (b_interface_id (ep_binding e)) q (proj1 H2) Hb) as (a3 & p & -> & H3 & He3 & Hp).
  cbn [res_bind]. pose proof (owes_refl n [] a a2 a3 H2 H3) as H3'. rewrite <- He3 in He2.
  destruct p as [raw|]; [|by reply]. rewrite He2. specialize (Hp raw eq_refl).
  assert (Henq : ∀ b, owes n [] a b → is_Some (link_endpoints b !! (l, r)) →
    ∃ a' x, enqueue_link_endpoint_packet v b (l, r) raw = Ok (a', x) ∧ owes n [] a a').
  { intros b Hab Hb'. destruct (enqueue_total n v b (l, r) raw (proj1 Hab) Hb' Hp) as (a' & x & -> & Hx).
    reply. by eapply owes_refl. }
  case_decide; [|apply Henq; [done|by rewrite He2]].
  destruct (send_raw_owes n a3 (b_interface_id (ep_binding e)) l r raw (proj1 H3') Hp) as (a4 & out & -> & H4 & He4).
  cbn [res_bind]. pose proof (owes_refl n [] a a3 a4 H3' H4) as H4'.
  destruct out; try (by reply); [apply Henq; [done|by rewrite He4, He2]|ends H4'..].
Qed.

Lemma send_and_unbind_total n v a l r q :
  sound n a → bytes_ok (or_raw q) → ∃ a' x, send_link_endpoint_and_unbind v a l r q = Ok (a', x) ∧ owes n [] a a'.
Proof.
  intros Hs Hb. unfold send_link_endpoint_and_unbind.
  destruct (send_endpoint_total n v a l r q Hs Hb) as (a1 & x & -> & H1). cbn [res_bind].
  destruct (link_endpoints a1 !! (l, r)) as [e|] eqn:He; [|destruct x; by reply].
  destruct x; try by reply.
  - reply. eapply owes_settle; [exact H1|]. etrans; [by apply notify_settles|apply destination_settles].
  - reply. eapply owes_refl; [exact H1|]. eapply replace_owes; [apply H1|done|done|].
    destruct (proj2 (proj1 H1) (l, r) e He) as []. by split.
Qed.

Lemma best_effort_total n v a l r q :
  sound n a → bytes_ok (or_raw q) → ∃ a' x, send_link_endpoint_best_effort v a l r q = Ok (a', x) ∧ owes n [] a a'.
Proof.
  intros Hs Hb. unfold send_link_endpoint_best_effort.
  pose proof (settles_owes n _ _ (retire_settles v 0 a (l, r)) Hs) as H1.
  set (a1 := retire_unpublished_link_endpoint v 0 a (l, r)) in *. clearbody a1.
  destruct (link_endpoints a1 !! (l, r)) as [e|] eqn:Hk; [|by reply].
  destruct (ep_unbind_after_drain e) eqn:Hu; [by reply|]. case_decide; [by reply|].
  destruct (prepare_owes n a1 l (b_interface_id (ep_binding e)) q (proj1 H1) Hb) as (a3 & p & -> & H3 & He3 & Hp).
  cbn [res_bind]. pose proof (owes_refl n [] a a1 a3 H1 H3) as H3'. rewrite <- He3 in Hk.
  destruct p as [raw|]; [|by reply]. rewrite Hk. specialize (Hp raw eq_refl).
  destruct (send_raw_owes n a3 (b_interface_id (ep_binding e)) l r raw (proj1 H3') Hp) as (a4 & out & -> & H4 & He4).
  cbn [res_bind]. pose proof (owes_refl n [] a a3 a4 H3' H4) as H4'.
  destruct out; try (by reply); [|ends H4'..].
  reply. eapply owes_refl; [exact H4'|]. apply same_books_owes; [done| |apply H4'].
  apply (actor_ok_transfer n a4); [apply H4'|done| |done|done|eauto].
  apply map_Forall_alter; [apply (proj1 H4')|]. intros x []. by constructor.
Qed.
Lemma exact_total n v a b g q :
  sound n a → bytes_ok (or_raw q) → ∃ a' x, send_link_endpoint_exact v a b g q = Ok (a', x) ∧ owes n [] a a'.
Proof.
  intros Hs Hb. unfold send_link_endpoint_exact.
  pose proof (settles_owes n _ _ (retire_settles v 10 a (b_link_id b, b_role b)) Hs) as H1.
  set (a1 := retire_unpublished_link_endpoint v 10 a _) in *. clearbody a1.
  match goal with |- context [if ?c then _ else _] => destruct c end; [|by reply].
  destruct (send_endpoint_total n v a1 (b_link_id b) (b_role b) q (proj1 H1) Hb) as (a' & x & -> & Hx).
  reply. by eapply owes_refl.
Qed.

Lemma available_total a b : ∃ x, link_endpoint_interface_available a b = Ok x.
Proof.
  unfold link_endpoint_interface_available. cbv zeta.
  case_match; [by case_match; eexists|]. case_match; [by case_match; eexists|].
  destruct (interfaces a !! b_interface_id b) as [e|]; [|by eexists].
  match goal with |- context [if negb ?c then _ else _] => destruct c end; cbn [negb]; [|by eexists].
  pose proof (link_ceiling_no_panic (packet_capacity (if_entry e)) (b_interface_id b) (active_ifac_bytes (if_entry e))).
  unfold entry_link_ceiling. destruct (link_ceiling _ _ _); [by eexists..|done].
Qed.

Lemma bind_total n v t a b lc g :
  sound n a → ∃ a' x, bind_link_endpoint v t a b lc g = Ok (a', x) ∧ owes n [] a a' ∧
    (x = Bound → ∃ e, link_endpoints a' !! (b_link_id b, b_role b) = Some e).
Proof.
  intros Hs. unfold bind_link_endpoint. set (key := (b_link_id b, b_role b)).
  pose proof (settles_owes n _ _ (retire_settles v t a key) Hs) as H1.
  set (a1 := retire_unpublished_link_endpoint v t a key) in *. clearbody a1.
  destruct (link_endpoints a1 !! key) as [e|] eqn:Hk; [reply; split; [done|by case_decide]|].
  destruct (available_total a1 b) as [[] ->]; cbn [res_bind negb]; [|by reply].
  reply. split; [|intros _; eexists; apply lookup_insert_eq]. eapply owes_refl; [exact H1|]. split.
  - split; [by destruct H1 as [[[] _] _]|]. apply map_Forall_insert_2; [|apply H1]. split; try done. cbn. lia.
  - by rewrite ledger_set.
Qed.

Lemma unbind_owes n v a l r : sound n a → owes n [] a (unbind_link_endpoint v a l r).1.
Proof.
  intros Hs. unfold unbind_link_endpoint. destruct (link_endpoints a !! (l, r)) as [e|] eqn:Hk; [|by apply settles_owes].
  eapply holding_finish; [by apply take_out; [apply Hs|]|apply Hs].
Qed.

Lemma dispatch_bind_total n v a b lc g p closed :
  sound n a → ∃ a' x, dispatch_bind v a b lc g p closed = Ok (a', x) ∧ owes n [] a a'.
Proof.
  intros Hs. unfold dispatch_bind. case_match; [by reply; apply settles_owes|].
  destruct (bind_total n v 1 a b lc g Hs) as (a1 & x & -> & H1 & Hx). cbn [res_bind].
  destruct x; try by reply. destruct (Hx eq_refl) as [e He]. unfold endpoint_at. rewrite He. cbn [res_bind].
  reply. eapply owes_settle; [|apply retire_settles]. eapply owes_refl; [exact H1|].
  eapply replace_owes; [apply H1|exact He|done|]. destruct (proj2 (proj1 H1) _ e He) as []. by split.
Qed.

Lemma drain_each_total n v t a keys : sound n a → ∃ a', drain_each v t a keys = Ok a' ∧ owes n [] a a'.
Proof.
  revert t a. induction keys as [|k keys IH]; intros t a Hs; cbn [drain_each].
  { eexists. split; [done|]. by apply settles_owes. }
  destruct (drain_one_total n v t a k Hs) as (a1 & r & -> & H1 & _). cbn [res_bind].
  destruct (IH (t + 2)%nat a1 (proj1 H1)) as (a' & -> & Hx). eexists. split; [done|]. by eapply owes_refl.
Qed.

Lemma emit_owes n cs a b c o : owes n cs a b → owes n (c :: cs) a (emit (EvCompletion c o) b).
Proof.
  intros [[Ho He] Hl]. split; [split; [by destruct Ho|done]|]. by rewrite ledger_emit, Hl.
Qed.

(** A tracked packet joins a queue that has room. *)
Lemma append_owes n a b key e raw c :
  owes n [] a b → link_endpoints b !! key = Some e → (length (ep_egress e) < LINK_ENDPOINT_EGRESS_QUEUE_CAPACITY)%nat →
  packet_for key.1 raw →
  owes n [c] a (set_endpoint key (upd_egress (λ q, q ++ [mkQueued raw (Some c)]) e) b).
Proof.
  intros [[Hs Ho] Hl] Hk Hlt Hp. pose proof (Ho key e Hk) as [E1 E2 E3 E4]. split.
  - split; [by destruct Hs|]. apply map_Forall_insert_2; [|done]. split; [done|done|cbn; rewrite length_app; cbn; lia|].
    cbn. apply Forall_app. split; [done|]. constructor; [exact Hp|constructor].
  - rewrite <- Hl. unfold ledger, answered. cbn.
    rewrite <- (insert_delete_eq (link_endpoints b)), held_insert by apply lookup_delete_eq.
    rewrite (held_delete _ key e Hk). unfold tracked. cbn. rewrite omap_app. cbn. solve_Permutation.
Qed.

(** A tracked send takes on exactly its completion. *)
Lemma dispatch_send_total n v a b g q c :
  sound n a → bytes_ok (or_raw q) → ∃ a', dispatch_send v a b g q c = Ok a' ∧ owes n [c] a a'.
Proof.
  intros Hs Hb. unfold dispatch_send.
  assert (Hr : ∀ a1 o, owes n [] a a1 → ∃ a', Ok (E:=Empty_set) (emit (EvCompletion c o) a1) = Ok a' ∧ owes n [c] a a')
    by (intros a1 o H1; eexists; split; [done|]; by apply emit_owes).
  destruct (terminal_before_admission _); [by apply Hr, settles_owes|]. set (key := (b_link_id b, b_role b)).
  pose proof (settles_owes n _ _ (retire_settles v 0 a key) Hs) as H1.
  set (a1 := retire_unpublished_link_endpoint v 0 a key) in *. clearbody a1.
  destruct (link_endpoints a1 !! key) as [e|] eqn:Hk; [|by apply Hr].
  destruct (negb _); [by apply Hr|]. destruct (ep_unbind_after_drain e) eqn:Hu; [by apply Hr|].
  destruct (drain_one_total n v 1 a1 key (proj1 H1)) as (a2 & r & -> & H2 & Hx). cbn [res_bind].
  pose proof (owes_refl n [] a a1 a2 H1 H2) as H2'. destruct r as [reason|]; [by apply Hr|].
  destruct (Hx e Hk Hu eq_refl) as [q2 He2]. unfold endpoint_at. rewrite He2. cbn [res_bind].
  destruct (Nat.leb_spec LINK_ENDPOINT_EGRESS_QUEUE_CAPACITY (length (ep_egress (upd_egress (λ _, q2) e)))) as [|Hlt].
  { apply Hr. eapply owes_settle; [exact H2'|apply terminate_settles]. }
  destruct (prepare_owes n a2 (b_link_id b) (b_interface_id b) q (proj1 H2') Hb) as (a3 & p & -> & H3 & He3 & Hp).
  cbn [res_bind]. pose proof (owes_refl n [] a a2 a3 H2' H3) as H3'. destruct p as [raw|]; [|by apply Hr].
  rewrite <- He3 in He2. rewrite He2. cbn [res_bind].
  pose proof (append_owes n a a3 key _ raw c H3' He2 Hlt (Hp raw eq_refl)) as H4.
  destruct (drain_one_total n v 3 _ key (proj1 H4)) as (a5 & r & -> & H5 & _). cbn [res_bind].
  eexists. split; [done|]. by eapply owes_refl.
Qed.

Lemma lost_owes n env a : sound n a → owes n [] a (shared_connection_lost env a).
Proof.
  intros Hs. unfold shared_connection_lost. set (a1 := terminate_shared_peer_link_endpoints env a).
  assert (H1 : owes n [] a a1).
  { apply settles_owes; [|done]. apply foldl_settles. intros. apply interface_settles. }
  clearbody a1. eapply owes_refl; [exact H1|]. destruct H1 as [[Ha Ho] _]. apply same_books_owes; [| |done].
  - unfold clear_shared_connection_state. cbv zeta. split; reflexivity.
  - apply (actor_ok_transfer n a1); [done|reflexivity|apply Ha| | |].
    + intros P _. split; apply map_Forall_empty.
    + intros P _ k d tp Hk. discriminate Hk.
    + intros k e Hk. assert (PathTable.get path_table_new k = None) as Hn by apply lookup_empty.
      unfold PathTable.get in *. cbn in Hk, Hn. by rewrite Hn in Hk.
Qed.
(** *** Runs *)

Definition request_of (m : EndpointMessage) : option OutboundRequest :=
  match m with
  | SendLinkEndpoint _ _ q | SendLinkEndpointExact _ _ q | SendLinkEndpointAndUnbind _ _ q
  | SendLinkEndpointBestEffort _ _ q | DispatchSend _ _ q _ => Some q
  | _ => None
  end.

Definition message_ok (m : EndpointMessage) : Prop := ∀ q, request_of m = Some q → bytes_ok (or_raw q).

Definition completion_of (m : EndpointMessage) : option nat :=
  match m with DispatchSend _ _ _ c => Some c | _ => None end.

Definition submitted (ms : list (EndpointEnv * EndpointMessage)) : list nat := omap (completion_of ∘ snd) ms.

Lemma shutdown_settles v a reason : settles a (terminate_all_link_endpoints v a reason).
Proof. apply foldl_settles. intros. apply terminate_settles. Qed.

Lemma handle_endpoint_total n v a m :
  sound n a → message_ok m →
  ∃ a' r, handle_endpoint v a m = Ok (a', r) ∧ owes n (option_list (completion_of m)) a a'.
Proof.
  intros Hs Hm. destruct m; cbn [handle_endpoint completion_of option_list].
  - destruct (bind_total n v 0 a b lifecycle generation Hs) as (a' & x & -> & ? & _). by reply.
  - pose proof (unbind_owes n v a link_id role Hs). destruct (unbind_link_endpoint v a link_id role). by reply.
  - destruct (send_endpoint_total n v a link_id role request Hs (Hm _ eq_refl)) as (a' & x & -> & ?). by reply.
  - destruct (exact_total n v a b generation request Hs (Hm _ eq_refl)) as (a' & x & -> & ?). by reply.
  - destruct (send_and_unbind_total n v a link_id role request Hs (Hm _ eq_refl)) as (a' & x & -> & ?). by reply.
  - destruct (best_effort_total n v a link_id role request Hs (Hm _ eq_refl)) as (a' & x & -> & ?). by reply.
  - destruct (dispatch_bind_total n v a b lifecycle generation publication reply_closed Hs) as (a' & x & -> & ?). by reply.
  - destruct (dispatch_send_total n v a b generation request completion Hs (Hm _ eq_refl)) as (a' & -> & ?). by reply.
  - destruct (drain_each_total n v 0 a (endpoint_keys v a) Hs) as (a' & Hd & ?). unfold drain_link_endpoint_egress.
    rewrite Hd. by reply.
  - reply. by apply lost_owes.
  - reply. apply settles_owes; [apply shutdown_settles|done].
Qed.

Lemma run_total n a ms :
  sound n a → Forall (message_ok ∘ snd) ms →
  ∃ a' rs, run_endpoints a ms = Ok (a', rs) ∧ length rs = length ms ∧ sound n a' ∧ ledger a' ≡ₚ submitted ms ++ ledger a.
Proof.
  revert a. induction ms as [|[v m] ms IH]; intros a Hs Hm; [by exists a, []|].
  apply Forall_cons in Hm as [Hm Hms]. cbn [run_endpoints].
  destruct (handle_endpoint_total n v a m Hs Hm) as (a1 & r & -> & H1 & Hl1). cbn [res_bind].
  destruct (IH a1 H1 Hms) as (a' & rs & -> & Hlen & H2 & Hl2). cbn [res_bind]. eexists _, _. split; [done|].
  split; [by cbn; rewrite Hlen|]. split; [done|]. rewrite Hl2, Hl1. unfold submitted. cbn.
  destruct (completion_of m); cbn; solve_Permutation.
Qed.

(** Shutting down ends every endpoint. *)
Lemma terminate_removes env a k reason : link_endpoints (terminate_link_endpoint env a k reason) !! k = None.
Proof.
  unfold terminate_link_endpoint. destruct (size (link_endpoints a)) as [|m] eqn:Hsz.
  { cbn. by rewrite (map_size_empty_inv _ Hsz). }
  cbn [terminate_with_fuel]. destruct (link_endpoints a !! k) as [e|] eqn:Hk; [|done].
  assert (Hd : ∀ b, link_endpoints b ⊆ delete k (link_endpoints a) → link_endpoints b !! k = None).
  { intros b Hb. destruct (link_endpoints b !! k) eqn:E; [|done]. eapply lookup_weaken in E; [|exact Hb].
    by rewrite lookup_delete_eq in E. }
  case_match; [|by apply Hd]. apply Hd.
  match goal with |- context [deregister_destination_with ?f env ?b ?h] =>
    destruct (release_settles f env b h (λ a k r, terminate_fuel_settles m env a k r)) as [_ Hsub _] end.
  exact Hsub.
Qed.

Lemma terminate_all_gone f v ks a reason k :
  f = (λ a k, terminate_link_endpoint (ee_env v) a k reason) →
  k ∈ ks ∨ link_endpoints a !! k = None → link_endpoints (foldl f a ks) !! k = None.
Proof.
  intros ->. revert a. induction ks as [|x ks IH]; intros a Hk; [by destruct Hk as [?%elem_of_nil|]|].
  cbn [foldl]. apply IH. destruct Hk as [[->|]%elem_of_cons|Hn]; [right; apply terminate_removes|by left|right].
  destruct (terminate_settles (ee_env v) a x reason) as [_ Hsub _].
  set (a1 := terminate_link_endpoint (ee_env v) a x reason) in *.
  destruct (link_endpoints a1 !! k) eqn:E; [|done]. eapply lookup_weaken in E; [|exact Hsub]. congruence.
Qed.

Lemma shutdown_empties v a reason :
  (∀ k, is_Some (link_endpoints a !! k) → k ∈ endpoint_order (ee_env v)) →
  link_endpoints (terminate_all_link_endpoints v a reason) = ∅.
Proof.
  intros Hcov. apply map_empty. intros k. unfold terminate_all_link_endpoints.
  eapply terminate_all_gone; [done|]. destruct (link_endpoints a !! k) as [e|] eqn:Hk; [|by right]. left.
  unfold endpoint_keys. apply list_elem_of_filter. rewrite Hk. split; [eauto|]. apply Hcov. eauto.
Qed.
End endpoint_safe.
