(* ===== verification/EndpointOrder.v ===== *)
(** * Link endpoints: order and completion

    The theorems on runs of endpoint messages: queues stay bounded and nothing
    panics; every tracked packet is answered exactly once; the frames of an
    endpoint leave its interface in the order in which they were submitted. *)

From S2P Require Import Prelude F64 Wire Packet LinkSignalling Receipt Ifac Table Hashlist PathTable.
From S2P Require Import ReverseTable LinkTable Ownership LinkTransit Tunnel Identity Announce Ingress RateLimit Blackhole.
From S2P Require Import Actor ActorFacts Restore Forward RelayFrame RelayDemo Endpoint EndpointSafe.
From stdpp Require Import prelude gmap fin_maps functions list.

Open Scope Z_scope.

(** Frames with the endpoints they come from. *)
Abbreviation labelled := (list (endpoint_key * bytes)).

(** ** What a send puts on the wire *)

Section order.
Context `{M : Mpsc} `{ML : !MpscLaws M} `{D : Digest} `{!DigestLaws D} `{K : Hkdf} `{!HkdfLaws K}
  `{G : Ed25519Signer} `{!Ed25519SignerLaws G}.
Implicit Types a : Actor.

Lemma refusal_not_sent a id e raw l off out :
  local_request_refusal a id e raw l off = Ok (Some out) → out ≠ OutSent.
Proof. unfold local_request_refusal. intros Hs. ok_inv Hs; done. Qed.

Lemma wire_image_inv e raw data :
  (match ifac_key (if_entry e) with
   | Some key => res_ok (try_ifac_sign raw key (Z.to_nat (ifac_size (if_entry e))))
   | None => Ok (Some raw)
   end : io (option bytes)) = Ok data → wire_image e raw = data.
Proof.
  unfold wire_image. destruct (ifac_key (if_entry e)); [|by intros [= <-]].
  destruct (try_ifac_sign _ _ _); cbn; by intros [= <-].
Qed.

Lemma try_send_inv a id raw a' out : try_send_to_interface a id raw = Ok (a', out) → sends a id raw a' out.
Proof.
  unfold try_send_to_interface. destruct (interfaces a !! id) as [e|] eqn:He; [|by intros [= <- <-]; constructor].
  destruct (owner_current (owner (if_entry e))) eqn:Hcur; cbn [negb]; [|by intros [= <- <-]; constructor].
  destruct (accepts_clear_packet (if_entry e) (len raw)) eqn:Hacc; cbn [negb]; [|by intros [= <- <-]; constructor].
  case_match; [by intros [= <- <-]; constructor|].
  destruct (if_outbound e) eqn:Hout; cbn [negb]; [|by intros [= <- <-]; constructor].
  intros (hdr & _ & (b & _ & Hs)%res_bind_Ok_inv)%res_bind_Ok_inv.
  destruct (_ && negb b); [injection Hs as <- <-; by constructor|].
  apply res_bind_Ok_inv in Hs as (ro & _ & (refusal & Hr & Hs)%res_bind_Ok_inv).
  destruct refusal as [o|].
  { injection Hs as <- <-. constructor. destruct ro as [[l off]|]; [by eapply refusal_not_sent|done]. }
  apply res_bind_Ok_inv in Hs as (data & Hw%wire_image_inv & Hs).
  destruct data as [data|]; [|injection Hs as <- <-; by constructor].
  destruct (try_send (wires a (if_tx e)) data) as [c r] eqn:Ht. destruct r; injection Hs as <- <-; try by constructor.
  replace c with (try_send (wires a (if_tx e)) data).1 by by rewrite Ht.
  destruct ro as [[l off]|]; [apply (sends_sent a id raw e data (Some l))|apply (sends_sent a id raw e data None)];
    try done; by rewrite Ht.
Qed.

(** ** The line of an interface: the frames it took, and those waiting for it *)

Definition frames_of (k : endpoint_key) (l : labelled) : list bytes := (filter (λ p, p.1 = k) l).*2.

Lemma frames_of_app k l1 l2 : frames_of k (l1 ++ l2) = frames_of k l1 ++ frames_of k l2.
Proof. unfold frames_of. by rewrite filter_app, fmap_app. Qed.

Lemma frames_of_cons k p l : frames_of k (p :: l) = if decide (p.1 = k) then p.2 :: frames_of k l else frames_of k l.
Proof. unfold frames_of. rewrite filter_cons. by case_decide. Qed.

Lemma frames_of_labelled k j (l : list bytes) : frames_of k ((j,.) <$> l) = if decide (j = k) then l else [].
Proof.
  induction l as [|x l IH]; [by case_decide|]. rewrite fmap_cons, frames_of_cons, IH. cbn. by case_decide.
Qed.

Lemma labelled_frames (j : endpoint_key) (l : list bytes) : ((j,.) <$> l).*2 = l.
Proof. induction l as [|x l IH]; [done|]. by rewrite !fmap_cons, IH. Qed.

Section line.
Context (id : Z) (e0 : Iface).
Context (Hreal : is_local_link id = false).

Definition sent_frames a : list bytes := accepted (wires a (if_tx e0)).
Definition waiting (k : endpoint_key) a : list bytes :=
  match link_endpoints a !! k with
  | Some e => if decide (b_interface_id (ep_binding e) = id) then qp_raw <$> ep_egress e else []
  | None => []
  end.
Definition images (raws : list bytes) : list bytes := omap (wire_image e0) raws.

(** The interface, which writes to a queue of its own. *)
Record line_ok a : Prop := mkLineOk {
  lo_iface : ∀ e, interfaces a !! id = Some e → if_entry e = if_entry e0 ∧ if_tx e = if_tx e0;
  lo_queue : ∀ i e, interfaces a !! i = Some e → i ≠ id → if_tx e ≠ if_tx e0;
}.

(** How a step moves the line with [fs] submitted: the frames accepted
    meanwhile have an attribution to endpoints under which each endpoint's
    frames, followed by those still waiting, continue its queue in order. *)
Record moves (fs : labelled) a a' : Prop := mkMoves {
  mv_ifaces : ∀ i x', interfaces a' !! i = Some x' →
    ∃ x, interfaces a !! i = Some x ∧ if_entry x' = if_entry x ∧ if_tx x' = if_tx x;
  mv_delta : local_hops_delta a' = local_hops_delta a;
  mv_trace : ∃ tr : labelled, sent_frames a' = sent_frames a ++ tr.*2 ∧
    ∀ k, sublist (frames_of k tr ++ images (waiting k a')) (images (waiting k a) ++ images (frames_of k fs));
}.

(** The steps other than binding keep the bindings. *)
Record flows (fs : labelled) a a' : Prop := mkFlows {
  fl_moves : moves fs a a';
  fl_endpoints : ∀ k x', link_endpoints a' !! k = Some x' →
    ∃ x, link_endpoints a !! k = Some x ∧ ep_binding x' = ep_binding x;
}.

Lemma images_app l1 l2 : images (l1 ++ l2) = images l1 ++ images l2.
Proof. apply omap_app. Qed.

Lemma moves_refl a : moves [] a a.
Proof. split; [eauto|done|]. exists []. split; [by rewrite app_nil_r|]. intros k. cbn. by rewrite app_nil_r. Qed.

Lemma flows_refl a : flows [] a a.
Proof. split; [apply moves_refl|eauto]. Qed.

Lemma moves_trans f1 f2 a b c : moves f1 a b → moves f2 b c → moves (f1 ++ f2) a c.
Proof.
  intros [I1 D1 (t1 & S1 & L1)] [I2 D2 (t2 & S2 & L2)]. split.
  - intros i x3 (x2 & (x1 & ? & -> & ->)%I1 & -> & ->)%I2. by exists x1.
  - congruence.
  - exists (t1 ++ t2). split; [by rewrite S2, S1, fmap_app, app_assoc|]. intros k.
    rewrite !frames_of_app, images_app, <- app_assoc. etrans; [apply sublist_app; [done|apply L2]|].
    rewrite !app_assoc. by apply sublist_app; [|done].
Qed.

Lemma flows_trans f1 f2 a b c : flows f1 a b → flows f2 b c → flows (f1 ++ f2) a c.
Proof.
  intros [M1 E1] [M2 E2]. split; [by eapply moves_trans|]. intros k x3 (x2 & (x1 & ? & ->)%E1 & ->)%E2. by exists x1.
Qed.

Lemma flows_nil fs a b c : flows fs a b → flows [] b c → flows fs a c.
Proof. intros H1 H2. rewrite <- (app_nil_r fs). by eapply flows_trans. Qed.

Lemma line_ok_moves fs a a' : line_ok a → moves fs a a' → line_ok a'.
Proof.
  intros [L1 L2] [I _ _]. split.
  - intros x' (x & Hx & -> & ->)%I. by apply L1.
  - intros i x' (x & Hx & _ & ->)%I. by apply L2.
Qed.

Lemma line_ok_flows fs a a' : line_ok a → flows fs a a' → line_ok a'.
Proof. intros Hl [Hm _]. by eapply line_ok_moves. Qed.

(** A step that sends nothing and only ends endpoints. *)
Lemma flows_quiet a a' :
  wires a' = wires a → local_hops_delta a' = local_hops_delta a →
  (∀ i x', interfaces a' !! i = Some x' →
    ∃ x, interfaces a !! i = Some x ∧ if_entry x' = if_entry x ∧ if_tx x' = if_tx x) →
  link_endpoints a' ⊆ link_endpoints a → flows [] a a'.
Proof.
  intros Hw Hd Hi He. split; [split; [done|done|]|].
  - exists []. unfold sent_frames. rewrite Hw, app_nil_r. split; [done|]. intros k. cbn. rewrite app_nil_r. unfold waiting.
    destruct (link_endpoints a' !! k) as [x|] eqn:Hx; [|apply sublist_nil_l].
    eapply lookup_weaken in Hx; [|exact He]. by rewrite Hx.
  - intros k x' Hx. eapply lookup_weaken in Hx; [|exact He]. eauto.
Qed.

Lemma kept_quiet a a' :
  routing a' = routing a → core a' = core a → link_endpoints a' ⊆ link_endpoints a → flows [] a a'.
Proof.
  intros Hr Hc He. unfold core in Hc. apply pair_eq in Hc as [(_ & _ & _ & _ & _ & Hd & _)%fixed_eq Hw].
  apply flows_quiet; [done|done| |done]. unfold routing in Hr. injection Hr as _ _ _ _ _ _ -> _ _ _ _ _. eauto.
Qed.

Lemma terminate_flows env a k reason : flows [] a (terminate_link_endpoint env a k reason).
Proof.
  destruct (terminate_keeps (size (link_endpoints a)) env a k reason) as (Hr & Hc & _).
  apply kept_quiet; [done|done|]. apply (terminate_settles env a k reason).
Qed.

Lemma finish_flows env a e reason : flows [] a (finish_link_endpoint_terminal env a e reason 0).
Proof.
  destruct (finish_keeps env a e reason 0) as (Hr & Hc & _). apply kept_quiet; [done|done|]. by apply finish_settles.
Qed.

Lemma removal_flows env a i reason : flows [] a (deregister_interface_with_link_reason env a i reason).
Proof.
  destruct (deregister_interface_spec env a i reason) as (Hc & Hi & _). cbv zeta in *. unfold core in Hc.
  apply pair_eq in Hc as [(_ & _ & _ & _ & _ & Hd & _)%fixed_eq Hw].
  apply flows_quiet; [done|done| |apply removal_settles]. rewrite Hi. intros j x' [_ ?]%lookup_delete_Some. eauto.
Qed.

Lemma retire_flows v t a k : flows [] a (retire_unpublished_link_endpoint v t a k).
Proof. unfold retire_unpublished_link_endpoint. repeat case_match; try apply flows_refl. apply terminate_flows. Qed.

Lemma foldl_flows {A} (f : Actor → A → Actor) l a : (∀ a x, flows [] a (f a x)) → flows [] a (foldl f a l).
Proof.
  intros Hf. revert a. induction l as [|x l IH]; intros a; [apply flows_refl|]. cbn. eapply flows_nil; [apply Hf|apply IH].
Qed.

(** *** One send *)

(** Sends on [i] are sends on this line, or have nothing to do with it. *)
Definition own a (i : Z) : Prop :=
  i = id ∧ ∀ e, interfaces a !! i = Some e → if_entry e = if_entry e0 ∧ if_tx e = if_tx e0.
Definition apart a (i : Z) : Prop := i ≠ id ∧ ∀ e, interfaces a !! i = Some e → if_tx e ≠ if_tx e0.

Lemma own_or_apart a i : line_ok a → own a i ∨ apart a i.
Proof.
  intros [L1 L2]. destruct (decide (i = id)) as [-> |Hne]; [left; by split|right]. split; [done|]. intros e He. by apply (L2 i).
Qed.

(** The parts of the state a send leaves alone. *)
Definition bearings a := (interfaces a, link_endpoints a, local_hops_delta a).

Lemma image_entry e raw : if_entry e = if_entry e0 → wire_image e raw = wire_image e0 raw.
Proof. unfold wire_image. by intros ->. Qed.

Lemma try_send_frame a i raw a' out :
  try_send_to_interface a i raw = Ok (a', out) →
  bearings a' = bearings a ∧ (out ≠ OutSent → a' = a) ∧ (apart a i → sent_frames a' = sent_frames a) ∧
  (own a i → out = OutSent → ∃ data, wire_image e0 raw = Some data ∧ sent_frames a' = sent_frames a ++ [data]).
Proof.
  intros Hs%try_send_inv. destruct Hs as [out Hne|e data link_id He Hcur Hacc Hout Hw Ht a'].
  { split_and!; by try done. }
  assert (Hw' : ∀ b l, wires (match l with Some l => record_request_owner b i e l | None => b end) = wires b ∧
    bearings (match l with Some l => record_request_owner b i e l | None => b end) = bearings b) by by intros b [].
  destruct (Hw' a' link_id) as [Hww Hb]. split; [by rewrite Hb|]. split; [done|]. unfold sent_frames. rewrite Hww. subst a'.
  split.
  - intros Ha. cbn. rewrite fn_lookup_insert_ne by by apply (proj2 Ha e). done.
  - intros [_ Ho] _. destruct (Ho e He) as [Hen Htx]. exists data. split; [by rewrite <- (image_entry e)|].
    rewrite Htx in *. cbn. rewrite fn_lookup_insert. by apply try_send_ok.
Qed.
Lemma send_raw_frame a i l r raw a' out :
  try_send_link_endpoint_raw a i l r raw = Ok (a', out) →
  bearings a' = bearings a ∧ (out ≠ OutSent → a' = a) ∧ (apart a i → sent_frames a' = sent_frames a) ∧
  (own a i → out = OutSent → ∃ data, wire_image e0 raw = Some data ∧ sent_frames a' = sent_frames a ++ [data]).
Proof.
  unfold try_send_link_endpoint_raw.
  assert (Hl : ∀ tx j, is_local_link i = true → Ok (E:=Empty_set) (try_send_local a tx j raw) = Ok (a', out) →
    bearings a' = bearings a ∧ (out ≠ OutSent → a' = a) ∧ (apart a i → sent_frames a' = sent_frames a) ∧
    (own a i → out = OutSent → ∃ data, wire_image e0 raw = Some data ∧ sent_frames a' = sent_frames a ++ [data])).
  { intros tx j Hi [= Hs]. assert (Hno : ∀ P : Prop, own a i → P) by (intros P [-> _]; congruence).
    unfold try_send_local, try_deliver in Hs. destruct tx as [tx|]; [|injection Hs as <- <-; split_and!; try done; intros Ho; by apply (Hno _ Ho)].
    destruct (try_send _ _) as [c []]; injection Hs as <- <-; split_and!; try done; intros Ho; by apply (Hno _ Ho). }
  assert (Hm : is_local_link i = true → Ok (E:=Empty_set) (a, OutMissing) = Ok (a', out) →
    bearings a' = bearings a ∧ (out ≠ OutSent → a' = a) ∧ (apart a i → sent_frames a' = sent_frames a) ∧
    (own a i → out = OutSent → ∃ data, wire_image e0 raw = Some data ∧ sent_frames a' = sent_frames a ++ [data]))
    by (intros Hi [= <- <-]; split_and!; done).
  destruct (i =? LOCAL_LINK_INITIATOR_INTERFACE) eqn:E1.
  { assert (Hi : is_local_link i = true) by (unfold is_local_link; by rewrite E1).
    destruct r; [by apply Hl|by apply Hm]. }
  destruct (i =? LOCAL_LINK_RESPONDER_INTERFACE) eqn:E2.
  { assert (Hi : is_local_link i = true) by (unfold is_local_link; by rewrite E1, E2).
    destruct r; [by apply Hm|by apply Hl]. }
  apply try_send_frame.
Qed.

(** *** Draining *)

Definition raws (q : list LinkEndpointQueuedPacket) : list bytes := qp_raw <$> q.

Lemma prune_frame v t a q a' q' :
  prune v t a q = (a', q') → bearings a' = bearings a ∧ wires a' = wires a ∧ sublist q' q.
Proof.
  revert a a' q'. induction q as [|p q IH]; intros a a' q'; cbn [prune]; [by intros [= <- <-]|].
  destruct (packet_terminal v t p) as [[c o]|].
  - intros (Hb & Hw & ?)%IH. split; [by rewrite Hb|]. split; [by rewrite Hw|]. by constructor.
  - destruct (prune v t a q) as [a1 q1] eqn:Hr. intros [= <- <-]. destruct (IH _ _ _ Hr) as (? & ? & ?).
    split; [done|]. split; [done|]. by constructor.
Qed.

Lemma images_sublist q1 q2 : sublist q1 q2 → sublist (images q1) (images q2).
Proof.
  unfold images. induction 1; cbn; [done|..]; destruct (wire_image e0 x); try done; by constructor.
Qed.

Lemma raws_sublist q1 q2 : sublist q1 q2 → sublist (raws q1) (raws q2).
Proof. induction 1; cbn; by constructor. Qed.

(** The frames taken since, then those that the queue in hand will give, are
    those that it would have given. *)
Definition drained a b (q q' : list LinkEndpointQueuedPacket) : Prop :=
  ∃ fr, sent_frames b = sent_frames a ++ fr ∧ sublist (fr ++ images (raws q')) (images (raws q)).

Lemma drained_dropped a b q q' : sent_frames b = sent_frames a → sublist q' q → drained a b q q'.
Proof. intros Hs Hq. exists []. rewrite Hs, app_nil_r. split; [done|]. by apply images_sublist, raws_sublist. Qed.

Lemma drained_trans a b c q1 q2 q3 : drained a b q1 q2 → drained b c q2 q3 → drained a c q1 q3.
Proof.
  intros (f1 & S1 & L1) (f2 & S2 & L2). exists (f1 ++ f2). split; [by rewrite S2, S1, app_assoc|].
  rewrite <- app_assoc. etrans; [|exact L1]. by apply sublist_app.
Qed.

Lemma bearings_own a b i : bearings b = bearings a → own a i → own b i.
Proof. unfold bearings. rewrite !pair_eq. intros [[Hi _] _]. unfold own. by rewrite Hi. Qed.

Lemma bearings_apart a b i : bearings b = bearings a → apart a i → apart b i.
Proof. unfold bearings. rewrite !pair_eq. intros [[Hi _] _]. unfold apart. by rewrite Hi. Qed.

Lemma drain_loop_frame v t a b q a' q' stop :
  drain_loop v t a b q = Ok (a', q', stop) →
  bearings a' = bearings a ∧ (own a (b_interface_id b) → drained a a' q q') ∧
  (apart a (b_interface_id b) → sent_frames a' = sent_frames a).
Proof.
  revert a. induction q as [|p q IH]; intros a; cbn [drain_loop].
  { intros [= <- <- <-]. split; [done|]. split; [|done]. intros _. by apply drained_dropped. }
  assert (Hturn : ∀ a1, drain_loop v t a1 b q = Ok (a', q', stop) → bearings a1 = bearings a →
    (own a (b_interface_id b) → drained a a1 (p :: q) q) →
    (apart a (b_interface_id b) → sent_frames a1 = sent_frames a) →
    bearings a' = bearings a ∧ (own a (b_interface_id b) → drained a a' (p :: q) q') ∧
    (apart a (b_interface_id b) → sent_frames a' = sent_frames a)).
  { intros a1 (Hb & Ho & Ha)%IH Hb1 Ho1 Ha1. split; [by rewrite Hb|]. split.
    - intros Hown. eapply drained_trans; [by apply Ho1|by eapply Ho, bearings_own].
    - intros Hap. rewrite (Ha (bearings_apart a a1 _ Hb1 Hap)). by apply Ha1. }
  assert (Hskip : ∀ a1, sent_frames a1 = sent_frames a → drained a a1 (p :: q) q)
    by (intros a1 Hs; apply drained_dropped; [done|by constructor]).
  destruct (packet_terminal v t p) as [[c o]|].
  { intros Hs. eapply Hturn; [exact Hs|done|by intros; apply Hskip|done]. }
  intros ([a1 out] & (Hb & Hns & Hap & Hown)%send_raw_frame & Hs)%res_bind_Ok_inv.
  assert (Hsent : out = OutSent → own a (b_interface_id b) → drained a a1 (p :: q) q).
  { intros -> Ho. destruct (Hown Ho eq_refl) as (data & Hw & Hs1). exists [data]. split; [done|]. cbn. by rewrite Hw. }
  assert (Hstop : ∀ o : InterfaceSendOutcome, o ≠ OutSent → out = o → Ok (E:=Empty_set) (a1, p :: q, Some o) = Ok (a', q', stop) →
    bearings a' = bearings a ∧ (own a (b_interface_id b) → drained a a' (p :: q) q') ∧
    (apart a (b_interface_id b) → sent_frames a' = sent_frames a)).
  { intros o Hne -> [= <- <- _]. rewrite Hns by done. split; [done|]. split; [|done]. intros _. by apply drained_dropped. }
  destruct out; try (eapply Hstop; [|reflexivity|exact Hs]; done).
  - destruct (qp_completion p) as [c|]; [|by eapply Hturn; [exact Hs|done|by apply Hsent|done]].
    destruct (header_unpack (qp_raw p)) as [[h off]| |]; [|done..]. apply res_bind_Ok_inv in Hs as (x & _ & Hs).
    by eapply Hturn; [exact Hs|done|by apply Hsent|done].
  - rewrite Hns in Hs by done. eapply Hturn; [exact Hs| | |]; unfold complete; destruct (qp_completion p); try done;
      by intros; apply Hskip.
Qed.

(** A step on one endpoint, seen on the line: [fr] left its queue, nothing
    else moved. *)
Lemma table_flows a b k fr fs :
  interfaces b = interfaces a → local_hops_delta b = local_hops_delta a →
  (∀ j x, link_endpoints b !! j = Some x → ∃ y, link_endpoints a !! j = Some y ∧ ep_binding x = ep_binding y) →
  (∀ j, j ≠ k → link_endpoints b !! j = link_endpoints a !! j) →
  sent_frames b = sent_frames a ++ fr →
  sublist (fr ++ images (waiting k b)) (images (waiting k a) ++ images fs) → flows ((k,.) <$> fs) a b.
Proof.
  intros Hi Hd He Hk Hs Hl. split; [|done]. split; [rewrite Hi; eauto|done|]. exists ((k,.) <$> fr).
  split; [by rewrite labelled_frames|]. intros j. rewrite !frames_of_labelled. case_decide as Hj; [by subst j|].
  cbn. rewrite app_nil_r. unfold waiting. by rewrite Hk by congruence.
Qed.

Lemma waiting_own a k e : link_endpoints a !! k = Some e → own a (b_interface_id (ep_binding e)) → waiting k a = raws (ep_egress e).
Proof. unfold waiting. intros -> [Hi _]. by rewrite decide_True. Qed.

Lemma waiting_apart a k e : link_endpoints a !! k = Some e → apart a (b_interface_id (ep_binding e)) → waiting k a = [].
Proof. unfold waiting. intros -> [Hi _]. by rewrite decide_False. Qed.

(** The endpoint [k] is out of the table with [q] in hand, before it is dropped
    or put back. *)
Lemma hand_flows a k e b q :
  line_ok a → link_endpoints a !! k = Some e → interfaces b = interfaces a → link_endpoints b = delete k (link_endpoints a) →
  local_hops_delta b = local_hops_delta a →
  (own a (b_interface_id (ep_binding e)) → drained a b (ep_egress e) q) →
  (apart a (b_interface_id (ep_binding e)) → sent_frames b = sent_frames a) →
  flows [] a b ∧ flows [] a (set_endpoint k (upd_egress (λ _, q) e) b).
Proof.
  intros Hl Hk Hi He Hd Hown Hap. set (b' := set_endpoint k (upd_egress (λ _, q) e) b).
  assert (He' : link_endpoints b' = <[k := upd_egress (λ _, q) e]> (delete k (link_endpoints a))) by (unfold b'; cbn; by rewrite He).
  assert (Hends : ∀ j x, link_endpoints b !! j = Some x → ∃ y, link_endpoints a !! j = Some y ∧ ep_binding x = ep_binding y).
  { intros j x. rewrite He. intros [_ ?]%lookup_delete_Some. eauto. }
  assert (Hends' : ∀ j x, link_endpoints b' !! j = Some x → ∃ y, link_endpoints a !! j = Some y ∧ ep_binding x = ep_binding y).
  { intros j x. rewrite He'. intros [[<- <-]|[_ [_ ?]%lookup_delete_Some]]%lookup_insert_Some; eauto. }
  assert (Hline : ∃ fr, sent_frames b = sent_frames a ++ fr ∧ sublist (fr ++ images (waiting k b')) (images (waiting k a))).
  { destruct (own_or_apart a (b_interface_id (ep_binding e)) Hl) as [Ho|Ha].
    - destruct (Hown Ho) as (fr & Hs & Hsub). exists fr. split; [done|]. rewrite (waiting_own a k e Hk Ho).
      unfold waiting. rewrite He', lookup_insert_eq. cbn. destruct Ho as [Ho _]. by rewrite decide_True.
    - exists []. rewrite app_nil_r. split; [by apply Hap|]. unfold waiting. rewrite He', lookup_insert_eq. cbn.
      destruct Ha as [Ha _]. rewrite decide_False by done. apply sublist_nil_l. }
  destruct Hline as (fr & Hs & Hsub).
  assert (Hgone : sublist (fr ++ images (waiting k b)) (images (waiting k a))).
  { unfold waiting at 1. rewrite He, lookup_delete_eq. cbn. rewrite app_nil_r. etrans; [|exact Hsub]. by apply sublist_inserts_r. }
  split; (apply (table_flows _ _ k fr []); [done|done|done| |done|cbn; by rewrite app_nil_r]); intros j Hj.
  - by rewrite He, lookup_delete_ne.
  - by rewrite He', lookup_insert_ne, lookup_delete_ne.
Qed.

(** Out of the table, with the queue given up. *)
Lemma drop_flows a k e : line_ok a → link_endpoints a !! k = Some e → flows [] a (upd_link_endpoints (delete k) a).
Proof.
  intros Hl Hk. apply (hand_flows a k e _ []); try done. intros _. apply drained_dropped; [done|apply sublist_nil_l].
Qed.

Lemma drain_one_flows v t a k a' r :
  line_ok a → drain_one_link_endpoint v t a k = Ok (a', r) → flows [] a a'.
Proof.
  intros Hl. unfold drain_one_link_endpoint. destruct (link_endpoints a !! k) as [e|] eqn:Hk; [|intros [= <- _]; apply flows_refl].
  set (a0 := upd_link_endpoints (delete k) a). pose proof (drop_flows a k e Hl Hk) as H0. fold a0 in H0.
  match goal with |- context [if ?c then Ok _ else _] => destruct c end.
  { intros [= <- _]. eapply flows_nil; [exact H0|apply finish_flows]. }
  destruct (prune v t a0 (ep_egress e)) as [a1 q1] eqn:Hp. apply prune_frame in Hp as (Hb1 & Hw1 & Hq1).
  intros ([[a2 q2] stop] & (Hb2 & Hown & Hap)%drain_loop_frame & Hs)%res_bind_Ok_inv.
  assert (Hb : bearings a2 = bearings a0) by (by rewrite Hb2).
  assert (Hsent1 : sent_frames a1 = sent_frames a) by (unfold sent_frames; by rewrite Hw1).
  unfold bearings in Hb. rewrite !pair_eq in Hb. destruct Hb as [[Hi He] Hd].
  assert (Hb1' : interfaces a1 = interfaces a) by (unfold bearings in Hb1; by injection Hb1).
  destruct (hand_flows a k e a2 q2) as [Hdrop Hput]; try done.
  { intros [Ho1 Ho2]. eapply (drained_trans a a1); [by apply drained_dropped|]. apply Hown. by split; [|rewrite Hb1']. }
  { intros Ha. rewrite Hap, Hsent1; [done|]. unfold apart. by rewrite Hb1'. }
  assert (Hterm : ∀ reason i (c : bool), flows [] a
    (let a := finish_link_endpoint_terminal (ee_env v) a2 (upd_egress (λ _, q2) e) reason 0 in
     if c then deregister_interface_with_link_reason (ee_env v) a i reason else a)).
  { intros reason i c. cbv zeta. pose proof (flows_nil [] _ _ _ Hdrop (finish_flows (ee_env v) a2 (upd_egress (λ _, q2) e) reason)) as Hf.
    destruct c; [|exact Hf]. eapply flows_nil; [exact Hf|apply removal_flows]. }
  destruct stop as [out|].
  - destruct out; cbn [terminal_reason_for_interface_outcome] in Hs; try discriminate Hs; injection Hs as <- _;
      first [exact Hput|apply (Hterm _ 0 false)|apply (Hterm _ _ (negb (is_local_link (b_interface_id (ep_binding e)))))].
  - injection Hs as <- _. case_match; [|exact Hput]. apply (Hterm Unbound 0 false).
Qed.

(** *** The sends *)

Lemma prepare_frame a l i q a' o :
  prepare_link_endpoint_packet a l i q = Ok (a', o) →
  bearings a' = bearings a ∧ wires a' = wires a ∧
  ∀ raw, o = Some raw → raw = or_raw q ∨ raw = <[1%nat := local_hops_delta a]> (or_raw q).
Proof.
  unfold prepare_link_endpoint_packet. intros Hs. ok_inv Hs; try done; (split; [done|]; split; [done|]); intros raw' [= <-]; auto.
  right. match goal with H : mangle_hops _ _ _ _ = Ok _ |- _ => unfold mangle_hops, set_byte1 in H; case_decide; [|done]; by injection H as <- end.
Qed.
(** The frame a request becomes: as it is, or with the hop count of the shared
    instance. *)
Definition carried (d : Z) (q : OutboundRequest) (f : bytes) : Prop := f = or_raw q ∨ f = <[1%nat := d]> (or_raw q).

Lemma flows_more k f a b : flows [] a b → flows [(k, f)] a b.
Proof.
  intros [[I Hd (tr & S & L)] E]. split; [|done]. split; [done|done|]. exists tr. split; [done|]. intros j.
  etrans; [apply L|]. apply sublist_app; [done|apply sublist_nil_l].
Qed.

Lemma bearings_flows a b : bearings b = bearings a → wires b = wires a → flows [] a b.
Proof.
  unfold bearings. rewrite !pair_eq. intros [[Hi He] Hd] Hw. apply flows_quiet; [done|done|rewrite Hi; eauto|by rewrite He].
Qed.

Lemma bearings_line a b : bearings b = bearings a → line_ok a → line_ok b.
Proof. unfold bearings. rewrite !pair_eq. intros [[Hi _] _] []. split; by rewrite Hi. Qed.

Lemma append_flows a k e raw c :
  link_endpoints a !! k = Some e → flows [(k, raw)] a (set_endpoint k (upd_egress (λ q, q ++ [mkQueued raw c]) e) a).
Proof.
  intros Hk. apply (table_flows _ _ k [] [raw]); try done.
  - intros j x. cbn. intros [[<- <-]|[_ ?]]%lookup_insert_Some; eauto.
  - intros j Hj. cbn. by rewrite lookup_insert_ne.
  - by rewrite app_nil_r.
  - unfold waiting. cbn -[images]. rewrite Hk, lookup_insert_eq. cbn -[images]. case_decide; [|apply sublist_nil_l].
    by rewrite fmap_app, images_app.
Qed.

Lemma enqueue_flows v a k raw a' r :
  enqueue_link_endpoint_packet v a k raw = Ok (a', r) → flows [(k, raw)] a a'.
Proof.
  unfold enqueue_link_endpoint_packet, endpoint_at. destruct (link_endpoints a !! k) as [e|] eqn:Hk; [|done]. cbn [res_bind].
  case_match; intros [= <- _]; [apply flows_more, terminate_flows|by apply append_flows].
Qed.

Lemma end_flows v a k i out a' r : end_after_send v a k i out = Ok (a', r) → flows [] a a'.
Proof.
  unfold end_after_send. case_match; [|done]. intros [= <- _]. case_match; [apply removal_flows|apply terminate_flows].
Qed.

(** A send past an empty queue. *)
Lemma direct_flows a k e l r raw a' out :
  line_ok a → link_endpoints a !! k = Some e → ep_egress e = [] →
  try_send_link_endpoint_raw a (b_interface_id (ep_binding e)) l r raw = Ok (a', out) →
  flows [(k, raw)] a a' ∧ (out ≠ OutSent → a' = a).
Proof.
  intros Hl Hk Hq (Hb & Hns & Hap & Hown)%send_raw_frame. split; [|done].
  destruct (decide (out = OutSent)) as [->|]; [|rewrite Hns by done; apply flows_more, flows_refl].
  unfold bearings in Hb. rewrite !pair_eq in Hb. destruct Hb as [[Hi He] Hd].
  assert (Hends : ∀ j x, link_endpoints a' !! j = Some x → ∃ y, link_endpoints a !! j = Some y ∧ ep_binding x = ep_binding y)
    by (rewrite He; eauto).
  assert (Hsame : ∀ j, j ≠ k → link_endpoints a' !! j = link_endpoints a !! j) by by rewrite He.
  assert (Hw' : waiting k a' = waiting k a) by (unfold waiting; by rewrite He).
  destruct (own_or_apart a (b_interface_id (ep_binding e)) Hl) as [Ho|Ha].
  - destruct (Hown Ho eq_refl) as (data & Himg & Hs). apply (table_flows _ _ k [data] [raw]); try done.
    rewrite Hw', (waiting_own a k e Hk Ho), Hq. cbn. by rewrite Himg.
  - apply (table_flows _ _ k [] [raw]); try done; [rewrite app_nil_r; by apply Hap|].
    rewrite Hw', (waiting_apart a k e Hk Ha). apply sublist_nil_l.
Qed.

(** The end of a send: [a] is the state with the packet prepared. *)
Definition finish_send v a k i (raw : bytes) : io (Actor * LinkEndpointSendResult) :=
  let* '(a, out) := try_send_link_endpoint_raw a i k.1 k.2 raw in
  match out with
  | OutTooLarge => Ok (a, InvalidPacket)
  | OutSent => Ok (a, EpSent)
  | OutFull => enqueue_link_endpoint_packet v a k raw
  | _ => end_after_send v a k i out
  end.

Lemma finish_send_flows v a k e raw a' x :
  line_ok a → link_endpoints a !! k = Some e → ep_egress e = [] →
  finish_send v a k (b_interface_id (ep_binding e)) raw = Ok (a', x) → flows [(k, raw)] a a'.
Proof.
  intros Hl Hk Hq. unfold finish_send. intros ([a1 out] & Ht & Hs)%res_bind_Ok_inv.
  destruct (direct_flows a k e _ _ raw a1 out Hl Hk Hq Ht) as [Hf Hns].
  destruct out; try (injection Hs as <- _; exact Hf); rewrite Hns in Hs by done.
  - by eapply enqueue_flows.
  - by eapply flows_more, end_flows.
  - by eapply flows_more, end_flows.
  - by eapply flows_more, end_flows.
  - by eapply flows_more, end_flows.
Qed.

(** What a request of [k] does, in a state with hop delta [d]. *)
Definition delivers (k : endpoint_key) (q : OutboundRequest) a a' : Prop :=
  ∃ f, carried (local_hops_delta a) q f ∧ flows [(k, f)] a a'.

(** What remains of a send once the packet is prepared, for the frame it
    becomes. *)
Lemma prepared_flows a1 a3 k l i q p a' :
  prepare_link_endpoint_packet a1 l i q = Ok (a3, p) → (∃ raw, p = Some raw ∧ flows [(k, raw)] a3 a') ∨ flows [] a3 a' →
  delivers k q a1 a'.
Proof.
  intros (Hb & Hw & Hp)%prepare_frame Hx. pose proof (bearings_flows a1 a3 Hb Hw) as H13.
  destruct Hx as [(raw & -> & H1)|H1].
  - exists raw. split; [by apply Hp|]. by eapply (flows_trans [] [(k, raw)]).
  - exists (or_raw q). split; [by left|]. apply flows_more. by eapply (flows_trans [] []).
Qed.

Lemma unsent_flows k a q a' : flows [] a a' → delivers k q a a'.
Proof. exists (or_raw q). split; [by left|by apply flows_more]. Qed.

Lemma then_flows k a a1 a' q : flows [] a a1 → delivers k q a1 a' → delivers k q a a'.
Proof.
  intros H1 (f & Hc & H2). exists f. split; [by rewrite <- (mv_delta _ _ _ (fl_moves _ _ _ H1))|]. by eapply (flows_trans [] [(k, f)]).
Qed.

(** The state a packet was prepared in still has the endpoint. *)
Lemma prepared_endpoint a l i q a' o k :
  prepare_link_endpoint_packet a l i q = Ok (a', o) → link_endpoints a' !! k = link_endpoints a !! k.
Proof. intros (Hb & _)%prepare_frame. unfold bearings in Hb. rewrite !pair_eq in Hb. by destruct Hb as [[_ ->] _]. Qed.

Lemma prepared_line a l i q a' o : prepare_link_endpoint_packet a l i q = Ok (a', o) → line_ok a → line_ok a'.
Proof. intros (Hb & _)%prepare_frame. by apply bearings_line. Qed.

Lemma send_flows v a l r q a' x :
  line_ok a → send_link_endpoint v a l r q = Ok (a', x) → delivers (l, r) q a a'.
Proof.
  intros Hl. unfold send_link_endpoint. set (k := (l, r)).
  pose proof (retire_flows v 0 a k) as H1. pose proof (line_ok_flows _ _ _ Hl H1) as Hl1.
  set (a1 := retire_unpublished_link_endpoint v 0 a k) in *. clearbody a1. intros Hs. apply (then_flows k a a1); [done|].
  destruct (link_endpoints a1 !! k) as [e|] eqn:Hk; [|injection Hs as <- _; apply unsent_flows, flows_refl].
  destruct (ep_unbind_after_drain e); [injection Hs as <- _; apply unsent_flows, flows_refl|].
  apply res_bind_Ok_inv in Hs as ([a2 o] & Hd & Hs).
  assert (H2 : flows [] a1 a2).
  { case_decide; [injection Hd as <- _; apply flows_refl|by eapply drain_one_flows]. }
  pose proof (line_ok_flows _ _ _ Hl1 H2) as Hl2. apply (then_flows k a1 a2); [done|].
  destruct o; [injection Hs as <- _; apply unsent_flows, flows_refl|].
  apply res_bind_Ok_inv in Hs as (e2 & He2 & Hs). unfold endpoint_at in He2.
  destruct (link_endpoints a2 !! k) as [e2'|] eqn:Hk2; [|done]. injection He2 as ->.
  case_match; [injection Hs as <- _; apply unsent_flows, terminate_flows|].
  apply res_bind_Ok_inv in Hs as ([a3 p] & Hp & Hs). pose proof (prepared_line _ _ _ _ _ _ Hp Hl2) as Hl3.
  pose proof (prepared_endpoint _ _ _ _ _ _ k Hp) as Hk3. rewrite Hk2 in Hk3.
  eapply (prepared_flows a2 a3 k l _ q p a' Hp).
  destruct p as [raw|]; [|injection Hs as <- _; right; apply flows_refl]. left. exists raw. split; [done|].
  rewrite Hk3 in Hs. case_decide as Hq; [|by eapply enqueue_flows].
  assert (Hi : b_interface_id (ep_binding e) = b_interface_id (ep_binding e2)).
  { destruct (fl_endpoints _ _ _ H2 k e2 Hk2) as (y & Hy & ->). rewrite Hk in Hy. by injection Hy as <-. }
  rewrite Hi in Hs. by eapply (finish_send_flows v a3 k e2).
Qed.

Lemma release_finish env a e reason :
  finish_link_endpoint_terminal env a (upd_unbind_after_drain (λ _, true) e) reason 0 =
  deregister_destination env (notify_link_endpoint_terminal a e reason 0) (b_link_id (ep_binding e)).
Proof.
  unfold finish_link_endpoint_terminal. destruct e as [b g p lc q u]. cbn [upd_unbind_after_drain ep_unbind_after_drain ep_binding].
  reflexivity.
Qed.

(** An endpoint replaced by one with the same binding and queue. *)
Lemma replace_flows a k e e' : link_endpoints a !! k = Some e → ep_binding e' = ep_binding e → ep_egress e' = ep_egress e →
  flows [] a (set_endpoint k e' a).
Proof.
  intros Hk Hb Hq. apply (table_flows _ _ k [] []); try done.
  - intros j x. cbn. intros [[<- <-]|[_ ?]]%lookup_insert_Some; eauto.
  - intros j Hj. cbn. by rewrite lookup_insert_ne.
  - by rewrite app_nil_r.
  - unfold waiting. cbn -[images]. by rewrite Hk, lookup_insert_eq, Hb, Hq, app_nil_r.
Qed.

Lemma send_and_unbind_flows v a l r q a' x :
  line_ok a → send_link_endpoint_and_unbind v a l r q = Ok (a', x) → delivers (l, r) q a a'.
Proof.
  intros Hl. unfold send_link_endpoint_and_unbind. intros ([a1 y] & Hs & Hx)%res_bind_Ok_inv.
  destruct (send_flows v a l r q a1 y Hl Hs) as (f & Hc & Hf). exists f. split; [done|].
  pose proof (line_ok_flows _ _ _ Hl Hf) as Hl1. eapply flows_nil; [exact Hf|].
  destruct (link_endpoints a1 !! (l, r)) as [e|] eqn:Hk; [|destruct y; injection Hx as <- _; apply flows_refl].
  destruct y; try (injection Hx as <- _; apply flows_refl).
  - injection Hx as <- _. eapply flows_nil; [by eapply drop_flows|]. rewrite <- release_finish. apply finish_flows.
  - injection Hx as <- _. by apply (replace_flows _ _ e).
Qed.

Lemma best_effort_flows v a l r q a' x :
  line_ok a → send_link_endpoint_best_effort v a l r q = Ok (a', x) → delivers (l, r) q a a'.
Proof.
  intros Hl. unfold send_link_endpoint_best_effort. set (k := (l, r)).
  pose proof (retire_flows v 0 a k) as H1. pose proof (line_ok_flows _ _ _ Hl H1) as Hl1.
  set (a1 := retire_unpublished_link_endpoint v 0 a k) in *. clearbody a1. intros Hs. apply (then_flows k a a1); [done|].
  destruct (link_endpoints a1 !! k) as [e|] eqn:Hk; [|injection Hs as <- _; apply unsent_flows, flows_refl].
  destruct (ep_unbind_after_drain e); [injection Hs as <- _; apply unsent_flows, flows_refl|].
  case_decide as Hq; [injection Hs as <- _; apply unsent_flows, flows_refl|].
  apply res_bind_Ok_inv in Hs as ([a3 p] & Hp & Hs). pose proof (prepared_line _ _ _ _ _ _ Hp Hl1) as Hl3.
  pose proof (prepared_endpoint _ _ _ _ _ _ k Hp) as Hk3. rewrite Hk in Hk3.
  eapply (prepared_flows a1 a3 k l _ q p a' Hp).
  destruct p as [raw|]; [|injection Hs as <- _; right; apply flows_refl]. rewrite Hk3 in Hs.
  apply res_bind_Ok_inv in Hs as ([a4 out] & Ht & Hs).
  destruct (direct_flows a3 k e _ _ raw a4 out Hl3 Hk3 Hq Ht) as [Hf Hns].
  destruct out; try (injection Hs as <- _; left; exists raw; split; [done|exact Hf]); rewrite Hns in Hs by done; right.
  2-5: by eapply end_flows.
  injection Hs as <- _. apply flows_quiet; [done|done| |done].
  intros j y. cbn. intros [(_ & z & Hz & ->)|[_ ?]]%lookup_alter_Some; [by exists z|eauto].
Qed.

Lemma exact_flows v a b g q a' x :
  line_ok a → send_link_endpoint_exact v a b g q = Ok (a', x) → delivers (b_link_id b, b_role b) q a a'.
Proof.
  intros Hl. unfold send_link_endpoint_exact. set (k := (b_link_id b, b_role b)).
  pose proof (retire_flows v 10 a k) as H1. pose proof (line_ok_flows _ _ _ Hl H1) as Hl1.
  set (a1 := retire_unpublished_link_endpoint v 10 a k) in *. clearbody a1. intros Hs. apply (then_flows k a a1); [done|].
  match type of Hs with (if ?c then _ else _) = _ => destruct c end; [|injection Hs as <- _; apply unsent_flows, flows_refl].
  by eapply send_flows.
Qed.

Lemma emit_flows c o a b : flows [] a b → flows [] a (emit (EvCompletion c o) b).
Proof. intros H1. eapply flows_nil; [exact H1|]. by apply bearings_flows. Qed.

Lemma dispatch_send_flows v a b g q c a' :
  line_ok a → dispatch_send v a b g q c = Ok a' → delivers (b_link_id b, b_role b) q a a'.
Proof.
  intros Hl. unfold dispatch_send. set (k := (b_link_id b, b_role b)). destruct (terminal_before_admission _).
  { intros [= <-]. apply unsent_flows, emit_flows, flows_refl. }
  pose proof (retire_flows v 0 a k) as H1. pose proof (line_ok_flows _ _ _ Hl H1) as Hl1.
  set (a1 := retire_unpublished_link_endpoint v 0 a k) in *. clearbody a1. intros Hs. apply (then_flows k a a1); [done|].
  destruct (link_endpoints a1 !! k) as [e|] eqn:Hk; [|injection Hs as <-; apply unsent_flows, emit_flows, flows_refl].
  destruct (negb _); [injection Hs as <-; apply unsent_flows, emit_flows, flows_refl|].
  destruct (ep_unbind_after_drain e); [injection Hs as <-; apply unsent_flows, emit_flows, flows_refl|].
  apply res_bind_Ok_inv in Hs as ([a2 o] & Hd & Hs). pose proof (drain_one_flows _ _ _ _ _ _ Hl1 Hd) as H2.
  pose proof (line_ok_flows _ _ _ Hl1 H2) as Hl2. apply (then_flows k a1 a2); [done|].
  destruct o; [injection Hs as <-; apply unsent_flows, emit_flows, flows_refl|].
  apply res_bind_Ok_inv in Hs as (e2 & _ & Hs).
  case_match; [injection Hs as <-; apply unsent_flows, emit_flows, terminate_flows|].
  apply res_bind_Ok_inv in Hs as ([a3 p] & Hp & Hs). eapply (prepared_flows a2 a3 k _ _ q p a' Hp).
  destruct p as [raw|]; [|injection Hs as <-; right; apply emit_flows, flows_refl].
  apply res_bind_Ok_inv in Hs as (e3 & He3 & Hs). unfold endpoint_at in He3.
  destruct (link_endpoints a3 !! k) as [e3'|] eqn:Hk3; [|done]. injection He3 as ->.
  apply res_bind_Ok_inv in Hs as ([a4 r] & Hd4 & [= <-]). left. exists raw. split; [done|].
  pose proof (append_flows a3 k e3 raw (Some c) Hk3) as Happ. eapply flows_nil; [exact Happ|].
  eapply drain_one_flows; [|exact Hd4]. eapply line_ok_flows; [|exact Happ]. by eapply prepared_line.
Qed.

Lemma unbind_flows v a l r : line_ok a → flows [] a (unbind_link_endpoint v a l r).1.
Proof.
  intros Hl. unfold unbind_link_endpoint. destruct (link_endpoints a !! (l, r)) as [e|] eqn:Hk; [|apply flows_refl]. cbn [fst].
  eapply flows_nil; [by eapply drop_flows|apply finish_flows].
Qed.

Lemma drain_each_flows v t a keys a' : line_ok a → drain_each v t a keys = Ok a' → flows [] a a'.
Proof.
  revert t a. induction keys as [|k keys IH]; intros t a Hl; cbn [drain_each]; [intros [= <-]; apply flows_refl|].
  intros ([a1 r] & Hd & Hs)%res_bind_Ok_inv. pose proof (drain_one_flows _ _ _ _ _ _ Hl Hd) as H1.
  eapply flows_nil; [exact H1|]. eapply IH; [|exact Hs]. by eapply line_ok_flows.
Qed.

Lemma lost_flows env a : flows [] a (shared_connection_lost env a).
Proof.
  unfold shared_connection_lost. set (a1 := terminate_shared_peer_link_endpoints env a).
  assert (H1 : flows [] a a1) by (apply foldl_flows; intros b i; apply foldl_flows; intros; apply terminate_flows).
  clearbody a1. eapply flows_nil; [exact H1|]. apply bearings_flows; [|done].
  unfold clear_shared_connection_state, bearings. cbv zeta. cbn. reflexivity.
Qed.

(** *** Binding *)

Lemma bind_moves v t a b lc g a' r : bind_link_endpoint v t a b lc g = Ok (a', r) → moves [] a a'.
Proof.
  unfold bind_link_endpoint. set (k := (b_link_id b, b_role b)). pose proof (retire_flows v t a k) as [H1 _].
  set (a1 := retire_unpublished_link_endpoint v t a k) in *. clearbody a1.
  destruct (link_endpoints a1 !! k) as [e|] eqn:Hk; [by intros [= <- _]|].
  intros (ok & _ & Hs)%res_bind_Ok_inv. destruct ok; injection Hs as <- _; [|done].
  apply (moves_trans [] [] _ a1); [done|]. split; [eauto|done|]. exists []. split; [by rewrite app_nil_r|].
  intros j. cbn. rewrite app_nil_r. unfold waiting. cbn. destruct (decide (j = k)) as [-> |Hj].
  - rewrite lookup_insert_eq. cbn. case_decide; apply sublist_nil_l.
  - by rewrite lookup_insert_ne.
Qed.

Lemma dispatch_bind_moves v a b lc g p c a' r : dispatch_bind v a b lc g p c = Ok (a', r) → moves [] a a'.
Proof.
  unfold dispatch_bind. destruct (_ || _); [intros [= <- _]; apply moves_refl|].
  intros ([a1 res] & H1%bind_moves & Hs)%res_bind_Ok_inv.
  destruct res; try (by injection Hs as <- _). apply res_bind_Ok_inv in Hs as (e & He & [= <- _]).
  unfold endpoint_at in He. destruct (link_endpoints a1 !! _) as [e'|] eqn:Hk; [|done]. injection He as ->.
  apply (moves_trans [] [] _ a1); [done|].
  eapply (moves_trans [] []); [|apply fl_moves, retire_flows]. apply fl_moves. by apply (replace_flows _ _ e).
Qed.
End line.

(** *** Runs *)

(** The endpoint a request is submitted to. *)
Definition submission (m : EndpointMessage) : option (endpoint_key * OutboundRequest) :=
  match m with
  | SendLinkEndpoint l r q | SendLinkEndpointAndUnbind l r q | SendLinkEndpointBestEffort l r q => Some ((l, r), q)
  | SendLinkEndpointExact b _ q | DispatchSend b _ q _ => Some ((b_link_id b, b_role b), q)
  | BindLinkEndpoint _ _ _ | UnbindLinkEndpoint _ _ | DispatchBind _ _ _ _ _ | DrainEgress | SharedConnectionLost
  | EndpointShutdown => None
  end.

(** A submitted request and the frame it becomes. *)
Definition becomes (d : Z) (s : endpoint_key * OutboundRequest) (f : endpoint_key * bytes) : Prop :=
  f.1 = s.1 ∧ carried d s.2 f.2.

Lemma handle_moves id e0 v a m a' r :
  is_local_link id = false → line_ok id e0 a → handle_endpoint v a m = Ok (a', r) →
  ∃ fs, Forall2 (becomes (local_hops_delta a)) (option_list (submission m)) fs ∧ moves id e0 fs a a'.
Proof.
  intros Hreal Hl.
  assert (Hone : ∀ k q b, delivers id e0 k q a b →
    ∃ fs, Forall2 (becomes (local_hops_delta a)) [(k, q)] fs ∧ moves id e0 fs a b).
  { intros k q b (f & Hc & Hf). exists [(k, f)]. split; [constructor; [by split|constructor]|apply Hf]. }
  assert (Hnone : ∀ b, moves id e0 [] a b → ∃ fs, Forall2 (becomes (local_hops_delta a)) [] fs ∧ moves id e0 fs a b)
    by (intros b ?; by exists []).
  destruct m; cbn [handle_endpoint submission option_list].
  - intros ([b' x] & Hs & [= <- _])%res_bind_Ok_inv. by eapply Hnone, bind_moves.
  - destruct (unbind_link_endpoint v a link_id role) as [b x] eqn:Hu. intros [= <- _].
    apply Hnone. pose proof (unbind_flows id e0 v a link_id role Hl) as [Hf _]. by rewrite Hu in Hf.
  - intros ([b x] & Hs & [= <- _])%res_bind_Ok_inv. by eapply Hone, send_flows.
  - intros ([b' x] & Hs & [= <- _])%res_bind_Ok_inv. by eapply Hone, exact_flows.
  - intros ([b x] & Hs & [= <- _])%res_bind_Ok_inv. by eapply Hone, send_and_unbind_flows.
  - intros ([b x] & Hs & [= <- _])%res_bind_Ok_inv. by eapply Hone, best_effort_flows.
  - intros ([b' x] & Hs & [= <- _])%res_bind_Ok_inv. by eapply Hnone, dispatch_bind_moves.
  - intros (b' & Hs & [= <- _])%res_bind_Ok_inv. by eapply Hone, dispatch_send_flows.
  - intros (b & Hs & [= <- _])%res_bind_Ok_inv. by eapply Hnone, fl_moves, drain_each_flows.
  - intros [= <- _]. apply Hnone, lost_flows.
  - intros [= <- _]. apply Hnone. apply foldl_flows. intros. apply terminate_flows.
Qed.

Lemma run_moves id e0 a ms a' rs :
  is_local_link id = false → line_ok id e0 a → run_endpoints a ms = Ok (a', rs) →
  ∃ fs, Forall2 (becomes (local_hops_delta a)) (omap (submission ∘ snd) ms) fs ∧ moves id e0 fs a a'.
Proof.
  intros Hi. revert a rs. induction ms as [|[v m] ms IH]; intros a rs Hl; cbn [run_endpoints].
  { intros [= <- _]. exists []. split; [constructor|apply moves_refl]. }
  intros ([a1 r] & Hs & Hr)%res_bind_Ok_inv. apply res_bind_Ok_inv in Hr as ([a2 rs'] & Hr & [= <- _]).
  destruct (handle_moves id e0 v a m a1 r Hi Hl Hs) as (f1 & Hc1 & H1).
  destruct (IH a1 rs' (line_ok_moves _ _ _ _ _ Hl H1) Hr) as (f2 & Hc2 & H2).
  rewrite (mv_delta _ _ _ _ _ H1) in Hc2. exists (f1 ++ f2). split; [|by eapply moves_trans].
  change (omap (submission ∘ snd) ((v, m) :: ms)) with
    (match submission m with Some q => q :: omap (submission ∘ snd) ms | None => omap (submission ∘ snd) ms end).
  destruct (submission m); cbn in Hc1; [|by apply Forall2_nil_inv_l in Hc1 as ->].
  apply Forall2_cons_inv_l in Hc1 as (f & l & Hf & ->%Forall2_nil_inv_l & ->). by constructor.
Qed.

(** ** Theorems *)

(** C17.  Link endpoints never overflow or panic: from any well-formed state,
    every sequence of messages to the endpoints (binding, unbinding, the four
    kinds of send, tracked sends, drains, loss of the shared instance,
    shutdown), whatever bytes are to be sent and whatever deadlines,
    cancellations and publications are observed, is handled and answered
    without a panic; afterwards every queue holds at most 256 packets, each of
    at most 500 bytes and addressed to the link of its endpoint. *)
Theorem endpoints_bounded n a ms :
  actor_ok n a → endpoints_ok a → Forall (message_ok ∘ snd) ms →
  ∃ a' rs, run_endpoints a ms = Ok (a', rs) ∧ length rs = length ms ∧ actor_ok n a' ∧ endpoints_ok a' ∧
    ∀ k e, link_endpoints a' !! k = Some e → (length (ep_egress e) ≤ 256)%nat ∧
      ∀ p, p ∈ ep_egress e → (length (qp_raw p) ≤ 500)%nat ∧
        ∃ h off, header_unpack (qp_raw p) = Ok (h, off) ∧ Wire.destination_hash h = k.1.
Proof.
  intros Ha Ho Hm. destruct (run_total n a ms (conj Ha Ho) Hm) as (a' & rs & Hr & Hlen & [Ha' Ho'] & _).
  exists a', rs. split_and!; [done..|]. intros k e Hk. destruct (Ho' k e Hk) as [_ _ Hc Hp]. split; [exact Hc|].
  intros p Hin. rewrite Forall_forall in Hp. destruct (Hp p Hin) as [_ Hmtu (h & off & Hu & Hd & _)]. split; [exact Hmtu|eauto].
Qed.

(** C13.  Every tracked packet is answered exactly once.  If the completions of
    a sequence of messages are distinct, then after it each of them (and each
    that was outstanding before) has either been answered once or waits in one
    queue, never both; and once the endpoints are shut down all of them have
    been answered exactly once, whatever was sent, dropped, cancelled, expired
    or lost with its interface in between. *)
Theorem completion_answered_once n a ms v :
  actor_ok n a → endpoints_ok a → Forall (message_ok ∘ snd) ms → NoDup (submitted ms ++ ledger a) →
  ∃ a' rs, run_endpoints a ms = Ok (a', rs) ∧
    NoDup (answered a' ++ held_in (link_endpoints a')) ∧
    (∀ c, c ∈ answered a' ++ held_in (link_endpoints a') ↔ c ∈ submitted ms ++ ledger a) ∧
    ((∀ k, is_Some (link_endpoints a' !! k) → k ∈ endpoint_order (ee_env v)) →
     ∃ a'', handle_endpoint v a' EndpointShutdown = Ok (a'', NoReply) ∧ answered a'' ≡ₚ submitted ms ++ ledger a).
Proof.
  intros Ha Ho Hm Hnd. destruct (run_total n a ms (conj Ha Ho) Hm) as (a' & rs & Hr & _ & _ & Hl).
  exists a', rs. split; [done|]. unfold ledger at 1 in Hl. split; [by rewrite Hl|]. split; [intros c; by rewrite Hl|].
  intros Hcov. eexists. split; [done|]. destruct (shutdown_settles v a' TransportShutdown) as [_ _ Hs].
  unfold ledger in Hs. rewrite (shutdown_empties v a' TransportShutdown Hcov) in Hs. unfold held_in at 1 in Hs.
  rewrite map_to_list_empty in Hs. cbn in Hs. rewrite app_nil_r in Hs. by rewrite Hs, Hl.
Qed.

(** C14.  The queues of endpoints are first in, first out.  Take any interface
    with a channel of its own, any number of endpoints bound to it and to other
    interfaces, and any sequence of messages to endpoints: bindings,
    unbindings, sends of every kind to any of them, drains, loss of the shared
    instance, shutdown.  The frames the interface has accepted only grow, and
    each frame accepted meanwhile is one endpoint's: for every endpoint, its
    accepted frames, followed by those still waiting for the interface, are a
    subsequence of those that waited before and the frames of its requests in
    the order of submission (each under the interface's access code, and with
    the hop count of the shared instance where that applies).  So within an
    endpoint nothing overtakes, and nothing is sent twice. *)
Theorem endpoint_fifo n id e0 a ms :
  actor_ok n a → endpoints_ok a → is_local_link id = false → line_ok id e0 a → Forall (message_ok ∘ snd) ms →
  ∃ a' rs (fs tr : labelled), run_endpoints a ms = Ok (a', rs) ∧
    Forall2 (becomes (local_hops_delta a)) (omap (submission ∘ snd) ms) fs ∧
    sent_frames e0 a' = sent_frames e0 a ++ tr.*2 ∧
    ∀ k, sublist (frames_of k tr ++ images e0 (waiting id k a')) (images e0 (waiting id k a) ++ images e0 (frames_of k fs)).
Proof.
  intros Ha Ho Hi Hl Hm. destruct (run_total n a ms (conj Ha Ho) Hm) as (a' & rs & Hr & _).
  destruct (run_moves id e0 a ms a' rs Hi Hl Hr) as (fs & Hc & [_ _ (tr & Hs & Hk)]). by exists a', rs, fs, tr.
Qed.
End order.

(** ** An endpoint of the concrete relay *)

Definition demo_key_ep : endpoint_key := (demo_link, Initiator).
Definition demo_binding : LinkEndpointBinding :=
  mkBinding (Some {| epoch := 1; LinkTable.revision := 1 |}) demo_link 1 Initiator.

(** Nothing expires, nothing is withdrawn. *)
Definition demo_ep_env : EndpointEnv :=
  mkEndpointEnv (mkEnv (f_of_Z 100) 100 (mkClock 100 100 100) f_zero [1; 2; 3] [demo_key_ep] [])
    (λ _ _, 1) (λ _ _, mkView false false 0 10).

Definition demo_bound : Actor := set_endpoint demo_key_ep (mkEndpoint demo_binding 7 None 5 [] false) demo_relay.

Example demo_binds : bind_link_endpoint demo_ep_env 0 demo_relay demo_binding 5 7 = Ok (demo_bound, Bound).
Proof. vm_compute. reflexivity. Qed.

Definition demo_frame (n : Z) : bytes :=
  header_pack (mkHeader (mkFlags Header1 false Broadcast Link Data) 0 None demo_link CtxNone) ++ [n].

(** Ten tracked packets for a channel of eight. *)
Definition demo_sends : list (EndpointEnv * EndpointMessage) :=
  (λ n : nat, (demo_ep_env, DispatchSend demo_binding 7 (mkRequest (demo_frame (Z.of_nat n)) demo_link) n)) <$> seq 0 10.

Definition after_endpoints (m : io (Actor * list EndpointReply)) : Actor := match m with Ok (a, _) => a | _ => demo_bound end.

Example demo_backpressure :
  let a := after_endpoints (run_endpoints demo_bound demo_sends) in
  sent_frames (demo_iface 1 None) a = demo_frame <$> [0; 1; 2; 3; 4; 5; 6; 7] ∧
  waiting 1 demo_key_ep a = demo_frame <$> [8; 9] ∧ answered a = [0; 1; 2; 3; 4; 5; 6; 7]%nat.
Proof. vm_compute. done. Qed.

Lemma demo_bound_ok : actor_ok 1000 demo_bound ∧ endpoints_ok demo_bound.
Proof.
  split; [by destruct demo_relay_ok|]. apply map_Forall_insert_2; [|apply map_Forall_empty].
  split; try done. cbn. lia.
Qed.

Lemma demo_sends_ok : Forall (message_ok ∘ snd) demo_sends.
Proof.
  apply Forall_fmap, Forall_forall. intros n Hn q [= <-]. apply elem_of_seq in Hn. cbn -[demo_frame].
  unfold demo_frame. apply Forall_app. split; [by apply (bool_decide_eq_true_1 _); vm_compute|].
  repeat constructor; lia.
Qed.

Lemma endpoints_bounded_witness :
  ∃ a' rs, run_endpoints demo_bound demo_sends = Ok (a', rs) ∧
    ∀ k e, link_endpoints a' !! k = Some e → (length (ep_egress e) ≤ 256)%nat.
Proof.
  destruct demo_bound_ok as [Ha Ho].
  destruct (endpoints_bounded 1000 demo_bound demo_sends Ha Ho demo_sends_ok) as (a' & rs & Hr & _ & _ & _ & Hb).
  exists a', rs. split; [exact Hr|]. intros k e Hk. apply (Hb k e Hk).
Defined.

Lemma completion_answered_once_witness :
  ∃ a' rs, run_endpoints demo_bound demo_sends = Ok (a', rs) ∧
    NoDup (answered a' ++ held_in (link_endpoints a')).
Proof.
  destruct demo_bound_ok as [Ha Ho].
  assert (Hnd : NoDup (submitted demo_sends ++ ledger demo_bound))
    by (apply (bool_decide_eq_true_1 _); vm_compute; reflexivity).
  destruct (completion_answered_once 1000 demo_bound demo_sends demo_ep_env Ha Ho demo_sends_ok Hnd) as (a' & rs & Hr & Hn & _).
  exists a', rs. split; [exact Hr|exact Hn].
Defined.

(** A second link on the same interface: it is bound, and the two take turns. *)
Definition demo_other_link : bytes := replicate 16 5.
Definition demo_other_binding : LinkEndpointBinding :=
  mkBinding (Some {| epoch := 1; LinkTable.revision := 1 |}) demo_other_link 1 Responder.
Definition demo_other_frame (n : Z) : bytes :=
  header_pack (mkHeader (mkFlags Header1 false Broadcast Link Data) 0 None demo_other_link CtxNone) ++ [n].

Definition demo_turns : list (EndpointEnv * EndpointMessage) :=
  (demo_ep_env, BindLinkEndpoint demo_other_binding 6 8) ::
  (seq 0 6 ≫= λ n : nat,
    [(demo_ep_env, DispatchSend demo_binding 7 (mkRequest (demo_frame (Z.of_nat n)) demo_link) n);
     (demo_ep_env, SendLinkEndpoint demo_other_link Responder (mkRequest (demo_other_frame (Z.of_nat n)) demo_other_link))]).

Example demo_shared_queue :
  let a := after_endpoints (run_endpoints demo_bound demo_turns) in
  sent_frames (demo_iface 1 None) a = ([0; 1; 2; 3] ≫= λ n, [demo_frame n; demo_other_frame n]) ∧
  waiting 1 demo_key_ep a = demo_frame <$> [4; 5] ∧
  waiting 1 (demo_other_link, Responder) a = demo_other_frame <$> [4; 5].
Proof. vm_compute. done. Qed.

Lemma demo_turns_ok : Forall (message_ok ∘ snd) demo_turns.
Proof.
  constructor; [by intros q ?|]. apply Forall_bind, Forall_forall. intros n Hn. apply elem_of_seq in Hn.
  repeat constructor; intros q [= <-]; cbn -[demo_frame demo_other_frame]; unfold demo_frame, demo_other_frame;
    (apply Forall_app; split; [by apply (bool_decide_eq_true_1 _); vm_compute|]); repeat constructor; lia.
Qed.

Lemma endpoint_fifo_witness :
  ∃ a' rs (fs tr : labelled), run_endpoints demo_bound demo_turns = Ok (a', rs) ∧
    Forall2 (becomes 0) (omap (submission ∘ snd) demo_turns) fs ∧
    ∀ k, sublist (frames_of k tr ++ images (demo_iface 1 None) (waiting 1 k a')) (images (demo_iface 1 None) (frames_of k fs)).
Proof.
  destruct demo_bound_ok as [Ha Ho].
  assert (Hl : line_ok 1 (demo_iface 1 None) demo_bound).
  { split.
    - intros e He. vm_compute in He. injection He as <-. done.
    - intros i e He Hne.
      change ((<[1 := demo_iface 1 None]> (<[2 := demo_iface 2 None]> {[3 := demo_iface 3 (Some (replicate 64 3))]})
        : gmap Z Iface) !! i = Some e) in He.
      apply lookup_insert_Some in He as [[Hi _]|[_ He]]; [by destruct Hne|].
      apply lookup_insert_Some in He as [[_ <-]|[_ He]]; [done|].
      apply lookup_singleton_Some in He as [_ <-]. done. }
  destruct (endpoint_fifo 1000 1 (demo_iface 1 None) demo_bound demo_turns Ha Ho eq_refl Hl demo_turns_ok)
    as (a' & rs & fs & tr & Hr & Hc & _ & Hs).
  exists a', rs, fs, tr. split; [exact Hr|]. split; [exact Hc|]. intros k. specialize (Hs k).
  assert (Hw : waiting 1 k demo_bound = []).
  { unfold waiting. change (link_endpoints demo_bound) with ({[demo_key_ep := mkEndpoint demo_binding 7 None 5 [] false]} : gmap endpoint_key LinkEndpointEntry).
    destruct ({[demo_key_ep := mkEndpoint demo_binding 7 None 5 [] false]} !! k) as [x|] eqn:Hx; [|reflexivity].
    apply lookup_singleton_Some in Hx as [_ <-]. reflexivity. }
  rewrite Hw in Hs. exact Hs.
Defined.
